(** * Textile bill scanning: extraction, confidence tracking, multi-pass merge
      and image-quality aggregation

    A shallow embedding of the scanning core of the billing system
    ([ImageQualityModule], [ConfidenceModule], [OCRModule.mergeScanResults],
    [OCRModule.mergeField], [DataExtractionModule]) together with the part of
    the JavaScript runtime these functions rely on: strings, regular
    expressions with backtracking, binary64 numbers read from and printed to
    text, and own-property enumeration order of plain objects.

    Conventions.
    - A JavaScript string is a [string] over an alphabet of 256 code units:
      the character of code [n] is the code unit of that number, except the
      character of code 164, which is the rupee sign U+20B9, the one code
      unit above U+00FF that the program names in a pattern.  (U+00A4, whose
      place it takes, is a symbol like any other to every function here.)
    - The confidences of the table, of the merge and of the summary and the
      pixel statistics are exact rationals, with an explicit not-a-number
      where a computation can produce one.  The number that is read from
      text and printed back (the fallback total) is an IEEE 754 binary64
      value, and so is the confidence where the entry that
      [setFieldConfidence] stores for it is at stake ([StoredConfidence]). *)

From Stdlib Require Import Bool Arith ZArith QArith Qround Qabs Lia Lqa List Sorted.
From Stdlib Require Import Ascii String DecimalString.
From Stdlib Require Import SpecFloat.
From stdpp Require Import base option gmap.
Import ListNotations.

Local Open Scope string_scope.

(** ** Strings *)

Module JSString.

(** The number of a character; for the rupee sign, below, its place in the
    alphabet.  Only the ranges of the digits and of the letters and the
    white space are told by it. *)
Definition code (c : ascii) : nat := nat_of_ascii c.

(** The rupee sign U+20B9: no white space, no digit, no letter, without an
    upper or lower case form. *)
Definition rupee : ascii := "164"%char.

Definition in_range (lo hi c : ascii) : bool :=
  (code lo <=? code c)%nat && (code c <=? code hi)%nat.

Definition is_digit (c : ascii) : bool := in_range "0" "9" c.

(** WhiteSpace and LineTerminator code units below U+0100: TAB, LF, VT, FF,
    CR, SPACE and NO-BREAK SPACE. *)
Definition is_space (c : ascii) : bool :=
  let n := code c in
  ((9 <=? n) && (n <=? 13) || (n =? 32) || (n =? 160))%nat.

(** [String.prototype.toUpperCase] and [toLowerCase] on one code unit, as
    far as the result stays a single code unit below U+0100. *)
Definition upcase (c : ascii) : ascii :=
  let n := code c in
  if ((97 <=? n) && (n <=? 122)
      || (224 <=? n) && (n <=? 254) && negb (n =? 247))%nat
  then ascii_of_nat (n - 32) else c.

Definition downcase (c : ascii) : ascii :=
  let n := code c in
  if ((65 <=? n) && (n <=? 90)
      || (192 <=? n) && (n <=? 222) && negb (n =? 215))%nat
  then ascii_of_nat (n + 32) else c.

Fixpoint toLowerCase (s : string) : string :=
  match s with
  | "" => ""
  | String c r => String (downcase c) (toLowerCase r)
  end.

Fixpoint trimStart (s : string) : string :=
  match s with
  | String c r => if is_space c then trimStart r else s
  | "" => ""
  end.

Fixpoint trimEnd (s : string) : string :=
  match s with
  | "" => ""
  | String c r =>
      match trimEnd r with
      | "" => if is_space c then "" else String c ""
      | t => String c t
      end
  end.

Definition trim (s : string) : string := trimEnd (trimStart s).

(** The test [v && v.trim() !== ''] applied to a string [v]. *)
Definition nonblank (v : string) : bool :=
  negb (v =? "") && negb (trim v =? "").

(** [s.replace(/[...]/g, '')]: every character of the class is deleted. *)
Fixpoint remove_chars (p : ascii -> bool) (s : string) : string :=
  match s with
  | "" => ""
  | String c r => if p c then remove_chars p r else String c (remove_chars p r)
  end.

(** [s.split(sep)] for a separator that is one character of a class: the
    pieces between the separators, empty pieces included. *)
Fixpoint split_on (p : ascii -> bool) (s : string) : list string :=
  match s with
  | "" => [""]
  | String c r =>
      if p c then "" :: split_on p r
      else match split_on p r with
           | piece :: rest => String c piece :: rest
           | [] => [String c ""]
           end
  end.

Fixpoint repeat_char (c : ascii) (n : nat) : string :=
  match n with
  | O => ""
  | S k => String c (repeat_char c k)
  end.

(** [s.padStart(n, c)] with a one-character filler. *)
Definition padStart (n : nat) (c : ascii) (s : string) : string :=
  repeat_char c (n - String.length s) ++ s.

(** [s.includes(t)]. *)
Fixpoint includes (s t : string) : bool :=
  String.prefix t s ||
  match s with
  | "" => false
  | String _ r => includes r t
  end.

End JSString.

(** ** Regular expressions

    The backtracking matcher of the language definition, in continuation
    style: a matcher takes a state and a continuation and yields the final
    state of the first successful way to match, trying alternatives left to
    right and iterations greedily or lazily as the quantifier says.  Every
    pattern of the program has exactly one capturing group, outside any
    quantifier, so a state carries one capture. *)

Module RegExp.
Import JSString.

Definition charset := ascii -> bool.

Inductive regex : Type :=
| Empty : regex
| Class : charset -> regex
| Seq : regex -> regex -> regex
| Alt : regex -> regex -> regex
| Quant : nat -> option nat -> bool -> regex -> regex
| Capture : regex -> regex
| EndOfInput : regex.

(** [rest] is the input from the current position on; [cap] is the text of
    capturing group 1 when it has taken part in the match. *)
Record mstate : Type := MState { rest : string; cap : option string }.

Definition continuation := mstate -> option mstate.
Definition matcher := mstate -> continuation -> option mstate.

(** Membership of a character in a class; with the [i] flag, a character
    belongs when some member of the class has the same canonical form. *)
Definition class_test (ignoreCase : bool) (cs : charset) (ch : ascii) : bool :=
  if ignoreCase then cs ch || cs (upcase ch) || cs (downcase ch) else cs ch.

Definition consumed (x y : mstate) : string :=
  substring 0 (String.length (rest x) - String.length (rest y)) (rest x).

(** RepeatMatcher.  An iteration that matches the empty string is rejected
    once the minimum is reached, so [min] plus the length of the rest of
    the input bounds the number of iterations. *)
Fixpoint repeatMatcher (fuel : nat) (m : matcher) (min : nat) (max : option nat)
    (greedy : bool) (x : mstate) (c : continuation) : option mstate :=
  match fuel with
  | O => None
  | S fuel' =>
      match max with
      | Some O => c x
      | _ =>
          let d : continuation := fun y =>
            if (min =? 0)%nat && (String.length (rest y) =? String.length (rest x))%nat
            then None
            else repeatMatcher fuel' m (Nat.pred min) (option_map Nat.pred max) greedy y c in
          if negb (min =? 0)%nat then m x d
          else if greedy then
            match m x d with Some z => Some z | None => c x end
          else
            match c x with Some z => Some z | None => m x d end
      end
  end.

Fixpoint rmatch (ignoreCase : bool) (r : regex) : matcher :=
  match r with
  | Empty => fun x c => c x
  | Class cs => fun x c =>
      match rest x with
      | String ch s' =>
          if class_test ignoreCase cs ch then c (MState s' (cap x)) else None
      | "" => None
      end
  | Seq r1 r2 => fun x c =>
      rmatch ignoreCase r1 x (fun y => rmatch ignoreCase r2 y c)
  | Alt r1 r2 => fun x c =>
      match rmatch ignoreCase r1 x c with
      | Some z => Some z
      | None => rmatch ignoreCase r2 x c
      end
  | Quant min max greedy r' => fun x c =>
      repeatMatcher (min + String.length (rest x) + 1)
                    (rmatch ignoreCase r') min max greedy x c
  | Capture r' => fun x c =>
      rmatch ignoreCase r' x (fun y => c (MState (rest y) (Some (consumed x y))))
  | EndOfInput => fun x c =>
      match rest x with
      | "" => c x
      | _ => None
      end
  end.

(** A pattern with its [i] flag. *)
Record pattern : Type := Pattern { body : regex; ignoreCase : bool }.

(** One attempt at a fixed position: the matched text and the capture. *)
Definition matchAt (p : pattern) (s : string) : option (string * option string) :=
  match rmatch (ignoreCase p) (body p) (MState s None) Some with
  | Some y => Some (consumed (MState s None) y, cap y)
  | None => None
  end.

(** [s.match(p)] for a pattern without the [g] flag: the leftmost position
    where the pattern matches, as the pair of [match[0]] and [match[1]];
    [None] is [null]. *)
Fixpoint exec (p : pattern) (s : string) : option (string * option string) :=
  match matchAt p s with
  | Some res => Some res
  | None =>
      match s with
      | "" => None
      | String _ s' => exec p s'
      end
  end.

(** [s.match(p)] for a pattern with the [g] flag: the texts of all
    successive matches.  [skip] counts the characters of the previous match
    still to be passed over; after an empty match the search resumes one
    character further.  [None] is [null] (no match at all). *)
Fixpoint matchAllFrom (p : pattern) (skip : nat) (s : string) : list string :=
  match skip, s with
  | S k, String _ s' => matchAllFrom p k s'
  | S _, "" => []
  | O, "" =>
      match matchAt p "" with
      | Some (m0, _) => [m0]
      | None => []
      end
  | O, String _ s' =>
      match matchAt p s with
      | Some (m0, _) => m0 :: matchAllFrom p (Nat.pred (String.length m0)) s'
      | None => matchAllFrom p 0 s'
      end
  end.

Definition matchAll (p : pattern) (s : string) : option (list string) :=
  match matchAllFrom p 0 s with
  | [] => None
  | ms => Some ms
  end.

(** *** Pattern syntax *)

Definition chr (c : ascii) : charset := Ascii.eqb c.
Definition range (lo hi : ascii) : charset := in_range lo hi.
Definition union (a b : charset) : charset := fun c => a c || b c.
Definition digit : charset := is_digit.            (* \d *)
Definition space : charset := is_space.            (* \s *)

Fixpoint lit (s : string) : regex :=
  match s with
  | "" => Empty
  | String c r => Seq (Class (chr c)) (lit r)
  end.

Fixpoint cat (rs : list regex) : regex :=
  match rs with
  | [] => Empty
  | [r] => r
  | r :: rs' => Seq r (cat rs')
  end.

Fixpoint alt (r : regex) (rs : list regex) : regex :=
  match rs with
  | [] => r
  | r' :: rs' => Alt r (alt r' rs')
  end.

Definition star (cs : charset) : regex := Quant 0 None true (Class cs).
Definition plus (cs : charset) : regex := Quant 1 None true (Class cs).
Definition lazy_plus (cs : charset) : regex := Quant 1 None false (Class cs).
Definition opt (cs : charset) : regex := Quant 0 (Some 1) true (Class cs).
Definition times (lo hi : nat) (cs : charset) : regex :=
  Quant lo (Some hi) true (Class cs).
Definition at_least (lo : nat) (cs : charset) : regex :=
  Quant lo None true (Class cs).

End RegExp.

(** ** Field extraction: the patterns

    Each pattern is preceded by its source text; there a blank separates a
    star from a closing parenthesis that follows it. *)

Module Patterns.
Import JSString RegExp.

Definition sep : charset := union (chr "/") (chr "-").                 (* [\/\-] *)
Definition billChar : charset :=                                        (* [A-Z0-9\-] *)
  union (range "A" "Z") (union (range "0" "9") (chr "-")).
Definition nameChar : charset :=                                        (* [A-Za-z\s&] *)
  union (range "A" "Z") (union (range "a" "z") (union space (chr "&"))).
Definition spaceHashColon : charset :=                                  (* [\s#:] *)
  union space (union (chr "#") (chr ":")).
Definition dotSpaceHashColon : charset :=                               (* [.\s#:] *)
  union (chr ".") spaceHashColon.
Definition spaceColon : charset := union space (chr ":").               (* [\s:] *)
Definition digitComma : charset := union digit (chr ",").               (* [\d,] *)
(** [[₹$]] *)
Definition currency : charset := union (chr rupee) (chr "$").

(** [[₹$]?[\s]*([\d,]+\.?\d* )] *)
Definition amount : regex :=
  cat [opt currency; star space;
       Capture (cat [plus digitComma; opt (chr "."); star digit])].

Definition billNoPatterns : list pattern :=
  [ (* /(?:Invoice|Bill|INV)[\s#:]*No[.\s#:]*([A-Z0-9\-]+)/i *)
    Pattern (cat [alt (lit "Invoice") [lit "Bill"; lit "INV"];
                  star spaceHashColon; lit "No"; star dotSpaceHashColon;
                  Capture (plus billChar)]) true;
    (* /(?:Invoice|Bill)[\s#:]*([A-Z0-9\-]{4,})/i *)
    Pattern (cat [alt (lit "Invoice") [lit "Bill"];
                  star spaceHashColon; Capture (at_least 4 billChar)]) true;
    (* /No[.\s#:]*([A-Z0-9\-]+)/i *)
    Pattern (cat [lit "No"; star dotSpaceHashColon; Capture (plus billChar)]) true ].

(** [\d{1,2}[\/\-]\d{1,2}[\/\-]\d{2,4}] *)
Definition dayFirst : regex :=
  cat [times 1 2 digit; Class sep; times 1 2 digit; Class sep; times 2 4 digit].

Definition datePatterns : list pattern :=
  [ (* /(?:Date|Dated?)[\s:]*(\d{1,2}[\/\-]\d{1,2}[\/\-]\d{2,4})/i *)
    Pattern (cat [alt (lit "Date") [cat [lit "Date"; opt (chr "d")]];
                  star spaceColon; Capture dayFirst]) true;
    (* /(\d{1,2}[\/\-]\d{1,2}[\/\-]\d{2,4})/ *)
    Pattern (Capture dayFirst) false;
    (* /(\d{4}[\/\-]\d{1,2}[\/\-]\d{1,2})/ *)
    Pattern (Capture (cat [times 4 4 digit; Class sep; times 1 2 digit;
                           Class sep; times 1 2 digit])) false ].

(** [(?:\n|GST|Date|Invoice|Total|$)] *)
Definition customerStop : regex :=
  alt (Class (chr "010")) [lit "GST"; lit "Date"; lit "Invoice"; lit "Total"; EndOfInput].

(** [([A-Z][A-Za-z\s&]+?)] *)
Definition customerName : regex :=
  Capture (cat [Class (range "A" "Z"); lazy_plus nameChar]).

Definition customerPatterns : list pattern :=
  [ (* /(?:To|Customer|Bill\s*To)[\s:]+([A-Z][A-Za-z\s&]+?)(?:\n|GST|Date|Invoice|Total|$)/i *)
    Pattern (cat [alt (lit "To") [lit "Customer"; cat [lit "Bill"; star space; lit "To"]];
                  plus spaceColon; customerName; customerStop]) true;
    (* /(?:Customer\s*Name)[\s:]+([A-Z][A-Za-z\s&]+?)(?:\n|GST|Date|Invoice|Total|$)/i *)
    Pattern (cat [lit "Customer"; star space; lit "Name";
                  plus spaceColon; customerName; customerStop]) true ].

Definition gstPatterns : list pattern :=
  [ (* /(?:GST|Tax)[\s:]*[₹$]?[\s]*([\d,]+\.?\d* )/i *)
    Pattern (cat [alt (lit "GST") [lit "Tax"]; star spaceColon; amount]) true;
    (* /(?:GST\s*Amount)[\s:]*[₹$]?[\s]*([\d,]+\.?\d* )/i *)
    Pattern (cat [lit "GST"; star space; lit "Amount"; star spaceColon; amount]) true ].

Definition totalPatterns : list pattern :=
  [ (* /(?:Total|Grand\s*Total|Amount\s*Payable)[\s:]*[₹$]?[\s]*([\d,]+\.?\d* )/i *)
    Pattern (cat [alt (lit "Total")
                      [cat [lit "Grand"; star space; lit "Total"];
                       cat [lit "Amount"; star space; lit "Payable"]];
                  star spaceColon; amount]) true;
    (* /(?:Total\s*Amount)[\s:]*[₹$]?[\s]*([\d,]+\.?\d* )/i *)
    Pattern (cat [lit "Total"; star space; lit "Amount"; star spaceColon; amount]) true ].

(** [/[₹$]?[\s]*([\d,]+\.?\d* )/g] *)
Definition numberPattern : pattern := Pattern amount false.

End Patterns.

(** ** Numbers read from and printed to text

    [parseFloat], [isNaN], [Math.max] and [Number.prototype.toString] on
    binary64 values.  A value is a [spec_float] with 53 bits of precision;
    reading rounds the exact decimal value to nearest, ties to even, and
    printing produces the shortest decimal that reads back as the same
    value. *)

Module Number.
Import JSString.
Local Open Scope Z_scope.

Definition prec : Z := 53.
Definition emax : Z := 1024.

Definition number := spec_float.

(** The binary64 value nearest to [m * 10 ^ e10], for [m >= 0]. *)
Definition of_decimal (neg : bool) (m e10 : Z) : number :=
  match m with
  | Z0 => S754_zero neg
  | Zpos p =>
      if 0 <=? e10
      then binary_round prec emax neg (Z.to_pos (m * 10 ^ e10)) 0
      else
        let '(q, e, l) := SFdiv_core_binary prec emax m 0 (10 ^ (- e10)) 0 in
        binary_round_aux prec emax neg q e l
  | Zneg _ => S754_nan
  end.

(** *** parseFloat *)

Fixpoint span_digits (s : string) : string * string :=
  match s with
  | String c r =>
      if is_digit c then let '(d, t) := span_digits r in (String c d, t)
      else ("", s)
  | "" => ("", "")
  end.

Definition digit_value (c : ascii) : Z := Z.of_nat (code c) - 48.

Fixpoint digits_value (acc : Z) (s : string) : Z :=
  match s with
  | "" => acc
  | String c r => digits_value (10 * acc + digit_value c) r
  end.

Definition split_sign (s : string) : bool * string :=
  match s with
  | String "+" r => (false, r)
  | String "-" r => (true, r)
  | _ => (false, s)
  end.

(** The exponent part [e[+-]digits] at the head of [s], 0 when there is none. *)
Definition exponent_part (s : string) : Z :=
  match s with
  | String c r =>
      if (Ascii.eqb c "e" || Ascii.eqb c "E")%bool then
        let '(neg, r') := split_sign r in
        let '(ds, _) := span_digits r' in
        if (ds =? "")%string then 0
        else if neg then - digits_value 0 ds else digits_value 0 ds
      else 0
  | "" => 0
  end.

(** The longest prefix of the trimmed argument that is a decimal literal,
    as a number; [NaN] when there is none. *)
Definition parseFloat (s : string) : number :=
  let '(neg, t) := split_sign (trimStart s) in
  if String.prefix "Infinity" t then S754_infinity neg
  else
    let '(ip, r1) := span_digits t in
    let '(fp, r2) :=
      match r1 with
      | String "." r =>
          let '(fp, r2) := span_digits r in
          if ((ip =? "") && (fp =? ""))%string then ("", r1) else (fp, r2)
      | _ => ("", r1)
      end in
    if ((ip =? "") && (fp =? ""))%string then S754_nan
    else of_decimal neg (digits_value 0 (ip ++ fp))
                    (exponent_part r2 - Z.of_nat (String.length fp)).

Definition isNaN (x : number) : bool :=
  match x with S754_nan => true | _ => false end.

(** *** Math.max *)

Definition max2 (highest x : number) : number :=
  match highest, x with
  | S754_nan, _ => S754_nan
  | _, S754_nan => S754_nan
  | S754_zero true, S754_zero false => x
  | _, _ => if SFltb highest x then x else highest
  end.

Definition max (xs : list number) : number :=
  fold_left max2 xs (S754_infinity true).

(** *** Number.prototype.toString *)

(** A finite positive value [m * 2 ^ e] as a fraction. *)
Definition fraction (m : positive) (e : Z) : Z * Z :=
  if 0 <=? e then (Zpos m * 2 ^ e, 1) else (Zpos m, 2 ^ (- e)).

(** The least [n] with [num / den < 10 ^ n], the number of digits before
    the decimal point.  Going up, [acc] is [den * 10 ^ n]; going down,
    [acc] is [num * 10 ^ (- n)]. *)
Fixpoint magnitude_up (fuel : nat) (num acc n : Z) : Z :=
  match fuel with
  | O => n
  | S fuel' =>
      if num <? acc then n else magnitude_up fuel' num (10 * acc) (n + 1)
  end.

Fixpoint magnitude_down (fuel : nat) (acc den n : Z) : Z :=
  match fuel with
  | O => n
  | S fuel' =>
      if 10 * acc <? den then magnitude_down fuel' (10 * acc) den (n - 1) else n
  end.

Definition magnitude (num den : Z) : Z :=
  if num <? den then magnitude_down 400 num den 0
  else magnitude_up 400 num den 0.

(** The [k]-digit decimals [s * 10 ^ (n - k)] next to [num / den] that read
    back as [x]; of two, the nearer one, the even one on a tie.  The result
    is the pair of [s] and its [n]. *)
Definition shortest_at (x : number) (num den n k : Z) : option (Z * Z) :=
  let j := n - k in
  let '(a, b) := if 0 <=? j then (num, den * 10 ^ j) else (num * 10 ^ (- j), den) in
  let lo := a / b in
  let hi := lo + 1 in
  let ok_lo := SFeqb (of_decimal false lo j) x in
  let ok_hi := SFeqb (of_decimal false hi j) x in
  let up := if hi =? 10 ^ k then (10 ^ (k - 1), n + 1) else (hi, n) in
  match ok_lo, ok_hi with
  | true, false => Some (lo, n)
  | false, true => Some up
  | false, false => None
  | true, true =>
      match 2 * a ?= (2 * lo + 1) * b with
      | Lt => Some (lo, n)
      | Gt => Some up
      | Eq => if Z.even lo then Some (lo, n) else Some up
      end
  end.

Fixpoint shortest (fuel : nat) (x : number) (num den n k : Z) : Z * Z * Z :=
  match fuel with
  | O => (0, n, k)
  | S fuel' =>
      match shortest_at x num den n k with
      | Some (s, n') => (s, n', k)
      | None => shortest fuel' x num den n (k + 1)
      end
  end.

Definition decimal (z : Z) : string := NilZero.string_of_uint (N.to_uint (Z.to_N z)).

Definition zeros (n : Z) : string := repeat_char "0" (Z.to_nat n).

(** The text for the digits [ds] (there are [k] of them) of a value
    [0.ds * 10 ^ n]. *)
Definition layout (ds : string) (k n : Z) : string :=
  if (k <=? n) && (n <=? 21) then ds ++ zeros (n - k)
  else if (0 <? n) && (n <=? 21) then
    substring 0 (Z.to_nat n) ds ++ "." ++ substring (Z.to_nat n) (Z.to_nat (k - n)) ds
  else if (-6 <? n) && (n <=? 0) then "0." ++ zeros (- n) ++ ds
  else
    let e := n - 1 in
    let es := (if e <? 0 then "-" else "+") ++ decimal (Z.abs e) in
    if k =? 1 then ds ++ "e" ++ es
    else substring 0 1 ds ++ "." ++ substring 1 (Z.to_nat (k - 1)) ds ++ "e" ++ es.

Definition toString (x : number) : string :=
  match x with
  | S754_nan => "NaN"
  | S754_zero _ => "0"
  | S754_infinity s => if s then "-Infinity" else "Infinity"
  | S754_finite s m e =>
      let '(num, den) := fraction m e in
      let n := magnitude num den in
      let '(d, n', k) := shortest 17 (S754_finite false m e) num den n 1 in
      (if s then "-" else "") ++ layout (decimal d) k n'
  end.

End Number.

(** ** The five fields of a bill *)

Module Field.
Inductive t : Type := billNo | date | customer | gst | total.

(** The keys of a five-field object, in the order in which its literal
    creates them ([Object.keys]). *)
Definition all : list t := [billNo; date; customer; gst; total].

#[global] Instance eq_dec : EqDecision t.
Proof. solve_decision. Defined.

Definition to_nat (f : t) : nat :=
  match f with billNo => 0 | date => 1 | customer => 2 | gst => 3 | total => 4 end.

Definition of_nat (n : nat) : t :=
  match n with 0 => billNo | 1 => date | 2 => customer | 3 => gst | _ => total end.

#[global] Instance countable : Countable t.
Proof. apply (inj_countable' to_nat of_nat). intros []; reflexivity. Defined.
End Field.

(** ** MODULE: OCR CONFIDENCE TRACKING

    [ConfidenceModule.fieldConfidences] is the one piece of shared mutable
    state of a scan; every function that touches it takes the current table
    and returns the new one.  Its keys are the five field names, the only
    names the program ever passes. *)

Module ConfidenceModule.

Inductive Status : Type := high | medium | low | unknown.

(** An entry of the table.  The entry returned for a missing field has no
    [value] property. *)
Record FieldConfidence : Type := mkFieldConfidence {
  confidence : Q;
  value : option string;
  needsReview : bool;
  status : Status
}.

Abbreviation fieldConfidences := (gmap Field.t FieldConfidence).

(** [Math.round]: the nearest integer, halves upwards. *)
Definition round (x : Q) : Z := Qfloor (x + (1 # 2)).

Definition lt (a b : Q) : bool := negb (Qle_bool b a).
Definition ge (a b : Q) : bool := Qle_bool b a.

Definition setFieldConfidence (fieldName : Field.t) (confidence : Q) (value : string)
    (this : fieldConfidences) : fieldConfidences :=
  <[ fieldName :=
       {| confidence := inject_Z (round (confidence * 100)) / 100;
          value := Some value;
          needsReview := lt confidence (7 # 10);
          status := if ge confidence (8 # 10) then high
                    else if ge confidence (6 # 10) then medium else low |} ]> this.

Definition getFieldConfidence (fieldName : Field.t) (this : fieldConfidences)
    : FieldConfidence :=
  default {| confidence := 0; value := None; needsReview := true; status := unknown |}
          (this !! fieldName).

Definition reset (this : fieldConfidences) : fieldConfidences := ∅.

End ConfidenceModule.

(** ** Binary64 arithmetic

    The operations of the engine on numbers, for the computations whose
    result depends on rounding. *)

Module Binary64.
Import Number.
Local Open Scope Z_scope.

(** A number literal with the decimal digits [m] and the exponent [e10]:
    [0.7] is [literal 7 (-1)]. *)
Definition literal (m e10 : Z) : number := of_decimal false m e10.

Definition zero : number := S754_zero false.
Definition one : number := literal 1 0.
Definition hundred : number := literal 100 0.

Definition mul : number -> number -> number := SFmul prec emax.
Definition div : number -> number -> number := SFdiv prec emax.

(** [a < b], [a <= b] and [a >= b]: false when an operand is [NaN]. *)
Definition lt (a b : number) : bool := SFltb a b.
Definition le (a b : number) : bool := SFleb a b.
Definition ge (a b : number) : bool := SFleb b a.

(** An integer as a number. *)
Definition of_Z (z : Z) : number := binary_normalize prec emax z 0 false.

(** [Math.round]: the integer nearest to [x], the greater one of two equally
    near; [x] itself when it is an integer, an infinity or [NaN]; a zero of
    the sign of [x] when the integer is zero. *)
Definition round (x : number) : number :=
  match x with
  | S754_finite s m e =>
      if 0 <=? e then x
      else
        let n := if s then Z.neg m else Z.pos m in
        match (2 * n + 2 ^ (- e)) / 2 ^ (1 - e) with
        | Z0 => S754_zero s
        | q => of_Z q
        end
  | _ => x
  end.

(** The values of the type that are numbers of the engine: the mantissa of a
    finite one has its canonical length. *)
Definition is_number (x : number) : Prop := valid_binary prec emax x = true.

End Binary64.

(** ** [ConfidenceModule.setFieldConfidence] on binary64 numbers

    The table of [ConfidenceModule] above keeps its confidences as
    rationals.  What the entry stored for a given number holds is a matter
    of the arithmetic of the engine: here is the same function on binary64
    numbers. *)

Module StoredConfidence.
Import Number Binary64.

Record FieldConfidence : Type := mkFieldConfidence {
  confidence : number;
  value : option string;
  needsReview : bool;
  status : ConfidenceModule.Status
}.

Abbreviation fieldConfidences := (gmap Field.t FieldConfidence).

Definition setFieldConfidence (fieldName : Field.t) (confidence : number) (value : string)
    (this : fieldConfidences) : fieldConfidences :=
  <[ fieldName :=
       {| confidence := div (round (mul confidence hundred)) hundred;
          value := Some value;
          needsReview := lt confidence (literal 7 (-1));
          status := if ge confidence (literal 8 (-1)) then ConfidenceModule.high
                    else if ge confidence (literal 6 (-1)) then ConfidenceModule.medium
                    else ConfidenceModule.low |} ]> this.

Definition getFieldConfidence (fieldName : Field.t) (this : fieldConfidences)
    : FieldConfidence :=
  default {| confidence := zero; value := None; needsReview := true;
             status := ConfidenceModule.unknown |}
          (this !! fieldName).

End StoredConfidence.

(** ** MODULE: DATA EXTRACTION LOGIC *)

Module DataExtractionModule.
Import JSString RegExp Patterns.

Record BillData : Type := mkBillData {
  billNo : string;
  date : string;
  customer : string;
  gst : string;
  total : string
}.

(** [billData[fieldName]] *)
Definition get (f : Field.t) (d : BillData) : string :=
  match f with
  | Field.billNo => billNo d
  | Field.date => date d
  | Field.customer => customer d
  | Field.gst => gst d
  | Field.total => total d
  end.

(** The guard [match && match[1]]: the capture, when the pattern matched
    and group 1 is a non-empty string. *)
Definition captured (p : pattern) (text : string) : option string :=
  match exec p text with
  | Some (_, Some c) => if c =? "" then None else Some c
  | _ => None
  end.

(** [for (const pattern of patterns) { ... if (match && match[1]) { ...; break; } }] *)
Fixpoint firstCapture (patterns : list pattern) (text : string) : option string :=
  match patterns with
  | [] => None
  | p :: rest =>
      match captured p text with
      | Some c => Some c
      | None => firstCapture rest text
      end
  end.

Definition extractBillNo (text : string) : string :=
  match firstCapture billNoPatterns text with
  | Some c => trim c
  | None => ""
  end.

(** The body of [if (parts.length === 3)]. *)
Definition formatDate (p0 p1 p2 : string) : string :=
  if (String.length p0 =? 4)%nat then
    let year := p0 in
    let month := padStart 2 "0" p1 in
    let day := padStart 2 "0" p2 in
    year ++ "-" ++ month ++ "-" ++ day
  else
    let day := padStart 2 "0" p0 in
    let month := padStart 2 "0" p1 in
    let year := if (String.length p2 =? 2)%nat then "20" ++ p2 else p2 in
    year ++ "-" ++ month ++ "-" ++ day.

(** The date loop.  A pattern whose token does not split into three parts
    leaves [data.date] alone and the loop goes on; the [catch] branch is
    unreachable, no operation of the [try] block throws. *)
Fixpoint extractDate (patterns : list pattern) (text : string) : string :=
  match patterns with
  | [] => ""
  | p :: rest =>
      match captured p text with
      | Some c =>
          let dateStr := trim c in
          match split_on sep dateStr with
          | [p0; p1; p2] => formatDate p0 p1 p2
          | _ => extractDate rest text
          end
      | None => extractDate rest text
      end
  end.

Definition firstLine (s : string) : string :=
  match split_on (Ascii.eqb "010") s with
  | l :: _ => l
  | [] => ""
  end.

Definition extractCustomer (text : string) : string :=
  match firstCapture customerPatterns text with
  | Some c => substring 0 100 (firstLine (trim c))
  | None => ""
  end.

Definition removeCommas : string -> string := remove_chars (Ascii.eqb ",").

(** [n.replace(/[₹$,]/g, '')] *)
Definition removeCurrencyAndCommas : string -> string :=
  remove_chars (fun c => Ascii.eqb c rupee || Ascii.eqb c "$" || Ascii.eqb c ",").

Definition extractGst (text : string) : string :=
  match firstCapture gstPatterns text with
  | Some c => removeCommas c
  | None => ""
  end.

Definition labelledTotal (text : string) : string :=
  match firstCapture totalPatterns text with
  | Some c => removeCommas c
  | None => ""
  end.

(** [numbers.map(n => parseFloat(n.replace(/[₹$,]/g, ''))).filter(n => !isNaN(n))] *)
Definition numericValues (numbers : list string) : list Number.number :=
  List.filter (fun n => negb (Number.isNaN n))
         (map (fun n => Number.parseFloat (removeCurrencyAndCommas n)) numbers).

(** The largest number of the text, for a text without a labelled total. *)
Definition largestNumber (text : string) : string :=
  match matchAll numberPattern text with
  | Some numbers =>
      match numericValues numbers with
      | [] => ""
      | values => Number.toString (Number.max values)
      end
  | None => ""
  end.

Definition extractTotal (text : string) : string :=
  let t := labelledTotal text in
  if t =? "" then largestNumber text else t.

Definition extractBillData (text : string) : BillData :=
  {| billNo := extractBillNo text;
     date := extractDate datePatterns text;
     customer := extractCustomer text;
     gst := extractGst text;
     total := extractTotal text |}.

(** *** [extractBillDataWithConfidence] *)

Record OCRWord : Type := mkWord { wordText : string; wordConfidence : Q }.

(** The second argument: the recogniser's words and, when the caller
    passes it, its overall confidence (0..100). *)
Record OCRData : Type := mkOCRData { words : list OCRWord; confidence : option Q }.

Definition wordMatches (fieldValue : string) (word : OCRWord) : bool :=
  let wordText := wordText word in
  includes (toLowerCase fieldValue) (toLowerCase wordText)
  || includes (toLowerCase wordText) (toLowerCase fieldValue).

Definition sumConfidence (ws : list OCRWord) : Q :=
  fold_left (fun sum word => (sum + wordConfidence word)%Q) ws 0%Q.

(** The helper [getFieldConfidence] of [extractBillDataWithConfidence]. *)
Definition getFieldConfidence (ocrData : OCRData) (fieldValue : string) : Q :=
  if negb (nonblank fieldValue) then 0%Q
  else
    let matchingWords := List.filter (wordMatches fieldValue) (words ocrData) in
    match matchingWords with
    | [] =>
        match confidence ocrData with
        | Some c => if Qeq_bool c 0 then (1 # 2)%Q else (c / 100)%Q
        | None => (1 # 2)%Q
        end
    | _ =>
        let avgConfidence :=
          (sumConfidence matchingWords
           / inject_Z (Z.of_nat (List.length matchingWords)))%Q in
        (avgConfidence / 100)%Q
    end.

Record Extracted : Type := mkExtracted {
  billData : BillData;
  fieldConfidences : Field.t -> Q
}.

(** [Object.keys(obj).forEach(field => ConfidenceModule.setFieldConfidence(...))] *)
Definition storeConfidences (conf : Field.t -> Q) (data : BillData)
    (st : ConfidenceModule.fieldConfidences) : ConfidenceModule.fieldConfidences :=
  fold_left (fun st field =>
               ConfidenceModule.setFieldConfidence field (conf field) (get field data) st)
            Field.all st.

Definition extractBillDataWithConfidence (text : string) (ocrData : OCRData)
    (st : ConfidenceModule.fieldConfidences)
    : Extracted * ConfidenceModule.fieldConfidences :=
  let billData := extractBillData text in
  let fieldConfidences := fun field => getFieldConfidence ocrData (get field billData) in
  ({| billData := billData; fieldConfidences := fieldConfidences |},
   storeConfidences fieldConfidences billData st).

End DataExtractionModule.

(** ** Plain objects used as tables

    [frequency = {}] in [mergeField] is an ordinary object whose keys are
    field values.  Three facts about such an object shape the result:
    reading a missing key falls through to [Object.prototype]; assigning to
    [__proto__] with a primitive creates no property; and [Object.keys] lists
    array-index keys first, in ascending numeric order, then the other keys in
    the order of their creation. *)

Module JSObject.
Import JSString.

(** What [frequency[v] = (frequency[v] || 0) + 1] can store: a count, or
    the text that [+ 1] makes of an inherited function or object (and, from
    then on, of that text).  Such a text is not numeric. *)
Inductive slot : Type := Count (n : nat) | Text.

(** Own properties, in creation order. *)
Definition object : Type := list (string * slot).

(** The properties every plain object inherits. *)
Definition prototypeKeys : list string :=
  [ "constructor"; "__defineGetter__"; "__defineSetter__"; "hasOwnProperty";
    "__lookupGetter__"; "__lookupSetter__"; "isPrototypeOf";
    "propertyIsEnumerable"; "toString"; "valueOf"; "__proto__";
    "toLocaleString" ].

Definition inherited (key : string) : bool :=
  existsb (String.eqb key) prototypeKeys.

Fixpoint getOwn (key : string) (o : object) : option slot :=
  match o with
  | [] => None
  | (k, v) :: o' => if String.eqb k key then Some v else getOwn key o'
  end.

(** [(o[key] || 0) + 1] *)
Definition incremented (key : string) (o : object) : slot :=
  match getOwn key o with
  | Some (Count n) => Count (n + 1)
  | Some Text => Text
  | None => if inherited key then Text else Count 1
  end.

Fixpoint setOwn (key : string) (v : slot) (o : object) : object :=
  match o with
  | [] => [(key, v)]
  | (k, v') :: o' =>
      if String.eqb k key then (k, v) :: o' else (k, v') :: setOwn key v o'
  end.

(** [o[key] = v] for a primitive [v]. *)
Definition assign (key : string) (v : slot) (o : object) : object :=
  if String.eqb key "__proto__" then o else setOwn key v o.

(** The canonical numeric strings of the integers up to [2^32 - 2]. *)
Definition arrayIndex (key : string) : option N :=
  match key with
  | "" => None
  | String c r =>
      if forallb is_digit (list_ascii_of_string key)
         && ((key =? "0") || negb (Ascii.eqb c "0"))
      then
        let n := Z.to_N (Number.digits_value 0 key) in
        if (n <=? 4294967294)%N then Some n else None
      else None
  end.

Fixpoint insertIndex (n : N) (key : string) (sorted : list (N * string))
    : list (N * string) :=
  match sorted with
  | [] => [(n, key)]
  | (m, k) :: rest =>
      if (n <? m)%N then (n, key) :: sorted else (m, k) :: insertIndex n key rest
  end.

(** The array-index keys among [ks], ascending. *)
Fixpoint indexKeys (ks : list string) : list (N * string) :=
  match ks with
  | [] => []
  | k :: ks' =>
      match arrayIndex k with
      | Some n => insertIndex n k (indexKeys ks')
      | None => indexKeys ks'
      end
  end.

Definition isIndex (key : string) : bool :=
  match arrayIndex key with Some _ => true | None => false end.

(** [Object.keys(o)] *)
Definition keys (o : object) : list string :=
  let ks := map fst o in
  map snd (indexKeys ks) ++ List.filter (fun k => negb (isIndex k)) ks.

End JSObject.

(** ** MODULE: OCR PROCESSING, the merge of several passes *)

Module OCRModule.
Import JSString DataExtractionModule.

(** One element of [results]: what a pass pushed. *)
Record ScanResult : Type := mkScanResult {
  text : string;
  confidence : Q;
  words : list OCRWord
}.

(** One element of [allExtractions]. *)
Record PassExtraction : Type := mkPassExtraction {
  extraction : Extracted;
  passIndex : nat;
  passConfidence : Q
}.

(** [extractions.map(e => e.billData[fieldName]).filter(v => v && v.trim() !== '')] *)
Definition fieldValues (fieldName : Field.t) (extractions : list PassExtraction)
    : list string :=
  List.filter nonblank (map (fun e => get fieldName (billData (extraction e))) extractions).

(** [values.forEach(v => { frequency[v] = (frequency[v] || 0) + 1; })] *)
Definition countValues (values : list string) : JSObject.object :=
  fold_left (fun frequency v => JSObject.assign v (JSObject.incremented v frequency) frequency)
            values [].

(** [frequency[value] > maxFreq] *)
Definition exceeds (frequency : JSObject.object) (value : string) (maxFreq : nat) : bool :=
  match JSObject.getOwn value frequency with
  | Some (JSObject.Count n) => (maxFreq <? n)%nat
  | _ => false
  end.

(** The scan over [Object.keys(frequency)]; the state is the pair of
    [maxFreq] and [mostFrequent]. *)
Definition pickMostFrequent (frequency : JSObject.object) (first : string) : nat * string :=
  fold_left (fun '(maxFreq, mostFrequent) value =>
               if exceeds frequency value maxFreq
               then (match JSObject.getOwn value frequency with
                     | Some (JSObject.Count n) => n
                     | _ => maxFreq
                     end, value)
               else (maxFreq, mostFrequent))
            (JSObject.keys frequency) (0, first).

Definition mergeValues (values : list string) : string :=
  match values with
  | [] => ""
  | first :: _ => snd (pickMostFrequent (countValues values) first)
  end.

Definition mergeField (fieldName : Field.t) (extractions : list PassExtraction) : string :=
  mergeValues (fieldValues fieldName extractions).

(** [results.map((result, index) => ...)], threading the confidence table
    through the calls of [extractBillDataWithConfidence]. *)
Fixpoint extractAll (index : nat) (results : list ScanResult)
    (st : ConfidenceModule.fieldConfidences)
    : list PassExtraction * ConfidenceModule.fieldConfidences :=
  match results with
  | [] => ([], st)
  | result :: rest =>
      let '(e, st1) :=
        extractBillDataWithConfidence (text result)
          {| DataExtractionModule.words := words result;
             DataExtractionModule.confidence := None |} st in
      let '(es, st2) := extractAll (S index) rest st1 in
      ({| extraction := e; passIndex := index; passConfidence := confidence result |} :: es,
       st2)
  end.

Record Merged : Type := mkMerged {
  mergedData : BillData;
  mergedConfidences : Field.t -> Q;
  overallConfidence : Q
}.

(** The agreement of the passes on a field: the share of the non-blank
    values that equal the merged one. *)
Definition consistency (field : Field.t) (allExtractions : list PassExtraction)
    (merged : BillData) : Q :=
  let values := fieldValues field allExtractions in
  let consistentCount :=
    List.length (List.filter (fun v => String.eqb v (get field merged)) values) in
  if (0 <? List.length values)%nat
  then (inject_Z (Z.of_nat consistentCount) / inject_Z (Z.of_nat (List.length values)))%Q
  else 0%Q.

Definition mergeScanResults (results : list ScanResult)
    (st : ConfidenceModule.fieldConfidences)
    : Merged * ConfidenceModule.fieldConfidences :=
  let '(allExtractions, st1) := extractAll 0 results st in
  let merged :=
    {| billNo := mergeField Field.billNo allExtractions;
       date := mergeField Field.date allExtractions;
       customer := mergeField Field.customer allExtractions;
       gst := mergeField Field.gst allExtractions;
       total := mergeField Field.total allExtractions |} in
  let fieldConfidences := fun field => consistency field allExtractions merged in
  let overallConfidence :=
    (fold_left (fun sum field => sum + fieldConfidences field) Field.all 0
     / inject_Z (Z.of_nat (List.length Field.all)))%Q in
  ({| mergedData := merged;
      mergedConfidences := fieldConfidences;
      overallConfidence := overallConfidence |},
   storeConfidences fieldConfidences merged st1).

End OCRModule.

(** ** Numbers of the pixel statistics

    A finite value is an exact rational; [0 / 0] is not a number and a
    non-zero value over zero is an infinity, as in the language.  A
    comparison with [NaN] is false. *)

Module JSNum.
Local Open Scope Q_scope.

Inductive num : Type := NaN | Fin (q : Q) | Inf (negative : bool).

Definition of_Z (z : Z) : num := Fin (inject_Z z).

Definition negative (q : Q) : bool := negb (Qle_bool 0 q).
Definition is_zero (q : Q) : bool := Qeq_bool q 0.

Definition add (a b : num) : num :=
  match a, b with
  | NaN, _ | _, NaN => NaN
  | Fin x, Fin y => Fin (x + y)
  | Inf s, Inf t => if Bool.eqb s t then Inf s else NaN
  | Inf s, Fin _ | Fin _, Inf s => Inf s
  end.

Definition opp (a : num) : num :=
  match a with
  | NaN => NaN
  | Fin x => Fin (- x)
  | Inf s => Inf (negb s)
  end.

Definition sub (a b : num) : num := add a (opp b).

Definition mul (a b : num) : num :=
  match a, b with
  | NaN, _ | _, NaN => NaN
  | Fin x, Fin y => Fin (x * y)
  | Inf s, Inf t => Inf (xorb s t)
  | Inf s, Fin y | Fin y, Inf s =>
      if is_zero y then NaN else Inf (xorb s (negative y))
  end.

Definition div (a b : num) : num :=
  match a, b with
  | NaN, _ | _, NaN => NaN
  | Inf _, Inf _ => NaN
  | Inf s, Fin y => Inf (xorb s (negative y))
  | Fin _, Inf _ => Fin 0
  | Fin x, Fin y =>
      if is_zero y then (if is_zero x then NaN else Inf (negative x))
      else Fin (x / y)
  end.

Definition abs (a : num) : num :=
  match a with
  | NaN => NaN
  | Fin x => Fin (Qabs x)
  | Inf _ => Inf false
  end.

(** [a < b] and [a >= b]. *)
Definition lt (a b : num) : bool :=
  match a, b with
  | NaN, _ | _, NaN => false
  | Fin x, Fin y => negb (Qle_bool y x)
  | Inf s, Inf t => s && negb t
  | Inf s, Fin _ => s
  | Fin _, Inf t => negb t
  end.

Definition ge (a b : num) : bool :=
  match a, b with
  | NaN, _ | _, NaN => false
  | _, _ => negb (lt a b)
  end.

Definition gt (a b : num) : bool := lt b a.
Definition le (a b : num) : bool := ge b a.

(** [Math.min] and [Math.max] of two numbers. *)
Definition min (a b : num) : num :=
  match a, b with
  | NaN, _ | _, NaN => NaN
  | _, _ => if lt b a then b else a
  end.

Definition max (a b : num) : num :=
  match a, b with
  | NaN, _ | _, NaN => NaN
  | _, _ => if lt a b then b else a
  end.

Definition isNaN (a : num) : bool :=
  match a with NaN => true | _ => false end.

End JSNum.

(** ** MODULE: IMAGE QUALITY DETECTION

    [analyzeQuality] decodes the image onto a canvas and reads its pixels
    back; the analysis itself starts from the pixel buffer ([imageData]),
    which is where the model starts. *)

Module ImageQualityModule.
Import JSNum.
Local Open Scope Z_scope.

(** [ctx.getImageData(...)]: four bytes (red, green, blue, alpha) a pixel,
    row by row. *)
Record ImageData : Type := mkImageData {
  width : Z;
  height : Z;
  data : list Z
}.

(** [data[i]]: reading past the end yields [undefined], which arithmetic
    turns into [NaN]. *)
Definition at_ (data : list Z) (i : Z) : num :=
  if i <? 0 then NaN
  else match nth_error data (Z.to_nat i) with
       | Some b => of_Z b
       | None => NaN
       end.

(** The values of [for (let i = start; i < stop; i += step)], [step >= 1]. *)
Fixpoint stepsFrom (fuel : nat) (i stop step : Z) : list Z :=
  match fuel with
  | O => []
  | S fuel' => if i <? stop then i :: stepsFrom fuel' (i + step) stop step else []
  end.

Definition steps (start stop step : Z) : list Z :=
  stepsFrom (Z.to_nat (stop - start)) start stop step.

Record Resolution : Type := mkResolution {
  resWidth : Z;
  resHeight : Z;
  totalPixels : Z;
  resAdequate : bool;
  recommended : bool
}.

Definition checkResolution (width height : Z) : Resolution :=
  let minPixels := 500 * 500 in
  let totalPixels := width * height in
  {| resWidth := width;
     resHeight := height;
     totalPixels := totalPixels;
     resAdequate := minPixels <=? totalPixels;
     recommended := 1000 * 1000 <=? totalPixels |}.

(** [(data[i] + data[i + 1] + data[i + 2]) / 3] *)
Definition gray (data : list Z) (i : Z) : num :=
  div (add (add (at_ data i) (at_ data (i + 1))) (at_ data (i + 2))) (of_Z 3).

(** The positions visited by the two nested loops of [detectBlur], in
    order. *)
Definition blurSamples (imageData : ImageData) : list (Z * Z) :=
  flat_map (fun y => map (fun x => (x, y)) (steps 1 (width imageData - 1) 2))
           (steps 1 (height imageData - 1) 2).

Definition laplacian (imageData : ImageData) (xy : Z * Z) : num :=
  let '(x, y) := xy in
  let data := data imageData in
  let width := width imageData in
  let idx := (y * width + x) * 4 in
  let gray := div (add (add (at_ data idx) (at_ data (idx + 1))) (at_ data (idx + 2)))
                  (of_Z 3) in
  let grayRight :=
    div (add (add (at_ data (idx + 4)) (at_ data (idx + 5))) (at_ data (idx + 6)))
        (of_Z 3) in
  let grayBottom :=
    div (add (add (at_ data (((y + 1) * width + x) * 4))
                  (at_ data (((y + 1) * width + x) * 4 + 1)))
             (at_ data (((y + 1) * width + x) * 4 + 2)))
        (of_Z 3) in
  abs (sub (sub (mul gray (of_Z 2)) grayRight) grayBottom).

Record Blur : Type := mkBlur {
  variance : num;
  isBlurry : bool;
  blurAdequate : bool
}.

(** [count] after the first pair of loops. *)
Definition blurCount (imageData : ImageData) : Z :=
  Z.of_nat (List.length (blurSamples imageData)).

Definition detectBlur (imageData : ImageData) : Blur :=
  let samples := blurSamples imageData in
  let count := of_Z (blurCount imageData) in
  let mean := fold_left (fun mean xy => add mean (laplacian imageData xy)) samples (of_Z 0) in
  let mean := div mean count in
  let variance :=
    fold_left (fun variance xy =>
                 let d := sub (laplacian imageData xy) mean in
                 add variance (mul d d))
              samples (of_Z 0) in
  let variance := div variance count in
  let threshold := of_Z 100 in
  {| variance := variance;
     isBlurry := lt variance threshold;
     blurAdequate := ge variance threshold |}.

Record Brightness : Type := mkBrightness {
  average : num;
  brightnessAdequate : bool;
  issue : option string
}.

(** The indices visited by [for (let i = 0; i < data.length; i += 16)]. *)
Definition sampleIndices (imageData : ImageData) : list Z :=
  steps 0 (Z.of_nat (List.length (data imageData))) 16.

(** [count] after the loop of [checkBrightness]. *)
Definition brightnessCount (imageData : ImageData) : Z :=
  Z.of_nat (List.length (sampleIndices imageData)).

Definition checkBrightness (imageData : ImageData) : Brightness :=
  let data := data imageData in
  let totalBrightness :=
    fold_left (fun total i => add total (gray data i)) (sampleIndices imageData) (of_Z 0) in
  let avgBrightness := div totalBrightness (of_Z (brightnessCount imageData)) in
  let minBrightness := of_Z 50 in
  let maxBrightness := of_Z 200 in
  let issue :=
    if lt avgBrightness minBrightness then Some "too dark"%string
    else if gt avgBrightness maxBrightness then Some "too bright"%string
    else None in
  {| average := avgBrightness;
     brightnessAdequate := ge avgBrightness minBrightness && le avgBrightness maxBrightness;
     issue := issue |}.

Record Contrast : Type := mkContrast {
  contrastValue : num;
  contrastAdequate : bool
}.

Definition checkContrast (imageData : ImageData) : Contrast :=
  let data := data imageData in
  let '(min, max) :=
    fold_left (fun '(min, max) i =>
                 let gray := gray data i in
                 (JSNum.min min gray, JSNum.max max gray))
              (sampleIndices imageData) (of_Z 255, of_Z 0) in
  let contrast := sub max min in
  let minContrast := of_Z 50 in
  {| contrastValue := contrast;
     contrastAdequate := ge contrast minContrast |}.

Record TextSize : Type := mkTextSize {
  estimatedDPI : num;
  minTextSizePixels : num;
  textAdequate : bool
}.

Definition estimateTextSize (width height : Z) : TextSize :=
  let estimatedDPI :=
    JSNum.min (div (of_Z width) (Fin (827 # 100))) (div (of_Z height) (Fin (1169 # 100))) in
  let minTextSize := of_Z 10 in
  let minPixels := mul (div minTextSize (of_Z 72)) estimatedDPI in
  {| estimatedDPI := estimatedDPI;
     minTextSizePixels := minPixels;
     textAdequate := ge estimatedDPI (of_Z 150) && (1000 <=? width) |}.

Inductive Overall : Type := good | poor.

(** The report.  [issues] is [None] when the property is never assigned;
    an element [None] of the list is a [null] pushed onto it. *)
Record Quality : Type := mkQuality {
  resolution : Resolution;
  blur : Blur;
  brightness : Brightness;
  contrast : Contrast;
  textSize : TextSize;
  overall : Overall;
  issues : option (list (option string))
}.

(** [if (failed) issues.push(label)] *)
Definition pushIf (failed : bool) (label : option string)
    (issues : list (option string)) : list (option string) :=
  if failed then issues ++ [label] else issues.

Definition analyzeQuality (imageData : ImageData) : Quality :=
  let resolution := checkResolution (width imageData) (height imageData) in
  let blur := detectBlur imageData in
  let brightness := checkBrightness imageData in
  let contrast := checkContrast imageData in
  let textSize := estimateTextSize (width imageData) (height imageData) in
  let issues := [] in
  let issues := pushIf (negb (resAdequate resolution)) (Some "low resolution"%string) issues in
  let issues := pushIf (isBlurry blur) (Some "blurry"%string) issues in
  let issues := pushIf (negb (brightnessAdequate brightness)) (issue brightness) issues in
  let issues := pushIf (negb (contrastAdequate contrast)) (Some "low contrast"%string) issues in
  let issues := pushIf (negb (textAdequate textSize)) (Some "text too small"%string) issues in
  let failed := (0 <? List.length issues)%nat in
  {| resolution := resolution;
     blur := blur;
     brightness := brightness;
     contrast := contrast;
     textSize := textSize;
     overall := if failed then poor else good;
     issues := if failed then Some issues else None |}.

End ImageQualityModule.

(** ** The confidence table as an object

    [getOverallConfidence] walks [Object.keys(this.fieldConfidences)], so it
    depends on the order in which the keys were created.  Here the table is
    the list of its entries in that order; an assignment to an existing key
    replaces the entry where it stands, an assignment to a new key adds the
    entry at the end. *)

Module ConfidenceObject.
Import ConfidenceModule.

Definition fieldConfidences : Type := list (Field.t * FieldConfidence).

(** [this.fieldConfidences[fieldName] = entry] *)
Fixpoint assign (fieldName : Field.t) (entry : FieldConfidence)
    (this : fieldConfidences) : fieldConfidences :=
  match this with
  | [] => [(fieldName, entry)]
  | (k, e) :: rest =>
      if decide (k = fieldName) then (k, entry) :: rest
      else (k, e) :: assign fieldName entry rest
  end.

Definition setFieldConfidence (fieldName : Field.t) (confidence : Q) (value : string)
    (this : fieldConfidences) : fieldConfidences :=
  assign fieldName
    {| confidence := inject_Z (round (confidence * 100)) / 100;
       value := Some value;
       ConfidenceModule.needsReview := lt confidence (7 # 10);
       status := if ge confidence (8 # 10) then high
                 else if ge confidence (6 # 10) then medium else low |}
    this.

Definition reset (this : fieldConfidences) : fieldConfidences := [].

(** The summary; [totalFields] is absent from the one for an empty table. *)
Record Overall : Type := mkOverall {
  average : Q;
  lowConfidenceFields : list Field.t;
  needsReview : bool;
  totalFields : option nat
}.

(** The body of [fields.forEach(field => { const conf =
    this.fieldConfidences[field]; ... })] for one key and its entry; the
    state is the pair of [totalConfidence] and [lowConfidenceFields]. *)
Definition visit (acc : Q * list Field.t) (entry : Field.t * FieldConfidence)
    : Q * list Field.t :=
  let '(totalConfidence, lowConfidenceFields) := acc in
  let '(field, conf) := entry in
  ((totalConfidence + confidence conf)%Q,
   if ConfidenceModule.needsReview conf then (lowConfidenceFields ++ [field])%list
   else lowConfidenceFields).

Definition getOverallConfidence (this : fieldConfidences) : Overall :=
  let fields := map fst this in
  if (List.length fields =? 0)%nat
  then {| average := 0; lowConfidenceFields := []; needsReview := false;
          totalFields := None |}
  else
    let '(totalConfidence, lowConfidenceFields) := fold_left visit this (0%Q, []) in
    let average := (totalConfidence / inject_Z (Z.of_nat (List.length fields)))%Q in
    {| average := (inject_Z (round (average * 100)) / 100)%Q;
       lowConfidenceFields := lowConfidenceFields;
       needsReview := (0 <? List.length lowConfidenceFields)%nat;
       totalFields := Some (List.length fields) |}.

End ConfidenceObject.

(** ** The first version of the form filler

    [autoFillData] writes four form fields straight from the text, each
    with one pattern and no normalisation; the model returns the four
    values. *)

Module Legacy.
Import JSString RegExp Patterns.

Definition wordChar : charset :=                                   (* [\w\d] *)
  union (range "A" "Z") (union (range "a" "z") (union digit (chr "_"))).
Definition dateChar : charset := union digit sep.                  (* [\d\/\-] *)
Definition digitDot : charset := union digit (chr ".").            (* [\d\.] *)
Definition digitCommaDot : charset :=                              (* [\d,\.] *)
  union digit (union (chr ",") (chr ".")).

(** [/Invoice\s*No[:\s]*([\w\d]+)/i] *)
Definition invoiceNoPattern : pattern :=
  Pattern (cat [lit "Invoice"; star space; lit "No"; star spaceColon;
                Capture (plus wordChar)]) true.

(** [/Date[:\s]*([\d\/\-]+)/i] *)
Definition datePattern : pattern :=
  Pattern (cat [lit "Date"; star spaceColon; Capture (plus dateChar)]) true.

(** [/GST[:\s]*([\d\.]+)/i] *)
Definition gstPattern : pattern :=
  Pattern (cat [lit "GST"; star spaceColon; Capture (plus digitDot)]) true.

(** [/Total[:\s]*([\d,\.]+)/i] *)
Definition totalPattern : pattern :=
  Pattern (cat [lit "Total"; star spaceColon; Capture (plus digitCommaDot)]) true.

(** [text.match(p)?.[1] || ""] *)
Definition firstGroup (p : pattern) (text : string) : string :=
  match exec p text with
  | Some (_, Some c) => c
  | _ => ""
  end.

(** The values of the form fields [billNo], [date], [gst] and [total]. *)
Record Form : Type := mkForm {
  billNo : string;
  date : string;
  gst : string;
  total : string
}.

Definition autoFillData (text : string) : Form :=
  {| billNo := firstGroup invoiceNoPattern text;
     date := firstGroup datePattern text;
     gst := firstGroup gstPattern text;
     total := firstGroup totalPattern text |}.

End Legacy.

(** ** MODULE: OFFLINE STORAGE (IndexedDB)

    The object store [bills] has the key path [id] and a key generator; its
    index [billNo] is not unique.  The store is the list of its records in
    ascending order of their keys, which is the order of [getAll], with the
    current number of the key generator.  A request of the database is
    taken to succeed, and the calls of the module do not overlap; the one
    failure in the model is the error that [saveBill] throws. *)

Module StorageModule.
Import JSString.

(** The argument of [saveBill]; [id], [createdAt] and [synced] may be
    missing. *)
Record BillData : Type := mkBillData {
  id : option N;
  billNo : string;
  date : string;
  customer : string;
  gst : Number.number;
  total : Number.number;
  createdAt : option string;
  synced : option bool
}.

(** A record of the store. *)
Record Bill : Type := mkBill {
  key : N;
  recBillNo : string;
  recDate : string;
  recCustomer : string;
  recGst : Number.number;
  recTotal : Number.number;
  recCreatedAt : string;
  recSynced : bool;
  imageData : option string
}.

Record ObjectStore : Type := mkObjectStore {
  records : list Bill;
  keyGenerator : N
}.

(** The store that [onupgradeneeded] creates. *)
Definition created : ObjectStore := {| records := []; keyGenerator := 1 |}.

(** [store.put(record)] for a record whose key is known. *)
Fixpoint putRecord (r : Bill) (l : list Bill) : list Bill :=
  match l with
  | [] => [r]
  | x :: l' =>
      if (key r <? key x)%N then r :: l
      else if (key r =? key x)%N then r :: l'
      else x :: putRecord r l'
  end.

(** [index.get(billNo)]: the record of the least key among those with the
    bill number. *)
Definition findByBillNo (billNo : string) (db : ObjectStore) : option Bill :=
  List.find (fun r => String.eqb (recBillNo r) billNo) (records db).

Definition getAllBills (db : ObjectStore) : list Bill := records db.

(** [a || b] for strings and for an image that may be absent. *)
Definition orElse (a : option string) (b : string) : string :=
  match a with
  | Some s => if s =? "" then b else s
  | None => b
  end.

Definition orNull (a : option string) : option string :=
  match a with
  | Some s => if s =? "" then None else Some s
  | None => None
  end.

Inductive Error : Type := BillNumberExists.

(** [saveBill]: [now] is [new Date().toISOString()] and [currentImageData]
    the image of the module at the time of the call.  The result is the
    error thrown, or the key of the record with the store after [put]. *)
Definition saveBill (now : string) (currentImageData : option string)
    (billData : BillData) (db : ObjectStore) : Error + N * ObjectStore :=
  let existing := findByBillNo (billNo billData) db in
  let rejected :=
    match existing with
    | Some e => match id billData with
                | Some i => negb (key e =? i)%N
                | None => true
                end
    | None => false
    end in
  if rejected then inl BillNumberExists
  else
    let k := match id billData with Some i => i | None => keyGenerator db end in
    let record :=
      {| key := k;
         recBillNo := billNo billData;
         recDate := date billData;
         recCustomer := customer billData;
         recGst := gst billData;
         recTotal := total billData;
         recCreatedAt := orElse (createdAt billData) now;
         recSynced := match synced billData with Some true => true | _ => false end;
         imageData := orNull currentImageData |} in
    inr (k, {| records := putRecord record (records db);
               keyGenerator := if (keyGenerator db <=? k)%N then (k + 1)%N
                               else keyGenerator db |}).

(** [store.delete(id)] *)
Definition deleteBill (id : N) (db : ObjectStore) : ObjectStore :=
  {| records := List.filter (fun r => negb (key r =? id)%N) (records db);
     keyGenerator := keyGenerator db |}.

Definition filterBySyncStatus (syncStatus : string) (db : ObjectStore) : list Bill :=
  let allBills := getAllBills db in
  if syncStatus =? "all" then allBills
  else List.filter (fun bill =>
                      if syncStatus =? "synced" then Bool.eqb (recSynced bill) true
                      else Bool.eqb (recSynced bill) false)
                   allBills.

End StorageModule.

(** ** MODULE: BUSINESS DATA VALIDATION, the duplicate check *)

Module ValidationModule.

(** [checkDuplicateBillNo(billNo, excludeId)]: the [isDuplicate] of the
    result; [excludeId] is [None] for the default [null]. *)
Definition checkDuplicateBillNo (billNo : string) (excludeId : option N)
    (db : StorageModule.ObjectStore) : bool :=
  match StorageModule.findByBillNo billNo db with
  | Some existing =>
      match excludeId with
      | Some i => negb (StorageModule.key existing =? i)%N
      | None => true
      end
  | None => false
  end.

End ValidationModule.

(** ** MODULE: UI RENDERING & INTERACTION, the confidence indicator

    Of [showOCRResults] the model keeps what decides the indicator that the
    user sees: the percentage, the class of the badge, whether the list of
    low-confidence fields is shown, and whether the poor-data warning is
    shown.  The summary comes from the confidence table at the time of the
    call. *)

Module UIModule.
Import ConfidenceModule.

Inductive BadgeClass : Type := badgeHigh | badgeMedium | badgeLow.

Record Indicator : Type := mkIndicator {
  confidencePercent : Z;
  badge : BadgeClass;
  lowConfidenceWarning : bool;
  poorDataWarning : bool
}.

Definition showOCRResults (table : ConfidenceObject.fieldConfidences) : Indicator :=
  let overallConf := ConfidenceObject.getOverallConfidence table in
  let confidencePercent := round (ConfidenceObject.average overallConf * 100) in
  {| confidencePercent := confidencePercent;
     badge := if (70 <=? confidencePercent)%Z then badgeHigh
              else if (50 <=? confidencePercent)%Z then badgeMedium else badgeLow;
     lowConfidenceWarning := ConfidenceObject.needsReview overallConf;
     poorDataWarning :=
       (confidencePercent <? 50)%Z
       || (3 <=? List.length (ConfidenceObject.lowConfidenceFields overallConf))%nat |}.

End UIModule.

(** * Vocabulary of the statements *)

(** ** Histories of the confidence table *)

Module ConfidenceSpec.
Import ConfidenceModule.

(** A recording: the arguments of one call of [setFieldConfidence]. *)
Definition recording : Type := Field.t * Q * string.

Definition fieldOf (r : recording) : Field.t := fst (fst r).

(** The table after a sequence of recordings. *)
Definition recordAll (rs : list recording) (this : fieldConfidences) : fieldConfidences :=
  fold_left (fun st r => setFieldConfidence (fieldOf r) (snd (fst r)) (snd r) st) rs this.

(** The statuses of the three bands. *)
Definition banded (s : Status) : Prop := s = high \/ s = medium \/ s = low.

End ConfidenceSpec.

(** ** Reading a quality report *)

Module QualitySpec.
Import JSNum ImageQualityModule.

(** A sub-check of a report: whether it fails, which is what its
    [adequate] flag tells, and the issue it reports. *)
Definition check : Type := bool * option string.

Definition resolutionCheck (q : Quality) : check :=
  (negb (resAdequate (resolution q)), Some "low resolution").
Definition blurCheck (q : Quality) : check :=
  (negb (blurAdequate (blur q)), Some "blurry").
Definition brightnessCheck (q : Quality) : check :=
  (negb (brightnessAdequate (brightness q)), issue (brightness q)).
Definition contrastCheck (q : Quality) : check :=
  (negb (contrastAdequate (contrast q)), Some "low contrast").
Definition textSizeCheck (q : Quality) : check :=
  (negb (textAdequate (textSize q)), Some "text too small").

(** The five sub-checks in their fixed order. *)
Definition checks (q : Quality) : list check :=
  [resolutionCheck q; blurCheck q; brightnessCheck q; contrastCheck q; textSizeCheck q].

(** The issues of the failing ones among some checks, in their order. *)
Definition failing (cs : list check) : list (option string) :=
  map snd (List.filter fst cs).

(** The issues of a report, none when the property is absent. *)
Definition issueList (q : Quality) : list (option string) :=
  match issues q with
  | Some l => l
  | None => []
  end.

(** A non-empty pixel buffer: at least one pixel, four bytes a pixel. *)
Definition nonEmptyBuffer (imageData : ImageData) : Prop :=
  (1 <= width imageData)%Z /\ (1 <= height imageData)%Z
  /\ Z.of_nat (List.length (data imageData))
     = (4 * width imageData * height imageData)%Z.

Definition finite (n : num) : Prop := exists q, n = Fin q.

(** A buffer of one black, opaque pixel. *)
Definition onePixel : ImageData :=
  {| width := 1; height := 1; data := [0; 0; 0; 255]%Z |}.

End QualitySpec.

(** ** Characters of strings and of captures *)

Module TextSpec.
Import JSString RegExp.

(** Some character of [s] is not white space. *)
Fixpoint has_nonspace (s : string) : bool :=
  match s with
  | "" => false
  | String c r => negb (is_space c) || has_nonspace r
  end.

Fixpoint all_chars (P : ascii -> bool) (s : string) : bool :=
  match s with
  | "" => true
  | String c r => P c && all_chars P r
  end.

(** [t] occurs in [s]. *)
Definition occurs_in (t s : string) : Prop :=
  exists pre post, s = pre ++ t ++ post.

(** Every character class inside a capturing group of [r] only admits
    characters of [P] ([inside] tells whether [r] itself stands inside a
    group). *)
Fixpoint captures_within (ic : bool) (P : ascii -> bool) (inside : bool) (r : regex)
    : Prop :=
  match r with
  | Empty | EndOfInput => True
  | Class cs => inside = true -> forall ch, class_test ic cs ch = true -> P ch = true
  | Seq a b | Alt a b => captures_within ic P inside a /\ captures_within ic P inside b
  | Quant _ _ _ a => captures_within ic P inside a
  | Capture a => captures_within ic P true a
  end.

Definition good_capture (P : ascii -> bool) (c : option string) : Prop :=
  match c with
  | Some s => all_chars P s = true
  | None => True
  end.

Definition nonspace (c : ascii) : bool := negb (is_space c).

(** A matcher that only moves forward: it consults its continuation on
    states whose rest is no longer than that of the state it starts from. *)
Definition forward (m : matcher) : Prop :=
  forall x k k',
    (forall y, String.length (rest y) <= String.length (rest x) -> k y = k' y) ->
    m x k = m x k'.

(** What a run of a matcher guarantees about the state it hands to its
    continuation: the input only moves forward, over characters of [P] when
    the matcher stands inside a group, and the capture stays within [P]. *)
Definition respects (P : ascii -> bool) (inside : bool) (m : matcher) : Prop :=
  forall x k z, m x k = Some z ->
  exists y pre, k y = Some z
    /\ rest x = pre ++ rest y
    /\ (inside = true -> all_chars P pre = true)
    /\ (good_capture P (cap x) -> good_capture P (cap y)).

(** All 256 characters. *)
Definition alphabet : list ascii := map ascii_of_nat (seq 0 256).

End TextSpec.

(** ** Reading the extractor *)

Module ExtractionSpec.
Import JSString RegExp Patterns DataExtractionModule TextSpec.

(** The matched date token: the parts of the first pattern's token that
    splits on [/] or [-] into exactly three parts. *)
Fixpoint dateParts (patterns : list pattern) (text : string)
    : option (string * string * string) :=
  match patterns with
  | [] => None
  | p :: rest =>
      match captured p text with
      | Some c =>
          match split_on sep (trim c) with
          | [p0; p1; p2] => Some (p0, p1, p2)
          | _ => dateParts rest text
          end
      | None => dateParts rest text
      end
  end.

(** A day or a month padded with zeros to two digits. *)
Definition zeroPadded (s : string) : string :=
  match s with
  | "" => "00"
  | String c "" => String "0" (String c "")
  | _ => s
  end.

(** A year, with the century 20 before a two-digit one. *)
Definition fullYear (s : string) : string :=
  if (String.length s =? 2)%nat then "20" ++ s else s.

Definition isoDate (year month day : string) : string :=
  year ++ "-" ++ month ++ "-" ++ day.

(** The sum and the mean of a list of numbers. *)
Definition total (qs : list Q) : Q := fold_right Qplus 0%Q qs.

Definition mean (qs : list Q) : Q :=
  (total qs / inject_Z (Z.of_nat (List.length qs)))%Q.

(** The text of a word and a field value agree when, letter case aside, one
    occurs in the other. *)
Definition agree (fieldValue : string) (word : OCRWord) : Prop :=
  occurs_in (toLowerCase (wordText word)) (toLowerCase fieldValue)
  \/ occurs_in (toLowerCase fieldValue) (toLowerCase (wordText word)).

(** No value exceeds [m]. *)
Definition greatest (m : Number.number) (values : list Number.number) : Prop :=
  In m values
  /\ forall v, In v values -> SFltb m v = false.

(** No label pattern captures a number: none matches, or the capture holds
    commas only. *)
Definition unlabelled (text : string) : Prop :=
  firstCapture totalPatterns text = None
  \/ exists c, firstCapture totalPatterns text = Some c /\ removeCommas c = "".

End ExtractionSpec.

(** ** Reading the merge *)

Module MergeSpec.
Import JSString JSObject DataExtractionModule OCRModule.

(** How often [v] occurs among the values. *)
Definition occurrences (v : string) (values : list string) : nat :=
  List.length (List.filter (String.eqb v) values).

(** [a] occurs in [values] before any occurrence of [b]: the first
    occurrence of [a] lies in an earlier pass than that of [b]. *)
Definition earlier (a b : string) (values : list string) : Prop :=
  exists l1 l2, values = (l1 ++ a :: l2)%list /\ ~ In b l1.

(** [a] occurs in [l] somewhere before an occurrence of [b]. *)
Definition before {A : Type} (a b : A) (l : list A) : Prop :=
  exists l1 l2, l = (l1 ++ a :: l2)%list /\ In b l2.

(** The order in which [Object.keys] lists two keys of the frequency table:
    array indices by their numeric value and before every other key, the
    other keys by first occurrence. *)
Definition precedes (values : list string) (a b : string) : Prop :=
  match arrayIndex a, arrayIndex b with
  | Some i, Some j => (i <= j)%N
  | Some _, None => True
  | None, Some _ => False
  | None, None => earlier a b values
  end.

(** The winner as the claim words it: a most frequent value, ahead of every
    value of the same frequency by its first occurrence. *)
Definition earliestMostFrequent (values : list string) (w : string) : Prop :=
  In w values
  /\ (forall v, In v values -> occurrences v values <= occurrences w values)
  /\ (forall v, In v values -> occurrences v values = occurrences w values ->
                earlier w v values).

(** No value is the name of a property that every object inherits. *)
Definition plain (values : list string) : Prop :=
  Forall (fun v => inherited v = false) values.

(** The scan of [mergeField] over keys with known counts. *)
Definition scan (count : string -> nat) (ks : list string) (start : nat * string)
    : nat * string :=
  fold_left (fun '(maxFreq, mostFrequent) value =>
               if (maxFreq <? count value)%nat then (count value, value)
               else (maxFreq, mostFrequent))
            ks start.

(** One step of the tally of [mergeField]. *)
Definition tallyStep (frequency : object) (v : string) : object :=
  assign v (incremented v frequency) frequency.

(** Index keys in ascending order of their index. *)
Definition byIndex (a b : N * string) : Prop := (fst a <= fst b)%N.

(** The passes of a scan, given by the texts that the recogniser returned. *)
Definition passes (texts : list string) : list PassExtraction :=
  fst (extractAll 0 (map (fun t => mkScanResult t 1 []) texts) ∅).

End MergeSpec.

(** ** The language of a pattern *)

Module RegExpSpec.
Import JSString RegExp.

(** Of the captures of two consecutive pieces of a match the later one
    stays. *)
Definition later (c1 c2 : option string) : option string :=
  match c2 with Some _ => c2 | None => c1 end.

(** One iteration of a quantifier: its text and what its group took. *)
Definition piece : Type := string * option string.

Definition joined (ps : list piece) : string :=
  fold_right (fun p s => fst p ++ s) "" ps.

Definition lastCapture (ps : list piece) : option string :=
  fold_right (fun p c => later (snd p) c) None ps.

(** The texts that a pattern body matches, each with the text of the
    capturing group.  A quantifier matches a sequence of iterations whose
    number lies within its bounds. *)
Fixpoint lang (ic : bool) (r : regex) (s : string) (c : option string) : Prop :=
  match r with
  | Empty | EndOfInput => s = "" /\ c = None
  | Class cs => exists ch, s = String ch "" /\ class_test ic cs ch = true /\ c = None
  | Seq a b =>
      exists s1 s2 c1 c2,
        s = s1 ++ s2 /\ lang ic a s1 c1 /\ lang ic b s2 c2 /\ c = later c1 c2
  | Alt a b => lang ic a s c \/ lang ic b s c
  | Quant min max _ a =>
      exists ps : list piece,
        Forall (fun p => lang ic a (fst p) (snd p)) ps
        /\ s = joined ps /\ c = lastCapture ps
        /\ (forall M, max = Some M -> List.length ps <= M)
        /\ ((forall M, max = Some M -> min <= M) -> min <= List.length ps)
  | Capture a => exists c', lang ic a s c' /\ c = Some s
  end.

(** A matcher that only succeeds along a text of the language. *)
Definition sound (L : string -> option string -> Prop) (m : matcher) : Prop :=
  forall x k z, m x k = Some z ->
  exists y pre c, k y = Some z /\ rest x = pre ++ rest y /\ L pre c
                  /\ cap y = later (cap x) c.

End RegExpSpec.

(** ** Shapes of texts *)

Module ShapeSpec.
Import JSString RegExp TextSpec.

Definition is_letter (c : ascii) : bool := in_range "A" "Z" c || in_range "a" "z" c.

Definition digits (s : string) : Prop := all_chars is_digit s = true.

(** The bodies of the capturing groups of a pattern. *)
Fixpoint groups (r : regex) : list regex :=
  match r with
  | Seq a b | Alt a b => (groups a ++ groups b)%list
  | Quant _ _ _ a => groups a
  | Capture a => [a]
  | Empty | Class _ | EndOfInput => []
  end.

End ShapeSpec.

(** ** Shapes of the fields *)

Module FieldSpec.
Import JSString RegExp TextSpec ShapeSpec.

(** The characters of a bill number and of a customer name. *)
Definition billNoChar (c : ascii) : bool := is_letter c || is_digit c || Ascii.eqb c "-".
Definition customerChar (c : ascii) : bool := is_letter c || is_space c || Ascii.eqb c "&".

(** The characters of a customer name that stay on its line. *)
Definition lineChar (c : ascii) : bool := customerChar c && negb (Ascii.eqb "010" c).

Definition digitOrComma (ch : ascii) : bool := is_digit ch || Ascii.eqb ch ",".

(** The three parts of a date token. *)
Definition token (d1 : string) (s1 : ascii) (d2 : string) (s2 : ascii) (d3 : string) : string :=
  d1 ++ String s1 (d2 ++ String s2 d3).

(** A year of three or four digits, a month and a day of two digits each,
    joined by hyphens. *)
Definition isoShaped (s : string) : Prop :=
  exists y m d,
    s = y ++ "-" ++ m ++ "-" ++ d
    /\ digits y /\ digits m /\ digits d
    /\ (String.length y = 3 \/ String.length y = 4)
    /\ String.length m = 2 /\ String.length d = 2.

(** Digits with at most one decimal point among them. *)
Definition decimalShaped (s : string) : Prop :=
  exists i f,
    s = i ++ f /\ digits i /\ (f = "" \/ exists d, f = String "." d /\ digits d).

(** No digit and no comma. *)
Definition numberless (s : string) : Prop :=
  all_chars (fun ch => negb (digitOrComma ch)) s = true.

End FieldSpec.

(** ** Reading a scan *)

Module ScanSpec.
Import JSString DataExtractionModule OCRModule.

(** The values that the passes found for a field: what [extractBillData]
    gives the text of each pass, the empty ones left out. *)
Definition found (f : Field.t) (results : list ScanResult) : list string :=
  List.filter (fun v => negb (v =? "")%string)
              (map (fun r => get f (extractBillData (text r))) results).

(** A field whose values are numerals. *)
Definition numeric (f : Field.t) : bool :=
  match f with
  | Field.date | Field.gst | Field.total => true
  | Field.billNo | Field.customer => false
  end.

(** The first character of a printed number, of a date and of an amount: a
    digit, a sign, a point, or the initial of [NaN] and [Infinity]. *)
Definition numeralHead (s : string) : bool :=
  match s with
  | String c _ =>
      is_digit c || Ascii.eqb c "-" || Ascii.eqb c "." || Ascii.eqb c "N" || Ascii.eqb c "I"
  | "" => false
  end.

End ScanSpec.

(** ** Reading the summary of the table *)

Module SummarySpec.
Import ConfidenceModule ConfidenceSpec.

(** One recording on the table object. *)
Definition record (st : ConfidenceObject.fieldConfidences) (r : recording)
    : ConfidenceObject.fieldConfidences :=
  ConfidenceObject.setFieldConfidence (fieldOf r) (snd (fst r)) (snd r) st.

(** The table object after a sequence of recordings, starting from the
    empty one that [reset] leaves. *)
Definition history (rs : list recording) : ConfidenceObject.fieldConfidences :=
  fold_left record rs (ConfidenceObject.reset []).

(** The fields of a list in the order of their first occurrence. *)
Fixpoint firsts (seen : list Field.t) (l : list Field.t) : list Field.t :=
  match l with
  | [] => []
  | f :: l' =>
      if bool_decide (f ∈ seen) then firsts seen l' else f :: firsts (f :: seen) l'
  end.

Definition inUnit (q : Q) : Prop := (0 <= q /\ q <= 1)%Q.

End SummarySpec.

(** ** Images of one colour *)

Module BlankSpec.
Import JSNum ImageQualityModule.

(** The bytes of [n] pixels of one colour. *)
Fixpoint solidData (r g b a : Z) (n : nat) : list Z :=
  match n with
  | O => []
  | S k => r :: g :: b :: a :: solidData r g b a k
  end.

(** An image of one colour. *)
Definition solid (w h r g b a : Z) : ImageData :=
  {| width := w; height := h; data := solidData r g b a (Z.to_nat (w * h)) |}.

(** A number that is zero. *)
Definition isZero (n : num) : Prop := exists q, n = Fin q /\ (q == 0)%Q.

Definition byte (z : Z) : Prop := (0 <= z <= 255)%Z.

(** The grey level of a colour. *)
Definition level (r g b : Z) : Q :=
  ((inject_Z r + inject_Z g + inject_Z b) / inject_Z 3)%Q.

End BlankSpec.

(** ** Reading the first form filler *)

Module LegacySpec.
Import JSString RegExp ShapeSpec.

(** A pattern body whose every match sets the capturing group. *)
Fixpoint capturing (r : regex) : bool :=
  match r with
  | Capture _ => true
  | Seq a b => capturing a || capturing b
  | Alt a b => capturing a && capturing b
  | Empty | Class _ | Quant _ _ _ _ | EndOfInput => false
  end.

Definition isWordChar (c : ascii) : bool := is_letter c || is_digit c || Ascii.eqb c "_".
Definition isDateChar (c : ascii) : bool := is_digit c || Ascii.eqb c "/" || Ascii.eqb c "-".
Definition isDigitDot (c : ascii) : bool := is_digit c || Ascii.eqb c ".".
Definition isDigitCommaDot (c : ascii) : bool :=
  is_digit c || Ascii.eqb c "," || Ascii.eqb c ".".

(** A value that a pattern took from the text: empty when the pattern does
    not match, otherwise a run of characters of the class of its group that
    stands in the text. *)
Definition taken (p : RegExp.pattern) (P : ascii -> bool) (text v : string) : Prop :=
  (RegExp.exec p text = None /\ v = "")
  \/ (RegExp.exec p text <> None /\ v <> ""
      /\ TextSpec.all_chars P v = true /\ TextSpec.occurs_in v text).

End LegacySpec.

(** ** Histories of the store *)

Module StorageSpec.
Import StorageModule.

(** A call on the store. *)
Inductive call : Type :=
| Save (now : string) (currentImageData : option string) (billData : BillData)
| Delete (id : N).

(** A save that throws leaves the store as it was. *)
Definition perform (db : ObjectStore) (c : call) : ObjectStore :=
  match c with
  | Save now image billData =>
      match saveBill now image billData db with
      | inr (_, db') => db'
      | inl _ => db
      end
  | Delete id => deleteBill id db
  end.

(** The store after a sequence of calls on the newly created one. *)
Definition after (calls : list call) : ObjectStore := fold_left perform calls created.

Definition byKey (a b : Bill) : Prop := (key a < key b)%N.

(** Ascending keys, all of them below the key generator, and no bill
    number twice. *)
Definition consistent (db : ObjectStore) : Prop :=
  StronglySorted byKey (records db)
  /\ Forall (fun r => (key r < keyGenerator db)%N) (records db)
  /\ NoDup (map recBillNo (records db)).

End StorageSpec.

(** ** Entries and the indicator *)

Module IndicatorSpec.
Import ConfidenceModule.

(** An entry that asks for no review holds a confidence of at least 0.7. *)
Definition settled (p : Field.t * FieldConfidence) : Prop :=
  needsReview (snd p) = false -> (7 # 10 <= confidence (snd p))%Q.

End IndicatorSpec.

(** ** Texts with a number *)

Module DigitSpec.
Import JSString.

(** Some character of [s] belongs to [P]. *)
Fixpoint some_char (P : ascii -> bool) (s : string) : bool :=
  match s with
  | "" => false
  | String c r => P c || some_char P r
  end.

End DigitSpec.

(** ** Patterns that find every text of their language *)

Module CompleteSpec.
Import JSString RegExp RegExpSpec.

(** The patterns for which the language decides whether the matcher
    succeeds: every quantifier stands on a character class, with its bounds
    in order, and [$] does not occur. *)
Fixpoint simple (r : regex) : bool :=
  match r with
  | Empty | Class _ => true
  | Seq a b | Alt a b => simple a && simple b
  | Quant lo max _ (Class _) =>
      match max with Some M => (lo <=? M)%nat | None => true end
  | Quant _ _ _ _ => false
  | Capture a => simple a
  | EndOfInput => false
  end.

(** A matcher that succeeds along every text of the language after which
    its continuation succeeds. *)
Definition complete (L : string -> option string -> Prop) (m : matcher) : Prop :=
  forall x pre post c k,
    rest x = pre ++ post -> L pre c ->
    k (MState post (later (cap x) c)) <> None ->
    m x k <> None.

End CompleteSpec.

(** ** The tokens of the date and of the bill number *)

Module TokenSpec.
Import JSString RegExp Patterns TextSpec ShapeSpec FieldSpec.

(** Three runs of digits between two of the separators [/] and [-]: the
    first of [a1] to [b1] digits, the second of one or two, the third of
    [a3] to [b3]. *)
Definition dateToken (a1 b1 a3 b3 : nat) (t : string) : Prop :=
  exists d1 s1 d2 s2 d3,
    t = token d1 s1 d2 s2 d3
    /\ digits d1 /\ digits d2 /\ digits d3 /\ sep s1 = true /\ sep s2 = true
    /\ a1 <= String.length d1 <= b1 /\ 1 <= String.length d2 <= 2
    /\ a3 <= String.length d3 <= b3.

Definition dayFirstToken : string -> Prop := dateToken 1 2 2 4.
Definition yearFirstToken : string -> Prop := dateToken 4 4 1 2.

(** What may stand between a label and a bill number. *)
Definition labelGap (c : ascii) : bool :=
  is_space c || Ascii.eqb c "#" || Ascii.eqb c ":".

Definition numberGap (c : ascii) : bool := Ascii.eqb c "." || labelGap c.

(** The letters [no] in either case and, after any gap, a character of a
    bill number. *)
Definition numberToken (t : string) : Prop :=
  exists l gap c,
    t = l ++ gap ++ String c ""
    /\ toLowerCase l = "no" /\ all_chars numberGap gap = true /\ billNoChar c = true.

(** The word [invoice] or [bill] in either case and, after any gap, four
    characters of a bill number or more. *)
Definition invoiceToken (t : string) : Prop :=
  exists l gap run,
    t = l ++ gap ++ run
    /\ (toLowerCase l = "invoice" \/ toLowerCase l = "bill")
    /\ all_chars labelGap gap = true
    /\ all_chars billNoChar run = true /\ 4 <= String.length run.

End TokenSpec.

(** ** Bounds of binary64 numbers *)

Module Binary64Spec.
Import Number Binary64.
Local Open Scope Z_scope.

(** A number that is [+0] or positive and finite, with a mantissa of at
    most 53 bits, and in the order of the numbers not above the one of
    mantissa [Kb] and exponent [Eb]. *)
Definition below (Kb Eb : Z) (x : number) : Prop :=
  x = S754_zero false
  \/ exists m e, x = S754_finite false m e /\ Z.pos m < 2 ^ 53
                 /\ (e < Eb \/ (e = Eb /\ Z.pos m <= Kb)).

End Binary64Spec.

(** * Properties *)

(** ** Strings *)

Module StringFacts.
Import JSString TextSpec.

Lemma has_nonspace_app a b : has_nonspace (a ++ b) = has_nonspace a || has_nonspace b.
Proof.
  induction a as [|c a IH]; [reflexivity|].
  change (String c a ++ b) with (String c (a ++ b)). simpl.
  rewrite IH. apply orb_assoc.
Qed.

Lemma has_nonspace_trimStart s : has_nonspace (trimStart s) = has_nonspace s.
Proof.
  induction s as [|c s IH]; simpl; [reflexivity|].
  destruct (is_space c) eqn:E; simpl; [assumption|]. rewrite E. reflexivity.
Qed.

Lemma trimEnd_empty s : trimEnd s = "" <-> has_nonspace s = false.
Proof.
  induction s as [|c s IH]; simpl; [tauto|].
  destruct (trimEnd s) as [|d t] eqn:E.
  - assert (H : has_nonspace s = false) by (apply IH; reflexivity).
    rewrite H, orb_false_r.
    destruct (is_space c); simpl; split; congruence.
  - destruct (has_nonspace s) eqn:H.
    + rewrite orb_true_r. split; discriminate.
    + assert (D : String d t = "") by (apply IH; reflexivity). discriminate D.
Qed.

Lemma has_nonspace_trimEnd s : has_nonspace (trimEnd s) = has_nonspace s.
Proof.
  induction s as [|c s IH]; simpl; [reflexivity|].
  destruct (trimEnd s) as [|d t] eqn:E.
  - assert (H : has_nonspace s = false) by (apply trimEnd_empty; assumption).
    rewrite H. destruct (is_space c) eqn:Ec; simpl; rewrite ?Ec; reflexivity.
  - change (has_nonspace (String c (String d t))) with
      (negb (is_space c) || has_nonspace (String d t)).
    rewrite IH. reflexivity.
Qed.

Lemma has_nonspace_trim s : has_nonspace (trim s) = has_nonspace s.
Proof. unfold trim. rewrite has_nonspace_trimEnd. apply has_nonspace_trimStart. Qed.

Lemma trim_empty s : trim s = "" <-> has_nonspace s = false.
Proof. unfold trim. rewrite trimEnd_empty. rewrite has_nonspace_trimStart. tauto. Qed.

(** The test [v && v.trim() !== ''] holds exactly for the strings with a
    character that is not white space. *)
Lemma nonblank_has_nonspace s : nonblank s = has_nonspace s.
Proof.
  unfold nonblank. destruct (has_nonspace s) eqn:H.
  - destruct s as [|c s]; [discriminate|]. simpl (_ =? _)%string.
    destruct (trim (String c s)) as [|d t] eqn:E; [|reflexivity].
    apply trim_empty in E. congruence.
  - apply trim_empty in H. rewrite H. simpl. apply andb_false_r.
Qed.

Lemma trim_blank s : trim s = "" \/ nonblank (trim s) = true.
Proof.
  rewrite nonblank_has_nonspace, has_nonspace_trim.
  destruct (has_nonspace s) eqn:H; [right; reflexivity|].
  left. apply trim_empty. assumption.
Qed.

Lemma trimStart_head s :
  trimStart s = "" \/ exists c r, trimStart s = String c r /\ is_space c = false.
Proof.
  induction s as [|c s IH]; simpl; [left; reflexivity|].
  destruct (is_space c) eqn:E; [assumption|]. right. eauto.
Qed.

Lemma trimEnd_head c r :
  is_space c = false -> exists t, trimEnd (String c r) = String c t.
Proof.
  intros E. simpl. destruct (trimEnd r); [rewrite E|]; eauto.
Qed.

Lemma trim_head s :
  trim s = "" \/ exists c r, trim s = String c r /\ is_space c = false.
Proof.
  unfold trim. destruct (trimStart_head s) as [H|[c [r [H E]]]].
  - rewrite H. left. reflexivity.
  - rewrite H. destruct (@trimEnd_head c r E) as [t Ht]. right. eauto.
Qed.

Lemma remove_chars_blank p s :
  all_chars nonspace s = true ->
  remove_chars p s = "" \/ nonblank (remove_chars p s) = true.
Proof.
  rewrite nonblank_has_nonspace.
  induction s as [|c s IH]; simpl; [left; reflexivity|].
  intros H. apply andb_true_iff in H. destruct H as [Hc Hs].
  destruct (p c); [apply IH; assumption|].
  right. simpl. unfold nonspace in Hc. rewrite Hc. reflexivity.
Qed.

Lemma append_cons (x : ascii) (a b : string) : String x a ++ b = String x (a ++ b).
Proof. reflexivity. Qed.

Lemma append_nil_l (b : string) : "" ++ b = b.
Proof. reflexivity. Qed.

Lemma length_append (a b : string) :
  String.length (a ++ b) = String.length a + String.length b.
Proof.
  induction a as [|c a IH]; [reflexivity|].
  rewrite append_cons. simpl. rewrite IH. reflexivity.
Qed.

Lemma substring_prefix (a b : string) : substring 0 (String.length a) (a ++ b) = a.
Proof.
  induction a as [|c a IH].
  - rewrite append_nil_l. destruct b; reflexivity.
  - rewrite append_cons. simpl. rewrite IH. reflexivity.
Qed.

Lemma append_assoc (a b c : string) : (a ++ b) ++ c = a ++ (b ++ c).
Proof.
  induction a as [|x a IH]; [reflexivity|].
  rewrite !append_cons. rewrite IH. reflexivity.
Qed.

Lemma append_nil_r (a : string) : a ++ "" = a.
Proof.
  induction a as [|x a IH]; [reflexivity|].
  rewrite append_cons, IH. reflexivity.
Qed.

Lemma all_chars_app P a b : all_chars P (a ++ b) = all_chars P a && all_chars P b.
Proof.
  induction a as [|c a IH]; [reflexivity|].
  rewrite append_cons. simpl. rewrite IH. apply andb_assoc.
Qed.

Lemma for_all_ascii (Q : ascii -> bool) :
  forallb Q alphabet = true -> forall ch, Q ch = true.
Proof.
  intros H ch. rewrite forallb_forall in H. apply H.
  unfold alphabet. apply in_map_iff. exists (nat_of_ascii ch). split.
  - apply ascii_nat_embedding.
  - apply in_seq. pose proof (nat_ascii_bounded ch). lia.
Qed.

End StringFacts.

(** ** Regular expressions: what a capture can contain *)

Module RegExpFacts.
Import JSString RegExp TextSpec StringFacts.

(** *** The iteration bound of a quantifier is never reached *)

Lemma repeat_forward m : forward m ->
  forall fuel min max greedy, forward (repeatMatcher fuel m min max greedy).
Proof.
  intros Hm fuel. induction fuel as [|fuel IH]; intros min max greedy x k k' Hk;
    [reflexivity|].
  simpl.
  assert (Hx : k x = k' x) by (apply Hk; lia).
  assert (Hd : m x (fun y =>
                 if (min =? 0)%nat && (String.length (rest y) =? String.length (rest x))%nat
                 then None
                 else repeatMatcher fuel m (Nat.pred min) (option_map Nat.pred max) greedy y k)
             = m x (fun y =>
                 if (min =? 0)%nat && (String.length (rest y) =? String.length (rest x))%nat
                 then None
                 else repeatMatcher fuel m (Nat.pred min) (option_map Nat.pred max) greedy y k')).
  { apply Hm. intros y Hy. destruct (_ && _); [reflexivity|].
    apply IH. intros z Hz. apply Hk. lia. }
  rewrite Hd, Hx. reflexivity.
Qed.

Lemma rmatch_forward ic r : forward (rmatch ic r).
Proof.
  induction r as [|cs|r1 IH1 r2 IH2|r1 IH1 r2 IH2|min max greedy r IH|r IH|];
    intros x k k' Hk; simpl.
  - apply Hk. lia.
  - destruct (rest x) as [|ch s'] eqn:E; [reflexivity|].
    destruct (class_test ic cs ch); [|reflexivity].
    apply Hk. simpl. lia.
  - apply IH1. intros y Hy. apply IH2. intros z Hz. apply Hk. lia.
  - rewrite (IH1 x k k' Hk), (IH2 x k k' Hk). reflexivity.
  - apply (repeat_forward _ IH). exact Hk.
  - apply IH. intros y Hy. apply Hk. simpl. lia.
  - assert (Hx : k x = k' x) by (apply Hk; lia).
    destruct (rest x); [exact Hx|reflexivity].
Qed.

(** With the fuel that [rmatch] provides, or any larger amount, an iteration
    yields the same result: the bound plays no part in the outcome. *)
Lemma repeat_fuel m : forward m ->
  forall fuel fuel' min max greedy x k,
    min + String.length (rest x) < fuel ->
    min + String.length (rest x) < fuel' ->
    repeatMatcher fuel m min max greedy x k = repeatMatcher fuel' m min max greedy x k.
Proof.
  intros Hm fuel. induction fuel as [|fuel IH]; intros fuel' min max greedy x k H H';
    [lia|].
  destruct fuel' as [|fuel']; [lia|]. simpl.
  assert (Hd : m x (fun y =>
                 if (min =? 0)%nat && (String.length (rest y) =? String.length (rest x))%nat
                 then None
                 else repeatMatcher fuel m (Nat.pred min) (option_map Nat.pred max) greedy y k)
             = m x (fun y =>
                 if (min =? 0)%nat && (String.length (rest y) =? String.length (rest x))%nat
                 then None
                 else repeatMatcher fuel' m (Nat.pred min) (option_map Nat.pred max) greedy y k)).
  { apply Hm. intros y Hy.
    destruct (min =? 0)%nat eqn:E0;
      destruct (String.length (rest y) =? String.length (rest x))%nat eqn:El;
      simpl; try reflexivity.
    - apply Nat.eqb_eq in E0. apply Nat.eqb_neq in El. apply IH; lia.
    - apply Nat.eqb_neq in E0. apply IH; lia.
    - apply Nat.eqb_neq in E0. apply IH; lia. }
  rewrite Hd. reflexivity.
Qed.

Lemma quantifier_fuel ic r min max greedy x k extra :
  repeatMatcher (min + String.length (rest x) + 1 + extra) (rmatch ic r) min max greedy x k
  = rmatch ic (Quant min max greedy r) x k.
Proof.
  simpl. apply repeat_fuel; [apply rmatch_forward|lia|lia].
Qed.

Section Captures.
Variable ic : bool.
Variable P : ascii -> bool.

Lemma repeat_respects inside m :
  respects P inside m ->
  forall fuel min max greedy, respects P inside (repeatMatcher fuel m min max greedy).
Proof.
  intros Hm fuel. induction fuel as [|fuel IH]; intros min max greedy x k z H;
    [discriminate H|].
  assert (Stop : k x = Some z ->
                 exists y pre, k y = Some z /\ rest x = pre ++ rest y
                   /\ (inside = true -> all_chars P pre = true)
                   /\ (good_capture P (cap x) -> good_capture P (cap y))).
  { intros Hk. exists x, "". repeat split; auto. }
  assert (Step : forall d : continuation,
             (forall y, d y = Some z ->
                repeatMatcher fuel m (Nat.pred min) (option_map Nat.pred max) greedy y k
                = Some z) ->
             m x d = Some z ->
             exists y pre, k y = Some z /\ rest x = pre ++ rest y
               /\ (inside = true -> all_chars P pre = true)
               /\ (good_capture P (cap x) -> good_capture P (cap y))).
  { intros d Hd Hmx. apply Hm in Hmx.
    destruct Hmx as (y & pre & Hy & Hrest & Hpre & Hcap).
    apply Hd in Hy. apply IH in Hy.
    destruct Hy as (y' & pre' & Hy' & Hrest' & Hpre' & Hcap').
    exists y', (pre ++ pre'). repeat split.
    - assumption.
    - rewrite Hrest, Hrest'. symmetry. apply append_assoc.
    - intros Hin. rewrite all_chars_app, Hpre, Hpre' by assumption. reflexivity.
    - auto. }
  simpl in H.
  set (d := fun y : mstate =>
              if (min =? 0)%nat && (String.length (rest y) =? String.length (rest x))%nat
              then None
              else repeatMatcher fuel m (Nat.pred min) (option_map Nat.pred max) greedy y k)
    in H.
  assert (Hd : forall y, d y = Some z ->
               repeatMatcher fuel m (Nat.pred min) (option_map Nat.pred max) greedy y k
               = Some z).
  { intros y. unfold d. destruct (_ && _); [discriminate|tauto]. }
  destruct max as [[|max]|].
  - apply Stop. assumption.
  - destruct (negb (min =? 0)%nat); [apply (Step d Hd H)|].
    destruct greedy.
    + destruct (m x d) eqn:E; [apply (Step d Hd); congruence|apply Stop; assumption].
    + destruct (k x) eqn:E; [apply Stop; congruence|apply (Step d Hd H)].
  - destruct (negb (min =? 0)%nat); [apply (Step d Hd H)|].
    destruct greedy.
    + destruct (m x d) eqn:E; [apply (Step d Hd); congruence|apply Stop; assumption].
    + destruct (k x) eqn:E; [apply Stop; congruence|apply (Step d Hd H)].
Qed.

Lemma consumed_prefix x y pre : rest x = pre ++ rest y -> consumed x y = pre.
Proof.
  intros H. unfold consumed. rewrite H, length_append.
  replace (String.length pre + String.length (rest y) - String.length (rest y))
    with (String.length pre) by lia.
  apply substring_prefix.
Qed.

Lemma rmatch_respects r : forall inside,
  captures_within ic P inside r -> respects P inside (rmatch ic r).
Proof.
  induction r as [|cs|r1 IH1 r2 IH2|r1 IH1 r2 IH2|min max greedy r IH|r IH|];
    intros inside Hr x k z H; simpl in H.
  - exists x, "". repeat split; auto.
  - destruct (rest x) as [|ch s'] eqn:E; [discriminate|].
    destruct (class_test ic cs ch) eqn:T; [|discriminate].
    exists (MState s' (cap x)), (String ch ""). repeat split; auto.
    intros Hin. simpl. rewrite (Hr Hin ch T). reflexivity.
  - destruct Hr as [Hr1 Hr2].
    apply (IH1 inside Hr1) in H. destruct H as (y & pre & Hy & Hrest & Hpre & Hcap).
    apply (IH2 inside Hr2) in Hy. destruct Hy as (y' & pre' & Hy' & Hrest' & Hpre' & Hcap').
    exists y', (pre ++ pre'). repeat split.
    + assumption.
    + rewrite Hrest, Hrest'. symmetry. apply append_assoc.
    + intros Hin. rewrite all_chars_app, Hpre, Hpre' by assumption. reflexivity.
    + auto.
  - destruct Hr as [Hr1 Hr2].
    destruct (rmatch ic r1 x k) eqn:E.
    + apply (IH1 inside Hr1 x k z). congruence.
    + apply (IH2 inside Hr2 x k z). assumption.
  - apply (repeat_respects inside (rmatch ic r) (IH inside Hr)) in H. assumption.
  - apply (IH true Hr) in H. destruct H as (y & pre & Hy & Hrest & Hpre & Hcap).
    exists (MState (rest y) (Some (consumed x y))), pre. repeat split.
    + assumption.
    + assumption.
    + intros _. apply Hpre. reflexivity.
    + intros _. simpl. rewrite (@consumed_prefix x y pre Hrest). apply Hpre. reflexivity.
  - destruct (rest x) eqn:E; [|discriminate].
    exists x, "". repeat split; auto.
Qed.

Lemma matchAt_capture p s m0 c :
  ignoreCase p = ic -> captures_within ic P false (body p) ->
  matchAt p s = Some (m0, Some c) -> all_chars P c = true.
Proof.
  intros Hic Hr H. unfold matchAt in H. rewrite Hic in H.
  destruct (rmatch ic (body p) (MState s None) Some) as [y|] eqn:E; [|discriminate].
  apply (@rmatch_respects (body p) false Hr) in E. destruct E as (y' & pre & Hy & _ & _ & Hcap).
  inversion Hy; subst y'. inversion H as [[Hm Hc]].
  specialize (Hcap I). rewrite Hc in Hcap. exact Hcap.
Qed.

Lemma exec_capture p s m0 c :
  ignoreCase p = ic -> captures_within ic P false (body p) ->
  exec p s = Some (m0, Some c) -> all_chars P c = true.
Proof.
  intros Hic Hr. induction s as [|ch s IH]; simpl; intros H.
  - destruct (matchAt p "") as [res|] eqn:E; [|discriminate].
    inversion H; subst res. exact (@matchAt_capture p _ _ _ Hic Hr E).
  - destruct (matchAt p (String ch s)) as [res|] eqn:E; [|auto].
    inversion H; subst res. exact (@matchAt_capture p _ _ _ Hic Hr E).
Qed.

End Captures.

End RegExpFacts.

(** ** Numbers: the largest of a list *)

Module NumberFacts.
Import Number.

Lemma compare_cont_eq p q : Pos.compare_cont Eq p q = (p ?= q)%positive.
Proof. reflexivity. Qed.

Ltac order_cases :=
  repeat match goal with
         | |- context [Pos.compare_cont Eq ?a ?b] => rewrite (compare_cont_eq a b)
         | |- context [(?a ?= ?b)%Z] => destruct (Z.compare_spec a b)
         | |- context [(?a ?= ?b)%positive] => destruct (Pos.compare_spec a b)
         end;
  simpl; try discriminate; try reflexivity; try lia.

Lemma SFltb_trans a b c : SFltb a b = true -> SFltb b c = true -> SFltb a c = true.
Proof.
  unfold SFltb, SFcompare.
  destruct a as [[]|[]| |[] ma ea], b as [[]|[]| |[] mb eb], c as [[]|[]| |[] mc ec];
    try discriminate; try reflexivity; rewrite ?compare_cont_eq; order_cases.
Qed.

Lemma SFltb_irrefl a : SFltb a a = false.
Proof.
  unfold SFltb, SFcompare. destruct a as [[]|[]| |[] m e]; try reflexivity;
    rewrite ?compare_cont_eq, Z.compare_refl, Pos.compare_refl; reflexivity.
Qed.

Lemma SFltb_zero_sign s t v : SFltb (S754_zero s) v = SFltb (S754_zero t) v.
Proof. destruct v; reflexivity. Qed.

Lemma below_all v :
  isNaN v = false -> SFltb (S754_infinity true) v = false -> v = S754_infinity true.
Proof. destruct v as [[]|[]| |[] m e]; simpl; intros; try discriminate; reflexivity. Qed.

Lemma max2_cases hi x : isNaN hi = false -> isNaN x = false ->
  (max2 hi x = x /\ (SFltb hi x = true \/ exists s t, hi = S754_zero s /\ x = S754_zero t))
  \/ (max2 hi x = hi /\ SFltb hi x = false).
Proof.
  intros Hh Hx. unfold max2.
  destruct hi as [[]|[]| |[] mh eh]; try discriminate Hh;
    destruct x as [[]|[]| |[] mx ex]; try discriminate Hx;
    try (destruct (SFltb _ _) eqn:E; [left; split; [reflexivity|left; reflexivity]
                                     |right; split; reflexivity]).
  left. split; [reflexivity|]. right. eauto.
Qed.

Lemma fold_max2 xs : forall hi seen,
  Forall (fun v => isNaN v = false) xs ->
  isNaN hi = false ->
  (hi = S754_infinity true \/ In hi seen) ->
  (forall v, In v seen -> SFltb hi v = false) ->
  let m := fold_left max2 xs hi in
  isNaN m = false
  /\ (m = S754_infinity true \/ In m (seen ++ xs))
  /\ (forall v, In v (seen ++ xs) -> SFltb m v = false).
Proof.
  induction xs as [|x xs IH]; intros hi seen Hxs Hhi Hin Hle; simpl.
  - rewrite app_nil_r. auto.
  - inversion Hxs as [|? ? Hx Hrest]; subst.
    replace (seen ++ x :: xs)%list with ((seen ++ [x]) ++ xs)%list
      by (rewrite <- app_assoc; reflexivity).
    destruct (max2_cases hi x Hhi Hx) as [[E Hlt]|[E Hlt]]; rewrite E.
    + apply IH; try assumption.
      * right. apply in_or_app. right. left. reflexivity.
      * intros v Hv. apply in_app_or in Hv. destruct Hv as [Hv|[<-|[]]];
          [|apply SFltb_irrefl].
        destruct Hlt as [Hlt|(s & t & -> & ->)].
        -- destruct (SFltb x v) eqn:Q; [|reflexivity].
           specialize (Hle v Hv). rewrite (SFltb_trans hi x v Hlt Q) in Hle.
           discriminate Hle.
        -- rewrite (SFltb_zero_sign t s). apply Hle. assumption.
    + apply IH; try assumption.
      * destruct Hin as [Hin|Hin]; [left; assumption|].
        right. apply in_or_app. left. assumption.
      * intros v Hv. apply in_app_or in Hv. destruct Hv as [Hv|[<-|[]]]; auto.
Qed.

(** [Math.max] of a non-empty list without [NaN] is one of its elements,
    and none of them is greater. *)
Lemma max_greatest xs :
  xs <> [] -> Forall (fun v => isNaN v = false) xs ->
  In (max xs) xs /\ forall v, In v xs -> SFltb (max xs) v = false.
Proof.
  intros Hne Hxs. unfold max.
  destruct (fold_max2 xs (S754_infinity true) [] Hxs eq_refl (or_introl eq_refl)
              (fun v (H : In v []) => match H with end)) as (Hn & Hin & Hle).
  simpl in Hin, Hle. split; [|assumption].
  destruct Hin as [E|Hin]; [|assumption].
  destruct xs as [|x xs]; [congruence|].
  inversion Hxs as [|? ? Hx Hrest]; subst.
  pose proof (Hle x (or_introl eq_refl)) as Hlx. rewrite E in Hlx.
  rewrite E. rewrite <- (below_all x Hx Hlx) at 1. left. reflexivity.
Qed.

(** *** Reading and printing: sample values *)

Example parseFloat_tenth :
  parseFloat "0.1" = S754_finite false 7205759403792794 (-56).
Proof. vm_compute. reflexivity. Qed.

Example toString_round_trips :
  map (fun s => toString (parseFloat s))
      ["0.1"; "1.50"; " 1200.50"; "1999"; "5."; ".5"; "00012"; "4.35";
       "0.30000000000000004"; "123456789.123456789"; "9007199254740993";
       "12345678901234567890"; "123456789012345680000"; "1e21"; "1e23";
       "0.000001"; "0.0000005"; "5e-324"; "2e-324"; "1.7976931348623157e308";
       "1e400"; "-0"; "-12.5e-3x"; "."; ""]
  = ["0.1"; "1.5"; "1200.5"; "1999"; "5"; "0.5"; "12"; "4.35";
     "0.30000000000000004"; "123456789.12345679"; "9007199254740992";
     "12345678901234567000"; "123456789012345680000"; "1e+21"; "1e+23";
     "0.000001"; "5e-7"; "5e-324"; "0"; "1.7976931348623157e+308";
     "Infinity"; "0"; "-0.0125"; "NaN"; "NaN"].
Proof. vm_compute. reflexivity. Qed.

End NumberFacts.

(** ** Extraction: a field is empty or has a visible character *)

Module ExtractionFacts.
Import JSString RegExp Patterns TextSpec StringFacts RegExpFacts DataExtractionModule.

Lemma class_within ic cs P :
  forallb (fun ch => implb (class_test ic cs ch) (P ch)) alphabet = true ->
  forall ch, class_test ic cs ch = true -> P ch = true.
Proof.
  intros H ch T.
  pose proof (for_all_ascii (fun ch => implb (class_test ic cs ch) (P ch)) H ch) as Q.
  simpl in Q. rewrite T in Q. exact Q.
Qed.

Lemma captured_chars ic P p text c :
  ignoreCase p = ic -> captures_within ic P false (body p) ->
  captured p text = Some c -> all_chars P c = true.
Proof.
  intros Hic Hr H. unfold captured in H.
  destruct (exec p text) as [[m0 [c'|]]|] eqn:E; try discriminate.
  destruct (c' =? "")%string; [discriminate|]. inversion H; subst c'.
  exact (@exec_capture ic P p text m0 c Hic Hr E).
Qed.

Lemma firstCapture_chars ic P ps text c :
  Forall (fun p => ignoreCase p = ic /\ captures_within ic P false (body p)) ps ->
  firstCapture ps text = Some c -> all_chars P c = true.
Proof.
  induction ps as [|p ps IH]; simpl; intros Hps H; [discriminate|].
  inversion Hps as [|p' ps' [Hic Hr] Hrest E1]; clear Hps.
  destruct (captured p text) as [c'|] eqn:E.
  - inversion H; subst c'. exact (@captured_chars ic P p text c Hic Hr E).
  - apply IH; assumption.
Qed.

Ltac capture_classes :=
  repeat (apply List.Forall_cons; [split; [reflexivity|]|]); [..|apply List.Forall_nil];
  cbn -[class_test]; repeat split;
  try (intros Hin; discriminate Hin);
  intros _; apply class_within; vm_compute; reflexivity.

Lemma gstPatterns_capture_digits :
  Forall (fun p => ignoreCase p = true /\ captures_within true nonspace false (body p))
         gstPatterns.
Proof. capture_classes. Qed.

Lemma totalPatterns_capture_digits :
  Forall (fun p => ignoreCase p = true /\ captures_within true nonspace false (body p))
         totalPatterns.
Proof. capture_classes. Qed.

Lemma decimal_nonspace z : has_nonspace (Number.decimal z) = true.
Proof.
  unfold Number.decimal. destruct (N.to_uint (Z.to_N z)); reflexivity.
Qed.

Lemma layout_nonspace z k n : has_nonspace (Number.layout (Number.decimal z) k n) = true.
Proof.
  unfold Number.layout.
  repeat match goal with |- context [if ?b then _ else _] => destruct b end;
    rewrite ?has_nonspace_app, ?decimal_nonspace, ?orb_true_r; try reflexivity;
    simpl; rewrite ?orb_true_r; reflexivity.
Qed.

Lemma toString_nonspace x : has_nonspace (Number.toString x) = true.
Proof.
  destruct x as [s|s| |s m e]; try (destruct s; reflexivity); [reflexivity|].
  unfold Number.toString. destruct (Number.fraction m e) as [num den].
  destruct (Number.shortest _ _ _ _ _ _) as [[d n'] k].
  rewrite has_nonspace_app, layout_nonspace. apply orb_true_r.
Qed.

Lemma split_on_head p c r :
  p c = false -> exists t rest, split_on p (String c r) = String c t :: rest.
Proof.
  intros E. simpl. rewrite E. destruct (split_on p r); eauto.
Qed.

Lemma firstLine_head c r : is_space c = false ->
  exists t, firstLine (String c r) = String c t.
Proof.
  intros E. unfold firstLine.
  assert (N : Ascii.eqb "010" c = false).
  { destruct (Ascii.eqb "010" c) eqn:Q; [|reflexivity].
    apply Ascii.eqb_eq in Q. subst c. discriminate E. }
  destruct (@split_on_head (Ascii.eqb "010") c r N) as [t [rest H]].
  rewrite H. eauto.
Qed.

Lemma empty_or_nonblank_billNo text :
  extractBillNo text = "" \/ nonblank (extractBillNo text) = true.
Proof.
  unfold extractBillNo. destruct (firstCapture _ _); [apply trim_blank|left; reflexivity].
Qed.

Lemma formatDate_nonblank p0 p1 p2 : nonblank (formatDate p0 p1 p2) = true.
Proof.
  rewrite nonblank_has_nonspace. unfold formatDate.
  destruct (_ =? 4)%nat; rewrite !has_nonspace_app; simpl; rewrite ?orb_true_r; reflexivity.
Qed.

Lemma empty_or_nonblank_date ps text :
  extractDate ps text = "" \/ nonblank (extractDate ps text) = true.
Proof.
  induction ps as [|p ps IH]; simpl; [left; reflexivity|].
  destruct (captured p text) as [c|]; [|assumption].
  destruct (split_on sep (trim c)) as [|p0 [|p1 [|p2 [|p3 l]]]]; try assumption.
  right. apply formatDate_nonblank.
Qed.

Lemma empty_or_nonblank_customer text :
  extractCustomer text = "" \/ nonblank (extractCustomer text) = true.
Proof.
  unfold extractCustomer. destruct (firstCapture _ _) as [c|]; [|left; reflexivity].
  destruct (trim_head c) as [H|[ch [r [H E]]]]; rewrite H.
  - left. reflexivity.
  - destruct (firstLine_head ch r E) as [t Ht]. rewrite Ht. right.
    rewrite nonblank_has_nonspace. simpl. rewrite E. reflexivity.
Qed.

Lemma empty_or_nonblank_gst text :
  extractGst text = "" \/ nonblank (extractGst text) = true.
Proof.
  unfold extractGst. destruct (firstCapture gstPatterns text) as [c|] eqn:E;
    [|left; reflexivity].
  apply remove_chars_blank.
  exact (@firstCapture_chars true nonspace gstPatterns text c gstPatterns_capture_digits E).
Qed.

Lemma empty_or_nonblank_labelledTotal text :
  labelledTotal text = "" \/ nonblank (labelledTotal text) = true.
Proof.
  unfold labelledTotal. destruct (firstCapture totalPatterns text) as [c|] eqn:E;
    [|left; reflexivity].
  apply remove_chars_blank.
  exact (@firstCapture_chars true nonspace totalPatterns text c
           totalPatterns_capture_digits E).
Qed.

Lemma empty_or_nonblank_total text :
  extractTotal text = "" \/ nonblank (extractTotal text) = true.
Proof.
  unfold extractTotal. destruct (labelledTotal text =? "")%string eqn:E.
  - unfold largestNumber. destruct (matchAll _ _); [|left; reflexivity].
    destruct (numericValues _); [left; reflexivity|].
    right. rewrite nonblank_has_nonspace. apply toString_nonspace.
  - destruct (empty_or_nonblank_labelledTotal text) as [H|H]; [|right; assumption].
    rewrite H in E. discriminate E.
Qed.

(** Every extracted field is either empty or passes the test
    [v && v.trim() !== '']: no field consists of white space only. *)
Lemma empty_or_nonblank text f :
  get f (extractBillData text) = "" \/ nonblank (get f (extractBillData text)) = true.
Proof.
  destruct f; unfold extractBillData; cbn [get billNo date customer gst total].
  - apply empty_or_nonblank_billNo.
  - apply empty_or_nonblank_date.
  - apply empty_or_nonblank_customer.
  - apply empty_or_nonblank_gst.
  - apply empty_or_nonblank_total.
Qed.

Lemma nonblank_iff_nonempty text f :
  nonblank (get f (extractBillData text)) = negb (get f (extractBillData text) =? "").
Proof.
  destruct (empty_or_nonblank text f) as [H|H].
  - rewrite H. reflexivity.
  - rewrite H. destruct (get f (extractBillData text)) eqn:E; [discriminate H|reflexivity].
Qed.

(** *** The date field *)

Lemma extractDate_parts ps text :
  extractDate ps text
  = match ExtractionSpec.dateParts ps text with
    | Some (p0, p1, p2) => formatDate p0 p1 p2
    | None => ""
    end.
Proof.
  induction ps as [|p ps IH]; simpl; [reflexivity|].
  destruct (captured p text) as [c|]; [|assumption].
  destruct (split_on sep (trim c)) as [|p0 [|p1 [|p2 [|p3 l]]]]; try assumption.
  reflexivity.
Qed.

Lemma padStart_zeroPadded s : padStart 2 "0" s = ExtractionSpec.zeroPadded s.
Proof. destruct s as [|c [|d r]]; reflexivity. Qed.

(** C5.  When the matched date token splits on [/] or [-] into exactly three
    parts, the date field is built from them: a first part of four
    characters makes the token year-month-day; otherwise it is
    day-month-year, a two-digit year getting the prefix 20; month and day are
    padded with zeros to two digits.  In particular ["Date: 25/12/2024"]
    yields ["2024-12-25"] and ["2024-1-5"] yields ["2024-01-05"]. *)
Theorem C5_date_normalization :
  (forall text p0 p1 p2,
     ExtractionSpec.dateParts datePatterns text = Some (p0, p1, p2) ->
     date (extractBillData text)
     = if (String.length p0 =? 4)%nat
       then ExtractionSpec.isoDate p0 (ExtractionSpec.zeroPadded p1)
                                   (ExtractionSpec.zeroPadded p2)
       else ExtractionSpec.isoDate (ExtractionSpec.fullYear p2)
                                   (ExtractionSpec.zeroPadded p1)
                                   (ExtractionSpec.zeroPadded p0))
  /\ date (extractBillData "Date: 25/12/2024") = "2024-12-25"
  /\ date (extractBillData "2024-1-5") = "2024-01-05".
Proof.
  split; [|split; vm_compute; reflexivity].
  intros text p0 p1 p2 H. unfold extractBillData. cbn [date].
  rewrite extractDate_parts, H. unfold formatDate.
  rewrite !padStart_zeroPadded. reflexivity.
Qed.

Lemma C5_date_normalization_witness :
  ExtractionSpec.dateParts datePatterns "Date: 25/12/2024" = Some ("25", "12", "2024")
  /\ date (extractBillData "Date: 25/12/2024")
     = ExtractionSpec.isoDate (ExtractionSpec.fullYear "2024")
                              (ExtractionSpec.zeroPadded "12")
                              (ExtractionSpec.zeroPadded "25").
Proof.
  assert (H : ExtractionSpec.dateParts datePatterns "Date: 25/12/2024"
              = Some ("25", "12", "2024")) by (vm_compute; reflexivity).
  split; [exact H|].
  exact (proj1 C5_date_normalization "Date: 25/12/2024" "25" "12" "2024" H).
Defined.

(** *** The total field *)

Lemma numericValues_numbers numbers :
  Forall (fun v => Number.isNaN v = false) (numericValues numbers).
Proof.
  unfold numericValues. apply List.Forall_forall. intros v Hv.
  apply filter_In in Hv. destruct Hv as [_ Hv].
  apply negb_true_iff in Hv. exact Hv.
Qed.

Lemma unlabelled_total text : ExtractionSpec.unlabelled text -> labelledTotal text = "".
Proof.
  unfold labelledTotal, ExtractionSpec.unlabelled. intros [H|[c [H E]]]; rewrite H; [reflexivity|exact E].
Qed.

(** C6, as amended.  When a total label pattern matches and its capture,
    commas removed, is not empty, the total is that text, decimal point
    included.  Otherwise the total is the printed form of the greatest of the
    numbers that the numeric-looking tokens of the text denote once currency
    signs and commas are removed, and it is empty when no token denotes a
    number.  In particular ["Total 1,200.50"] yields ["1200.50"] and a text
    with the tokens 50, 1999 and 3 and no label yields ["1999"]; a rupee
    sign before an amount is part of the match and is dropped with the
    commas. *)
Theorem C6_total :
  (forall text c,
     firstCapture totalPatterns text = Some c -> removeCommas c <> "" ->
     total (extractBillData text) = removeCommas c)
  /\ (forall text numbers,
        ExtractionSpec.unlabelled text ->
        matchAll numberPattern text = Some numbers ->
        numericValues numbers <> [] ->
        total (extractBillData text)
        = Number.toString (Number.max (numericValues numbers))
        /\ ExtractionSpec.greatest (Number.max (numericValues numbers))
                                   (numericValues numbers))
  /\ (forall text,
        ExtractionSpec.unlabelled text ->
        (matchAll numberPattern text = None
         \/ exists numbers, matchAll numberPattern text = Some numbers
                            /\ numericValues numbers = []) ->
        total (extractBillData text) = "")
  /\ total (extractBillData "Total 1,200.50") = "1200.50"
  /\ total (extractBillData "Items 50 and 1999 and 3") = "1999"
  /\ total (extractBillData ("Total " ++ String rupee "500 and 900")) = "500"
  /\ total (extractBillData (String rupee "75 due, " ++ String rupee "1,250 paid"))
     = "1250".
Proof.
  split; [|split; [|split; [|repeat split; vm_compute; reflexivity]]].
  - intros text c H N. unfold extractBillData. cbn [total].
    unfold extractTotal, labelledTotal. rewrite H.
    destruct (removeCommas c) eqn:E; [congruence|reflexivity].
  - intros text numbers U M N. split.
    + unfold extractBillData. cbn [total]. unfold extractTotal.
      rewrite (unlabelled_total text U). simpl. unfold largestNumber. rewrite M.
      destruct (numericValues numbers); [congruence|reflexivity].
    + apply NumberFacts.max_greatest; [assumption|apply numericValues_numbers].
  - intros text U M. unfold extractBillData. cbn [total]. unfold extractTotal.
    rewrite (unlabelled_total text U). simpl. unfold largestNumber.
    destruct M as [M|[numbers [M E]]]; rewrite M; [reflexivity|].
    rewrite E. reflexivity.
Qed.

Lemma C6_total_witness :
  firstCapture totalPatterns "Total 1,200.50" = Some "1,200.50"
  /\ removeCommas "1,200.50" <> ""
  /\ total (extractBillData "Total 1,200.50") = removeCommas "1,200.50".
Proof.
  assert (H : firstCapture totalPatterns "Total 1,200.50" = Some "1,200.50")
    by (vm_compute; reflexivity).
  assert (N : removeCommas "1,200.50" <> "") by (vm_compute; discriminate).
  split; [exact H|]. split; [exact N|].
  exact (proj1 C6_total "Total 1,200.50" "1,200.50" H N).
Defined.

(** C6 as stated fails when the label captures commas only: in
    ["Total , 55"] the label pattern matches with the capture [","], whose
    text without commas is empty, and the total is ["55"], the largest number
    of the text. *)
Lemma C6_counterexample :
  firstCapture totalPatterns "Total , 55" = Some ","
  /\ removeCommas "," = ""
  /\ total (extractBillData "Total , 55") = "55".
Proof. repeat split; vm_compute; reflexivity. Qed.

(** *** The confidence of a field *)

Lemma prefix_iff t : forall s, String.prefix t s = true <-> exists post, s = t ++ post.
Proof.
  induction t as [|c t IH]; intros s.
  - split; [intros _; exists s; reflexivity|intros _; destruct s; reflexivity].
  - destruct s as [|d s]; simpl.
    + split; [discriminate|]. intros [post H]. rewrite append_cons in H. discriminate H.
    + destruct (ascii_dec c d) as [->|N].
      * rewrite IH. split; intros [post H]; exists post.
        -- rewrite append_cons, H. reflexivity.
        -- rewrite append_cons in H. inversion H. reflexivity.
      * split; [discriminate|]. intros [post H].
        rewrite append_cons in H. inversion H. congruence.
Qed.

Lemma includes_iff s : forall t, includes s t = true <-> occurs_in t s.
Proof.
  unfold occurs_in. induction s as [|c s IH]; intros t.
  - change (includes "" t) with (String.prefix t "" || false).
    rewrite orb_false_r, prefix_iff. split.
    + intros [post H]. exists "", post. exact H.
    + intros [pre [post H]]. destruct pre as [|d pre]; [exists post; exact H|].
      rewrite append_cons in H. discriminate H.
  - change (includes (String c s) t)
      with (String.prefix t (String c s) || includes s t).
    rewrite orb_true_iff, prefix_iff, IH. split.
    + intros [[post H]|[pre [post H]]].
      * exists "", post. exact H.
      * exists (String c pre), post. rewrite append_cons, H. reflexivity.
    + intros [pre [post H]]. destruct pre as [|d pre].
      * left. exists post. exact H.
      * right. rewrite append_cons in H. inversion H. exists pre, post. reflexivity.
Qed.

Lemma wordMatches_agree v w : wordMatches v w = true <-> ExtractionSpec.agree v w.
Proof.
  unfold wordMatches, ExtractionSpec.agree.
  rewrite orb_true_iff, !includes_iff. tauto.
Qed.

Lemma sumConfidence_from ws : forall a,
  (fold_left (fun sum word => sum + wordConfidence word) ws a
   == a + ExtractionSpec.total (map wordConfidence ws))%Q.
Proof.
  induction ws as [|w ws IH]; intros a; simpl.
  - symmetry. apply Qplus_0_r.
  - rewrite IH. symmetry. apply Qplus_assoc.
Qed.

Lemma sumConfidence_total ws :
  (sumConfidence ws == ExtractionSpec.total (map wordConfidence ws))%Q.
Proof. unfold sumConfidence. rewrite sumConfidence_from. apply Qplus_0_l. Qed.

Lemma nonblank_extracted text f :
  get f (extractBillData text) <> "" -> nonblank (get f (extractBillData text)) = true.
Proof.
  intros N. destruct (empty_or_nonblank text f) as [H|H]; [contradiction|exact H].
Qed.

(** The confidence of a field in the cases that the fallback on the overall
    confidence does not decide, and in those where it is present and not
    zero, or absent.  For the value [v] that [extractBillData] gives a field
    and the words of the recogniser: the confidence is 0 when [v] is empty;
    when [v] is not empty and some word agrees with it (letter case aside, one
    text occurs in the other), it is the mean of the confidences of the
    agreeing words over 100; when no word agrees, it is the overall confidence
    over 100 if that is present and not zero, and 0.5 if it is absent. *)
Lemma field_confidence_cases (text : string) (ocrData : OCRData)
    (st : ConfidenceModule.fieldConfidences) (f : Field.t) :
  let e := fst (extractBillDataWithConfidence text ocrData st) in
  let v := get f (billData e) in
  let c := fieldConfidences e f in
  let matching := List.filter (wordMatches v) (words ocrData) in
  billData e = extractBillData text
  /\ (forall w, wordMatches v w = true <-> ExtractionSpec.agree v w)
  /\ (v = "" -> c == 0)%Q
  /\ (v <> "" -> matching <> [] ->
      c == ExtractionSpec.mean (map wordConfidence matching) / 100)%Q
  /\ (v <> "" -> matching = [] ->
      forall oc, confidence ocrData = Some oc -> ~ (oc == 0)%Q -> c == oc / 100)%Q
  /\ (v <> "" -> matching = [] -> confidence ocrData = None -> c == 1 # 2)%Q.
Proof.
  cbv zeta. unfold extractBillDataWithConfidence.
  cbn [fst billData fieldConfidences]. unfold getFieldConfidence.
  split; [reflexivity|]. split; [intros w; apply wordMatches_agree|].
  split; [intros ->; reflexivity|].
  split; [|split].
  - intros N M. rewrite (nonblank_extracted text f N). cbn [negb].
    destruct (List.filter _ _) as [|w ws] eqn:E; [congruence|].
    unfold ExtractionSpec.mean. rewrite sumConfidence_total, List.length_map. reflexivity.
  - intros N M oc Hoc Hz. rewrite (nonblank_extracted text f N). cbn [negb].
    rewrite M, Hoc.
    destruct (Qeq_bool oc 0) eqn:Q; [|reflexivity].
    apply Qeq_bool_iff in Q. contradiction.
  - intros N M Hoc. rewrite (nonblank_extracted text f N). cbn [negb].
    rewrite M, Hoc. reflexivity.
Qed.

(** C8.  The fallback [ocrData.confidence ? ocrData.confidence / 100 : 0.5]
    stands under the comment "use average confidence or default", yet it
    takes an overall confidence that is present and zero for a missing one:
    for the text ["Total 100"], no word and the overall confidence 0, the
    total is ["100"], no word agrees with it, and its confidence is 0.5,
    where the overall confidence over 100 is 0. *)
Theorem C8_zero_overall_confidence :
  let ocrData := {| words := []; confidence := Some 0%Q |} in
  let e := fst (extractBillDataWithConfidence "Total 100" ocrData ∅) in
  get Field.total (billData e) = "100"
  /\ List.filter (wordMatches "100") (words ocrData) = []
  /\ (fieldConfidences e Field.total == 1 # 2)%Q
  /\ ~ (fieldConfidences e Field.total == 0 / 100)%Q.
Proof.
  cbv zeta. split; [vm_compute; reflexivity|]. split; [reflexivity|].
  split; [vm_compute; reflexivity|]. vm_compute. discriminate.
Qed.

(** A rupee sign between the label and the amount belongs to the match of
    the GST pattern as well. *)
Example rupee_gst :
  gst (extractBillData ("GST: " ++ String rupee " 1,180.00")) = "1180.00".
Proof. vm_compute. reflexivity. Qed.

(** *** Sample texts *)

Example extract_invoice :
  extractBillData
    ("Invoice No: INV-77" ++ String "010" "Date: 1/2/24" ++ String "010" "Bill To: Acme & Sons"
     ++ String "010" "GST: 1,234.5" ++ String "010" "Grand Total: $ 12,345.50")
  = {| billNo := "INV-77"; date := "2024-02-01"; customer := "Acme & Sons";
       gst := "1234.5"; total := "12345.50" |}.
Proof. vm_compute. reflexivity. Qed.

(** The day-first pattern is tried before the year-first one and finds
    ["24-01-15"] inside an ISO date. *)
Example extract_iso_date :
  ExtractionSpec.dateParts datePatterns "2024-01-15" = Some ("24", "01", "15")
  /\ date (extractBillData "2024-01-15") = "2015-01-24".
Proof. split; vm_compute; reflexivity. Qed.

Example extract_nothing :
  extractBillData ""
  = {| billNo := ""; date := ""; customer := ""; gst := ""; total := "" |}.
Proof. vm_compute. reflexivity. Qed.

End ExtractionFacts.

(** ** The confidence table *)

Module ConfidenceFacts.
Import ConfidenceModule ConfidenceSpec.
Local Open Scope Q_scope.

Lemma lookup_set_same f c v this :
  getFieldConfidence f (setFieldConfidence f c v this)
  = {| confidence := inject_Z (round (c * 100)) / 100;
       value := Some v;
       needsReview := lt c (7 # 10);
       status := if ge c (8 # 10) then high
                 else if ge c (6 # 10) then medium else low |}.
Proof.
  unfold getFieldConfidence, setFieldConfidence.
  rewrite lookup_insert_eq. reflexivity.
Qed.

Lemma lookup_recordAll_other f rs : forall this,
  Forall (fun r => fieldOf r <> f) rs ->
  recordAll rs this !! f = this !! f.
Proof.
  induction rs as [|r rs IH]; intros this Hrs; simpl; [reflexivity|].
  inversion Hrs as [|? ? Hr Hrest]; subst.
  unfold recordAll in *. simpl. rewrite IH by assumption.
  unfold setFieldConfidence. apply lookup_insert_ne. exact Hr.
Qed.

Lemma recorded_status_banded f c v this :
  banded (status (getFieldConfidence f (setFieldConfidence f c v this))).
Proof.
  rewrite lookup_set_same. simpl. unfold banded.
  destruct (ge c (8 # 10)); [tauto|]. destruct (ge c (6 # 10)); tauto.
Qed.

Lemma lt_iff a b : lt a b = true <-> a < b.
Proof.
  unfold lt. rewrite negb_true_iff. split.
  - intros H. apply Qnot_le_lt. intros Hle. apply Qle_bool_iff in Hle. congruence.
  - intros H. destruct (Qle_bool b a) eqn:E; [|reflexivity].
    apply Qle_bool_iff in E. exfalso. exact (Qlt_not_le _ _ H E).
Qed.

Lemma ge_iff a b : ge a b = true <-> b <= a.
Proof. unfold ge. apply Qle_bool_iff. Qed.

Lemma round_bounds c : 0 <= c -> c <= 1 -> (0 <= round (c * 100) <= 100)%Z.
Proof.
  intros H0 H1. unfold round.
  assert (Hlo : (Qfloor 0 <= Qfloor (c * 100 + (1 # 2)))%Z)
    by (apply Qfloor_resp_le; lra).
  assert (Hhi : (Qfloor (c * 100 + (1 # 2)) <= Qfloor (201 # 2))%Z)
    by (apply Qfloor_resp_le; lra).
  change (Qfloor 0) with 0%Z in Hlo. change (Qfloor (201 # 2)) with 100%Z in Hhi.
  lia.
Qed.

Lemma scaled_bounds z : (0 <= z <= 100)%Z -> 0 <= inject_Z z / 100 /\ inject_Z z / 100 <= 1.
Proof.
  intros [H0 H1]. unfold Qdiv, Qmult, Qle, inject_Z. simpl. lia.
Qed.

(** C10.  For a field that no recording since the last [reset] names,
    [getFieldConfidence] returns the entry with confidence 0, [needsReview]
    true and status unknown, which is none of the statuses high, medium and
    low that a recorded entry carries. *)
Theorem C10_unrecorded_field (rs : list recording) (f : Field.t)
    (this : fieldConfidences) :
  Forall (fun r => fieldOf r <> f) rs ->
  let e := getFieldConfidence f (recordAll rs (reset this)) in
  confidence e = 0 /\ needsReview e = true /\ status e = unknown
  /\ ~ banded (status e)
  /\ (forall g c v st,
        banded (status (getFieldConfidence g (setFieldConfidence g c v st)))).
Proof.
  intros Hrs e. subst e. unfold getFieldConfidence at 1 2 3 4.
  rewrite (lookup_recordAll_other f rs (reset this) Hrs).
  unfold reset. rewrite lookup_empty. simpl.
  repeat split; try reflexivity.
  - unfold banded. intros [H|[H|H]]; discriminate.
  - intros. apply recorded_status_banded.
Qed.

Lemma C10_unrecorded_field_witness :
  let rs := [(Field.total, 1, "100")] in
  let e := getFieldConfidence Field.date (recordAll rs (reset ∅)) in
  confidence e = 0 /\ needsReview e = true /\ status e = unknown
  /\ ~ banded (status e)
  /\ (forall g c v st,
        banded (status (getFieldConfidence g (setFieldConfidence g c v st)))).
Proof.
  apply (C10_unrecorded_field [(Field.total, 1, "100")] Field.date ∅).
  repeat constructor. discriminate.
Defined.

End ConfidenceFacts.

(** ** Rounding to binary64 stays below a number *)

Module Binary64Facts.
Import Number Binary64 Binary64Spec.
Local Open Scope Z_scope.

(** *** The length of a mantissa *)

Lemma digits2_bounds p :
  2 ^ (Z.pos (digits2_pos p) - 1) <= Z.pos p < 2 ^ Z.pos (digits2_pos p).
Proof.
  induction p as [p IH|p IH|]; cbn [digits2_pos]; [| |simpl; lia].
  - rewrite Pos2Z.inj_succ. replace (Z.succ (Z.pos (digits2_pos p)) - 1)
      with (Z.succ (Z.pos (digits2_pos p) - 1)) by lia.
    rewrite !Z.pow_succ_r by lia. lia.
  - rewrite Pos2Z.inj_succ. replace (Z.succ (Z.pos (digits2_pos p)) - 1)
      with (Z.succ (Z.pos (digits2_pos p) - 1)) by lia.
    rewrite !Z.pow_succ_r by lia. lia.
Qed.

Lemma digits_le (m k : Z) : 0 <= k -> 0 <= m < 2 ^ k -> Zdigits2 m <= k.
Proof.
  intros Hk [H0 H]. destruct m as [|p|p]; simpl; [lia| |lia].
  pose proof (digits2_bounds p) as [B _].
  destruct (Z_le_gt_dec (Z.pos (digits2_pos p)) k) as [L|G]; [exact L|exfalso].
  assert (2 ^ k <= 2 ^ (Z.pos (digits2_pos p) - 1)) by (apply Z.pow_le_mono_r; lia).
  lia.
Qed.

Lemma digits_lt (m : Z) : 0 <= m -> m < 2 ^ Zdigits2 m.
Proof.
  intros H. destruct m as [|p|p]; simpl; [lia|apply digits2_bounds|lia].
Qed.

(** *** Shifting a mantissa to the right *)

Lemma shr_1_spec mrs :
  0 <= shr_m mrs ->
  shr_m (shr_1 mrs) = shr_m mrs / 2
  /\ (shr_r mrs = false -> shr_s mrs = false -> (2 | shr_m mrs) ->
      shr_r (shr_1 mrs) = false /\ shr_s (shr_1 mrs) = false).
Proof.
  destruct mrs as [m r s]. cbn [shr_m shr_r shr_s]. intros H.
  destruct m as [|[p|p|]|p]; cbn [shr_1 shr_m shr_r shr_s]; try lia.
  - split; [reflexivity|]. intros -> ->. auto.
  - split; [rewrite Pos2Z.inj_xI; apply Z.div_unique with 1; lia|].
    intros _ _ [k Hk]. lia.
  - split; [rewrite Pos2Z.inj_xO; apply Z.div_unique with 0; lia|].
    intros -> ->. auto.
  - split; [reflexivity|]. intros _ _ [k Hk]. lia.
Qed.

Lemma shr_1_sign mrs : 0 <= shr_m mrs -> 0 <= shr_m (shr_1 mrs).
Proof.
  intros H. rewrite (proj1 (shr_1_spec mrs H)). apply Z.div_pos; lia.
Qed.

Lemma shr_spec p : forall mrs,
  0 <= shr_m mrs ->
  let mrs' := SpecFloat.iter_pos shr_1 p mrs in
  shr_m mrs' = shr_m mrs / 2 ^ Z.pos p
  /\ (shr_r mrs = false -> shr_s mrs = false -> (2 ^ Z.pos p | shr_m mrs) ->
      shr_r mrs' = false /\ shr_s mrs' = false).
Proof.
  assert (Split : forall a b m, 0 < a -> 0 < b -> (a * b | m) -> (a | m) /\ (b | m / a)).
  { intros a b m Ha Hb [k Hk]. split; [exists (k * b); lia|].
    exists k. subst m. replace (k * (a * b)) with (k * b * a) by lia.
    rewrite Z.div_mul by lia. reflexivity. }
  induction p as [p IH|p IH|]; intros mrs H; cbn [SpecFloat.iter_pos].
  - pose proof (shr_1_spec mrs H) as [E1 X1].
    pose proof (shr_1_sign mrs H) as H1.
    pose proof (IH _ H1) as [E2 X2]. cbv zeta in E2, X2.
    assert (H2 : 0 <= shr_m (SpecFloat.iter_pos shr_1 p (shr_1 mrs))).
    { rewrite E2. apply Z.div_pos; [lia|apply Z.pow_pos_nonneg; lia]. }
    pose proof (IH _ H2) as [E3 X3]. cbv zeta in E3, X3.
    assert (P : 0 < 2 ^ Z.pos p) by (apply Z.pow_pos_nonneg; lia).
    assert (PP : 0 < 2 ^ Z.pos p * 2 ^ Z.pos p) by nia.
    assert (Q : 2 ^ Z.pos p~1 = 2 * (2 ^ Z.pos p * 2 ^ Z.pos p)).
    { replace (Z.pos p~1) with (1 + (Z.pos p + Z.pos p)) by lia.
      rewrite !Z.pow_add_r, Z.pow_1_r by lia. reflexivity. }
    split.
    + rewrite E3, E2, E1, Q.
      rewrite (Z.div_div (shr_m mrs) 2 (2 ^ Z.pos p)) by lia.
      rewrite Z.div_div by lia. rewrite Z.mul_assoc. reflexivity.
    + intros R S D. rewrite Q in D.
      destruct (Split 2 _ _ ltac:(lia) PP D) as [D1 D2].
      destruct (X1 R S D1) as [R1 S1]. rewrite <- E1 in D2.
      destruct (Split _ _ _ P P D2) as [D3 D4].
      destruct (X2 R1 S1 D3) as [R2 S2]. rewrite <- E2 in D4.
      exact (X3 R2 S2 D4).
  - pose proof (IH _ H) as [E2 X2]. cbv zeta in E2, X2.
    assert (H2 : 0 <= shr_m (SpecFloat.iter_pos shr_1 p mrs)).
    { rewrite E2. apply Z.div_pos; [lia|apply Z.pow_pos_nonneg; lia]. }
    pose proof (IH _ H2) as [E3 X3]. cbv zeta in E3, X3.
    assert (P : 0 < 2 ^ Z.pos p) by (apply Z.pow_pos_nonneg; lia).
    assert (Q : 2 ^ Z.pos p~0 = 2 ^ Z.pos p * 2 ^ Z.pos p).
    { replace (Z.pos p~0) with (Z.pos p + Z.pos p) by lia.
      rewrite Z.pow_add_r by lia. reflexivity. }
    split.
    + rewrite E3, E2, Q. rewrite Z.div_div by lia. reflexivity.
    + intros R S D. rewrite Q in D.
      destruct (Split _ _ _ P P D) as [D3 D4].
      destruct (X2 R S D3) as [R2 S2]. rewrite <- E2 in D4.
      exact (X3 R2 S2 D4).
  - pose proof (shr_1_spec mrs H) as [E1 X1]. split; [exact E1|exact X1].
Qed.


(** *** Rounding a positive value *)

Lemma fexp_eq e : fexp prec emax e = Z.max (e - 53) (-1074).
Proof. reflexivity. Qed.

Lemma round_nearest_even_bounds m l :
  m <= round_nearest_even m l <= m + 1.
Proof.
  unfold round_nearest_even. destruct l as [|[]]; try lia. destruct (Z.even m); lia.
Qed.

(** The second shift of [binary_round_aux]: one place when rounding has
    carried into a 54th bit, none otherwise. *)
Lemma renormalise m f :
  0 <= m <= 2 ^ 53 -> -1074 <= f ->
  (m < 2 ^ 53 /\ shr_fexp prec emax m f loc_Exact = (Build_shr_record m false false, f))
  \/ (m = 2 ^ 53
      /\ shr_fexp prec emax m f loc_Exact = (Build_shr_record (2 ^ 52) false false, f + 1)).
Proof.
  intros [H0 H] Hf. unfold shr_fexp. rewrite fexp_eq.
  destruct (Z_lt_le_dec m (2 ^ 53)) as [L|G]; [left|right].
  - split; [exact L|].
    pose proof (digits_le m 53 ltac:(lia) (conj H0 L)) as D.
    destruct (Z.max (Zdigits2 m + f - 53) (-1074) - f) as [|p|p] eqn:N; try reflexivity.
    exfalso. lia.
  - assert (m = 2 ^ 53) as -> by lia. split; [reflexivity|].
    change (Zdigits2 (2 ^ 53)) with 54.
    replace (Z.max (54 + f - 53) (-1074) - f) with 1 by lia. reflexivity.
Qed.

Lemma round_aux_below (M E Kb Eb : Z) :
  0 < M -> 2 ^ 52 <= Kb < 2 ^ 53 -> -1074 <= Eb <= 971 -> E <= Eb ->
  M <= Kb * 2 ^ (Eb - E) ->
  below Kb Eb (binary_round_aux prec emax false M E loc_Exact).
Proof.
  intros HM [HK1 HK2] [HE1 HE2] HE HB.
  assert (P : 0 < 2 ^ (Eb - E)) by (apply Z.pow_pos_nonneg; lia).
  assert (HD : Zdigits2 M <= 53 + (Eb - E)).
  { apply digits_le; [lia|]. split; [lia|]. rewrite Z.pow_add_r by lia. nia. }
  unfold binary_round_aux.
  set (f := fexp prec emax (Zdigits2 M + E)).
  assert (Hf : f = Z.max (Zdigits2 M + E - 53) (-1074)) by reflexivity.
  unfold shr_fexp at 1. fold f. unfold shr.
  destruct (f - E) as [|p|p] eqn:N.
  - (* no shift *)
    cbn [shr_record_of_loc shr_m loc_of_shr_record round_nearest_even].
    assert (HM53 : M < 2 ^ 53).
    { pose proof (digits_lt M ltac:(lia)) as L.
      assert (2 ^ Zdigits2 M <= 2 ^ 53) by (apply Z.pow_le_mono_r; lia). lia. }
    destruct (renormalise M E ltac:(lia) ltac:(lia)) as [[_ R]|[R _]]; [|lia].
    rewrite R. cbn [shr_m]. destruct M as [|Mp|Mp]; try lia.
    replace (E <=? emax - prec) with true by (symmetry; apply Z.leb_le; unfold emax, prec; lia).
    right. exists Mp, E. split; [reflexivity|]. split; [exact HM53|].
    destruct (Z.eq_dec E Eb) as [->|]; [right|left; lia].
    split; [reflexivity|]. rewrite Z.sub_diag in HB. simpl in HB. lia.
  - (* a shift by [p] places *)
    pose proof (shr_spec p (shr_record_of_loc M loc_Exact)) as S.
    cbn [shr_record_of_loc shr_m shr_r shr_s] in S. specialize (S ltac:(lia)).
    cbv zeta in S. destruct S as [Sm Sx].
    set (mrs := SpecFloat.iter_pos shr_1 p _) in *.
    assert (Ef : E + Z.pos p = f) by lia. rewrite Ef.
    assert (P2 : 0 < 2 ^ Z.pos p) by (apply Z.pow_pos_nonneg; lia).
    assert (Pf : 0 < 2 ^ (Eb - f)) by (apply Z.pow_pos_nonneg; lia).
    assert (HK' : M <= Kb * 2 ^ (Eb - f) * 2 ^ Z.pos p).
    { rewrite <- Z.mul_assoc, <- Z.pow_add_r by lia.
      replace (Eb - f + Z.pos p) with (Eb - E) by lia. exact HB. }
    assert (Hm' : 0 <= shr_m mrs <= Kb * 2 ^ (Eb - f)).
    { rewrite Sm. split; [apply Z.div_pos; lia|].
      apply Z.div_le_upper_bound; [lia|]. lia. }
    assert (Hm53 : shr_m mrs < 2 ^ 53).
    { rewrite Sm. apply Z.div_lt_upper_bound; [lia|].
      rewrite <- Z.pow_add_r by lia.
      pose proof (digits_lt M ltac:(lia)) as L.
      assert (2 ^ Zdigits2 M <= 2 ^ (Z.pos p + 53)) by (apply Z.pow_le_mono_r; lia). lia. }
    set (m1 := round_nearest_even (shr_m mrs) (loc_of_shr_record mrs)).
    pose proof (round_nearest_even_bounds (shr_m mrs) (loc_of_shr_record mrs)) as B1.
    fold m1 in B1.
    assert (Hm1 : m1 <= Kb * 2 ^ (Eb - f)).
    { destruct (Z.eq_dec (shr_m mrs) (Kb * 2 ^ (Eb - f))) as [Q|Q]; [|lia].
      assert (X : (2 ^ Z.pos p | M)).
      { exists (shr_m mrs). rewrite Sm in Q |- *.
        pose proof (Z.mul_div_le M (2 ^ Z.pos p) P2). nia. }
      destruct (Sx eq_refl eq_refl X) as [Xr Xs]. subst m1.
      destruct mrs as [mm rr ss]. cbn [shr_r shr_s shr_m] in *. subst rr ss.
      cbn [loc_of_shr_record round_nearest_even]. lia. }
    destruct (renormalise m1 f ltac:(lia) ltac:(lia)) as [[L R]|[L R]]; rewrite R;
      cbn [shr_m].
    + destruct m1 as [|m1p|m1p] eqn:E1; [left; reflexivity| |lia].
      replace (f <=? emax - prec) with true
        by (symmetry; apply Z.leb_le; unfold emax, prec; lia).
      right. exists m1p, f. split; [reflexivity|]. split; [exact L|].
      destruct (Z.eq_dec f Eb) as [->|]; [right|left; lia].
      split; [reflexivity|]. rewrite Z.sub_diag in Hm1. simpl in Hm1. lia.
    + assert (F1 : f + 1 <= Eb).
      { destruct (Z_lt_le_dec f Eb) as [|G]; [lia|exfalso].
        assert (Q : Eb - f = 0) by lia. rewrite Q in Hm1.
        change (2 ^ 0) with 1 in Hm1. lia. }
      change (2 ^ 52) with (Z.pos 4503599627370496).
      replace (f + 1 <=? emax - prec) with true
        by (symmetry; apply Z.leb_le; unfold emax, prec; lia).
      right. exists 4503599627370496%positive, (f + 1). split; [reflexivity|].
      split; [reflexivity|].
      destruct (Z.eq_dec (f + 1) Eb) as [->|]; [right|left; lia].
      split; [reflexivity|]. change (Z.pos 4503599627370496) with (2 ^ 52). lia.
  - (* no shift *)
    cbn [shr_record_of_loc shr_m loc_of_shr_record round_nearest_even].
    assert (HM53 : M < 2 ^ 53).
    { pose proof (digits_lt M ltac:(lia)) as L.
      assert (2 ^ Zdigits2 M <= 2 ^ 53) by (apply Z.pow_le_mono_r; lia). lia. }
    destruct (renormalise M E ltac:(lia) ltac:(lia)) as [[_ R]|[R _]]; [|lia].
    rewrite R. cbn [shr_m]. destruct M as [|Mp|Mp]; try lia.
    replace (E <=? emax - prec) with true by (symmetry; apply Z.leb_le; unfold emax, prec; lia).
    right. exists Mp, E. split; [reflexivity|]. split; [exact HM53|].
    destruct (Z.eq_dec E Eb) as [->|]; [right|left; lia].
    split; [reflexivity|]. rewrite Z.sub_diag in HB. simpl in HB. lia.
Qed.


(** *** The order of the numbers *)

Lemma compare_antisym a b :
  SFcompare b a = option_map CompOpp (SFcompare a b).
Proof.
  destruct a as [[]|[]| |[] ma ea], b as [[]|[]| |[] mb eb]; try reflexivity;
    cbn [SFcompare option_map]; rewrite !NumberFacts.compare_cont_eq;
    rewrite (Z.compare_antisym ea eb), (Pos.compare_antisym ma mb);
    destruct (ea ?= eb); cbn [CompOpp]; try reflexivity;
    destruct (ma ?= mb)%positive; reflexivity.
Qed.

Lemma lt_not_ge a b : lt a b = true -> ge a b = false.
Proof.
  unfold lt, ge, SFltb, SFleb. rewrite (compare_antisym a b).
  destruct (SFcompare a b) as [[]|]; simpl; congruence.
Qed.

Lemma compare_numbers a b :
  isNaN a = false -> isNaN b = false -> SFcompare a b <> None.
Proof.
  destruct a as [[]|[]| |[] ma ea], b as [[]|[]| |[] mb eb]; simpl; congruence.
Qed.

Lemma not_ge_lt a b :
  isNaN a = false -> isNaN b = false -> ge a b = false -> lt a b = true.
Proof.
  intros Ha Hb. pose proof (compare_numbers a b Ha Hb) as N.
  unfold lt, ge, SFltb, SFleb. rewrite (compare_antisym a b).
  destruct (SFcompare a b) as [[]|]; simpl; congruence.
Qed.

(** *** A confidence times a hundred *)

Lemma one_eq : one = S754_finite false 4503599627370496 (-52).
Proof. vm_compute. reflexivity. Qed.

Lemma hundred_eq : hundred = S754_finite false 7036874417766400 (-46).
Proof. vm_compute. reflexivity. Qed.

Lemma mantissa_bound m e : bounded prec emax m e = true -> Z.pos m < 2 ^ 53.
Proof.
  unfold bounded, canonical_mantissa. rewrite andb_true_iff, Z.eqb_eq, fexp_eq.
  intros [C _]. pose proof (digits2_bounds m) as [_ B].
  assert (2 ^ Z.pos (digits2_pos m) <= 2 ^ 53) by (apply Z.pow_le_mono_r; lia). lia.
Qed.

Lemma unit_interval c :
  is_number c -> le zero c = true -> le c one = true ->
  (exists s, c = S754_zero s)
  \/ exists m e, c = S754_finite false m e /\ e <= -52 /\ Z.pos m <= 2 ^ (- e).
Proof.
  unfold is_number, le. rewrite one_eq. intros V H0 H1.
  destruct c as [s|[]| |[] m e];
    try (left; eauto; fail);
    try (exfalso; clear - H0; discriminate H0);
    try (exfalso; clear - H1; discriminate H1).
  right. exists m, e. split; [reflexivity|]. cbn [valid_binary] in V.
  pose proof (mantissa_bound m e V) as B. clear V H0.
  unfold SFleb, SFcompare in H1. rewrite NumberFacts.compare_cont_eq in H1.
  destruct (Z.compare_spec e (-52)) as [Q|L|G].
  - split; [lia|]. rewrite Q. change (2 ^ (- -52)) with (Z.pos 4503599627370496).
    unfold Z.le. cbn [Z.compare]. intros C. rewrite C in H1. discriminate H1.
  - split; [lia|].
    assert (2 ^ 53 <= 2 ^ (- e)) by (apply Z.pow_le_mono_r; lia). lia.
  - discriminate H1.
Qed.

Lemma mul_hundred c :
  is_number c -> le zero c = true -> le c one = true ->
  (exists s, mul c hundred = S754_zero s)
  \/ below 7036874417766400 (-46) (mul c hundred).
Proof.
  intros V H0 H1. rewrite hundred_eq.
  destruct (unit_interval c V H0 H1) as [[s ->]|(m & e & -> & He & Hm)]; [left; eauto|right].
  unfold mul. cbn [SFmul xorb].
  apply round_aux_below; try lia.
  replace (-46 - (e + -46)) with (- e) by lia. rewrite Pos2Z.inj_mul.
  assert (0 < 2 ^ (- e)) by (apply Z.pow_pos_nonneg; lia). nia.
Qed.

(** *** Rounding to an integer, and the hundredths *)

Lemma round_hundred x :
  below 7036874417766400 (-46) x ->
  round x = S754_zero false \/ exists k, 1 <= k <= 100 /\ round x = of_Z k.
Proof.
  intros [->|(m & e & -> & Hm & He)]; [left; reflexivity|].
  assert (E0 : (0 <=? e) = false) by (apply Z.leb_gt; lia).
  unfold round. rewrite E0.
  set (q := (2 * Z.pos m + 2 ^ (- e)) / 2 ^ (1 - e)).
  assert (P : 0 < 2 ^ (- e)) by (apply Z.pow_pos_nonneg; lia).
  assert (P1 : 2 ^ (1 - e) = 2 * 2 ^ (- e)).
  { replace (1 - e) with (1 + - e) by lia. rewrite Z.pow_add_r by lia. reflexivity. }
  assert (Hq : 0 <= q <= 100).
  { subst q. rewrite P1. split; [apply Z.div_pos; lia|].
    assert (L : (2 * Z.pos m + 2 ^ (- e)) / (2 * 2 ^ (- e)) < 101); [|lia].
    apply Z.div_lt_upper_bound; [lia|].
    assert (B : Z.pos m <= 100 * 2 ^ (- e)); [|lia].
    destruct He as [He|[-> He]]; [|simpl; lia].
    assert (2 ^ 47 <= 2 ^ (- e)) by (apply Z.pow_le_mono_r; lia). lia. }
  clearbody q. destruct q as [|qp|qp]; [left; reflexivity| |lia].
  right. exists (Z.pos qp). split; [lia|reflexivity].
Qed.

Lemma hundredths k :
  1 <= k <= 100 ->
  le zero (div (of_Z k) hundred) = true /\ le (div (of_Z k) hundred) one = true.
Proof.
  intros Hk.
  assert (A : forallb (fun n => let r := div (of_Z (Z.of_nat n)) hundred in
                               le zero r && le r one) (seq 1 100) = true)
    by (vm_compute; reflexivity).
  rewrite forallb_forall in A. specialize (A (Z.to_nat k)).
  rewrite Z2Nat.id in A by lia. cbv zeta in A. apply andb_true_iff. apply A.
  apply in_seq. lia.
Qed.

End Binary64Facts.

(** ** The entry that [setFieldConfidence] stores *)

Module StoredFacts.
Import Number Binary64 Binary64Spec StoredConfidence Binary64Facts.
Local Open Scope Z_scope.

Lemma stored_number f c v this :
  getFieldConfidence f (setFieldConfidence f c v this)
  = {| confidence := div (round (mul c hundred)) hundred;
       value := Some v;
       needsReview := lt c (literal 7 (-1));
       status := if ge c (literal 8 (-1)) then ConfidenceModule.high
                 else if ge c (literal 6 (-1)) then ConfidenceModule.medium
                 else ConfidenceModule.low |}.
Proof.
  unfold getFieldConfidence, setFieldConfidence.
  rewrite lookup_insert_eq. reflexivity.
Qed.

(** The hundredths: what [Math.round(c * 100) / 100] can be for a [c]
    between 0 and 1. *)
Lemma stored_hundredth c :
  is_number c -> le zero c = true -> le c one = true ->
  let r := div (round (mul c hundred)) hundred in
  ((exists s, r = S754_zero s)
   \/ exists k, 1 <= k <= 100 /\ r = div (of_Z k) hundred)
  /\ le zero r = true /\ le r one = true.
Proof.
  intros V H0 H1 r. subst r.
  assert (Z : forall s, div (round (S754_zero s)) hundred = S754_zero s).
  { intros []; vm_compute; reflexivity. }
  assert (R : forall s, le zero (S754_zero s) = true /\ le (S754_zero s) one = true).
  { intros []; split; vm_compute; reflexivity. }
  destruct (mul_hundred c V H0 H1) as [[s ->]|B].
  - rewrite Z. split; [left; eauto|apply R].
  - destruct (round_hundred _ B) as [->|(k & Hk & ->)].
    + change (div (S754_zero false) hundred) with (S754_zero false).
      split; [left; eauto|apply R].
    + split; [right; eauto|apply hundredths; exact Hk].
Qed.

(** C2, as amended.  For a binary64 confidence [c] between 0 and 1, the entry
    that [setFieldConfidence] stores holds [Math.round(c * 100) / 100]: a
    zero or [k / 100] for an integer [k] from 1 to 100, between 0 and 1;
    [needsReview] is [c < 0.7] and [status] is high for [c >= 0.8], medium
    for [0.6 <= c < 0.8] and low below, all three decided on the unrounded
    [c]. *)
Theorem C2_stored_entry (f : Field.t) (c : number) (v : string)
    (this : fieldConfidences) :
  is_number c -> le zero c = true -> le c one = true ->
  let e := getFieldConfidence f (setFieldConfidence f c v this) in
  confidence e = div (round (mul c hundred)) hundred
  /\ ((exists s, confidence e = S754_zero s)
      \/ exists k, 1 <= k <= 100 /\ confidence e = div (of_Z k) hundred)
  /\ (le zero (confidence e) = true /\ le (confidence e) one = true)
  /\ needsReview e = lt c (literal 7 (-1))
  /\ (ge c (literal 8 (-1)) = true -> status e = ConfidenceModule.high)
  /\ (ge c (literal 6 (-1)) = true -> lt c (literal 8 (-1)) = true ->
      status e = ConfidenceModule.medium)
  /\ (lt c (literal 6 (-1)) = true -> status e = ConfidenceModule.low).
Proof.
  intros V H0 H1 e. subst e. rewrite stored_number.
  cbn [confidence needsReview status].
  destruct (stored_hundredth c V H0 H1) as (K & R0 & R1).
  split; [reflexivity|]. split; [exact K|]. split; [split; assumption|].
  split; [reflexivity|]. split; [|split].
  - intros ->. reflexivity.
  - intros H6 H8. rewrite (lt_not_ge _ _ H8), H6. reflexivity.
  - intros H6.
    assert (H8 : lt c (literal 8 (-1)) = true).
    { apply (NumberFacts.SFltb_trans c (literal 6 (-1)) (literal 8 (-1)) H6).
      vm_compute. reflexivity. }
    rewrite (lt_not_ge _ _ H8), (lt_not_ge _ _ H6). reflexivity.
Qed.

Lemma C2_stored_entry_witness :
  let c := literal 5 (-1) in
  let e := getFieldConfidence Field.total (setFieldConfidence Field.total c "100" ∅) in
  confidence e = div (round (mul c hundred)) hundred
  /\ ((exists s, confidence e = S754_zero s)
      \/ exists k, 1 <= k <= 100 /\ confidence e = div (of_Z k) hundred)
  /\ (le zero (confidence e) = true /\ le (confidence e) one = true)
  /\ needsReview e = lt c (literal 7 (-1))
  /\ (ge c (literal 8 (-1)) = true -> status e = ConfidenceModule.high)
  /\ (ge c (literal 6 (-1)) = true -> lt c (literal 8 (-1)) = true ->
      status e = ConfidenceModule.medium)
  /\ (lt c (literal 6 (-1)) = true -> status e = ConfidenceModule.low).
Proof.
  apply (C2_stored_entry Field.total (literal 5 (-1)) "100" ∅); vm_compute; reflexivity.
Defined.

(** C2 as stated fails on the stored entry: for the input 0.699 the entry
    holds the confidence 0.7 and [needsReview = true], although 0.7 is not
    below 0.7; for the input 0.795 it holds the confidence 0.8 and the
    status medium, although 0.8 is at least 0.8. *)
Lemma C2_counterexample :
  let c := literal 699 (-3) in
  let e := getFieldConfidence Field.total (setFieldConfidence Field.total c "100" ∅) in
  let c' := literal 795 (-3) in
  let e' := getFieldConfidence Field.total (setFieldConfidence Field.total c' "100" ∅) in
  (is_number c /\ le zero c = true /\ le c one = true)
  /\ confidence e = literal 7 (-1)
  /\ needsReview e = true /\ lt (confidence e) (literal 7 (-1)) = false
  /\ (is_number c' /\ le zero c' = true /\ le c' one = true)
  /\ confidence e' = literal 8 (-1)
  /\ ge (confidence e') (literal 8 (-1)) = true /\ status e' = ConfidenceModule.medium.
Proof.
  cbv zeta. rewrite !stored_number. cbn [confidence needsReview status].
  repeat split; vm_compute; reflexivity.
Qed.

(** The stored confidence of a number that is printed with three decimals
    can lie on either side of it: 0.345 is stored as 0.35, 0.285 as 0.28. *)
Example stored_halves :
  div (round (mul (literal 345 (-3)) hundred)) hundred = literal 35 (-2)
  /\ div (round (mul (literal 285 (-3)) hundred)) hundred = literal 28 (-2).
Proof. split; vm_compute; reflexivity. Qed.

End StoredFacts.

(** ** The quality report *)

Module QualityFacts.
Import JSNum ImageQualityModule QualitySpec.
Local Open Scope Z_scope.

(** The verdict in terms of the five conditions of the aggregation. *)
Lemma poor_iff_condition (imageData : ImageData) :
  let q := analyzeQuality imageData in
  overall q = poor
  <-> negb (resAdequate (resolution q)) || isBlurry (blur q)
      || negb (brightnessAdequate (brightness q))
      || negb (contrastAdequate (contrast q))
      || negb (textAdequate (textSize q)) = true.
Proof.
  intros q. subst q. unfold analyzeQuality, pushIf.
  cbn [resolution blur brightness contrast textSize overall issues].
  destruct (resAdequate _), (isBlurry _), (brightnessAdequate _),
    (contrastAdequate _), (textAdequate _); cbn;
    split; try reflexivity; discriminate.
Qed.

(** *** Sample positions *)

Lemma stepsFrom_bounds fuel : forall i stop step x,
  0 < step -> In x (stepsFrom fuel i stop step) -> i <= x < stop.
Proof.
  induction fuel as [|fuel IH]; simpl; intros i stop step x Hs Hin; [contradiction|].
  destruct (i <? stop) eqn:E; [|contradiction].
  apply Z.ltb_lt in E. destruct Hin as [<-|Hin]; [lia|].
  apply IH in Hin; lia.
Qed.

Lemma stepsFrom_multiple fuel : forall i stop step x,
  In x (stepsFrom fuel i stop step) -> exists k, 0 <= k /\ x = i + k * step.
Proof.
  induction fuel as [|fuel IH]; simpl; intros i stop step x Hin; [contradiction|].
  destruct (i <? stop); [|contradiction].
  destruct Hin as [<-|Hin]; [exists 0; lia|].
  apply IH in Hin. destruct Hin as [k [Hk ->]]. exists (k + 1). lia.
Qed.

Lemma steps_nil start stop step : steps start stop step = [] <-> stop <= start.
Proof.
  unfold steps. destruct (Z.to_nat (stop - start)) as [|n] eqn:E; simpl.
  - split; [lia|reflexivity].
  - destruct (start <? stop) eqn:L.
    + apply Z.ltb_lt in L. split; [discriminate|lia].
    + apply Z.ltb_ge in L. lia.
Qed.

Lemma flat_map_rows_nil (A B C : Type) (g : A -> B -> C) (xs : list B) (ys : list A) :
  flat_map (fun y => map (g y) xs) ys = [] <-> ys = [] \/ xs = [].
Proof.
  induction ys as [|y ys IH]; simpl.
  - split; [left; reflexivity|reflexivity].
  - split.
    + intros H. apply app_eq_nil in H. destruct H as [H _].
      right. destruct xs; [reflexivity|discriminate].
    + intros [H|H]; [discriminate|]. subst xs. simpl. apply IH. right. reflexivity.
Qed.

Lemma blurCount_positive imageData :
  0 < blurCount imageData <-> 3 <= width imageData /\ 3 <= height imageData.
Proof.
  unfold blurCount, blurSamples.
  pose proof (flat_map_rows_nil Z Z (Z * Z) (fun (y x : Z) => (x, y))
                (steps 1 (width imageData - 1) 2) (steps 1 (height imageData - 1) 2)) as N.
  rewrite !steps_nil in N.
  destruct (flat_map _ _) as [|p l] eqn:E; simpl.
  - split; [lia|]. intros [Hw Hh]. destruct N as [N _]. specialize (N eq_refl). lia.
  - split; [|lia]. intros _. destruct N as [_ N].
    destruct (Z_lt_le_dec (width imageData) 3) as [Hw|Hw].
    { assert (D : p :: l = []) by (apply N; right; lia). discriminate D. }
    destruct (Z_lt_le_dec (height imageData) 3) as [Hh|Hh].
    { assert (D : p :: l = []) by (apply N; left; lia). discriminate D. }
    lia.
Qed.

Lemma blurSamples_bounds imageData x y :
  In (x, y) (blurSamples imageData) ->
  1 <= x < width imageData - 1 /\ 1 <= y < height imageData - 1.
Proof.
  unfold blurSamples. rewrite in_flat_map. intros [y' [Hy Hx]].
  apply in_map_iff in Hx. destruct Hx as [x' [E Hx]]. inversion E; subst.
  unfold steps in *. apply stepsFrom_bounds in Hy; [|lia].
  apply stepsFrom_bounds in Hx; [|lia]. lia.
Qed.

Lemma sampleIndices_bounds imageData i :
  In i (sampleIndices imageData) ->
  0 <= i < Z.of_nat (List.length (data imageData)) /\ exists k, i = 16 * k.
Proof.
  unfold sampleIndices, steps. intros Hin. split.
  - apply stepsFrom_bounds in Hin; lia.
  - apply stepsFrom_multiple in Hin. destruct Hin as [k [_ ->]]. exists k. lia.
Qed.

Lemma brightnessCount_positive imageData :
  nonEmptyBuffer imageData -> 0 < brightnessCount imageData.
Proof.
  intros (Hw & Hh & Hlen). unfold brightnessCount, sampleIndices.
  pose proof (steps_nil 0 (Z.of_nat (List.length (data imageData))) 16) as N.
  destruct (steps _ _ _) as [|i l]; simpl; [|lia].
  destruct N as [N _]. specialize (N eq_refl). nia.
Qed.

(** *** Finite values *)

Lemma finite_of_Z z : finite (of_Z z).
Proof. eexists; reflexivity. Qed.

Lemma finite_add a b : finite a -> finite b -> finite (add a b).
Proof. intros [x ->] [y ->]. eexists; reflexivity. Qed.

Lemma finite_sub a b : finite a -> finite b -> finite (sub a b).
Proof. intros [x ->] [y ->]. eexists; reflexivity. Qed.

Lemma finite_mul a b : finite a -> finite b -> finite (mul a b).
Proof. intros [x ->] [y ->]. eexists; reflexivity. Qed.

Lemma finite_abs a : finite a -> finite (abs a).
Proof. intros [x ->]. eexists; reflexivity. Qed.

Lemma finite_min a b : finite a -> finite b -> finite (JSNum.min a b).
Proof. intros [x ->] [y ->]. unfold JSNum.min. destruct (lt _ _); eexists; reflexivity. Qed.

Lemma finite_max a b : finite a -> finite b -> finite (JSNum.max a b).
Proof. intros [x ->] [y ->]. unfold JSNum.max. destruct (lt _ _); eexists; reflexivity. Qed.

Lemma is_zero_of_Z z : z <> 0 -> is_zero (inject_Z z) = false.
Proof.
  intros H. unfold is_zero, Qeq_bool, inject_Z. simpl.
  apply Z.eqb_neq. lia.
Qed.

Lemma finite_div a z : finite a -> z <> 0 -> finite (div a (of_Z z)).
Proof.
  intros [x ->] H. unfold div, of_Z. rewrite (is_zero_of_Z z H). eexists; reflexivity.
Qed.

Lemma finite_at data i :
  0 <= i < Z.of_nat (List.length data) -> finite (at_ data i).
Proof.
  intros [H0 H1]. unfold at_.
  destruct (i <? 0) eqn:E; [apply Z.ltb_lt in E; lia|].
  destruct (nth_error data (Z.to_nat i)) as [b|] eqn:N; [apply finite_of_Z|].
  apply nth_error_None in N. lia.
Qed.

Lemma finite_gray data i :
  0 <= i -> i + 2 < Z.of_nat (List.length data) -> finite (gray data i).
Proof.
  intros H0 H1. unfold gray.
  apply finite_div; [|discriminate].
  repeat apply finite_add; apply finite_at; lia.
Qed.

Lemma finite_laplacian imageData xy :
  nonEmptyBuffer imageData -> In xy (blurSamples imageData) ->
  finite (laplacian imageData xy).
Proof.
  intros (Hw & Hh & Hlen) Hin. destruct xy as [x y].
  apply blurSamples_bounds in Hin. destruct Hin as [Hx Hy].
  unfold laplacian. apply finite_abs.
  repeat apply finite_sub; try apply finite_mul; try apply finite_of_Z;
    (apply finite_div; [|discriminate]);
    repeat apply finite_add; apply finite_at; rewrite Hlen; nia.
Qed.

Lemma finite_fold (A : Type) (f : num -> A -> num) (l : list A) :
  (forall a x, finite a -> In x l -> finite (f a x)) ->
  forall a, finite a -> finite (fold_left f l a).
Proof.
  induction l as [|x l IH]; simpl; intros Hf a Ha; [assumption|].
  apply IH.
  - intros b y Hb Hy. apply Hf; [assumption|right; assumption].
  - apply Hf; [assumption|left; reflexivity].
Qed.

Lemma finite_variance imageData :
  nonEmptyBuffer imageData -> 0 < blurCount imageData ->
  finite (variance (detectBlur imageData)).
Proof.
  intros Hne Hc. unfold detectBlur. cbn [variance].
  assert (Hmean : finite (div (fold_left (fun mean xy => add mean (laplacian imageData xy))
                                 (blurSamples imageData) (of_Z 0))
                              (of_Z (blurCount imageData)))).
  { apply finite_div; [|lia]. apply finite_fold; [|apply finite_of_Z].
    intros a xy Ha Hin. apply finite_add; [assumption|].
    apply finite_laplacian; assumption. }
  apply finite_div; [|lia]. apply finite_fold; [|apply finite_of_Z].
  intros a xy Ha Hin. apply finite_add; [assumption|].
  apply finite_mul; apply finite_sub; try assumption; apply finite_laplacian; assumption.
Qed.

Lemma gray_sample_finite imageData i :
  nonEmptyBuffer imageData -> In i (sampleIndices imageData) ->
  finite (gray (data imageData) i).
Proof.
  intros (Hw & Hh & Hlen) Hin. apply sampleIndices_bounds in Hin.
  destruct Hin as [Hi [k ->]]. apply finite_gray; lia.
Qed.

Lemma finite_average imageData :
  nonEmptyBuffer imageData -> finite (average (checkBrightness imageData)).
Proof.
  intros Hne. unfold checkBrightness. cbn [average].
  apply finite_div; [|pose proof (brightnessCount_positive imageData Hne); lia].
  apply finite_fold; [|apply finite_of_Z].
  intros a i Ha Hin. apply finite_add; [assumption|].
  apply gray_sample_finite; assumption.
Qed.

Lemma finite_extremes imageData : nonEmptyBuffer imageData ->
  forall l acc, (forall i, In i l -> In i (sampleIndices imageData)) ->
  finite (fst acc) -> finite (snd acc) ->
  let r := fold_left (fun '(min, max) i =>
                        let gray := gray (data imageData) i in
                        (JSNum.min min gray, JSNum.max max gray)) l acc in
  finite (fst r) /\ finite (snd r).
Proof.
  intros Hne l. induction l as [|i l IH]; simpl; intros [lo hi] Hl Hlo Hhi;
    [split; assumption|].
  apply IH.
  - intros j Hj. apply Hl. right. assumption.
  - simpl. apply finite_min; [assumption|].
    apply gray_sample_finite; [assumption|]. apply Hl. left. reflexivity.
  - simpl. apply finite_max; [assumption|].
    apply gray_sample_finite; [assumption|]. apply Hl. left. reflexivity.
Qed.

Lemma finite_contrast imageData :
  nonEmptyBuffer imageData -> finite (contrastValue (checkContrast imageData)).
Proof.
  intros Hne. unfold checkContrast.
  pose proof (finite_extremes imageData Hne (sampleIndices imageData) (of_Z 255, of_Z 0)
                (fun i H => H) (finite_of_Z 255) (finite_of_Z 0)) as H.
  cbv zeta in H. destruct (fold_left _ _ _) as [lo hi]. cbn [contrastValue].
  destruct H as [Hlo Hhi]. apply finite_sub; assumption.
Qed.

Lemma empty_blur imageData :
  blurCount imageData = 0 ->
  variance (detectBlur imageData) = NaN
  /\ isBlurry (detectBlur imageData) = false
  /\ blurAdequate (detectBlur imageData) = false.
Proof.
  intros H.
  assert (E : blurSamples imageData = []).
  { unfold blurCount in H. destruct (blurSamples imageData); [reflexivity|simpl in H; lia]. }
  unfold detectBlur. rewrite H, E. cbn. repeat split; reflexivity.
Qed.

(** *** The loops visit every position, and the blur flags of a real image *)

Lemma stepsFrom_complete fuel : forall i stop step k,
  0 < step -> 0 <= k -> i + k * step < stop ->
  (Z.to_nat (stop - i) <= fuel)%nat ->
  In (i + k * step) (stepsFrom fuel i stop step).
Proof.
  induction fuel as [|fuel IH]; intros i stop step k Hs Hk Hlt Hf; [nia|].
  simpl. destruct (i <? stop) eqn:E; [|apply Z.ltb_ge in E; nia].
  destruct (Z.eq_dec k 0) as [->|Hk0]; [left; lia|].
  right. replace (i + k * step) with ((i + step) + (k - 1) * step) by lia.
  apply IH; lia.
Qed.

(** [steps] lists exactly the values that the loop variable takes. *)
Lemma steps_spec start stop step x :
  0 < step ->
  In x (steps start stop step)
  <-> start <= x < stop /\ exists k, 0 <= k /\ x = start + k * step.
Proof.
  intros Hs. unfold steps. split.
  - intros H. split; [exact (stepsFrom_bounds _ _ _ _ _ Hs H)|].
    exact (stepsFrom_multiple _ _ _ _ _ H).
  - intros [Hx [k [Hk ->]]]. apply stepsFrom_complete; lia.
Qed.

Lemma lt_ge_false a b : lt a b = true -> ge a b = false.
Proof.
  unfold ge. destruct a, b; simpl; intros H; try discriminate; rewrite ?H; reflexivity.
Qed.

Lemma ge_false_finite q b : ge (Fin q) (Fin b) = false -> lt (Fin q) (Fin b) = true.
Proof. unfold ge. intros H. apply negb_false_iff in H. exact H. Qed.

Lemma small_image_text imageData :
  ~ (3 <= width imageData /\ 3 <= height imageData) ->
  textAdequate (estimateTextSize (width imageData) (height imageData)) = false.
Proof.
  intros H. unfold estimateTextSize. cbn [textAdequate].
  destruct (1000 <=? width imageData) eqn:W; [|apply andb_false_r].
  apply Z.leb_le in W. rewrite andb_true_r.
  assert (Hh : height imageData <= 2) by lia.
  assert (Hq : (inject_Z (height imageData) / (1169 # 100) < inject_Z 150)%Q).
  { unfold Qlt, Qdiv, Qmult, Qinv, inject_Z. simpl. lia. }
  change (div (of_Z (width imageData)) (Fin (827 # 100)))
    with (Fin (inject_Z (width imageData) / (827 # 100))).
  change (div (of_Z (height imageData)) (Fin (1169 # 100)))
    with (Fin (inject_Z (height imageData) / (1169 # 100))).
  unfold JSNum.min, of_Z.
  destruct (lt (Fin (inject_Z (height imageData) / (1169 # 100)))
               (Fin (inject_Z (width imageData) / (827 # 100)))) eqn:L.
  - unfold ge, lt. rewrite negb_false_iff, negb_true_iff.
    destruct (Qle_bool _ _) eqn:Q; [|reflexivity].
    apply Qle_bool_iff in Q. exfalso. exact (Qlt_not_le _ _ Hq Q).
  - unfold lt in L. apply negb_false_iff in L. apply Qle_bool_iff in L.
    unfold ge, lt. rewrite negb_false_iff, negb_true_iff.
    destruct (Qle_bool _ _) eqn:Q; [|reflexivity].
    apply Qle_bool_iff in Q. exfalso.
    apply (Qlt_not_le _ _ Hq). apply Qle_trans with (2 := L). exact Q.
Qed.

(** On a non-empty pixel buffer the verdict can equally be read off the five
    [adequate] flags: the blur check is inadequate without being blurry only
    when it has no sample, and then the image is too small for the text
    check. *)
Lemma poor_iff_inadequate imageData :
  nonEmptyBuffer imageData ->
  let q := analyzeQuality imageData in
  overall q = poor
  <-> (resAdequate (resolution q) = false \/ blurAdequate (blur q) = false
       \/ brightnessAdequate (brightness q) = false
       \/ contrastAdequate (contrast q) = false
       \/ textAdequate (textSize q) = false).
Proof.
  intros Hne q.
  pose proof (poor_iff_condition imageData) as Hpoor.
  fold q in Hpoor. rewrite Hpoor. clear Hpoor.
  assert (Hb : isBlurry (blur q) = true -> blurAdequate (blur q) = false).
  { subst q. unfold analyzeQuality, detectBlur. cbn [blur isBlurry blurAdequate].
    apply lt_ge_false. }
  assert (Hb' : blurAdequate (blur q) = false ->
                isBlurry (blur q) = true \/ textAdequate (textSize q) = false).
  { destruct (Z_lt_le_dec 0 (blurCount imageData)) as [Hc|Hc].
    - left. pose proof (finite_variance imageData Hne Hc) as [v Hv].
      subst q. unfold analyzeQuality in *. cbn [blur] in *.
      unfold detectBlur in *. cbn [variance isBlurry blurAdequate] in *.
      rewrite Hv in *. apply ge_false_finite. assumption.
    - right. subst q. unfold analyzeQuality. cbn [textSize].
      apply small_image_text. intros Q. apply blurCount_positive in Q. lia. }
  destruct (resAdequate (resolution q)), (isBlurry (blur q)) eqn:B,
    (blurAdequate (blur q)) eqn:A, (brightnessAdequate (brightness q)),
    (contrastAdequate (contrast q)), (textAdequate (textSize q)) eqn:T;
    simpl;
    try (specialize (Hb eq_refl); discriminate Hb);
    try (destruct (Hb' eq_refl) as [Q|Q]; discriminate Q);
    (split; [intros Q; try discriminate Q; tauto
            |intros Q; try reflexivity; intuition discriminate]).
Qed.

(** The flags of the blur check of an image with a sample say the same. *)
Lemma blur_flags imageData :
  nonEmptyBuffer imageData -> 0 < blurCount imageData ->
  isBlurry (detectBlur imageData) = negb (blurAdequate (detectBlur imageData)).
Proof.
  intros Hne Hc. destruct (finite_variance imageData Hne Hc) as [v Hv].
  unfold detectBlur in *. cbn [variance isBlurry blurAdequate] in *. rewrite Hv.
  unfold ge, of_Z. rewrite negb_involutive. reflexivity.
Qed.

Lemma brightness_issue imageData :
  finite (average (checkBrightness imageData)) ->
  brightnessAdequate (checkBrightness imageData) = false ->
  issue (checkBrightness imageData) = Some "too dark"%string
  \/ issue (checkBrightness imageData) = Some "too bright"%string.
Proof.
  unfold checkBrightness. cbn [average brightnessAdequate issue].
  intros [a ->]. unfold le, gt, ge, lt, of_Z.
  destruct (Qle_bool (inject_Z 50) a); cbn; [|auto].
  destruct (Qle_bool a (inject_Z 200)); cbn; [discriminate|auto].
Qed.

(** C7, as amended.  The report of a non-empty pixel buffer carries the
    results of the five sub-checks on that buffer, and it has
    [overall = poor] exactly when one of them fails (its [adequate] flag is
    false), which is exactly when its issues list is present and not empty.
    For an image at least 3 pixels wide and high the issues are those of the
    failing checks in the order resolution, blur, brightness, contrast, text
    size, the brightness issue being "too dark" or "too bright".  On a
    narrower or shorter image the blur check fails without being listed
    (its variance is not a number, and "blurry" is listed for a variance
    below the threshold), and the issues are those of the other failing
    checks in that order. *)
Theorem C7_overall_and_issues (imageData : ImageData) :
  nonEmptyBuffer imageData ->
  let q := analyzeQuality imageData in
  (resolution q = checkResolution (width imageData) (height imageData)
   /\ blur q = detectBlur imageData
   /\ brightness q = checkBrightness imageData
   /\ contrast q = checkContrast imageData
   /\ textSize q = estimateTextSize (width imageData) (height imageData))
  /\ (overall q = poor <-> Exists (fun c => fst c = true) (checks q))
  /\ (overall q = poor <-> exists l, issues q = Some l /\ l <> [])
  /\ (overall q = good <-> issues q = None)
  /\ (fst (brightnessCheck q) = true ->
      snd (brightnessCheck q) = Some "too dark"%string
      \/ snd (brightnessCheck q) = Some "too bright"%string)
  /\ (3 <= width imageData /\ 3 <= height imageData ->
      issueList q = failing (checks q))
  /\ (~ (3 <= width imageData /\ 3 <= height imageData) ->
      fst (blurCheck q) = true
      /\ issueList q
         = failing [resolutionCheck q; brightnessCheck q; contrastCheck q;
                    textSizeCheck q]).
Proof.
  intros Hne q.
  pose proof (poor_iff_inadequate imageData Hne) as P. fold q in P.
  pose proof (brightness_issue imageData (finite_average imageData Hne)) as B.
  pose proof (blur_flags imageData Hne) as F.
  pose proof (empty_blur imageData) as E.
  pose proof (blurCount_positive imageData) as C.
  split; [repeat split|]. split.
  { rewrite P. unfold checks, resolutionCheck, blurCheck, brightnessCheck,
      contrastCheck, textSizeCheck.
    rewrite !List.Exists_cons, List.Exists_nil. cbn [fst].
    rewrite !negb_true_iff. tauto. }
  clear P. subst q.
  unfold issueList, failing, checks, resolutionCheck, blurCheck, brightnessCheck,
    contrastCheck, textSizeCheck, analyzeQuality, pushIf.
  cbn [issues overall resolution blur brightness contrast textSize fst snd].
  remember (checkBrightness imageData) as br eqn:Ebr. clear Ebr.
  remember (detectBlur imageData) as bl eqn:Ebl. clear Ebl.
  split; [|split; [|split; [|split]]].
  - destruct (resAdequate _), (isBlurry bl), (brightnessAdequate br),
      (contrastAdequate _), (textAdequate _); cbn;
      (split; [intros H; first [discriminate H
                               |eexists; split; [reflexivity|discriminate]]
              |intros (l & H & N); first [reflexivity|discriminate H]]).
  - destruct (resAdequate _), (isBlurry bl), (brightnessAdequate br),
      (contrastAdequate _), (textAdequate _); cbn;
      split; intros H; try reflexivity; discriminate H.
  - rewrite negb_true_iff. exact B.
  - intros W. rewrite (F (proj2 C W)).
    destruct (resAdequate _), (blurAdequate bl), (brightnessAdequate br),
      (contrastAdequate _), (textAdequate _); reflexivity.
  - intros W. assert (Z0 : blurCount imageData = 0).
    { unfold blurCount in *. lia. }
    destruct (E Z0) as (_ & E1 & E2). rewrite E1, E2. split; [reflexivity|].
    destruct (resAdequate _), (brightnessAdequate br),
      (contrastAdequate _), (textAdequate _); reflexivity.
Qed.

Lemma C7_overall_and_issues_witness :
  let imageData := BlankSpec.solid 3 3 200 200 200 255 in
  nonEmptyBuffer imageData
  /\ let q := analyzeQuality imageData in
     (resolution q = checkResolution (width imageData) (height imageData)
      /\ blur q = detectBlur imageData
      /\ brightness q = checkBrightness imageData
      /\ contrast q = checkContrast imageData
      /\ textSize q = estimateTextSize (width imageData) (height imageData))
     /\ (overall q = poor <-> Exists (fun c => fst c = true) (checks q))
     /\ (overall q = poor <-> exists l, issues q = Some l /\ l <> [])
     /\ (overall q = good <-> issues q = None)
     /\ (fst (brightnessCheck q) = true ->
         snd (brightnessCheck q) = Some "too dark"%string
         \/ snd (brightnessCheck q) = Some "too bright"%string)
     /\ (3 <= width imageData /\ 3 <= height imageData ->
         issueList q = failing (checks q))
     /\ (~ (3 <= width imageData /\ 3 <= height imageData) ->
         fst (blurCheck q) = true
         /\ issueList q
            = failing [resolutionCheck q; brightnessCheck q; contrastCheck q;
                       textSizeCheck q]).
Proof.
  cbv zeta.
  assert (H : nonEmptyBuffer (BlankSpec.solid 3 3 200 200 200 255))
    by (unfold nonEmptyBuffer; simpl; lia).
  split; [exact H|]. exact (C7_overall_and_issues _ H).
Defined.

(** C7 as stated fails on its listing clause: on the one-pixel buffer the
    blur check fails, its [adequate] flag being false, and the issues list
    does not hold "blurry": it is not the list of the failing checks. *)
Lemma C7_counterexample :
  nonEmptyBuffer onePixel
  /\ blurAdequate (blur (analyzeQuality onePixel)) = false
  /\ In (Some "blurry"%string) (failing (checks (analyzeQuality onePixel)))
  /\ ~ In (Some "blurry"%string) (issueList (analyzeQuality onePixel))
  /\ issueList (analyzeQuality onePixel) <> failing (checks (analyzeQuality onePixel)).
Proof.
  split; [unfold nonEmptyBuffer; simpl; lia|]. split; [reflexivity|].
  split; [vm_compute; tauto|]. split; vm_compute; [intuition discriminate|discriminate].
Qed.

(** C9, as amended.  For a non-empty pixel buffer the analysis returns its
    report: the brightness and contrast checks run over at least one sample
    and their values are numbers; the blur check has a positive sample count
    exactly when the image is at least 3 by 3 pixels, and then its variance is
    a number; on a smaller image its two divisions are 0/0, the variance is
    NaN, and the check reports neither blurry nor adequate. *)
Theorem C9_analysis_of_nonempty_buffer (imageData : ImageData) :
  nonEmptyBuffer imageData ->
  let q := analyzeQuality imageData in
  0 < brightnessCount imageData
  /\ finite (average (brightness q))
  /\ finite (contrastValue (contrast q))
  /\ (0 < blurCount imageData <-> 3 <= width imageData /\ 3 <= height imageData)
  /\ (0 < blurCount imageData -> finite (variance (blur q)))
  /\ (blurCount imageData = 0 ->
      variance (blur q) = NaN /\ isBlurry (blur q) = false
      /\ blurAdequate (blur q) = false).
Proof.
  intros Hne q. subst q. unfold analyzeQuality.
  cbn [resolution blur brightness contrast textSize overall issues].
  split; [apply brightnessCount_positive; assumption|].
  split; [apply finite_average; assumption|].
  split; [apply finite_contrast; assumption|].
  split; [apply blurCount_positive|].
  split; [apply finite_variance; assumption|].
  apply empty_blur.
Qed.

Lemma C9_analysis_of_nonempty_buffer_witness :
  nonEmptyBuffer onePixel
  /\ let q := analyzeQuality onePixel in
     0 < brightnessCount onePixel
     /\ finite (average (brightness q))
     /\ finite (contrastValue (contrast q))
     /\ (0 < blurCount onePixel <-> 3 <= width onePixel /\ 3 <= height onePixel)
     /\ (0 < blurCount onePixel -> finite (variance (blur q)))
     /\ (blurCount onePixel = 0 ->
         variance (blur q) = NaN /\ isBlurry (blur q) = false
         /\ blurAdequate (blur q) = false).
Proof.
  assert (H : nonEmptyBuffer onePixel) by (unfold nonEmptyBuffer; simpl; lia).
  split; [exact H|]. exact (C9_analysis_of_nonempty_buffer onePixel H).
Defined.

(** C9 as stated fails on its division clause: the one-pixel buffer is
    non-empty, yet the blur check visits no sample, so both of its divisions
    are 0/0 and its variance is NaN. *)
Lemma C9_counterexample :
  nonEmptyBuffer onePixel
  /\ blurCount onePixel = 0
  /\ variance (blur (analyzeQuality onePixel)) = NaN.
Proof.
  split; [unfold nonEmptyBuffer; simpl; lia|]. split; reflexivity.
Qed.

End QualityFacts.

(** ** The merge of several passes *)

Module MergeFacts.
Import JSString JSObject DataExtractionModule OCRModule MergeSpec.

(** *** Lists: order of occurrence *)

Lemma first_occurrence (a : string) (l : list string) :
  In a l -> exists l1 l2, l = (l1 ++ a :: l2)%list /\ ~ In a l1.
Proof.
  induction l as [|x l IH]; intros H; [destruct H|].
  destruct (string_dec x a) as [->|N].
  - exists [], l. split; [reflexivity|intros []].
  - destruct H as [H|H]; [contradiction|].
    destruct (IH H) as (l1 & l2 & -> & Hn).
    exists (x :: l1), l2. split; [reflexivity|].
    intros [E|E]; [contradiction|]. exact (Hn E).
Qed.

Lemma before_app_r {A : Type} (a b : A) (l l' : list A) :
  before a b l -> before a b (l ++ l')%list.
Proof.
  intros (l1 & l2 & -> & H). exists l1, (l2 ++ l')%list. split.
  - rewrite <- app_assoc. reflexivity.
  - apply in_or_app. left. exact H.
Qed.

Lemma before_cons {A : Type} (a b x : A) (l : list A) :
  before a b (x :: l) <-> (a = x /\ In b l) \/ before a b l.
Proof.
  split.
  - intros (l1 & l2 & E & H). destruct l1 as [|y l1]; simpl in E; inversion E; subst.
    + left. split; [reflexivity|exact H].
    + right. exists l1, l2. split; [reflexivity|exact H].
  - intros [[-> H]|(l1 & l2 & -> & H)].
    + exists [], l. split; [reflexivity|exact H].
    + exists (x :: l1), l2. split; [reflexivity|exact H].
Qed.

Lemma before_app {A : Type} (a b : A) (l l' : list A) :
  before a b (l ++ l')%list ->
  before a b l \/ before a b l' \/ (In a l /\ In b l').
Proof.
  induction l as [|x l IH]; simpl; intros H; [right; left; exact H|].
  apply before_cons in H. destruct H as [[-> H]|H].
  - apply in_app_or in H. destruct H as [H|H].
    + left. apply before_cons. left. split; [reflexivity|exact H].
    + right. right. split; [left; reflexivity|exact H].
  - destruct (IH H) as [Q|[Q|[Q1 Q2]]].
    + left. apply before_cons. right. exact Q.
    + right. left. exact Q.
    + right. right. split; [right; exact Q1|exact Q2].
Qed.

Lemma before_filter {A : Type} (P : A -> bool) (a b : A) (l : list A) :
  before a b (List.filter P l) -> before a b l.
Proof.
  induction l as [|x l IH]; simpl; intros H.
  - destruct H as (l1 & l2 & E & _). destruct l1; discriminate E.
  - destruct (P x).
    + apply before_cons in H. apply before_cons.
      destruct H as [[-> H]|H].
      * left. split; [reflexivity|]. apply filter_In in H. tauto.
      * right. apply IH. exact H.
    + apply before_cons. right. apply IH. exact H.
Qed.

Lemma before_map {A B : Type} (g : A -> B) (a b : B) (l : list A) :
  before a b (map g l) -> exists x y, before x y l /\ g x = a /\ g y = b.
Proof.
  induction l as [|z l IH]; simpl; intros H.
  - destruct H as (l1 & l2 & E & _). destruct l1; discriminate E.
  - apply before_cons in H. destruct H as [[-> H]|H].
    + apply in_map_iff in H. destruct H as (y & <- & Hy).
      exists z, y. split; [|split; reflexivity].
      apply before_cons. left. split; [reflexivity|exact Hy].
    + destruct (IH H) as (x & y & Q & <- & <-).
      exists x, y. split; [|split; reflexivity].
      apply before_cons. right. exact Q.
Qed.

Lemma before_in {A : Type} (a b : A) (l : list A) :
  before a b l -> In a l /\ In b l.
Proof.
  intros (l1 & l2 & -> & H). split; apply in_or_app; right.
  - left. reflexivity.
  - right. exact H.
Qed.

Lemma before_snoc {A : Type} (a b v : A) (l : list A) :
  before a b (l ++ [v])%list -> before a b l \/ (In a l /\ b = v).
Proof.
  intros H. apply before_app in H. destruct H as [H|[H|[H1 H2]]].
  - left. exact H.
  - destruct H as (l1 & l2 & E & Hb).
    destruct l1 as [|x l1]; [|destruct l1; discriminate E].
    inversion E; subst. destruct Hb.
  - right. split; [exact H1|]. destruct H2 as [<-|[]]. reflexivity.
Qed.

(** *** The frequency table *)

Lemma getOwn_setOwn k v s o :
  getOwn k (setOwn v s o) = if String.eqb v k then Some s else getOwn k o.
Proof.
  induction o as [|[k' s'] o IH]; simpl; [reflexivity|].
  destruct (String.eqb k' v) eqn:E; simpl.
  - apply String.eqb_eq in E. subst k'. destruct (String.eqb v k); reflexivity.
  - rewrite IH. destruct (String.eqb k' k) eqn:E'; [|reflexivity].
    apply String.eqb_eq in E'. subst k'. rewrite String.eqb_sym, E. reflexivity.
Qed.

Lemma keys_setOwn_old v s o :
  In v (map fst o) -> map fst (setOwn v s o) = map fst o.
Proof.
  induction o as [|[k' s'] o IH]; simpl; intros H; [destruct H|].
  destruct (String.eqb k' v) eqn:E; simpl; [reflexivity|].
  destruct H as [H|H]; [subst k'; rewrite String.eqb_refl in E; discriminate E|].
  rewrite IH by exact H. reflexivity.
Qed.

Lemma keys_setOwn_new v s o :
  ~ In v (map fst o) -> map fst (setOwn v s o) = (map fst o ++ [v])%list.
Proof.
  induction o as [|[k' s'] o IH]; simpl; intros H; [reflexivity|].
  destruct (String.eqb k' v) eqn:E; simpl.
  - apply String.eqb_eq in E. subst k'. exfalso. apply H. left. reflexivity.
  - rewrite IH; [reflexivity|]. intros Q. apply H. right. exact Q.
Qed.

Lemma occurrences_snoc k v vs :
  occurrences k (vs ++ [v]) = occurrences k vs + (if String.eqb k v then 1 else 0).
Proof.
  unfold occurrences. rewrite List.filter_app, List.length_app. simpl.
  destruct (String.eqb k v); reflexivity.
Qed.

Lemma occurrences_absent k vs : ~ In k vs -> occurrences k vs = 0.
Proof.
  unfold occurrences. induction vs as [|x vs IH]; simpl; intros H; [reflexivity|].
  destruct (String.eqb k x) eqn:E.
  - apply String.eqb_eq in E. subst x. exfalso. apply H. left. reflexivity.
  - apply IH. intros Q. apply H. right. exact Q.
Qed.

Lemma occurrences_present k vs : In k vs -> 1 <= occurrences k vs.
Proof.
  unfold occurrences. induction vs as [|x vs IH]; simpl; intros H; [destruct H|].
  destruct (String.eqb k x) eqn:E; [simpl; lia|].
  destruct H as [H|H]; [subst x; rewrite String.eqb_refl in E; discriminate E|].
  apply IH. exact H.
Qed.

Lemma not_proto v : inherited v = false -> String.eqb v "__proto__" = false.
Proof.
  intros H. destruct (String.eqb v "__proto__") eqn:E; [|reflexivity].
  apply String.eqb_eq in E. subst v. discriminate H.
Qed.

Lemma countValues_snoc vs v : countValues (vs ++ [v]) = tallyStep (countValues vs) v.
Proof. unfold countValues. rewrite fold_left_app. reflexivity. Qed.

Lemma plain_snoc vs v : plain (vs ++ [v]) -> plain vs /\ inherited v = false.
Proof.
  unfold plain. intros H. apply Forall_app in H. destruct H as [H1 H2].
  split; [exact H1|]. inversion H2; assumption.
Qed.

(** The table after the tally of values that are not inherited names: each
    value is a key with its number of occurrences, and the keys were created
    in the order of first occurrence. *)
Lemma countValues_spec vs : plain vs ->
  let o := countValues vs in
  (forall k, In k vs -> getOwn k o = Some (Count (occurrences k vs)))
  /\ (forall k, ~ In k vs -> getOwn k o = None)
  /\ (forall k, In k (map fst o) <-> In k vs)
  /\ (forall a b, before a b (map fst o) -> earlier a b vs).
Proof.
  induction vs as [|v vs IH] using rev_ind; intros Hp.
  - cbv zeta. unfold countValues. simpl. repeat split; try tauto.
    intros a b (l1 & l2 & E & _). destruct l1; discriminate E.
  - apply plain_snoc in Hp. destruct Hp as [Hp Hv].
    specialize (IH Hp). cbv zeta in IH. destruct IH as (Hin & Hout & Hkeys & Hord).
    cbv zeta. rewrite countValues_snoc. unfold tallyStep, assign.
    rewrite (not_proto v Hv).
    set (o := countValues vs) in *.
    assert (Hinc : incremented v o = Count (occurrences v vs + 1)).
    { unfold incremented. destruct (in_dec string_dec v vs) as [Q|Q].
      - rewrite (Hin v Q). reflexivity.
      - rewrite (Hout v Q), Hv, (occurrences_absent v vs Q). reflexivity. }
    rewrite Hinc.
    assert (Hk : forall k, In k (map fst (setOwn v (Count (occurrences v vs + 1)) o))
                           <-> In k (vs ++ [v])%list).
    { intros k. rewrite in_app_iff. simpl.
      destruct (in_dec string_dec v (map fst o)) as [Q|Q].
      - rewrite (keys_setOwn_old v _ o Q), Hkeys. split; [tauto|].
        intros [H|[<-|[]]]; [exact H|]. apply Hkeys. exact Q.
      - rewrite (keys_setOwn_new v _ o Q), in_app_iff, Hkeys. simpl. tauto. }
    split; [|split; [|split]].
    + intros k Hk'. rewrite getOwn_setOwn, occurrences_snoc.
      destruct (String.eqb v k) eqn:E.
      * apply String.eqb_eq in E. subst k. rewrite String.eqb_refl. reflexivity.
      * rewrite String.eqb_sym, E, Nat.add_0_r. apply Hin.
        apply in_app_or in Hk'. destruct Hk' as [Q|[Q|[]]]; [exact Q|].
        subst k. rewrite String.eqb_refl in E. discriminate E.
    + intros k Hk'. rewrite getOwn_setOwn.
      destruct (String.eqb v k) eqn:E.
      * apply String.eqb_eq in E. subst k. exfalso. apply Hk'.
        apply in_or_app. right. left. reflexivity.
      * apply Hout. intros Q. apply Hk'. apply in_or_app. left. exact Q.
    + exact Hk.
    + intros a b Hab.
      assert (Old : earlier a b vs -> earlier a b (vs ++ [v])).
      { intros (l1 & l2 & -> & Hn). exists l1, (l2 ++ [v])%list. split; [|exact Hn].
        rewrite <- app_assoc. reflexivity. }
      destruct (in_dec string_dec v (map fst o)) as [Q|Q].
      * rewrite (keys_setOwn_old v _ o Q) in Hab. apply Old, Hord. exact Hab.
      * rewrite (keys_setOwn_new v _ o Q) in Hab. apply before_snoc in Hab.
        destruct Hab as [Hab|[Ha ->]]; [apply Old, Hord; exact Hab|].
        apply Hkeys in Ha. destruct (first_occurrence a vs Ha) as (l1 & l2 & -> & Hn).
        exists l1, (l2 ++ [v])%list. split; [rewrite <- app_assoc; reflexivity|].
        intros Hv1. apply Q. apply Hkeys. apply in_or_app. left. exact Hv1.
Qed.

(** Whatever the values, the keys of the table are among them. *)
Lemma countValues_keys vs k : In k (map fst (countValues vs)) -> In k vs.
Proof.
  induction vs as [|v vs IH] using rev_ind; [intros []|].
  rewrite countValues_snoc. unfold tallyStep, assign. intros H.
  apply in_or_app.
  destruct (String.eqb v "__proto__"); [left; apply IH; exact H|].
  destruct (in_dec string_dec v (map fst (countValues vs))) as [Q|Q].
  - rewrite (keys_setOwn_old v _ _ Q) in H. left. apply IH. exact H.
  - rewrite (keys_setOwn_new v _ _ Q) in H. apply in_app_or in H.
    destruct H as [H|H]; [left; apply IH; exact H|right; exact H].
Qed.

(** *** The order of [Object.keys] *)

Lemma insertIndex_In n k l x : In x (insertIndex n k l) <-> x = (n, k) \/ In x l.
Proof.
  induction l as [|[m k'] l IH]; simpl; [intuition congruence|].
  destruct (n <? m)%N; simpl; [intuition congruence|].
  rewrite IH. intuition congruence.
Qed.

Lemma insertIndex_sorted n k l :
  StronglySorted byIndex l -> StronglySorted byIndex (insertIndex n k l).
Proof.
  induction l as [|[m k'] l IH]; simpl; intros H.
  - constructor; [constructor|constructor].
  - inversion H as [|? ? Hs Hall]; subst.
    destruct (n <? m)%N eqn:E.
    + apply N.ltb_lt in E. constructor; [exact H|].
      constructor; [unfold byIndex; simpl; lia|].
      apply List.Forall_forall. intros x Hx.
      rewrite List.Forall_forall in Hall. specialize (Hall x Hx).
      unfold byIndex in *. simpl in *. lia.
    + apply N.ltb_ge in E. constructor; [apply IH; exact Hs|].
      apply List.Forall_forall. intros x Hx. apply insertIndex_In in Hx.
      destruct Hx as [->|Hx]; [unfold byIndex; simpl; lia|].
      rewrite List.Forall_forall in Hall. exact (Hall x Hx).
Qed.

Lemma indexKeys_sorted ks : StronglySorted byIndex (indexKeys ks).
Proof.
  induction ks as [|k ks IH]; simpl; [constructor|].
  destruct (arrayIndex k); [apply insertIndex_sorted|]; exact IH.
Qed.

Lemma indexKeys_In ks n k :
  In (n, k) (indexKeys ks) <-> In k ks /\ arrayIndex k = Some n.
Proof.
  induction ks as [|k' ks IH]; simpl; [tauto|].
  destruct (arrayIndex k') as [m|] eqn:E.
  - rewrite insertIndex_In, IH. split.
    + intros [Q|[Q1 Q2]]; [inversion Q; subst; tauto|tauto].
    + intros [[->|Q1] Q2]; [left; congruence|tauto].
  - rewrite IH. split; [tauto|]. intros [[->|Q1] Q2]; [congruence|tauto].
Qed.

Lemma sorted_before l a b : StronglySorted byIndex l -> before a b l -> byIndex a b.
Proof.
  induction l as [|x l IH]; intros Hs Hb.
  - destruct Hb as (l1 & l2 & E & _). destruct l1; discriminate E.
  - inversion Hs as [|? ? Hs' Hall]; subst. apply before_cons in Hb.
    destruct Hb as [[-> Hb]|Hb]; [|apply IH; assumption].
    rewrite List.Forall_forall in Hall. exact (Hall b Hb).
Qed.

Lemma isIndex_true k : isIndex k = true <-> exists n, arrayIndex k = Some n.
Proof.
  unfold isIndex. destruct (arrayIndex k) as [n|]; split; try discriminate; eauto.
  intros [n H]. discriminate H.
Qed.

Lemma keys_In o k : In k (keys o) <-> In k (map fst o).
Proof.
  unfold keys. rewrite in_app_iff, in_map_iff, filter_In. split.
  - intros [([n k'] & E & H)|[H _]]; [|exact H].
    simpl in E. subst k'. apply indexKeys_In in H. tauto.
  - intros H. destruct (arrayIndex k) as [n|] eqn:E.
    + left. exists (n, k). split; [reflexivity|]. apply indexKeys_In. tauto.
    + right. split; [exact H|]. unfold isIndex. rewrite E. reflexivity.
Qed.

(** Two keys that [Object.keys] lists in this order. *)
Lemma keys_before o a b :
  before a b (keys o) ->
  match arrayIndex a, arrayIndex b with
  | Some i, Some j => (i <= j)%N
  | Some _, None => True
  | None, Some _ => False
  | None, None => before a b (map fst o)
  end.
Proof.
  unfold keys. intros H. apply before_app in H.
  destruct H as [H|[H|[Ha Hb]]].
  - apply before_map in H. destruct H as ([i a'] & [j b'] & H & Ea & Eb).
    simpl in Ea, Eb. subst a' b'.
    pose proof (sorted_before _ _ _ (indexKeys_sorted (map fst o)) H) as Hij.
    apply before_in in H. destruct H as [Hi Hj].
    apply indexKeys_In in Hi. apply indexKeys_In in Hj.
    destruct Hi as [_ ->]. destruct Hj as [_ ->]. exact Hij.
  - pose proof (before_in _ _ _ H) as [Ha Hb].
    apply filter_In in Ha. apply filter_In in Hb.
    destruct Ha as [_ Ha]. destruct Hb as [_ Hb].
    unfold isIndex in Ha, Hb.
    destruct (arrayIndex a); [discriminate Ha|].
    destruct (arrayIndex b); [discriminate Hb|].
    apply before_filter in H. exact H.
  - apply in_map_iff in Ha. destruct Ha as ([i a'] & Ea & Ha). simpl in Ea. subst a'.
    apply indexKeys_In in Ha. destruct Ha as [_ ->].
    apply filter_In in Hb. destruct Hb as [_ Hb]. unfold isIndex in Hb.
    destruct (arrayIndex b); [discriminate Hb|exact I].
Qed.

(** *** The scan for the most frequent key *)

Lemma scan_cons count k ks m b :
  scan count (k :: ks) (m, b)
  = scan count ks (if (m <? count k)%nat then (count k, k) else (m, b)).
Proof. reflexivity. Qed.

Lemma scan_spec count ks : forall m b m' b',
  scan count ks (m, b) = (m', b') ->
  (m' = m /\ b' = b /\ forall k, In k ks -> count k <= m)
  \/ (exists l1 l2, ks = (l1 ++ b' :: l2)%list
        /\ m' = count b' /\ m < count b'
        /\ (forall k, In k l1 -> count k < count b')
        /\ (forall k, In k l2 -> count k <= count b')).
Proof.
  induction ks as [|k ks IH]; intros m b m' b' H.
  - inversion H; subst. left. repeat split. intros k [].
  - rewrite scan_cons in H. destruct (m <? count k)%nat eqn:E.
    + apply Nat.ltb_lt in E.
      destruct (IH _ _ _ _ H) as [(-> & -> & Hall)|(l1 & l2 & Hks & Hf & Hm & H1 & H2)].
      * right. exists [], ks. repeat split; auto. intros k' [].
      * right. exists (k :: l1), l2. repeat split; auto.
        -- simpl. rewrite Hks at 1. reflexivity.
        -- lia.
        -- intros k' [<-|Hk]; [lia|auto].
    + apply Nat.ltb_ge in E.
      destruct (IH _ _ _ _ H) as [(-> & -> & Hall)|(l1 & l2 & Hks & Hf & Hm & H1 & H2)].
      * left. repeat split. intros k' [<-|Hk]; [exact E|auto].
      * right. exists (k :: l1), l2. repeat split; auto.
        -- simpl. rewrite Hks at 1. reflexivity.
        -- intros k' [<-|Hk]; [lia|auto].
Qed.

Lemma pick_is_scan o count first :
  (forall k, In k (keys o) -> getOwn k o = Some (Count (count k))) ->
  pickMostFrequent o first = scan count (keys o) (0, first).
Proof.
  unfold pickMostFrequent, scan. generalize (0, first).
  induction (keys o) as [|k ks IH]; intros start H; simpl; [reflexivity|].
  destruct start as [m b]. unfold exceeds.
  rewrite (H k (or_introl eq_refl)).
  destruct (m <? count k)%nat; apply IH; intros k' Hk'; apply H; right; exact Hk'.
Qed.

(** Without counts to rely on, the scan still returns its start value or one
    of the keys. *)
Lemma pick_in o first :
  snd (pickMostFrequent o first) = first \/ In (snd (pickMostFrequent o first)) (keys o).
Proof.
  unfold pickMostFrequent.
  assert (G : forall ks start,
             snd (fold_left (fun '(maxFreq, mostFrequent) value =>
                    if exceeds o value maxFreq
                    then (match getOwn value o with
                          | Some (Count n) => n
                          | _ => maxFreq
                          end, value)
                    else (maxFreq, mostFrequent)) ks start) = snd start
             \/ In (snd (fold_left (fun '(maxFreq, mostFrequent) value =>
                    if exceeds o value maxFreq
                    then (match getOwn value o with
                          | Some (Count n) => n
                          | _ => maxFreq
                          end, value)
                    else (maxFreq, mostFrequent)) ks start)) ks).
  { induction ks as [|k ks IH]; intros [m b]; simpl; [left; reflexivity|].
    destruct (exceeds o k m).
    - destruct (IH (match getOwn k o with Some (Count n) => n | _ => m end, k))
        as [Q|Q]; [right; left; symmetry; exact Q|right; right; exact Q].
    - destruct (IH (m, b)) as [Q|Q]; [left; exact Q|right; right; exact Q]. }
  exact (G (keys o) (0, first)).
Qed.

(** *** The merged value of a field *)

Lemma mergeValues_in vs : vs <> [] -> In (mergeValues vs) vs.
Proof.
  destruct vs as [|first rest]; [congruence|]. intros _. unfold mergeValues.
  destruct (pick_in (countValues (first :: rest)) first) as [H|H].
  - rewrite H. left. reflexivity.
  - apply keys_In in H. apply countValues_keys. exact H.
Qed.

Lemma precedes_refl vs a : In a vs -> precedes vs a a.
Proof.
  intros H. unfold precedes. destruct (arrayIndex a); [lia|].
  exact (first_occurrence a vs H).
Qed.

Lemma mergeValues_cons first rest :
  mergeValues (first :: rest)
  = snd (pickMostFrequent (countValues (first :: rest)) first).
Proof. reflexivity. Qed.

Lemma mergeValues_spec vs :
  plain vs -> vs <> [] ->
  (forall v, In v vs -> occurrences v vs <= occurrences (mergeValues vs) vs)
  /\ (forall v, In v vs -> occurrences v vs = occurrences (mergeValues vs) vs ->
                precedes vs (mergeValues vs) v).
Proof.
  intros Hp Hne. destruct vs as [|first rest]; [congruence|].
  rewrite mergeValues_cons.
  assert (Hf : In first (first :: rest)) by (left; reflexivity).
  remember (first :: rest) as vs eqn:Evs. clear Evs Hne.
  destruct (countValues_spec vs Hp) as (Hin & Hout & Hkeys & Hord).
  remember (countValues vs) as o eqn:Eo. clear Eo.
  assert (Hcount : forall k, In k (keys o) ->
                     getOwn k o = Some (Count (occurrences k vs))).
  { intros k Hk. apply Hin, Hkeys, keys_In. exact Hk. }
  rewrite (pick_is_scan o (fun k => occurrences k vs) first Hcount).
  destruct (scan (fun k => occurrences k vs) (keys o) (0, first)) as [m' b'] eqn:Es.
  cbn [snd].
  apply scan_spec in Es.
  destruct Es as [(_ & _ & Hall)|(l1 & l2 & Hks & _ & _ & H1 & H2)].
  { exfalso.
    pose proof (occurrences_present first vs Hf) as Hpos.
    specialize (Hall first (proj2 (keys_In o first) (proj2 (Hkeys first) Hf))).
    simpl in Hall. lia. }
  assert (Hsplit : forall v, In v vs -> In v l1 \/ v = b' \/ In v l2).
  { intros v Hv. apply Hkeys, keys_In in Hv. rewrite Hks in Hv.
    apply in_app_or in Hv. destruct Hv as [Hv|[Hv|Hv]]; auto. }
  assert (Hb : In b' vs).
  { apply Hkeys, keys_In. rewrite Hks. apply in_or_app. right. left. reflexivity. }
  split.
  - intros v Hv. destruct (Hsplit v Hv) as [Q|[->|Q]].
    + specialize (H1 v Q). simpl in H1. lia.
    + lia.
    + exact (H2 v Q).
  - intros v Hv Heq. destruct (Hsplit v Hv) as [Q|[->|Q]].
    + specialize (H1 v Q). simpl in H1. lia.
    + apply precedes_refl. exact Hb.
    + assert (Hbefore : before b' v (keys o)).
      { exists l1, l2. split; [exact Hks|exact Q]. }
      apply keys_before in Hbefore. unfold precedes.
      destruct (arrayIndex b'), (arrayIndex v); try exact Hbefore.
      apply Hord. exact Hbefore.
Qed.

(** C1, as amended.  [mergeField] returns the empty string when no pass has
    a non-blank value for the field, and otherwise one of the passes' values.
    When none of the values is the name of a property that objects inherit,
    the result is a most frequent value, and among the most frequent values
    it is the first in the order of [Object.keys]: array-index strings come
    first, by ascending number, then the other strings by first occurrence.
    In particular two passes with the totals ["100"] and ["200"] merge to
    ["100"]. *)
Theorem C1_mergeField :
  (forall (f : Field.t) (extractions : list PassExtraction),
     let values := fieldValues f extractions in
     let winner := mergeField f extractions in
     (values = [] -> winner = "")
     /\ (values <> [] -> In winner values)
     /\ (plain values -> forall v, In v values ->
         occurrences v values <= occurrences winner values)
     /\ (plain values -> forall v, In v values ->
         occurrences v values = occurrences winner values ->
         precedes values winner v))
  /\ fieldValues Field.total (passes ["Total 100"; "Total 200"]) = ["100"; "200"]
  /\ mergeField Field.total (passes ["Total 100"; "Total 200"]) = "100".
Proof.
  split; [|split; vm_compute; reflexivity].
  intros f extractions values winner. subst winner. unfold mergeField. fold values.
  split; [intros ->; reflexivity|].
  split; [apply mergeValues_in|].
  split.
  - intros Hp v Hv. assert (Hne : values <> []) by (intros E; rewrite E in Hv; destruct Hv).
    exact (proj1 (mergeValues_spec values Hp Hne) v Hv).
  - intros Hp v Hv. assert (Hne : values <> []) by (intros E; rewrite E in Hv; destruct Hv).
    exact (proj2 (mergeValues_spec values Hp Hne) v Hv).
Qed.

Lemma C1_mergeField_witness :
  let extractions := passes ["Total 300"; "Bill 7"; "Total 300"; "Total 20"] in
  let values := fieldValues Field.total extractions in
  let winner := mergeField Field.total extractions in
  values = ["300"; "7"; "300"; "20"]
  /\ plain values
  /\ winner = "300"
  /\ (forall v, In v values -> occurrences v values <= occurrences winner values)
  /\ (forall v, In v values -> occurrences v values = occurrences winner values ->
      precedes values winner v).
Proof.
  cbv zeta.
  pose proof (proj1 C1_mergeField Field.total
                (passes ["Total 300"; "Bill 7"; "Total 300"; "Total 20"])) as H.
  cbv zeta in H. destruct H as (_ & _ & Hmost & Hfirst).
  assert (V : fieldValues Field.total
                (passes ["Total 300"; "Bill 7"; "Total 300"; "Total 20"])
              = ["300"; "7"; "300"; "20"]) by (vm_compute; reflexivity).
  assert (P : plain (fieldValues Field.total
                (passes ["Total 300"; "Bill 7"; "Total 300"; "Total 20"]))).
  { rewrite V. unfold plain. repeat constructor. }
  split; [exact V|]. split; [exact P|]. split; [vm_compute; reflexivity|].
  split; [exact (Hmost P)|exact (Hfirst P)].
Defined.

(** C1 as stated fails on the tie-break: the passes with the totals ["200"]
    and ["100"] tie, the first occurrence of ["200"] lies in the earlier pass,
    and [mergeField] returns ["100"], the key that [Object.keys] lists
    first. *)
Lemma C1_counterexample :
  let extractions := passes ["Total 200"; "Total 100"] in
  let values := fieldValues Field.total extractions in
  values = ["200"; "100"]
  /\ mergeField Field.total extractions = "100"
  /\ earliestMostFrequent values "200"
  /\ ~ earliestMostFrequent values (mergeField Field.total extractions).
Proof.
  cbv zeta.
  assert (V : fieldValues Field.total (passes ["Total 200"; "Total 100"])
              = ["200"; "100"]) by (vm_compute; reflexivity).
  assert (M : mergeField Field.total (passes ["Total 200"; "Total 100"]) = "100")
    by (vm_compute; reflexivity).
  rewrite V, M. split; [reflexivity|]. split; [reflexivity|]. split.
  - split; [left; reflexivity|]. split.
    + intros v [<-|[<-|[]]]; vm_compute; lia.
    + intros v Hv _. exists [], ["100"]. split; [reflexivity|]. intros [].
  - intros (_ & _ & Hearly).
    destruct (Hearly "200" (or_introl eq_refl) eq_refl) as (l1 & l2 & E & Hn).
    destruct l1 as [|x l1]; [discriminate E|].
    inversion E; subst. apply Hn. left. reflexivity.
Qed.

(** *** One pass *)

Lemma keys_single v s : keys [(v, s)] = [v].
Proof.
  unfold keys, isIndex. simpl. destruct (arrayIndex v); reflexivity.
Qed.

Lemma mergeValues_single v : mergeValues [v] = v.
Proof.
  rewrite mergeValues_cons. unfold countValues. simpl.
  unfold assign. destruct (String.eqb v "__proto__"); [reflexivity|].
  unfold pickMostFrequent. simpl setOwn. rewrite keys_single. simpl.
  destruct (exceeds _ _ _); reflexivity.
Qed.

Lemma extractAll_data results : forall index st,
  map (fun e => billData (extraction e)) (fst (extractAll index results st))
  = map (fun r => extractBillData (text r)) results.
Proof.
  induction results as [|r rs IH]; intros index st; simpl; [reflexivity|].
  destruct (extractAll (S index) rs _) as [es st2] eqn:E. simpl.
  f_equal. specialize (IH (S index)
    (storeConfidences
       (fun field => getFieldConfidence
                       {| DataExtractionModule.words := words r;
                          DataExtractionModule.confidence := None |}
                       (get field (extractBillData (text r))))
       (extractBillData (text r)) st)).
  unfold extractBillDataWithConfidence in E. cbv zeta in E.
  rewrite E in IH. exact IH.
Qed.

(** The non-blank values of a field over the passes are the non-empty ones
    among the values that [extractBillData] gives the passes' texts. *)
Lemma fieldValues_extracted f results index st :
  fieldValues f (fst (extractAll index results st))
  = List.filter (fun v => negb (v =? "")%string)
                (map (fun r => get f (extractBillData (text r))) results).
Proof.
  unfold fieldValues.
  replace (map (fun e => get f (billData (extraction e)))
               (fst (extractAll index results st)))
    with (map (get f) (map (fun e => billData (extraction e))
                           (fst (extractAll index results st))))
    by (rewrite map_map; reflexivity).
  rewrite extractAll_data, map_map.
  induction results as [|r rs IH]; simpl; [reflexivity|].
  rewrite (ExtractionFacts.nonblank_iff_nonempty (text r) f), IH. reflexivity.
Qed.

Lemma consistency_of_values f es merged :
  consistency f es merged
  = let values := fieldValues f es in
    if (0 <? List.length values)%nat
    then (inject_Z (Z.of_nat (List.length
            (List.filter (fun v => String.eqb v (get f merged)) values)))
          / inject_Z (Z.of_nat (List.length values)))%Q
    else 0%Q.
Proof. reflexivity. Qed.

Lemma count_among_nonempty w l :
  w <> "" ->
  List.length (List.filter (fun v => String.eqb v w)
                 (List.filter (fun v => negb (v =? "")%string) l))
  = occurrences w l.
Proof.
  intros Hw. unfold occurrences. induction l as [|x l IH]; simpl; [reflexivity|].
  destruct (String.eqb w x) eqn:E.
  - apply String.eqb_eq in E. subst x.
    destruct (String.eqb w "") eqn:N; [apply String.eqb_eq in N; contradiction|].
    simpl. rewrite String.eqb_refl. simpl. rewrite IH. reflexivity.
  - destruct (negb (x =? "")%string); simpl; [|exact IH].
    rewrite String.eqb_sym, E. exact IH.
Qed.

Lemma mergeScanResults_parts results st :
  let es := fst (extractAll 0 results st) in
  let m := fst (mergeScanResults results st) in
  (forall f, get f (mergedData m) = mergeField f es)
  /\ (forall f, mergedConfidences m f = consistency f es (mergedData m))
  /\ (overallConfidence m
      == (mergedConfidences m Field.billNo + mergedConfidences m Field.date
          + mergedConfidences m Field.customer + mergedConfidences m Field.gst
          + mergedConfidences m Field.total) / 5)%Q.
Proof.
  cbv zeta. unfold mergeScanResults.
  destruct (extractAll 0 results st) as [es st1]. cbn [fst mergedData mergedConfidences
                                                       overallConfidence].
  split; [intros []; reflexivity|]. split; [reflexivity|].
  cbn [fold_left Field.all List.length]. rewrite Qplus_0_l. reflexivity.
Qed.

(** C3.  Merging the single pass [R] yields the fields that
    [extractBillData] gives its text, with confidence 1 for every field that
    is not empty and 0 for every empty one. *)
Theorem C3_single_pass (R : ScanResult) (st : ConfidenceModule.fieldConfidences) :
  let m := fst (mergeScanResults [R] st) in
  mergedData m = extractBillData (text R)
  /\ (forall f,
        (get f (extractBillData (text R)) <> "" -> mergedConfidences m f == 1)%Q
        /\ (get f (extractBillData (text R)) = "" -> mergedConfidences m f == 0)%Q).
Proof.
  intros m. subst m.
  destruct (mergeScanResults_parts [R] st) as (Hdata & Hconf & _). cbv zeta in *.
  assert (Hvalues : forall f,
            fieldValues f (fst (extractAll 0 [R] st))
            = if (get f (extractBillData (text R)) =? "")%string then []
              else [get f (extractBillData (text R))]).
  { intros f. rewrite fieldValues_extracted. simpl.
    destruct (_ =? _)%string; reflexivity. }
  assert (Hfield : forall f,
            get f (mergedData (fst (mergeScanResults [R] st)))
            = get f (extractBillData (text R))).
  { intros f. rewrite Hdata. unfold mergeField. rewrite Hvalues.
    destruct (_ =? _)%string eqn:E; [|apply mergeValues_single].
    apply String.eqb_eq in E. rewrite E. reflexivity. }
  split.
  - pose proof (Hfield Field.billNo) as H1. pose proof (Hfield Field.date) as H2.
    pose proof (Hfield Field.customer) as H3. pose proof (Hfield Field.gst) as H4.
    pose proof (Hfield Field.total) as H5.
    remember (extractBillData (text R)) as d eqn:Ed.
    remember (mergedData (fst (mergeScanResults [R] st))) as md eqn:Emd.
    clear - H1 H2 H3 H4 H5.
    destruct md, d. cbn [get billNo date customer gst total] in *. congruence.
  - intros f. rewrite Hconf, consistency_of_values. cbv zeta.
    rewrite Hfield, Hvalues.
    destruct (_ =? _)%string eqn:E.
    + apply String.eqb_eq in E. split; [congruence|reflexivity].
    + apply String.eqb_neq in E. split; [|congruence]. intros _.
      simpl. rewrite String.eqb_refl. reflexivity.
Qed.

(** *** Several passes *)

(** C4.  After the merge the confidence of a field is the number of passes
    whose extracted value equals the winning value over the number of passes
    whose extracted value is not empty, and 0 when every pass left the field
    empty; the overall confidence is the mean of the five field confidences.
    For instance the totals ["100"], ["100"], ["200"] merge to ["100"] with
    confidence 2/3. *)
Theorem C4_merge_confidence :
  (forall (results : list ScanResult) (st : ConfidenceModule.fieldConfidences)
          (f : Field.t),
     let m := fst (mergeScanResults results st) in
     let extracted := map (fun r => get f (extractBillData (text r))) results in
     let winner := get f (mergedData m) in
     let nonEmpty :=
       List.length (List.filter (fun v => negb (v =? "")%string) extracted) in
     let agreeing := occurrences winner extracted in
     (nonEmpty = 0%nat -> (mergedConfidences m f == 0)%Q)
     /\ (nonEmpty <> 0%nat ->
         (mergedConfidences m f
          == inject_Z (Z.of_nat agreeing) / inject_Z (Z.of_nat nonEmpty))%Q)
     /\ (overallConfidence m
         == (mergedConfidences m Field.billNo + mergedConfidences m Field.date
             + mergedConfidences m Field.customer + mergedConfidences m Field.gst
             + mergedConfidences m Field.total) / 5)%Q)
  /\ (let m := fst (mergeScanResults
                      [mkScanResult "Total 100" 1 []; mkScanResult "Total 100" 1 [];
                       mkScanResult "Total 200" 1 []] ∅) in
      total (mergedData m) = "100" /\ (mergedConfidences m Field.total == 2 # 3)%Q).
Proof.
  split; [|cbv zeta; split; vm_compute; reflexivity].
  intros results st f. cbv zeta.
  destruct (mergeScanResults_parts results st) as (Hdata & Hconf & Hall).
  cbv zeta in *. split; [|split; [|exact Hall]].
  - intros H0. rewrite Hconf, consistency_of_values. cbv zeta.
    rewrite fieldValues_extracted, H0. reflexivity.
  - intros Hn. rewrite Hconf, consistency_of_values. cbv zeta.
    rewrite fieldValues_extracted.
    destruct (0 <? _)%nat eqn:E; [|apply Nat.ltb_ge in E; lia].
    assert (Hw : get f (mergedData (fst (mergeScanResults results st))) <> "").
    { rewrite Hdata. unfold mergeField. rewrite fieldValues_extracted.
      intros Hw.
      assert (Hne : List.filter (fun v => negb (v =? "")%string)
                      (map (fun r => get f (extractBillData (text r))) results) <> []).
      { intros Q. rewrite Q in Hn. simpl in Hn. congruence. }
      pose proof (mergeValues_in _ Hne) as Hin. rewrite Hw in Hin.
      apply filter_In in Hin. destruct Hin as [_ Hin]. discriminate Hin. }
    rewrite (count_among_nonempty _ _ Hw). reflexivity.
Qed.

Lemma C4_merge_confidence_witness :
  let results := [mkScanResult "Total 100" 1 []; mkScanResult "Total 100" 1 [];
                  mkScanResult "Total 200" 1 []] in
  let m := fst (mergeScanResults results ∅) in
  let extracted := map (fun r => get Field.total (extractBillData (text r))) results in
  extracted = ["100"; "100"; "200"]
  /\ get Field.total (mergedData m) = "100"
  /\ (mergedConfidences m Field.total
      == inject_Z (Z.of_nat (occurrences "100" extracted))
         / inject_Z (Z.of_nat
              (List.length (List.filter (fun v => negb (v =? "")%string) extracted))))%Q.
Proof.
  cbv zeta.
  pose proof (proj1 C4_merge_confidence
                [mkScanResult "Total 100" 1 []; mkScanResult "Total 100" 1 [];
                 mkScanResult "Total 200" 1 []] ∅ Field.total) as H.
  cbv zeta in H. destruct H as (_ & H & _).
  assert (V : map (fun r => get Field.total (extractBillData (text r)))
                [mkScanResult "Total 100" 1 []; mkScanResult "Total 100" 1 [];
                 mkScanResult "Total 200" 1 []] = ["100"; "100"; "200"])
    by (vm_compute; reflexivity).
  assert (W : get Field.total
                (mergedData (fst (mergeScanResults
                   [mkScanResult "Total 100" 1 []; mkScanResult "Total 100" 1 [];
                    mkScanResult "Total 200" 1 []] ∅))) = "100")
    by (vm_compute; reflexivity).
  rewrite V, W in H. rewrite V. split; [reflexivity|]. split; [exact W|].
  apply H. vm_compute. discriminate.
Defined.

(** *** Sample merges *)

Example keys_order :
  keys (countValues ["1200.50"; "7"; "007"; "4294967295"; "4294967294"; "b"; "0"; "a"; "7"])
  = ["0"; "7"; "4294967294"; "1200.50"; "007"; "4294967295"; "b"; "a"].
Proof. vm_compute. reflexivity. Qed.

Example merge_first_occurrence : mergeValues ["b"; "a"; "a"; "b"] = "b".
Proof. vm_compute. reflexivity. Qed.

(** The slot of an inherited name never holds a count, so such a value does
    not win by frequency. *)
Example merge_inherited_name : mergeValues ["toString"; "toString"; "X1"] = "X1".
Proof. vm_compute. reflexivity. Qed.

End MergeFacts.
(** ** Regular expressions: a match is a text of the language *)

Module RegExpSound.
Import JSString RegExp TextSpec StringFacts RegExpFacts RegExpSpec.

Lemma later_assoc a b c : later (later a b) c = later a (later b c).
Proof. destruct c; reflexivity. Qed.

Lemma later_none a : later a None = a.
Proof. reflexivity. Qed.

Section Sound.
Variable ic : bool.

Lemma repeat_sound r m :
  sound (lang ic r) m ->
  forall fuel min max greedy,
    sound (lang ic (Quant min max greedy r)) (repeatMatcher fuel m min max greedy).
Proof.
  intros Hm fuel. induction fuel as [|fuel IH]; intros min max greedy x k z H;
    [discriminate H|].
  assert (Stop : (min = 0 \/ max = Some 0) -> k x = Some z ->
                 exists y pre c, k y = Some z /\ rest x = pre ++ rest y
                   /\ lang ic (Quant min max greedy r) pre c
                   /\ cap y = later (cap x) c).
  { intros H0 Hk. exists x, "", None. repeat split; auto.
    exists []. repeat split; auto.
    - intros M _. simpl. lia.
    - intros HM. simpl. destruct H0 as [E|E]; [lia|].
      specialize (HM 0 E). lia. }
  assert (Step : max <> Some 0 -> forall d : continuation,
             (forall y, d y = Some z ->
                repeatMatcher fuel m (Nat.pred min) (option_map Nat.pred max) greedy y k
                = Some z) ->
             m x d = Some z ->
             exists y pre c, k y = Some z /\ rest x = pre ++ rest y
               /\ lang ic (Quant min max greedy r) pre c
               /\ cap y = later (cap x) c).
  { intros Hmax d Hd Hmx. apply Hm in Hmx.
    destruct Hmx as (y & pre & c & Hy & Hrest & Hpre & Hcap).
    apply Hd in Hy. apply IH in Hy.
    destruct Hy as (y' & pre' & c' & Hy' & Hrest' & (ps & Hps & Hj & Hc & Hle & Hge) & Hcap').
    exists y', (pre ++ pre'), (later c c'). repeat split.
    - assumption.
    - rewrite Hrest, Hrest'. symmetry. apply append_assoc.
    - exists ((pre, c) :: ps). repeat split.
      + constructor; assumption.
      + simpl. rewrite Hj. reflexivity.
      + simpl. rewrite Hc. reflexivity.
      + intros M HM. subst max. simpl in Hle. specialize (Hle (Nat.pred M) eq_refl).
        simpl. destruct M; [congruence|]. simpl in Hle. lia.
      + intros HM. simpl.
        assert (Nat.pred min <= List.length ps).
        { apply Hge. intros M' HM'. destruct max as [M|]; [|discriminate].
          simpl in HM'. inversion HM'. specialize (HM M eq_refl). lia. }
        lia.
    - rewrite Hcap', Hcap. apply later_assoc. }
  simpl in H.
  set (d := fun y : mstate =>
              if (min =? 0)%nat && (String.length (rest y) =? String.length (rest x))%nat
              then None
              else repeatMatcher fuel m (Nat.pred min) (option_map Nat.pred max) greedy y k)
    in H.
  assert (Hd : forall y, d y = Some z ->
               repeatMatcher fuel m (Nat.pred min) (option_map Nat.pred max) greedy y k
               = Some z).
  { intros y. unfold d. destruct (_ && _); [discriminate|tauto]. }
  destruct max as [[|max]|].
  - apply Stop; [right; reflexivity|assumption].
  - destruct (min =? 0)%nat eqn:E0; simpl in H;
      [|apply (Step ltac:(discriminate) d Hd H)].
    apply Nat.eqb_eq in E0.
    destruct greedy.
    + destruct (m x d) eqn:E; [apply (Step ltac:(discriminate) d Hd); congruence
                              |apply Stop; [left|]; assumption].
    + destruct (k x) eqn:E; [apply Stop; [left; assumption|congruence]
                            |apply (Step ltac:(discriminate) d Hd H)].
  - destruct (min =? 0)%nat eqn:E0; simpl in H;
      [|apply (Step ltac:(discriminate) d Hd H)].
    apply Nat.eqb_eq in E0.
    destruct greedy.
    + destruct (m x d) eqn:E; [apply (Step ltac:(discriminate) d Hd); congruence
                              |apply Stop; [left|]; assumption].
    + destruct (k x) eqn:E; [apply Stop; [left; assumption|congruence]
                            |apply (Step ltac:(discriminate) d Hd H)].
Qed.

Lemma rmatch_sound r : sound (lang ic r) (rmatch ic r).
Proof.
  induction r as [|cs|r1 IH1 r2 IH2|r1 IH1 r2 IH2|min max greedy r IH|r IH|];
    intros x k z H; simpl in H.
  - exists x, "", None. repeat split; auto.
  - destruct (rest x) as [|ch s'] eqn:E; [discriminate|].
    destruct (class_test ic cs ch) eqn:T; [|discriminate].
    exists (MState s' (cap x)), (String ch ""), None. repeat split; auto.
    exists ch. auto.
  - apply IH1 in H. destruct H as (y & pre & c & Hy & Hrest & Hpre & Hcap).
    apply IH2 in Hy. destruct Hy as (y' & pre' & c' & Hy' & Hrest' & Hpre' & Hcap').
    exists y', (pre ++ pre'), (later c c'). repeat split.
    + assumption.
    + rewrite Hrest, Hrest'. symmetry. apply append_assoc.
    + exists pre, pre', c, c'. auto.
    + rewrite Hcap', Hcap. apply later_assoc.
  - destruct (rmatch ic r1 x k) eqn:E.
    + assert (E' : rmatch ic r1 x k = Some z) by congruence.
      apply IH1 in E'. destruct E' as (y & pre & c & Hy & Hrest & Hpre & Hcap).
      exists y, pre, c. repeat split; auto. left. assumption.
    + apply IH2 in H. destruct H as (y & pre & c & Hy & Hrest & Hpre & Hcap).
      exists y, pre, c. repeat split; auto. right. assumption.
  - exact (repeat_sound r (rmatch ic r) IH _ min max greedy x k z H).
  - apply IH in H. destruct H as (y & pre & c & Hy & Hrest & Hpre & Hcap).
    exists (MState (rest y) (Some (consumed x y))), pre, (Some pre). repeat split.
    + assumption.
    + assumption.
    + exists c. auto.
    + simpl. rewrite (@consumed_prefix x y pre Hrest). reflexivity.
  - destruct (rest x) eqn:E; [|discriminate].
    exists x, "", None. repeat split; auto.
Qed.

End Sound.

(** A successful attempt matched a prefix of the input that belongs to the
    language of the pattern, with the capture that the language assigns. *)
Lemma matchAt_sound p s m0 c :
  matchAt p s = Some (m0, c) ->
  exists post, s = m0 ++ post /\ lang (ignoreCase p) (body p) m0 c.
Proof.
  unfold matchAt. intros H.
  destruct (rmatch (ignoreCase p) (body p) (MState s None) Some) as [y|] eqn:E;
    [|discriminate].
  apply rmatch_sound in E. destruct E as (y' & pre & c' & Hy & Hrest & Hpre & Hcap).
  inversion Hy; subst y'. simpl in Hrest, Hcap.
  rewrite (@consumed_prefix (MState s None) y pre Hrest) in H.
  inversion H as [[Hm Hc]]. rewrite <- Hm. exists (rest y). split; [exact Hrest|].
  rewrite Hcap. destruct c'; assumption.
Qed.

Lemma exec_sound p s m0 c :
  exec p s = Some (m0, c) ->
  exists pre post, s = pre ++ m0 ++ post /\ lang (ignoreCase p) (body p) m0 c.
Proof.
  induction s as [|ch s IH]; simpl; intros H.
  - destruct (matchAt p "") as [res|] eqn:E; [|discriminate].
    inversion H; subst res. apply matchAt_sound in E. destruct E as (post & Hs & HL).
    exists "", post. auto.
  - destruct (matchAt p (String ch s)) as [res|] eqn:E.
    + inversion H; subst res. apply matchAt_sound in E. destruct E as (post & Hs & HL).
      exists "", post. auto.
    + apply IH in H. destruct H as (pre & post & Hs & HL).
      exists (String ch pre), post. rewrite Hs. auto.
Qed.

End RegExpSound.

(** ** Texts within texts, runs and groups *)

Module ShapeFacts.
Import JSString RegExp TextSpec StringFacts RegExpFacts RegExpSpec RegExpSound ShapeSpec.

Lemma occurs_in_refl s : occurs_in s s.
Proof. exists "", "". rewrite append_nil_r. reflexivity. Qed.

Lemma occurs_in_trans a b c : occurs_in a b -> occurs_in b c -> occurs_in a c.
Proof.
  intros (p & q & ->) (p' & q' & ->). exists (p' ++ p), (q ++ q').
  rewrite !append_assoc. reflexivity.
Qed.

Lemma occurs_in_prefix a b : occurs_in a (a ++ b).
Proof. exists "", b. reflexivity. Qed.

Lemma occurs_in_suffix a b : occurs_in b (a ++ b).
Proof. exists a, "". rewrite append_nil_r. reflexivity. Qed.

Lemma occurs_in_app_l a b t : occurs_in t a -> occurs_in t (a ++ b).
Proof. intros H. apply occurs_in_trans with (1 := H). apply occurs_in_prefix. Qed.

Lemma occurs_in_app_r a b t : occurs_in t b -> occurs_in t (a ++ b).
Proof. intros H. apply occurs_in_trans with (1 := H). apply occurs_in_suffix. Qed.

Lemma all_chars_occurs P t s : occurs_in t s -> all_chars P s = true -> all_chars P t = true.
Proof.
  intros (p & q & ->). rewrite !all_chars_app, !andb_true_iff. tauto.
Qed.

Lemma all_chars_impl (P Q : ascii -> bool) s :
  (forall ch, P ch = true -> Q ch = true) -> all_chars P s = true -> all_chars Q s = true.
Proof.
  intros HPQ. induction s as [|c s IH]; simpl; [reflexivity|].
  rewrite !andb_true_iff. intros [Hc Hs]. auto.
Qed.

Lemma trimStart_suffix s : exists pre, s = pre ++ trimStart s.
Proof.
  induction s as [|c s [pre IH]]; simpl; [exists ""; reflexivity|].
  destruct (is_space c).
  - exists (String c pre). rewrite append_cons. congruence.
  - exists "". reflexivity.
Qed.

Lemma trimEnd_prefix s : exists post, s = trimEnd s ++ post.
Proof.
  induction s as [|c s [post IH]]; simpl; [exists ""; reflexivity|].
  destruct (trimEnd s) as [|d t] eqn:E.
  - destruct (is_space c).
    + exists (String c s). reflexivity.
    + exists s. reflexivity.
  - exists post. rewrite append_cons. congruence.
Qed.

Lemma trim_occurs s : occurs_in (trim s) s.
Proof.
  unfold trim. destruct (trimStart_suffix s) as [pre Hpre].
  destruct (trimEnd_prefix (trimStart s)) as [post Hpost].
  exists pre, post. rewrite <- Hpost. exact Hpre.
Qed.

Lemma trimEnd_nonspace s : all_chars nonspace s = true -> trimEnd s = s.
Proof.
  induction s as [|c s IH]; simpl; [reflexivity|].
  rewrite andb_true_iff. intros [Hc Hs]. rewrite (IH Hs).
  unfold nonspace in Hc. apply negb_true_iff in Hc. rewrite Hc.
  destruct s; reflexivity.
Qed.

Lemma trim_nonspace s : all_chars nonspace s = true -> trim s = s.
Proof.
  intros H. unfold trim.
  assert (E : trimStart s = s).
  { destruct s as [|c s]; [reflexivity|]. simpl in *.
    apply andb_true_iff in H. destruct H as [Hc _].
    unfold nonspace in Hc. apply negb_true_iff in Hc. rewrite Hc. reflexivity. }
  rewrite E. apply trimEnd_nonspace. assumption.
Qed.

Lemma remove_chars_app p a b :
  remove_chars p (a ++ b) = remove_chars p a ++ remove_chars p b.
Proof.
  induction a as [|c a IH]; [reflexivity|].
  rewrite append_cons. simpl. destruct (p c); [assumption|].
  rewrite append_cons, IH. reflexivity.
Qed.

Lemma remove_chars_none p s :
  all_chars (fun ch => negb (p ch)) s = true -> remove_chars p s = s.
Proof.
  induction s as [|c s IH]; simpl; [reflexivity|].
  rewrite andb_true_iff. intros [Hc Hs]. apply negb_true_iff in Hc. rewrite Hc, (IH Hs).
  reflexivity.
Qed.

Lemma remove_chars_all P p s :
  all_chars P s = true -> all_chars P (remove_chars p s) = true.
Proof.
  induction s as [|c s IH]; simpl; [reflexivity|].
  rewrite andb_true_iff. intros [Hc Hs]. destruct (p c); simpl; rewrite ?Hc; auto.
Qed.

Lemma remove_chars_removed p s :
  all_chars (fun ch => negb (p ch)) (remove_chars p s) = true.
Proof.
  induction s as [|c s IH]; simpl; [reflexivity|].
  destruct (p c) eqn:E; simpl; rewrite ?E; auto.
Qed.

(** *** Splitting *)

Lemma split_on_whole p s :
  all_chars (fun ch => negb (p ch)) s = true -> split_on p s = [s].
Proof.
  induction s as [|c s IH]; simpl; [reflexivity|].
  rewrite andb_true_iff. intros [Hc Hs]. apply negb_true_iff in Hc.
  rewrite Hc, (IH Hs). reflexivity.
Qed.

Lemma split_on_app p a ch b :
  all_chars (fun ch => negb (p ch)) a = true -> p ch = true ->
  split_on p (a ++ String ch b) = a :: split_on p b.
Proof.
  intros Ha Hch. induction a as [|c a IH].
  - rewrite append_nil_l. simpl. rewrite Hch. reflexivity.
  - rewrite append_cons. simpl in *. apply andb_true_iff in Ha. destruct Ha as [Hc Ha].
    apply negb_true_iff in Hc. rewrite Hc, (IH Ha). reflexivity.
Qed.

(** *** Runs of one class *)

Lemma joined_app (ps qs : list piece) : joined (ps ++ qs) = joined ps ++ joined qs.
Proof.
  induction ps as [|p ps IH]; [reflexivity|].
  simpl. rewrite IH. symmetry. apply append_assoc.
Qed.

Lemma lang_run ic lo max g cs s c :
  lang ic (Quant lo max g (Class cs)) s c ->
  c = None /\ all_chars (class_test ic cs) s = true
  /\ (forall M, max = Some M -> String.length s <= M)
  /\ ((forall M, max = Some M -> lo <= M) -> lo <= String.length s).
Proof.
  intros (ps & Hps & -> & -> & Hle & Hge).
  assert (H : lastCapture ps = None /\ all_chars (class_test ic cs) (joined ps) = true
              /\ String.length (joined ps) = List.length ps).
  { clear Hle Hge. induction Hps as [|[t ct] ps (ch & Ht & Hch & Hc) Hps IH];
      [repeat split|].
    destruct IH as (IHc & IHa & IHl). simpl in *. subst t ct.
    rewrite append_cons, append_nil_l. simpl. rewrite IHc, Hch, IHa, IHl. auto. }
  destruct H as (Hc & Ha & Hl). rewrite Hl. auto.
Qed.

(** *** The text of the group *)

Lemma lastCapture_some ps c :
  lastCapture ps = Some c ->
  exists p, In p ps /\ snd p = Some c /\ occurs_in (fst p) (joined ps).
Proof.
  induction ps as [|p ps IH]; simpl; [discriminate|].
  destruct (lastCapture ps) as [c'|] eqn:E; simpl.
  - intros H. inversion H; subst c'. destruct (IH eq_refl) as (q & Hq & Hc & Ho).
    exists q. split; [right; assumption|]. split; [assumption|].
    apply occurs_in_app_r. assumption.
  - intros H. exists p. split; [left; reflexivity|]. split; [assumption|].
    apply occurs_in_prefix.
Qed.

Lemma lang_group ic r : forall s c,
  lang ic r s (Some c) ->
  occurs_in c s /\ exists g c0, In g (groups r) /\ lang ic g c c0.
Proof.
  induction r as [|cs|r1 IH1 r2 IH2|r1 IH1 r2 IH2|min max greedy r IH|r IH|];
    intros s c H; simpl in H.
  - destruct H as [_ H]. discriminate H.
  - destruct H as (ch & _ & _ & H). discriminate H.
  - destruct H as (s1 & s2 & c1 & c2 & -> & H1 & H2 & Hc).
    destruct c2 as [c2|]; simpl in Hc.
    + inversion Hc; subst c2. destruct (IH2 _ _ H2) as (Ho & g & c0 & Hg & HL).
      split; [apply occurs_in_app_r; assumption|].
      exists g, c0. split; [|assumption]. simpl. apply in_or_app. right. assumption.
    + subst c1. destruct (IH1 _ _ H1) as (Ho & g & c0 & Hg & HL).
      split; [apply occurs_in_app_l; assumption|].
      exists g, c0. split; [|assumption]. simpl. apply in_or_app. left. assumption.
  - destruct H as [H|H].
    + destruct (IH1 _ _ H) as (Ho & g & c0 & Hg & HL). split; [assumption|].
      exists g, c0. split; [|assumption]. simpl. apply in_or_app. left. assumption.
    + destruct (IH2 _ _ H) as (Ho & g & c0 & Hg & HL). split; [assumption|].
      exists g, c0. split; [|assumption]. simpl. apply in_or_app. right. assumption.
  - destruct H as (ps & Hps & -> & Hc & _).
    symmetry in Hc. apply lastCapture_some in Hc. destruct Hc as (p & Hp & Hc & Ho).
    rewrite List.Forall_forall in Hps. specialize (Hps p Hp). rewrite Hc in Hps.
    destruct (IH _ _ Hps) as (Ho' & g & c0 & Hg & HL).
    split; [exact (occurs_in_trans _ _ _ Ho' Ho)|]. exists g, c0. auto.
  - destruct H as (c' & H & Hc). inversion Hc; subst c.
    split; [apply occurs_in_refl|]. exists r, c'. split; [left; reflexivity|assumption].
  - destruct H as [_ H]. discriminate H.
Qed.

(** What the guard [match && match[1]] lets through: a non-empty text of
    one of the groups of the pattern, found in the input. *)
Lemma captured_group p text c :
  DataExtractionModule.captured p text = Some c ->
  c <> "" /\ occurs_in c text
  /\ exists g c0, In g (groups (body p)) /\ lang (ignoreCase p) g c c0.
Proof.
  unfold DataExtractionModule.captured. intros H.
  destruct (exec p text) as [[m0 [c'|]]|] eqn:E; try discriminate.
  destruct (c' =? "") eqn:Ec; [discriminate|]. inversion H; subst c'.
  apply String.eqb_neq in Ec. split; [assumption|].
  apply exec_sound in E. destruct E as (pre & post & -> & HL).
  apply lang_group in HL. destruct HL as (Ho & HL). split; [|assumption].
  apply occurs_in_app_r. apply occurs_in_app_l. assumption.
Qed.

End ShapeFacts.

(** ** Extraction: the shape of each field *)

Module FieldFacts.
Import JSString RegExp Patterns TextSpec StringFacts RegExpFacts RegExpSpec RegExpSound.
Import ShapeSpec ShapeFacts FieldSpec DataExtractionModule ExtractionFacts.

(** *** The date *)

Lemma digit_class ic ch : class_test ic digit ch = true -> is_digit ch = true.
Proof.
  destruct ic; [|tauto]. apply class_within. vm_compute. reflexivity.
Qed.

Lemma sep_class ic ch : class_test ic sep ch = true -> sep ch = true.
Proof.
  destruct ic; [|tauto]. apply class_within. vm_compute. reflexivity.
Qed.

Lemma digit_not_sep ch : is_digit ch = true -> negb (sep ch) = true.
Proof.
  revert ch. apply class_within with (ic := false) (cs := is_digit). vm_compute. reflexivity.
Qed.

Lemma digit_nonspace ch : is_digit ch = true -> nonspace ch = true.
Proof.
  revert ch. apply class_within with (ic := false) (cs := is_digit). vm_compute. reflexivity.
Qed.

Lemma sep_nonspace ch : sep ch = true -> nonspace ch = true.
Proof.
  revert ch. apply class_within with (ic := false) (cs := sep). vm_compute. reflexivity.
Qed.

(** A run of digits of bounded length. *)
Lemma digit_run ic lo hi s c :
  lo <= hi -> lang ic (times lo hi digit) s c ->
  c = None /\ digits s /\ lo <= String.length s <= hi.
Proof.
  intros Hb H. apply lang_run in H. destruct H as (Hc & Ha & Hle & Hge).
  split; [assumption|]. split.
  - exact (all_chars_impl _ _ s (digit_class ic) Ha).
  - split; [apply Hge; intros M HM; inversion HM; lia|apply Hle; reflexivity].
Qed.

Lemma three_runs ic a1 b1 a2 b2 a3 b3 c c0 :
  a1 <= b1 -> a2 <= b2 -> a3 <= b3 ->
  lang ic (cat [times a1 b1 digit; Class sep; times a2 b2 digit; Class sep;
                times a3 b3 digit]) c c0 ->
  exists d1 s1 d2 s2 d3,
    c = token d1 s1 d2 s2 d3
    /\ digits d1 /\ digits d2 /\ digits d3 /\ sep s1 = true /\ sep s2 = true
    /\ a1 <= String.length d1 <= b1 /\ a2 <= String.length d2 <= b2
    /\ a3 <= String.length d3 <= b3.
Proof.
  intros H1 H2 H3 H. cbn [cat] in H.
  destruct H as (d1 & r1 & ? & ? & -> & Hd1 & H & _).
  destruct H as (t1 & r2 & ? & ? & -> & (s1 & -> & Hs1 & _) & H & _).
  destruct H as (d2 & r3 & ? & ? & -> & Hd2 & H & _).
  destruct H as (t2 & d3 & ? & ? & -> & (s2 & -> & Hs2 & _) & Hd3 & _).
  apply (digit_run ic a1 b1 _ _ H1) in Hd1. apply (digit_run ic a2 b2 _ _ H2) in Hd2.
  apply (digit_run ic a3 b3 _ _ H3) in Hd3.
  exists d1, s1, d2, s2, d3. unfold token. rewrite !append_cons, !append_nil_l.
  repeat split; try tauto; apply sep_class with (ic := ic); assumption.
Qed.

Lemma token_split d1 s1 d2 s2 d3 :
  digits d1 -> digits d2 -> digits d3 -> sep s1 = true -> sep s2 = true ->
  split_on sep (trim (token d1 s1 d2 s2 d3)) = [d1; d2; d3].
Proof.
  intros H1 H2 H3 Hs1 Hs2.
  assert (N : forall d, digits d -> all_chars (fun ch => negb (sep ch)) d = true).
  { intros d. apply all_chars_impl. apply digit_not_sep. }
  rewrite trim_nonspace.
  - unfold token. rewrite (split_on_app sep d1 s1 _ (N d1 H1) Hs1).
    rewrite (split_on_app sep d2 s2 _ (N d2 H2) Hs2).
    rewrite (split_on_whole sep d3 (N d3 H3)). reflexivity.
  - unfold token. rewrite all_chars_app. simpl. rewrite all_chars_app. simpl.
    rewrite (all_chars_impl _ _ d1 digit_nonspace H1).
    rewrite (all_chars_impl _ _ d2 digit_nonspace H2).
    rewrite (all_chars_impl _ _ d3 digit_nonspace H3).
    rewrite (sep_nonspace s1 Hs1), (sep_nonspace s2 Hs2). reflexivity.
Qed.

Lemma padded_digits d :
  digits d -> 1 <= String.length d <= 2 ->
  digits (padStart 2 "0" d) /\ String.length (padStart 2 "0" d) = 2.
Proof.
  intros Hd Hl. rewrite padStart_zeroPadded.
  destruct d as [|a [|b [|? ?]]]; simpl in Hl; try lia; simpl; auto.
Qed.

Lemma formatDate_dayFirst d1 d2 d3 :
  digits d1 -> digits d2 -> digits d3 ->
  1 <= String.length d1 <= 2 -> 1 <= String.length d2 <= 2 -> 2 <= String.length d3 <= 4 ->
  isoShaped (formatDate d1 d2 d3).
Proof.
  intros H1 H2 H3 L1 L2 L3. unfold formatDate.
  destruct (String.length d1 =? 4)%nat eqn:E; [apply Nat.eqb_eq in E; lia|].
  destruct (padded_digits d1 H1 L1) as [P1 Q1]. destruct (padded_digits d2 H2 L2) as [P2 Q2].
  exists (if (String.length d3 =? 2)%nat then "20" ++ d3 else d3),
         (padStart 2 "0" d2), (padStart 2 "0" d1).
  split; [reflexivity|].
  destruct (String.length d3 =? 2)%nat eqn:E3.
  - apply Nat.eqb_eq in E3. repeat split; auto.
    right. rewrite length_append, E3. reflexivity.
  - apply Nat.eqb_neq in E3. repeat split; auto. lia.
Qed.

Lemma formatDate_yearFirst d1 d2 d3 :
  digits d1 -> digits d2 -> digits d3 ->
  String.length d1 = 4 -> 1 <= String.length d2 <= 2 -> 1 <= String.length d3 <= 2 ->
  isoShaped (formatDate d1 d2 d3).
Proof.
  intros H1 H2 H3 L1 L2 L3. unfold formatDate. rewrite L1. simpl (4 =? 4)%nat. cbv iota.
  destruct (padded_digits d2 H2 L2) as [P2 Q2]. destruct (padded_digits d3 H3 L3) as [P3 Q3].
  exists d1, (padStart 2 "0" d2), (padStart 2 "0" d3). repeat split; auto.
Qed.

(** The token of every date pattern: three runs of digits between two
    separators, the first of one or two digits (day first) or of four (year
    first). *)
Lemma date_token p text c :
  In p datePatterns -> captured p text = Some c ->
  occurs_in c text
  /\ exists d1 s1 d2 s2 d3,
       c = token d1 s1 d2 s2 d3
       /\ digits d1 /\ digits d2 /\ digits d3 /\ sep s1 = true /\ sep s2 = true
       /\ 1 <= String.length d2 <= 2
       /\ (1 <= String.length d1 <= 2 /\ 2 <= String.length d3 <= 4
           \/ String.length d1 = 4 /\ 1 <= String.length d3 <= 2).
Proof.
  intros Hp H. apply captured_group in H. destruct H as (_ & Ho & g & c0 & Hg & HL).
  split; [assumption|].
  unfold datePatterns in Hp. simpl in Hp.
  destruct Hp as [<-|[<-|[<-|[]]]]; simpl in Hg; destruct Hg as [<-|[]];
    apply three_runs in HL; try lia;
    destruct HL as (d1 & s1 & d2 & s2 & d3 & -> & H1 & H2 & H3 & Hs1 & Hs2 & L1 & L2 & L3);
    exists d1, s1, d2, s2, d3; repeat split; try assumption; try lia.
Qed.

(** The token always splits into three parts, so the first pattern with a
    capture decides the date. *)
Lemma date_capture p text c :
  In p datePatterns -> captured p text = Some c ->
  exists d1 d2 d3,
    split_on sep (trim c) = [d1; d2; d3] /\ isoShaped (formatDate d1 d2 d3).
Proof.
  intros Hp H. destruct (date_token p text c Hp H)
    as (_ & d1 & s1 & d2 & s2 & d3 & -> & H1 & H2 & H3 & Hs1 & Hs2 & L2 & L).
  exists d1, d2, d3. split; [apply token_split; assumption|].
  destruct L as [[L1 L3]|[L1 L3]];
    [apply formatDate_dayFirst|apply formatDate_yearFirst]; assumption.
Qed.

Lemma extractDate_shape ps text :
  (forall p, In p ps -> In p datePatterns) ->
  (firstCapture ps text = None /\ extractDate ps text = "")
  \/ (firstCapture ps text <> None /\ isoShaped (extractDate ps text)).
Proof.
  induction ps as [|p ps IH]; intros Hps; [left; split; reflexivity|].
  simpl. destruct (captured p text) as [c|] eqn:E.
  - right. split; [discriminate|].
    destruct (date_capture p text c (Hps p (or_introl eq_refl)) E) as (d1 & d2 & d3 & -> & HS).
    exact HS.
  - apply IH. intros q Hq. apply Hps. right. assumption.
Qed.

(** X1.  The date of a bill is empty exactly when no date pattern finds a
    token; otherwise it consists of a year of three or four digits, a
    two-digit month and a two-digit day, joined by hyphens.  The token of a
    pattern always splits into three parts, so the first pattern that finds
    one decides. *)
Theorem X1_date_shape (text : string) :
  let d := date (extractBillData text) in
  (firstCapture datePatterns text = None /\ d = "")
  \/ (firstCapture datePatterns text <> None /\ isoShaped d).
Proof.
  intros d. subst d. unfold extractBillData. cbn [date].
  apply extractDate_shape. auto.
Qed.

Lemma firstCapture_some ps text c :
  firstCapture ps text = Some c -> exists p, In p ps /\ captured p text = Some c.
Proof.
  induction ps as [|p ps IH]; simpl; [discriminate|].
  destruct (captured p text) as [c'|] eqn:E.
  - intros H. inversion H; subst c'. exists p. auto.
  - intros H. destruct (IH H) as (q & Hq & Hc). exists q. auto.
Qed.

(** *** The bill number *)

Lemma billChar_class ch : class_test true billChar ch = true -> billNoChar ch = true.
Proof. apply class_within. vm_compute. reflexivity. Qed.

Lemma billNoChar_nonspace ch : billNoChar ch = true -> nonspace ch = true.
Proof.
  revert ch. apply class_within with (ic := false) (cs := billNoChar). vm_compute. reflexivity.
Qed.

Lemma billNo_capture p text c :
  In p billNoPatterns -> captured p text = Some c ->
  c <> "" /\ all_chars billNoChar c = true /\ occurs_in c text.
Proof.
  intros Hp H. apply captured_group in H. destruct H as (Hne & Ho & g & c0 & Hg & HL).
  split; [assumption|]. split; [|assumption].
  unfold billNoPatterns in Hp. simpl in Hp.
  destruct Hp as [<-|[<-|[<-|[]]]]; simpl in Hg; destruct Hg as [<-|[]];
    apply lang_run in HL; destruct HL as (_ & Ha & _);
    exact (all_chars_impl _ _ c billChar_class Ha).
Qed.

(** X2.  The bill number is empty exactly when no bill-number pattern finds
    one; otherwise it is the text of the group as it stands in the scanned
    text, a non-empty run of letters, digits and hyphens. *)
Theorem X2_billNo_shape (text : string) :
  let b := billNo (extractBillData text) in
  (firstCapture billNoPatterns text = None /\ b = "")
  \/ (firstCapture billNoPatterns text = Some b /\ b <> ""
      /\ all_chars billNoChar b = true /\ occurs_in b text).
Proof.
  intros b. subst b. unfold extractBillData. cbn [billNo]. unfold extractBillNo.
  destruct (firstCapture billNoPatterns text) as [c|] eqn:E; [right|left; auto].
  destruct (firstCapture_some _ _ _ E) as (p & Hp & Hc).
  destruct (billNo_capture p text c Hp Hc) as (Hne & Ha & Ho).
  rewrite (trim_nonspace c (all_chars_impl _ _ c billNoChar_nonspace Ha)). auto.
Qed.

(** *** The customer *)

Lemma upper_class ch : class_test true (range "A" "Z") ch = true -> is_letter ch = true.
Proof. apply class_within. vm_compute. reflexivity. Qed.

Lemma nameChar_class ch : class_test true nameChar ch = true -> customerChar ch = true.
Proof. apply class_within. vm_compute. reflexivity. Qed.

Lemma letter_customerChar ch : is_letter ch = true -> customerChar ch = true.
Proof. unfold customerChar. intros ->. reflexivity. Qed.

Lemma letter_not_space ch : is_letter ch = true -> is_space ch = false.
Proof.
  intros H. apply negb_true_iff. revert ch H.
  apply class_within with (ic := false) (cs := is_letter). vm_compute. reflexivity.
Qed.

Lemma customer_capture p text c :
  In p customerPatterns -> captured p text = Some c ->
  occurs_in c text
  /\ exists ch r, c = String ch r /\ is_letter ch = true /\ all_chars customerChar c = true.
Proof.
  intros Hp H. apply captured_group in H. destruct H as (Hne & Ho & g & c0 & Hg & HL).
  split; [assumption|].
  assert (G : g = cat [Class (range "A" "Z"); lazy_plus nameChar] /\ ignoreCase p = true).
  { unfold customerPatterns in Hp. simpl in Hp.
    destruct Hp as [<-|[<-|[]]]; simpl in Hg; repeat (destruct Hg as [Hg|Hg]; auto); tauto. }
  destruct G as [-> Hic]. rewrite Hic in HL.
  cbn [cat] in HL.
  destruct HL as (t & r & ? & ? & -> & (ch & -> & Hch & _) & Hr & _).
  apply lang_run in Hr. destruct Hr as (_ & Ha & _).
  exists ch, r. rewrite append_cons, append_nil_l. split; [reflexivity|].
  pose proof (upper_class ch Hch) as L. split; [assumption|]. simpl.
  rewrite (letter_customerChar ch L). exact (all_chars_impl _ _ r nameChar_class Ha).
Qed.

Lemma split_on_first p s :
  exists piece rest post,
    split_on p s = piece :: rest /\ s = piece ++ post
    /\ all_chars (fun ch => negb (p ch)) piece = true.
Proof.
  induction s as [|c s (piece & rest & post & E & Hs & Ha)]; simpl.
  - exists "", [], "". auto.
  - destruct (p c) eqn:Ep.
    + exists "", (split_on p s), (String c s). auto.
    + rewrite E. exists (String c piece), rest, post. rewrite append_cons, <- Hs. simpl.
      rewrite Ep, Ha. auto.
Qed.

Lemma firstLine_prefix s :
  (exists post, s = firstLine s ++ post)
  /\ all_chars (fun ch => negb (Ascii.eqb "010" ch)) (firstLine s) = true.
Proof.
  unfold firstLine. destruct (split_on_first (Ascii.eqb "010") s)
    as (piece & rest & post & E & Hs & Ha).
  rewrite E. split; [exists post|]; assumption.
Qed.

Lemma substring_head n s :
  (exists post, s = substring 0 n s ++ post) /\ String.length (substring 0 n s) <= n.
Proof.
  revert s. induction n as [|n IH]; intros s.
  - destruct s; simpl; split; try lia; [exists ""|exists (String a s)]; reflexivity.
  - destruct s as [|c s]; simpl; [split; [exists ""; reflexivity|lia]|].
    destruct (IH s) as [[post Hp] Hl]. split; [|lia].
    exists post. rewrite append_cons, <- Hp. reflexivity.
Qed.

Lemma all_chars_both (P Q : ascii -> bool) s :
  all_chars P s = true -> all_chars Q s = true ->
  all_chars (fun ch => P ch && Q ch) s = true.
Proof.
  induction s as [|c s IH]; simpl; [reflexivity|].
  rewrite !andb_true_iff. intros [Hc Hs] [Hc' Hs']. rewrite Hc, Hc'. auto.
Qed.

(** X3.  The customer is empty exactly when no customer pattern finds a
    name; otherwise it is a piece of the scanned text of at most 100
    characters that begins with a letter and holds letters, white space and
    ampersands only, and no line feed. *)
Theorem X3_customer_shape (text : string) :
  let v := customer (extractBillData text) in
  (firstCapture customerPatterns text = None /\ v = "")
  \/ (firstCapture customerPatterns text <> None
      /\ (exists ch r, v = String ch r /\ is_letter ch = true)
      /\ all_chars lineChar v = true
      /\ String.length v <= 100
      /\ occurs_in v text).
Proof.
  intros v. subst v. unfold extractBillData. cbn [customer]. unfold extractCustomer.
  destruct (firstCapture customerPatterns text) as [c|] eqn:E; [right|left; auto].
  split; [discriminate|].
  destruct (firstCapture_some _ _ _ E) as (p & Hp & Hc).
  destruct (customer_capture p text c Hp Hc) as (Ho & ch & r & -> & L & Ha).
  pose proof (trim_occurs (String ch r)) as Ht.
  destruct (trim_head (String ch r)) as [T|(ch' & r' & T & S)].
  { apply trim_empty in T. simpl in T. rewrite (letter_not_space ch L) in T. discriminate T. }
  assert (Hch : ch' = ch).
  { unfold trim in T. simpl in T. rewrite (letter_not_space ch L) in T.
    destruct (trimEnd_head ch r (letter_not_space ch L)) as [t Ht']. rewrite Ht' in T.
    congruence. }
  subst ch'. rewrite T in *.
  destruct (firstLine_head ch r' S) as [t Hl].
  destruct (firstLine_prefix (String ch r')) as [[post Hpost] Hlf].
  destruct (substring_head 100 (firstLine (String ch r'))) as [[post' Hpost'] Hlen].
  set (v := substring 0 100 (firstLine (String ch r'))) in *.
  assert (Hov : occurs_in v (String ch r')).
  { exists "", (post' ++ post). rewrite append_nil_l, <- append_assoc, <- Hpost'. exact Hpost. }
  assert (Hv1 : occurs_in v (firstLine (String ch r'))).
  { exists "", post'. exact Hpost'. }
  split; [|split; [|split]].
  - unfold v. rewrite Hl. simpl. eauto.
  - apply all_chars_both.
    + apply (all_chars_occurs customerChar v (String ch r)); [|assumption].
      exact (occurs_in_trans _ _ _ Hov Ht).
    + exact (all_chars_occurs _ v _ Hv1 Hlf).
  - assumption.
  - exact (occurs_in_trans _ _ _ Hov (occurs_in_trans _ _ _ Ht Ho)).
Qed.

(** *** Amounts *)

Lemma digitComma_class ic ch :
  class_test ic digitComma ch = true -> digitOrComma ch = true.
Proof. destruct ic; apply class_within; vm_compute; reflexivity. Qed.

Lemma dot_class ic ch : class_test ic (chr ".") ch = true -> ch = "."%char.
Proof.
  intros H. symmetry. apply Ascii.eqb_eq. revert ch H.
  destruct ic; apply class_within; vm_compute; reflexivity.
Qed.

Lemma removeCommas_digits s :
  all_chars digitOrComma s = true -> digits (removeCommas s).
Proof.
  unfold digits, removeCommas. induction s as [|c s IH]; [reflexivity|].
  cbn [all_chars remove_chars]. rewrite andb_true_iff. intros [Hc Hs].
  unfold digitOrComma in Hc. rewrite Ascii.eqb_sym in Hc.
  destruct (Ascii.eqb "," c) eqn:E; [auto|]. cbn [all_chars].
  rewrite orb_false_r in Hc. rewrite Hc. auto.
Qed.

Lemma removeCommas_of_digits s : digits s -> removeCommas s = s.
Proof.
  intros H. apply remove_chars_none. revert H. apply all_chars_impl.
  apply class_within with (ic := false) (cs := is_digit). vm_compute. reflexivity.
Qed.

(** The text of the group of [amount]: digits and commas, then at most one
    point, then digits. *)
Lemma amount_text ic c c0 :
  lang ic (cat [plus digitComma; opt (chr "."); star digit]) c c0 ->
  exists a b d,
    c = a ++ b ++ d /\ a <> "" /\ all_chars digitOrComma a = true
    /\ (b = "" \/ b = ".") /\ digits d.
Proof.
  cbn [cat]. intros (a & r & ? & ? & -> & Ha & (b & d & ? & ? & -> & Hb & Hd & _) & _).
  apply lang_run in Ha, Hb, Hd.
  destruct Ha as (_ & Ha & _ & La). destruct Hb as (_ & Hb & Lb & _).
  destruct Hd as (_ & Hd & _).
  exists a, b, d. split; [reflexivity|]. split; [|split; [|split]].
  - intros ->. specialize (La ltac:(discriminate)). simpl in La. lia.
  - exact (all_chars_impl _ _ a (digitComma_class ic) Ha).
  - specialize (Lb 1 eq_refl). destruct b as [|dot [|? ?]]; simpl in Lb; try lia; [auto|].
    right. simpl in Hb. rewrite andb_true_r in Hb. rewrite (dot_class ic dot Hb). reflexivity.
  - exact (all_chars_impl _ _ d (digit_class ic) Hd).
Qed.

Lemma digits_app a b : digits a -> digits b -> digits (a ++ b).
Proof. unfold digits. intros Ha Hb. rewrite all_chars_app, Ha, Hb. reflexivity. Qed.

Lemma amount_shape ic c c0 :
  lang ic (cat [plus digitComma; opt (chr "."); star digit]) c c0 ->
  decimalShaped (removeCommas c).
Proof.
  intros H. apply amount_text in H.
  destruct H as (a & b & d & -> & _ & Ha & Hb & Hd).
  unfold removeCommas. rewrite !remove_chars_app.
  fold removeCommas. rewrite (removeCommas_of_digits d Hd).
  pose proof (removeCommas_digits a Ha) as Hi.
  destruct Hb as [->| ->].
  - change (removeCommas "") with "".
    exists (removeCommas a ++ d), "". rewrite append_nil_l, append_nil_r.
    split; [reflexivity|]. split; [apply digits_app; assumption|left; reflexivity].
  - change (removeCommas ".") with ".".
    exists (removeCommas a), (String "." d). rewrite append_cons, append_nil_l.
    split; [reflexivity|]. split; [assumption|]. right. exists d. auto.
Qed.

Lemma amount_groups p :
  In p gstPatterns \/ In p totalPatterns \/ p = numberPattern ->
  groups (body p) = [cat [plus digitComma; opt (chr "."); star digit]].
Proof.
  unfold gstPatterns, totalPatterns, numberPattern. simpl.
  intros [[<-|[<-|[]]]|[[<-|[<-|[]]]| ->]]; reflexivity.
Qed.

Lemma amount_capture ps text c :
  (forall p, In p ps -> In p gstPatterns \/ In p totalPatterns) ->
  firstCapture ps text = Some c ->
  decimalShaped (removeCommas c)
  /\ exists ch, digitOrComma ch = true /\ occurs_in (String ch "") text.
Proof.
  intros Hps E. destruct (firstCapture_some _ _ _ E) as (p & Hp & Hc).
  apply captured_group in Hc. destruct Hc as (_ & Ho & g & c0 & Hg & HL).
  rewrite amount_groups in Hg by (destruct (Hps p Hp); auto).
  destruct Hg as [<-|[]]. split; [exact (amount_shape _ _ _ HL)|].
  apply amount_text in HL. destruct HL as (a & b & d & -> & Hne & Ha & _).
  destruct a as [|ch a]; [congruence|]. simpl in Ha. apply andb_true_iff in Ha.
  exists ch. split; [tauto|]. apply occurs_in_trans with (2 := Ho).
  exists "", (a ++ b ++ d). reflexivity.
Qed.

(** X4.  The GST amount, and the total that a label introduces, hold digits
    and at most one decimal point: the thousands separators are gone and
    nothing else is kept. *)
Theorem X4_amount_shape (text : string) :
  decimalShaped (gst (extractBillData text))
  /\ (forall c, firstCapture totalPatterns text = Some c -> removeCommas c <> "" ->
      total (extractBillData text) = removeCommas c
      /\ decimalShaped (total (extractBillData text))).
Proof.
  unfold extractBillData. cbn [gst total]. split.
  - unfold extractGst. destruct (firstCapture gstPatterns text) as [c|] eqn:E.
    + apply (amount_capture gstPatterns text c); auto.
    + exists "", "". repeat split; auto.
  - intros c E N. unfold extractTotal, labelledTotal. rewrite E.
    destruct (removeCommas c =? "") eqn:Q; [apply String.eqb_eq in Q; contradiction|].
    split; [reflexivity|]. apply (amount_capture totalPatterns text c); auto.
Qed.

(** *** A text without numbers *)

Lemma numberless_char text ch :
  numberless text -> digitOrComma ch = true -> ~ occurs_in (String ch "") text.
Proof.
  intros Hn Hch Ho. apply (all_chars_occurs _ _ _ Ho) in Hn. cbn [all_chars] in Hn.
  rewrite Hch in Hn. discriminate Hn.
Qed.

Lemma numberless_tail ch s : numberless (String ch s) -> numberless s.
Proof. unfold numberless. simpl. rewrite andb_true_iff. tauto. Qed.

Lemma numberless_matchAt s : numberless s -> matchAt numberPattern s = None.
Proof.
  intros Hn. destruct (matchAt numberPattern s) as [[m0 c]|] eqn:E; [|reflexivity].
  exfalso. apply matchAt_sound in E. destruct E as (post & -> & HL).
  unfold numberPattern in HL. cbn [body ignoreCase amount cat] in HL.
  destruct HL as (s1 & r1 & ? & ? & -> & _ & (s2 & s3 & ? & ? & -> & _ & (c' & HL & _) & _) & _).
  apply amount_text in HL. destruct HL as (a & b & d & -> & Hne & Ha & _).
  destruct a as [|ch a]; [congruence|]. simpl in Ha. apply andb_true_iff in Ha.
  apply (numberless_char _ ch Hn); [tauto|].
  exists (s1 ++ s2), (a ++ b ++ d ++ post).
  rewrite !append_assoc. reflexivity.
Qed.

Lemma numberless_matchAll s : numberless s -> forall skip, matchAllFrom numberPattern skip s = [].
Proof.
  induction s as [|ch s IH]; intros Hn skip.
  - destruct skip; cbn [matchAllFrom]; [|reflexivity].
    rewrite (numberless_matchAt "" Hn). reflexivity.
  - destruct skip as [|k]; cbn [matchAllFrom].
    + rewrite (numberless_matchAt _ Hn). apply IH. exact (numberless_tail _ _ Hn).
    + apply IH. exact (numberless_tail _ _ Hn).
Qed.

(** X5.  A text with no digit and no comma yields no date, no GST amount
    and no total, whatever labels it holds. *)
Theorem X5_numberless_text (text : string) :
  numberless text ->
  date (extractBillData text) = ""
  /\ gst (extractBillData text) = ""
  /\ total (extractBillData text) = "".
Proof.
  intros Hn. unfold extractBillData. cbn [date gst total].
  assert (G : forall ps, (forall p, In p ps -> In p gstPatterns \/ In p totalPatterns) ->
                         firstCapture ps text = None).
  { intros ps Hps. destruct (firstCapture ps text) as [c|] eqn:E; [|reflexivity].
    exfalso. destruct (amount_capture ps text c Hps E) as (_ & ch & Hch & Ho).
    exact (numberless_char text ch Hn Hch Ho). }
  split; [|split].
  - destruct (extractDate_shape datePatterns text ltac:(auto)) as [[_ H]|[H _]];
      [assumption|].
    exfalso. destruct (firstCapture datePatterns text) as [c|] eqn:E; [|congruence].
    destruct (firstCapture_some _ _ _ E) as (p & Hp & Hc).
    destruct (date_token p text c Hp Hc)
      as (Ho & d1 & s1 & d2 & s2 & d3 & -> & H1 & _ & _ & _ & _ & _ & L).
    destruct d1 as [|ch d1]; [simpl in L; lia|].
    unfold digits in H1. simpl in H1. apply andb_true_iff in H1.
    apply (numberless_char text ch Hn); [unfold digitOrComma; rewrite (proj1 H1); reflexivity|].
    apply occurs_in_trans with (2 := Ho). exists "". eexists.
    unfold token. rewrite append_cons. reflexivity.
  - unfold extractGst. rewrite G; auto.
  - unfold extractTotal, labelledTotal. rewrite G by auto. simpl.
    unfold largestNumber, matchAll. rewrite (numberless_matchAll text Hn). reflexivity.
Qed.

Lemma X5_numberless_text_witness :
  numberless "GST and Total due"
  /\ date (extractBillData "GST and Total due") = ""
  /\ gst (extractBillData "GST and Total due") = ""
  /\ total (extractBillData "GST and Total due") = "".
Proof.
  split; [reflexivity|]. apply (X5_numberless_text "GST and Total due"). reflexivity.
Defined.

End FieldFacts.

(** ** The merge: agreement among the passes *)

Module ScanFacts.
Import JSString JSObject TextSpec StringFacts DataExtractionModule OCRModule.
Import MergeSpec MergeFacts ShapeSpec ShapeFacts FieldSpec FieldFacts ScanSpec.

Lemma merged_value results st f :
  get f (mergedData (fst (mergeScanResults results st))) = mergeValues (found f results).
Proof.
  destruct (mergeScanResults_parts results st) as (Hdata & _). cbv zeta in Hdata.
  rewrite Hdata. unfold mergeField. rewrite fieldValues_extracted. reflexivity.
Qed.

Lemma merged_confidence results st f :
  mergedConfidences (fst (mergeScanResults results st)) f
  = if (0 <? List.length (found f results))%nat
    then (inject_Z (Z.of_nat (occurrences (mergeValues (found f results)) (found f results)))
          / inject_Z (Z.of_nat (List.length (found f results))))%Q
    else 0%Q.
Proof.
  destruct (mergeScanResults_parts results st) as (_ & Hconf & _). cbv zeta in Hconf.
  rewrite Hconf, consistency_of_values. cbv zeta.
  rewrite fieldValues_extracted. fold (found f results). rewrite merged_value.
  unfold occurrences.
  replace (List.filter (fun v => (v =? mergeValues (found f results))%string) (found f results))
    with (List.filter (String.eqb (mergeValues (found f results))) (found f results)).
  - reflexivity.
  - apply filter_ext. intros a. apply String.eqb_sym.
Qed.

Lemma found_nonempty f results v : In v (found f results) -> v <> "".
Proof.
  unfold found. intros H. apply filter_In in H. destruct H as [_ H].
  intros ->. discriminate H.
Qed.

Lemma occurrences_le v l : occurrences v l <= List.length l.
Proof. unfold occurrences. apply List.filter_length_le. Qed.

Lemma occurrences_all v l : (forall w, In w l -> w = v) -> occurrences v l = List.length l.
Proof.
  unfold occurrences. induction l as [|x l IH]; intros H; simpl; [reflexivity|].
  rewrite (H x (or_introl eq_refl)), String.eqb_refl. simpl. f_equal.
  apply IH. intros w Hw. apply H. right. assumption.
Qed.

Lemma occurrences_two a b l :
  a <> b -> occurrences a l + occurrences b l <= List.length l.
Proof.
  intros Hab. unfold occurrences. induction l as [|x l IH]; simpl; [lia|].
  destruct (String.eqb a x) eqn:Ea, (String.eqb b x) eqn:Eb; simpl; try lia.
  apply String.eqb_eq in Ea, Eb. congruence.
Qed.

Lemma ratio_bounds (a n : nat) :
  a <= n -> 0 < n ->
  (0 <= inject_Z (Z.of_nat a) / inject_Z (Z.of_nat n)
   /\ inject_Z (Z.of_nat a) / inject_Z (Z.of_nat n) <= 1)%Q.
Proof.
  intros Ha Hn.
  assert (Hp : (0 < inject_Z (Z.of_nat n))%Q).
  { unfold Qlt, inject_Z. simpl. lia. }
  split.
  - apply Qle_shift_div_l; [assumption|]. rewrite Qmult_0_l.
    unfold Qle, inject_Z. simpl. lia.
  - apply Qle_shift_div_r; [assumption|]. rewrite Qmult_1_l.
    unfold Qle, inject_Z. simpl. lia.
Qed.

Lemma ratio_one (n : nat) :
  0 < n -> (inject_Z (Z.of_nat n) / inject_Z (Z.of_nat n) == 1)%Q.
Proof.
  intros Hn. destruct n as [|n]; [lia|].
  unfold Qeq, Qdiv, Qmult, Qinv, inject_Z. simpl. lia.
Qed.

Lemma ratio_half (a n : nat) :
  0 < n -> n < 2 * a -> ((1 # 2) < inject_Z (Z.of_nat a) / inject_Z (Z.of_nat n))%Q.
Proof.
  intros Hn H. apply Qlt_shift_div_l; [unfold Qlt, inject_Z; simpl; lia|].
  unfold Qlt, Qmult, inject_Z. simpl. lia.
Qed.

Lemma ratio_positive (a n : nat) :
  0 < a -> 0 < n ->
  (1 / inject_Z (Z.of_nat n) <= inject_Z (Z.of_nat a) / inject_Z (Z.of_nat n))%Q.
Proof.
  intros Ha Hn.
  assert (Hp : (0 < inject_Z (Z.of_nat n))%Q) by (unfold Qlt, inject_Z; simpl; lia).
  unfold Qdiv. apply Qmult_le_compat_r.
  - unfold Qle, inject_Z. simpl. lia.
  - apply Qlt_le_weak. apply Qinv_lt_0_compat. assumption.
Qed.

(** X6.  When every pass that finds a value for a field finds the same one,
    that value is the merged one and its confidence is 1, whatever the value
    is. *)
Theorem X6_unanimous_passes (results : list ScanResult)
    (st : ConfidenceModule.fieldConfidences) (f : Field.t) (v : string) :
  found f results <> [] ->
  (forall w, In w (found f results) -> w = v) ->
  let m := fst (mergeScanResults results st) in
  get f (mergedData m) = v /\ (mergedConfidences m f == 1)%Q.
Proof.
  intros Hne Hall m. subst m. rewrite merged_value, merged_confidence.
  pose proof (mergeValues_in (found f results) Hne) as Hin.
  pose proof (Hall _ Hin) as Hv. rewrite Hv. split; [reflexivity|].
  assert (Hl : 0 < List.length (found f results)).
  { destruct (found f results); [congruence|simpl; lia]. }
  destruct (0 <? _)%nat eqn:E; [|apply Nat.ltb_ge in E; lia].
  rewrite (occurrences_all v _ Hall). apply ratio_one. assumption.
Qed.

Lemma X6_unanimous_passes_witness :
  let results := [mkScanResult "GST 18" 1 []; mkScanResult "blank" 1 [];
                  mkScanResult "GST: 18" 1 []] in
  let m := fst (mergeScanResults results ∅) in
  get Field.gst (mergedData m) = "18" /\ (mergedConfidences m Field.gst == 1)%Q.
Proof.
  apply (X6_unanimous_passes _ ∅ Field.gst "18").
  - vm_compute. discriminate.
  - vm_compute. intros w [<-|[<-|[]]]; reflexivity.
Defined.

(** *** Values that are no inherited names *)

Lemma inherited_head s : inherited s = true -> numeralHead s = false.
Proof.
  unfold inherited. intros H. apply existsb_exists in H. destruct H as (k & Hk & E).
  apply String.eqb_eq in E. subst k. unfold prototypeKeys in Hk. simpl in Hk.
  repeat (destruct Hk as [<-|Hk]; [reflexivity|]). destruct Hk.
Qed.

Lemma decimal_head z : exists c r, Number.decimal z = String c r /\ is_digit c = true.
Proof.
  unfold Number.decimal. destruct (N.to_uint (Z.to_N z)); simpl; eauto.
Qed.

Lemma layout_head z k n : numeralHead (Number.layout (Number.decimal z) k n) = true.
Proof.
  destruct (decimal_head z) as (c & r & -> & Hc).
  assert (H : numeralHead (String c r) = true) by (simpl; rewrite Hc; reflexivity).
  assert (G : forall t, numeralHead (String c r ++ t) = true).
  { intros t. rewrite append_cons. simpl. rewrite Hc. reflexivity. }
  unfold Number.layout.
  destruct ((k <=? n)%Z && (n <=? 21)%Z); [apply G|].
  destruct ((0 <? n)%Z && (n <=? 21)%Z) eqn:E2.
  { apply andb_true_iff in E2. destruct E2 as [E2 _]. apply Z.ltb_lt in E2.
    destruct (Z.to_nat n) as [|m] eqn:En; [lia|]. simpl. rewrite Hc. reflexivity. }
  destruct ((-6 <? n)%Z && (n <=? 0)%Z); [reflexivity|].
  destruct (k =? 1)%Z; [apply G|]. simpl. rewrite Hc. reflexivity.
Qed.

Lemma toString_head x : numeralHead (Number.toString x) = true.
Proof.
  destruct x as [s|s| |s m e]; try (destruct s; reflexivity); [reflexivity|].
  unfold Number.toString. destruct (Number.fraction m e) as [num den].
  destruct (Number.shortest _ _ _ _ _ _) as [[d n'] k].
  destruct s; [reflexivity|]. rewrite append_nil_l. apply layout_head.
Qed.

Lemma digits_head s : digits s -> s <> "" -> numeralHead s = true.
Proof.
  destruct s as [|c r]; [congruence|]. unfold digits. simpl.
  rewrite andb_true_iff. intros [-> _] _. reflexivity.
Qed.

Lemma decimalShaped_head s : decimalShaped s -> s <> "" -> numeralHead s = true.
Proof.
  intros (i & f & -> & Hi & Hf) Hne. destruct i as [|c r].
  - rewrite append_nil_l in *. destruct Hf as [->|(d & -> & _)]; [congruence|reflexivity].
  - rewrite append_cons. unfold digits in Hi. simpl in *.
    apply andb_true_iff in Hi. destruct Hi as [-> _]. reflexivity.
Qed.

Lemma isoShaped_head s : isoShaped s -> numeralHead s = true.
Proof.
  intros (y & m & d & -> & Hy & _ & _ & Hl & _).
  destruct y as [|c r]; [simpl in Hl; lia|].
  rewrite append_cons. unfold digits in Hy. simpl in *.
  apply andb_true_iff in Hy. destruct Hy as [-> _]. reflexivity.
Qed.

(** A date, a GST amount and a total never are the name of an inherited
    property. *)
Lemma numeric_head text f :
  numeric f = true -> get f (extractBillData text) <> "" ->
  numeralHead (get f (extractBillData text)) = true.
Proof.
  destruct f; try discriminate; intros _ Hne; unfold extractBillData in *;
    cbn [get date gst total] in *.
  - destruct (extractDate_shape Patterns.datePatterns text ltac:(auto)) as [[_ H]|[_ H]];
      [contradiction|].
    apply isoShaped_head. assumption.
  - unfold extractGst in *.
    destruct (firstCapture Patterns.gstPatterns text) as [c|] eqn:Ec; [|congruence].
    apply decimalShaped_head; [|assumption].
    apply (amount_capture Patterns.gstPatterns text c); auto.
  - unfold extractTotal in *.
    destruct (labelledTotal text =? "") eqn:E.
    + unfold largestNumber in *. destruct (RegExp.matchAll _ _); [|congruence].
      destruct (numericValues _); [congruence|]. apply toString_head.
    + unfold labelledTotal in *.
      destruct (firstCapture Patterns.totalPatterns text) as [c|] eqn:Ec; [|discriminate E].
      apply decimalShaped_head; [|assumption].
      apply (amount_capture Patterns.totalPatterns text c); auto.
Qed.

Lemma numeric_plain results f : numeric f = true -> plain (found f results).
Proof.
  intros Hf. unfold plain, found. apply List.Forall_forall. intros v Hv.
  apply filter_In in Hv. destruct Hv as [Hv Hne]. apply in_map_iff in Hv.
  destruct Hv as (r & <- & _).
  destruct (inherited _) eqn:E; [|reflexivity].
  apply inherited_head in E. rewrite numeric_head in E; [discriminate E|assumption|].
  intros Q. rewrite Q in Hne. discriminate Hne.
Qed.

(** X7.  For the date, the GST amount and the total the merged value is
    always one that the largest number of passes found: these values never
    coincide with the name of an inherited property, so the frequency table
    counts every one of them. *)
Theorem X7_numeric_most_frequent (results : list ScanResult)
    (st : ConfidenceModule.fieldConfidences) (f : Field.t) :
  numeric f = true ->
  let winner := get f (mergedData (fst (mergeScanResults results st))) in
  Forall (fun v => occurrences v (found f results) <= occurrences winner (found f results))
         (found f results).
Proof.
  intros Hf winner. apply List.Forall_forall. intros v Hv. subst winner.
  rewrite merged_value.
  assert (Hne : found f results <> []) by (intros E; rewrite E in Hv; destruct Hv).
  exact (proj1 (mergeValues_spec _ (numeric_plain results f Hf) Hne) v Hv).
Qed.

Lemma X7_numeric_most_frequent_witness :
  let results := [mkScanResult "Date 1/2/24" 1 []; mkScanResult "Date 1/2/24" 1 [];
                  mkScanResult "Date 7/2/24" 1 []] in
  let winner := get Field.date (mergedData (fst (mergeScanResults results ∅))) in
  Forall (fun v => occurrences v (found Field.date results)
                   <= occurrences winner (found Field.date results))
         (found Field.date results).
Proof.
  exact (X7_numeric_most_frequent _ ∅ Field.date eq_refl).
Defined.

(** X8.  A value that more than half of the passes with a value found is
    the merged value, and its confidence exceeds one half.  For the bill
    number and the customer this needs that no value is the name of an
    inherited property. *)
Theorem X8_majority (results : list ScanResult)
    (st : ConfidenceModule.fieldConfidences) (f : Field.t) (v : string) :
  (numeric f = false -> plain (found f results)) ->
  List.length (found f results) < 2 * occurrences v (found f results) ->
  let m := fst (mergeScanResults results st) in
  get f (mergedData m) = v /\ ((1 # 2) < mergedConfidences m f)%Q.
Proof.
  intros Hp Hv m. subst m. rewrite merged_value, merged_confidence.
  assert (Hplain : plain (found f results)).
  { destruct (numeric f) eqn:E; [apply numeric_plain; assumption|auto]. }
  assert (Hin : In v (found f results)).
  { destruct (in_dec string_dec v (found f results)) as [H|H]; [assumption|].
    rewrite (occurrences_absent v _ H) in Hv. lia. }
  assert (Hne : found f results <> []) by (intros E; rewrite E in Hin; destruct Hin).
  pose proof (proj1 (mergeValues_spec _ Hplain Hne) v Hin) as Hmax.
  assert (Hw : mergeValues (found f results) = v).
  { destruct (string_dec (mergeValues (found f results)) v) as [E|N]; [assumption|].
    pose proof (occurrences_two _ _ (found f results) N). lia. }
  rewrite Hw. split; [reflexivity|].
  assert (Hl : 0 < List.length (found f results)).
  { destruct (found f results); [congruence|simpl; lia]. }
  destruct (0 <? _)%nat eqn:E; [|apply Nat.ltb_ge in E; lia].
  apply ratio_half; assumption.
Qed.

Lemma X8_majority_witness :
  let results := [mkScanResult "Total 200" 1 []; mkScanResult "Total 100" 1 [];
                  mkScanResult "Total 200" 1 []] in
  let m := fst (mergeScanResults results ∅) in
  get Field.total (mergedData m) = "200" /\ ((1 # 2) < mergedConfidences m Field.total)%Q.
Proof.
  apply (X8_majority _ ∅ Field.total "200").
  - intros H. discriminate H.
  - vm_compute. lia.
Defined.

(** X9.  After a merge the confidence of every field lies between 0 and 1,
    and so does the overall confidence.  A field is empty exactly when no
    pass found a value for it, and exactly then its confidence is 0; the
    confidence of any other field is at least one over the number of passes
    that found a value. *)
Theorem X9_merged_confidence_range (results : list ScanResult)
    (st : ConfidenceModule.fieldConfidences) (f : Field.t) :
  let m := fst (mergeScanResults results st) in
  let c := mergedConfidences m f in
  (0 <= c /\ c <= 1)%Q
  /\ (get f (mergedData m) = "" <-> found f results = [])
  /\ (c == 0 <-> get f (mergedData m) = "")%Q
  /\ (found f results <> [] ->
      1 / inject_Z (Z.of_nat (List.length (found f results))) <= c)%Q
  /\ (0 <= overallConfidence m /\ overallConfidence m <= 1)%Q.
Proof.
  cbv zeta.
  assert (B : forall g, (0 <= mergedConfidences (fst (mergeScanResults results st)) g
                         /\ mergedConfidences (fst (mergeScanResults results st)) g <= 1)%Q).
  { intros g. rewrite merged_confidence.
    destruct (0 <? _)%nat eqn:E; [|split; [apply Qle_refl|discriminate]].
    apply Nat.ltb_lt in E. apply ratio_bounds; [apply occurrences_le|assumption]. }
  assert (V : get f (mergedData (fst (mergeScanResults results st))) = ""
              <-> found f results = []).
  { rewrite merged_value. split.
    - intros E. destruct (found f results) as [|x l] eqn:F; [reflexivity|].
      assert (Hne : x :: l <> []) by discriminate.
      pose proof (mergeValues_in _ Hne) as Hin. rewrite <- F in Hin.
      apply found_nonempty in Hin. rewrite <- F in E. contradiction.
    - intros ->. reflexivity. }
  assert (P : found f results <> [] ->
              (1 / inject_Z (Z.of_nat (List.length (found f results)))
               <= mergedConfidences (fst (mergeScanResults results st)) f)%Q).
  { intros Hne. rewrite merged_confidence.
    assert (Hl : 0 < List.length (found f results)).
    { destruct (found f results); [congruence|simpl; lia]. }
    destruct (0 <? _)%nat eqn:E; [|apply Nat.ltb_ge in E; lia].
    apply ratio_positive; [|assumption].
    apply occurrences_present. apply mergeValues_in. assumption. }
  split; [apply B|]. split; [exact V|]. split; [|split; [exact P|]].
  - rewrite V. split.
    + intros Hc. destruct (found f results) as [|x l]; [reflexivity|]. exfalso.
      specialize (P ltac:(discriminate)). rewrite Hc in P.
      assert (Hpos : (0 < 1 / inject_Z (Z.of_nat (List.length (x :: l))))%Q).
      { unfold Qlt, Qdiv, Qmult, Qinv, inject_Z. simpl. lia. }
      exact (Qlt_not_le _ _ Hpos P).
    + intros E. rewrite merged_confidence, E. reflexivity.
  - destruct (mergeScanResults_parts results st) as (_ & _ & Hall). cbv zeta in Hall.
    rewrite Hall.
    pose proof (B Field.billNo) as [? ?]. pose proof (B Field.date) as [? ?].
    pose proof (B Field.customer) as [? ?]. pose proof (B Field.gst) as [? ?].
    pose proof (B Field.total) as [? ?].
    unfold Qdiv. change (/ 5)%Q with (1 # 5)%Q. split; lra.
Qed.

End ScanFacts.

(** ** The confidence table: recordings *)

Module SummaryFacts.
Import ConfidenceModule ConfidenceSpec ConfidenceFacts SummarySpec.
Local Open Scope Q_scope.

(** The entry that a recording stores. *)
Lemma stored_entry f c v this :
  setFieldConfidence f c v this !! f
  = Some (getFieldConfidence f (setFieldConfidence f c v ∅)).
Proof.
  unfold getFieldConfidence, setFieldConfidence. rewrite !lookup_insert_eq. reflexivity.
Qed.

Lemma recordAll_app rs rs' this :
  recordAll (rs ++ rs') this = recordAll rs' (recordAll rs this).
Proof. unfold recordAll. apply fold_left_app. Qed.

(** X10.  The entry of a field is the one that the last recording for that
    field stored: neither earlier recordings, nor the table they started
    from, nor later recordings for other fields have any effect on it. *)
Theorem X10_last_recording_wins (rs rs' : list recording) (f : Field.t) (c : Q)
    (v : string) (this : fieldConfidences) :
  Forall (fun r => fieldOf r <> f) rs' ->
  getFieldConfidence f (recordAll (rs ++ (f, c, v) :: rs') this)
  = getFieldConfidence f (setFieldConfidence f c v ∅).
Proof.
  intros Hrs'. rewrite recordAll_app.
  change (recordAll ((f, c, v) :: rs') (recordAll rs this))
    with (recordAll rs' (setFieldConfidence f c v (recordAll rs this))).
  unfold getFieldConfidence at 1.
  rewrite (lookup_recordAll_other f rs' _ Hrs'), stored_entry. reflexivity.
Qed.

Lemma X10_last_recording_wins_witness :
  getFieldConfidence Field.gst
    (recordAll ([(Field.gst, 1 # 10, "7")] ++ (Field.gst, 9 # 10, "18") :: [(Field.total, 1 # 2, "100")])
               ∅)
  = getFieldConfidence Field.gst (setFieldConfidence Field.gst (9 # 10) "18" ∅).
Proof.
  apply (X10_last_recording_wins [(Field.gst, 1 # 10, "7")] [(Field.total, 1 # 2, "100")]
           Field.gst (9 # 10) "18" ∅).
  repeat constructor. discriminate.
Defined.

(** *** The table after a scan *)

Lemma storeConfidences_lookup conf data st f :
  DataExtractionModule.storeConfidences conf data st !! f
  = Some (getFieldConfidence f
            (setFieldConfidence f (conf f) (DataExtractionModule.get f data) ∅)).
Proof.
  unfold DataExtractionModule.storeConfidences, Field.all. cbn [fold_left].
  destruct f;
    repeat first [ rewrite stored_entry; reflexivity
                 | unfold setFieldConfidence at 1; rewrite lookup_insert_ne by discriminate ].
Qed.

Lemma empty_entry f :
  let e := getFieldConfidence f (setFieldConfidence f 0 "" ∅) in
  confidence e == 0 /\ needsReview e = true /\ status e = low.
Proof. cbv zeta. rewrite lookup_set_same. simpl. repeat split. Qed.

(** X11.  After [extractBillDataWithConfidence] the table holds, for each of
    the five fields, the entry of the confidence and the value that the call
    returns, whatever the table held before; the entry of a field that the
    extraction left empty has confidence 0, status low, and asks for
    review. *)
Theorem X11_table_after_extraction (text : string)
    (ocrData : DataExtractionModule.OCRData) (st : fieldConfidences) (f : Field.t) :
  let e := fst (DataExtractionModule.extractBillDataWithConfidence text ocrData st) in
  let st' := snd (DataExtractionModule.extractBillDataWithConfidence text ocrData st) in
  let v := DataExtractionModule.get f (DataExtractionModule.billData e) in
  getFieldConfidence f st'
  = getFieldConfidence f
      (setFieldConfidence f (DataExtractionModule.fieldConfidences e f) v ∅)
  /\ (v = ""%string ->
      confidence (getFieldConfidence f st') == 0
      /\ needsReview (getFieldConfidence f st') = true
      /\ status (getFieldConfidence f st') = low).
Proof.
  cbv zeta. unfold DataExtractionModule.extractBillDataWithConfidence.
  cbn [fst snd DataExtractionModule.billData DataExtractionModule.fieldConfidences].
  unfold getFieldConfidence at 1 3 4 5. rewrite storeConfidences_lookup. cbn [default].
  split; [reflexivity|]. intros E. rewrite E.
  change (DataExtractionModule.getFieldConfidence ocrData "") with 0.
  apply empty_entry.
Qed.

End SummaryFacts.

(** ** The confidence table after a merge *)

Module ReviewFacts.
Import JSString DataExtractionModule OCRModule MergeSpec MergeFacts ScanSpec ScanFacts.
Import ConfidenceSpec ConfidenceFacts SummarySpec SummaryFacts.

Lemma merge_entry results st f :
  ConfidenceModule.getFieldConfidence f (snd (mergeScanResults results st))
  = ConfidenceModule.getFieldConfidence f
      (ConfidenceModule.setFieldConfidence f
         (mergedConfidences (fst (mergeScanResults results st)) f)
         (get f (mergedData (fst (mergeScanResults results st)))) ∅).
Proof.
  unfold mergeScanResults.
  destruct (extractAll 0 results st) as [es st1].
  cbn [fst snd mergedData mergedConfidences].
  unfold ConfidenceModule.getFieldConfidence at 1. rewrite storeConfidences_lookup.
  reflexivity.
Qed.

(** X12.  After [mergeScanResults] the table holds, for each of the five
    fields, the entry of the merged value and of its confidence, the share of
    agreeing passes.  Nothing remains of what the single passes recorded or
    of what the table held before: the table after the merge is the same
    whatever table the merge started from. *)
Theorem X12_table_after_merge (results : list ScanResult)
    (st : ConfidenceModule.fieldConfidences) :
  let m := fst (mergeScanResults results st) in
  let st' := snd (mergeScanResults results st) in
  (forall f,
     ConfidenceModule.getFieldConfidence f st'
     = ConfidenceModule.getFieldConfidence f
         (ConfidenceModule.setFieldConfidence f (mergedConfidences m f)
            (get f (mergedData m)) ∅))
  /\ (forall st0, snd (mergeScanResults results st0) = st').
Proof.
  cbv zeta. split; [intros f; apply merge_entry|].
  intros st0. apply map_eq. intros f.
  assert (L : forall s, snd (mergeScanResults results s) !! f
                        = Some (ConfidenceModule.getFieldConfidence f
                                  (snd (mergeScanResults results s)))).
  { intros s. unfold mergeScanResults.
    destruct (extractAll 0 results s) as [es s1]. cbn [snd].
    unfold ConfidenceModule.getFieldConfidence.
    rewrite storeConfidences_lookup. reflexivity. }
  rewrite (L st0), (L st), !merge_entry.
  assert (M : forall s, mergedData (fst (mergeScanResults results s))
                        = mergedData (fst (mergeScanResults results ∅))).
  { intros s. destruct (mergeScanResults_parts results s) as (Hs & _).
    destruct (mergeScanResults_parts results ∅) as (H0 & _). cbv zeta in Hs, H0.
    assert (G : forall g, get g (mergedData (fst (mergeScanResults results s)))
                          = get g (mergedData (fst (mergeScanResults results ∅)))).
    { intros g. rewrite !merged_value. reflexivity. }
    destruct (mergedData (fst (mergeScanResults results s))) as [a1 a2 a3 a4 a5].
    destruct (mergedData (fst (mergeScanResults results ∅))) as [b1 b2 b3 b4 b5].
    pose proof (G Field.billNo). pose proof (G Field.date). pose proof (G Field.customer).
    pose proof (G Field.gst). pose proof (G Field.total).
    cbn [get billNo date customer gst total] in *. congruence. }
  rewrite (M st0), (M st), !merged_confidence. reflexivity.
Qed.

Lemma occurrences_full v l :
  occurrences v l = List.length l -> forall w, In w l -> w = v.
Proof.
  unfold occurrences. induction l as [|x l IH]; simpl; [intros _ w []|].
  destruct (String.eqb v x) eqn:E; simpl.
  - intros H w [<-|Hw]; [symmetry; apply String.eqb_eq; assumption|].
    apply IH; [lia|assumption].
  - intros H. pose proof (List.filter_length_le (String.eqb v) l). lia.
Qed.

Lemma found_length f results : List.length (found f results) <= List.length results.
Proof.
  unfold found. etransitivity; [apply List.filter_length_le|].
  rewrite List.length_map. reflexivity.
Qed.

(** X15.  With at most three passes, as a full scan makes them, the entry
    of a field after the merge asks for no review exactly when some pass
    found a value and all passes that found one found the same: two passes
    out of three agreeing are not enough. *)
Theorem X15_three_pass_review (results : list ScanResult)
    (st : ConfidenceModule.fieldConfidences) (f : Field.t) :
  List.length results <= 3 ->
  let m := fst (mergeScanResults results st) in
  let st' := snd (mergeScanResults results st) in
  ConfidenceModule.needsReview (ConfidenceModule.getFieldConfidence f st') = false
  <-> (found f results <> []
       /\ forall w, In w (found f results) -> w = get f (mergedData m)).
Proof.
  intros Hlen. cbv zeta. rewrite merge_entry, lookup_set_same.
  cbn [ConfidenceModule.needsReview]. rewrite merged_value, merged_confidence.
  pose proof (found_length f results) as Hn.
  remember (found f results) as l eqn:El. clear El.
  destruct l as [|x l'].
  { split; [intros H; vm_compute in H; discriminate H|intros [H _]; congruence]. }
  assert (Hne : x :: l' <> []) by discriminate.
  remember (x :: l') as l eqn:El. clear El x l'.
  pose proof (occurrences_present _ _ (mergeValues_in l Hne)) as Ha.
  pose proof (occurrences_le (mergeValues l) l) as Hb.
  assert (Hl : 0 < List.length l) by lia.
  destruct (0 <? List.length l)%nat eqn:E; [|apply Nat.ltb_ge in E; lia].
  assert (Hcases :
            ConfidenceModule.lt
              (inject_Z (Z.of_nat (occurrences (mergeValues l) l))
               / inject_Z (Z.of_nat (List.length l))) (7 # 10) = false
            <-> occurrences (mergeValues l) l = List.length l).
  { remember (occurrences (mergeValues l) l) as a. remember (List.length l) as n.
    assert (Hn3 : n <= 3) by lia. clear - Ha Hb Hn3.
    destruct n as [|[|[|[|n]]]]; try lia;
      destruct a as [|[|[|[|a]]]]; try lia;
      split; intros H; try reflexivity; try discriminate H; try lia. }
  rewrite Hcases. split.
  - intros H. split; [assumption|]. apply occurrences_full. assumption.
  - intros [_ H]. apply occurrences_all. assumption.
Qed.

Lemma X15_three_pass_review_witness :
  let results := [mkScanResult "Total 200" 1 []; mkScanResult "Total 100" 1 [];
                  mkScanResult "Total 200" 1 []] in
  let m := fst (mergeScanResults results ∅) in
  let st' := snd (mergeScanResults results ∅) in
  ConfidenceModule.needsReview (ConfidenceModule.getFieldConfidence Field.total st') = false
  <-> (found Field.total results <> []
       /\ forall w, In w (found Field.total results) -> w = get Field.total (mergedData m)).
Proof.
  apply (X15_three_pass_review _ ∅ Field.total). simpl. lia.
Defined.

End ReviewFacts.

(** ** The summary of the confidence table *)

Module OverallFacts.
Import ConfidenceModule ConfidenceSpec ConfidenceFacts SummarySpec SummaryFacts.
Local Open Scope Q_scope.

Lemma keys_assign k e t :
  map fst (ConfidenceObject.assign k e t)
  = if bool_decide (k ∈ map fst t) then map fst t else (map fst t ++ [k])%list.
Proof.
  induction t as [|[k' e'] t IH]; simpl; [reflexivity|].
  destruct (decide (k' = k)) as [->|N]; simpl.
  - rewrite bool_decide_eq_true_2 by (left). reflexivity.
  - rewrite IH. destruct (bool_decide (k ∈ map fst t)) eqn:E.
    + apply bool_decide_eq_true_1 in E. rewrite bool_decide_eq_true_2 by (right; assumption).
      reflexivity.
    + apply bool_decide_eq_false_1 in E. rewrite bool_decide_eq_false_2; [reflexivity|].
      intros H. apply elem_of_cons in H. destruct H as [H|H]; [congruence|contradiction].
Qed.

Lemma firsts_ext s1 s2 l :
  (forall x, x ∈ s1 <-> x ∈ s2) -> firsts s1 l = firsts s2 l.
Proof.
  revert s1 s2. induction l as [|f l IH]; intros s1 s2 H; simpl; [reflexivity|].
  rewrite (bool_decide_ext (f ∈ s1) (f ∈ s2) (H f)).
  destruct (bool_decide (f ∈ s2)); [apply IH; assumption|].
  f_equal. apply IH. intros x. rewrite !elem_of_cons, H. tauto.
Qed.

Lemma keys_fold rs : forall t,
  map fst (fold_left record rs t)
  = (map fst t ++ firsts (map fst t) (map fieldOf rs))%list.
Proof.
  induction rs as [|r rs IH]; intros t; simpl; [rewrite app_nil_r; reflexivity|].
  rewrite IH. unfold record, ConfidenceObject.setFieldConfidence.
  rewrite keys_assign.
  destruct (bool_decide (fieldOf r ∈ map fst t)); [reflexivity|].
  rewrite <- app_assoc. simpl. f_equal. f_equal. apply firsts_ext.
  intros x. rewrite elem_of_app, !elem_of_cons, elem_of_nil. tauto.
Qed.

Lemma keys_history rs :
  map fst (history rs) = firsts [] (map fieldOf rs).
Proof. unfold history. apply (keys_fold rs []). Qed.

Lemma toMap_assign k e (t : ConfidenceObject.fieldConfidences) :
  (list_to_map (ConfidenceObject.assign k e t) : fieldConfidences)
  = <[k := e]> (list_to_map t).
Proof.
  induction t as [|[k' e'] t IH]; simpl; [reflexivity|].
  destruct (decide (k' = k)) as [->|N]; simpl.
  - rewrite insert_insert_eq. reflexivity.
  - rewrite IH. apply insert_insert_ne. congruence.
Qed.

Lemma toMap_fold rs : forall t,
  (list_to_map (fold_left record rs t) : fieldConfidences)
  = recordAll rs (list_to_map t).
Proof.
  induction rs as [|r rs IH]; intros t; simpl; [reflexivity|].
  rewrite IH. unfold record, ConfidenceObject.setFieldConfidence.
  rewrite toMap_assign. reflexivity.
Qed.

(** The object and the table agree: reading a field from the object gives
    what [getFieldConfidence] reads from the table. *)
Lemma toMap_history rs :
  (list_to_map (history rs) : fieldConfidences) = recordAll rs ∅.
Proof. unfold history. apply (toMap_fold rs []). Qed.

Lemma firsts_fresh l : forall seen,
  NoDup (firsts seen l) /\ forall x, x ∈ firsts seen l -> x ∉ seen.
Proof.
  induction l as [|f l IH]; intros seen; simpl.
  - split; [constructor|]. intros x H. apply elem_of_nil in H. destruct H.
  - destruct (bool_decide (f ∈ seen)) eqn:E; [apply IH|].
    apply bool_decide_eq_false_1 in E.
    destruct (IH (f :: seen)) as [Hnd Hfresh]. split.
    + constructor; [|assumption]. intros H. apply Hfresh in H. apply H. left.
    + intros x Hx. apply elem_of_cons in Hx. destruct Hx as [->|Hx]; [assumption|].
      apply Hfresh in Hx. intros Q. apply Hx. right. assumption.
Qed.

Lemma keys_NoDup rs : NoDup (map fst (history rs)).
Proof. rewrite keys_history. apply firsts_fresh. Qed.

(** *** The loop of [getOverallConfidence] *)

Lemma loop_fold t : forall a low,
  fst (fold_left ConfidenceObject.visit t (a, low)) == a + fold_right Qplus 0 (map (fun e => confidence (snd e)) t)
  /\ snd (fold_left ConfidenceObject.visit t (a, low))
     = (low ++ map fst (List.filter (fun e => needsReview (snd e)) t))%list.
Proof.
  induction t as [|[k e] t IH]; intros a low; simpl.
  - split; [ring|rewrite app_nil_r; reflexivity].
  - destruct (IH (a + confidence e) (if needsReview e then (low ++ [k])%list else low))
      as [H1 H2].
    split; [rewrite H1; ring|]. rewrite H2.
    destruct (needsReview e); simpl; [rewrite <- app_assoc|]; reflexivity.
Qed.

Lemma review_by_key (t : ConfidenceObject.fieldConfidences) :
  NoDup (map fst t) ->
  map fst (List.filter (fun e => needsReview (snd e)) t)
  = List.filter (fun f => needsReview (getFieldConfidence f (list_to_map t))) (map fst t).
Proof.
  induction t as [|[k e] t IH]; intros Hnd; [reflexivity|].
  inversion Hnd as [|? ? Hk Hnd']; subst.
  cbn [map fst List.filter snd list_to_map foldr uncurry].
  unfold getFieldConfidence at 1. rewrite lookup_insert_eq.
  change (default _ (Some e)) with e.
  assert (Htail : List.filter
                    (fun f => needsReview (getFieldConfidence f (<[k:=e]> (list_to_map t))))
                    (map fst t)
                  = List.filter (fun f => needsReview (getFieldConfidence f (list_to_map t)))
                      (map fst t)).
  { apply filter_ext_in. intros f Hf. unfold getFieldConfidence.
    rewrite lookup_insert_ne; [reflexivity|].
    intros ->. apply Hk. apply list_elem_of_In. exact Hf. }
  destruct (needsReview e); cbn [map fst]; rewrite Htail, IH by assumption; reflexivity.
Qed.

Lemma assign_unit k e (t : ConfidenceObject.fieldConfidences) :
  inUnit (confidence e) ->
  Forall (fun p => inUnit (confidence (snd p))) t ->
  Forall (fun p => inUnit (confidence (snd p))) (ConfidenceObject.assign k e t).
Proof.
  intros He. induction t as [|[k' e'] t IH]; intros Ht; simpl.
  - constructor; [exact He|constructor].
  - inversion Ht as [|? ? H1 H2]; subst.
    destruct (decide (k' = k)); constructor; auto.
Qed.

Lemma history_unit rs : forall t,
  Forall (fun r => inUnit (snd (fst r))) rs ->
  Forall (fun p => inUnit (confidence (snd p))) t ->
  Forall (fun p => inUnit (confidence (snd p))) (fold_left record rs t).
Proof.
  induction rs as [|r rs IH]; intros t Hrs Ht; simpl; [assumption|].
  inversion Hrs as [|? ? [H0 H1] Hrest]; subst. apply IH; [assumption|].
  unfold record, ConfidenceObject.setFieldConfidence. apply assign_unit; [|assumption].
  cbn [confidence]. apply scaled_bounds. apply round_bounds; assumption.
Qed.

Lemma sum_unit (qs : list Q) :
  Forall inUnit qs ->
  0 <= fold_right Qplus 0 qs /\ fold_right Qplus 0 qs <= inject_Z (Z.of_nat (List.length qs)).
Proof.
  induction 1 as [|q qs [H0 H1] _ [IH0 IH1]]; simpl List.length; simpl fold_right.
  - split; [apply Qle_refl|]. unfold Qle. simpl. lia.
  - rewrite Nat2Z.inj_succ, <- Z.add_1_l, inject_Z_plus. change (inject_Z 1) with 1.
    split; lra.
Qed.

Lemma firsts_nil l : firsts [] l = [] <-> l = [].
Proof.
  destruct l as [|f l]; simpl; [tauto|]. split; discriminate.
Qed.

(** X13.  For the table that a sequence of recordings leaves behind,
    [getOverallConfidence] counts each recorded field once and lists, in the
    order in which the fields were first recorded, those whose current entry
    asks for review; it asks for review itself exactly when there is one.
    The summary of the empty table has no [totalFields].  When every
    recorded confidence lies between 0 and 1, so does the average. *)
Theorem X13_overall_confidence (rs : list recording) :
  let s := ConfidenceObject.getOverallConfidence (history rs) in
  let fields := firsts [] (map fieldOf rs) in
  let review := fun f => needsReview (getFieldConfidence f (recordAll rs ∅)) in
  (rs = [] ->
   s = {| ConfidenceObject.average := 0; ConfidenceObject.lowConfidenceFields := [];
          ConfidenceObject.needsReview := false; ConfidenceObject.totalFields := None |})
  /\ (rs <> [] -> ConfidenceObject.totalFields s = Some (List.length fields))
  /\ ConfidenceObject.lowConfidenceFields s = List.filter review fields
  /\ (ConfidenceObject.needsReview s = true <-> exists f, In f fields /\ review f = true)
  /\ (Forall (fun r => inUnit (snd (fst r))) rs -> inUnit (ConfidenceObject.average s)).
Proof.
  cbv zeta. unfold ConfidenceObject.getOverallConfidence. rewrite keys_history.
  destruct (loop_fold (history rs) 0 []) as [Htot Hlow].
  rewrite (review_by_key _ (keys_NoDup rs)), toMap_history, keys_history in Hlow.
  cbn [app] in Hlow.
  destruct (fold_left ConfidenceObject.visit (history rs) (0, [])) as [tot low].
  cbn [fst snd] in Htot, Hlow. subst low.
  destruct (List.length (firsts [] (map fieldOf rs)) =? 0)%nat eqn:E.
  - apply Nat.eqb_eq, length_zero_iff_nil in E. rewrite E.
    cbn [ConfidenceObject.totalFields ConfidenceObject.lowConfidenceFields
         ConfidenceObject.needsReview ConfidenceObject.average List.filter].
    apply firsts_nil, map_eq_nil in E.
    split; [reflexivity|]. split; [congruence|]. split; [reflexivity|].
    split; [split; [discriminate|intros (f & [] & _)]|].
    intros _. split; [apply Qle_refl|discriminate].
  - apply Nat.eqb_neq in E.
    cbn [ConfidenceObject.totalFields ConfidenceObject.lowConfidenceFields
         ConfidenceObject.needsReview ConfidenceObject.average].
    split; [intros ->; simpl in E; congruence|]. split; [reflexivity|].
    split; [reflexivity|]. split.
    + rewrite Nat.ltb_lt. split.
      * intros H. destruct (List.filter _ _) as [|f l] eqn:F; [simpl in H; lia|].
        assert (Hf : In f (f :: l)) by (left; reflexivity).
        rewrite <- F in Hf. apply filter_In in Hf. exists f. exact Hf.
      * intros (f & Hf & Hr).
        assert (Hin : In f (List.filter
                              (fun f => needsReview (getFieldConfidence f (recordAll rs ∅)))
                              (firsts [] (map fieldOf rs)))).
        { apply filter_In. auto. }
        destruct (List.filter _ _); [destruct Hin|simpl; lia].
    + intros Hrs.
      pose proof (history_unit rs [] Hrs (List.Forall_nil _)) as Hu.
      fold (history rs) in Hu.
      assert (Hqs : Forall inUnit (map (fun e => confidence (snd e)) (history rs))).
      { apply List.Forall_map. exact Hu. }
      destruct (sum_unit _ Hqs) as [S0 S1].
      rewrite List.length_map in S1.
      rewrite <- (List.length_map fst), keys_history in S1.
      rewrite Qplus_0_l in Htot. rewrite <- Htot in S0, S1.
      set (n := List.length (firsts [] (map fieldOf rs))) in *.
      assert (Hn : 0 < inject_Z (Z.of_nat n)) by (unfold Qlt, inject_Z; simpl; lia).
      apply scaled_bounds. apply round_bounds.
      * apply Qle_shift_div_l; [assumption|]. rewrite Qmult_0_l. assumption.
      * apply Qle_shift_div_r; [assumption|]. rewrite Qmult_1_l. assumption.
Qed.

End OverallFacts.

(** ** The confidence of a field: its range *)

Module EstimateFacts.
Import JSString DataExtractionModule ExtractionFacts SummarySpec.
Local Open Scope Q_scope.

Lemma sumConfidence_bounds ws :
  Forall (fun w => 0 <= wordConfidence w /\ wordConfidence w <= 100) ws ->
  0 <= sumConfidence ws
  /\ sumConfidence ws <= 100 * inject_Z (Z.of_nat (List.length ws)).
Proof.
  rewrite sumConfidence_total. unfold ExtractionSpec.total.
  induction 1 as [|w ws [H0 H1] _ [IH0 IH1]]; simpl List.length; simpl map; simpl fold_right.
  - split; [apply Qle_refl|]. unfold Qle. simpl. lia.
  - rewrite Nat2Z.inj_succ, <- Z.add_1_l, inject_Z_plus. change (inject_Z 1) with 1.
    split; lra.
Qed.

(** X14.  When the recogniser reports every word confidence, and its
    overall confidence if it gives one, on its scale from 0 to 100, the
    confidence that [extractBillDataWithConfidence] returns for a field lies
    between 0 and 1. *)
Theorem X14_field_confidence_range (text : string) (ocrData : OCRData)
    (st : ConfidenceModule.fieldConfidences) (f : Field.t) :
  Forall (fun w => 0 <= wordConfidence w /\ wordConfidence w <= 100) (words ocrData) ->
  (forall c, confidence ocrData = Some c -> 0 <= c /\ c <= 100) ->
  inUnit (fieldConfidences (fst (extractBillDataWithConfidence text ocrData st)) f).
Proof.
  intros Hws Hc. unfold extractBillDataWithConfidence. cbn [fst fieldConfidences].
  unfold getFieldConfidence, inUnit.
  destruct (negb (nonblank _)); [split; [apply Qle_refl|discriminate]|].
  destruct (List.filter _ (words ocrData)) as [|w ws] eqn:F.
  - destruct (confidence ocrData) as [c|] eqn:E; [|split; discriminate].
    destruct (Qeq_bool c 0); [split; discriminate|].
    destruct (Hc c eq_refl) as [H0 H1].
    unfold Qdiv. change (/ 100) with (1 # 100). split; lra.
  - assert (Hm : Forall (fun w => 0 <= wordConfidence w /\ wordConfidence w <= 100) (w :: ws)).
    { rewrite <- F. apply List.Forall_forall. intros x Hx. apply filter_In in Hx.
      rewrite List.Forall_forall in Hws. apply Hws. tauto. }
    destruct (sumConfidence_bounds _ Hm) as [S0 S1].
    set (n := List.length (w :: ws)) in *.
    assert (Hn : 0 < inject_Z (Z.of_nat n)) by (unfold Qlt, inject_Z, n; simpl; lia).
    assert (A0 : 0 <= sumConfidence (w :: ws) / inject_Z (Z.of_nat n)).
    { apply Qle_shift_div_l; [assumption|]. rewrite Qmult_0_l. assumption. }
    assert (A1 : sumConfidence (w :: ws) / inject_Z (Z.of_nat n) <= 100).
    { apply Qle_shift_div_r; assumption. }
    set (a := sumConfidence (w :: ws) / inject_Z (Z.of_nat n)) in *.
    unfold Qdiv. change (/ 100) with (1 # 100). split; lra.
Qed.

Lemma X14_field_confidence_range_witness :
  inUnit (fieldConfidences
            (fst (extractBillDataWithConfidence "Total 100"
                    {| words := [mkWord "100" 90; mkWord "Total" 80];
                       confidence := Some 85 |} ∅))
            Field.total).
Proof.
  apply (X14_field_confidence_range "Total 100"
           {| words := [mkWord "100" 90; mkWord "Total" 80]; confidence := Some 85 |}
           ∅ Field.total).
  - repeat constructor; simpl; lra.
  - intros c H. inversion H; subst c. split; lra.
Defined.

End EstimateFacts.

(** ** The quality report: thresholds and issues *)

Module QualityLaws.
Import JSNum ImageQualityModule QualitySpec QualityFacts.
Local Open Scope Z_scope.

Lemma ge_fin a b : ge (Fin a) (Fin b) = Qle_bool b a.
Proof. unfold ge, lt. apply negb_involutive. Qed.

Lemma min_ge a b c :
  ge (JSNum.min (Fin a) (Fin b)) (Fin c) = Qle_bool c a && Qle_bool c b.
Proof.
  unfold JSNum.min. destruct (lt (Fin b) (Fin a)) eqn:L; rewrite ge_fin.
  - unfold lt in L. apply negb_true_iff in L.
    destruct (Qle_bool c b) eqn:B; [|rewrite andb_false_r; reflexivity].
    rewrite andb_true_r. apply Qle_bool_iff in B. symmetry. apply Qle_bool_iff.
    apply Qle_trans with (1 := B). apply Qlt_le_weak. apply Qnot_le_lt.
    intros H. apply Qle_bool_iff in H. congruence.
  - unfold lt in L. apply negb_false_iff in L. apply Qle_bool_iff in L.
    destruct (Qle_bool c a) eqn:A; [|reflexivity]. simpl.
    apply Qle_bool_iff in A. symmetry. apply Qle_bool_iff.
    exact (Qle_trans _ _ _ A L).
Qed.

Lemma dpi_threshold (z k den : Z) :
  0 < den -> (150 * den <= 100 * z <-> k <= z) ->
  Qle_bool (inject_Z 150) (inject_Z z / (den # 100)) = true <-> k <= z.
Proof.
  intros Hd Hk. rewrite Qle_bool_iff, <- Hk.
  unfold Qle, Qdiv, Qmult, Qinv, inject_Z. simpl.
  destruct den as [|d|d]; try lia. simpl. lia.
Qed.

Lemma text_from_dpi (width height : Z) :
  textAdequate (estimateTextSize width height)
  = Qle_bool (inject_Z 150) (inject_Z width / (827 # 100))
    && Qle_bool (inject_Z 150) (inject_Z height / (1169 # 100))
    && (1000 <=? width).
Proof.
  unfold estimateTextSize. cbn [textAdequate].
  change (div (of_Z width) (Fin (827 # 100)))
    with (Fin (inject_Z width / (827 # 100))).
  change (div (of_Z height) (Fin (1169 # 100)))
    with (Fin (inject_Z height / (1169 # 100))).
  unfold of_Z. rewrite min_ge. reflexivity.
Qed.

Lemma adequate_text_size (width height : Z) :
  textAdequate (estimateTextSize width height) = true ->
  1241 <= width /\ 1754 <= height.
Proof.
  rewrite text_from_dpi, !andb_true_iff. intros [[Hw Hh] _].
  apply (dpi_threshold width 1241 827) in Hw; [|lia|lia].
  apply (dpi_threshold height 1754 1169) in Hh; [|lia|lia]. auto.
Qed.

(** X16.  The text of an image counts as large enough exactly when the
    image is at least 1241 pixels wide and 1754 pixels high, the size of an
    A4 page at 150 dots per inch; the extra condition on the width never
    decides. *)
Theorem X16_text_size_threshold (width height : Z) :
  textAdequate (estimateTextSize width height) = true
  <-> 1241 <= width /\ 1754 <= height.
Proof.
  rewrite text_from_dpi, !andb_true_iff.
  rewrite (dpi_threshold width 1241 827) by lia.
  rewrite (dpi_threshold height 1754 1169) by lia.
  rewrite Z.leb_le. lia.
Qed.

(** X17.  The resolution check never decides the verdict: an image whose
    text size is adequate has more than the recommended million pixels, so
    an image reported for low resolution is reported for small text too, and
    a good image is at least 1241 by 1754 pixels. *)
Theorem X17_resolution_never_decides (imageData : ImageData) :
  let q := analyzeQuality imageData in
  (textAdequate (textSize q) = true ->
   resAdequate (resolution q) = true /\ recommended (resolution q) = true)
  /\ (resAdequate (resolution q) = false -> textAdequate (textSize q) = false)
  /\ (overall q = good ->
      1241 <= width imageData /\ 1754 <= height imageData
      /\ recommended (resolution q) = true).
Proof.
  intros q.
  assert (T : textAdequate (textSize q) = true ->
              1241 <= width imageData /\ 1754 <= height imageData
              /\ resAdequate (resolution q) = true /\ recommended (resolution q) = true).
  { subst q. unfold analyzeQuality. cbn [textSize resolution].
    intros H. apply adequate_text_size in H. destruct H as [Hw Hh].
    unfold checkResolution. cbn [resAdequate recommended].
    rewrite !Z.leb_le. nia. }
  split; [intros H; apply T in H; tauto|]. split.
  - intros H. destruct (textAdequate (textSize q)); [|reflexivity].
    destruct (T eq_refl) as (_ & _ & R & _). congruence.
  - intros H. assert (P : overall q <> poor) by congruence.
    pose proof (poor_iff_condition imageData) as C. cbv zeta in C. fold q in C.
    rewrite C in P. clear C.
    destruct (textAdequate (textSize q)).
    + destruct (T eq_refl) as (? & ? & _ & ?). auto.
    + exfalso. apply P. rewrite !orb_true_r. reflexivity.
Qed.

(** *** The issues of a report *)

(** X18.  The issues that a report lists for a non-empty pixel buffer are
    labels, each one of the six that the checks can give, and no label is
    listed twice.  A null is never among them: the brightness check of such
    a buffer has a sample, so it names its issue whenever it is not
    adequate. *)
Theorem X18_issue_labels (imageData : ImageData) :
  nonEmptyBuffer imageData ->
  let q := analyzeQuality imageData in
  Forall (fun i => exists label,
            i = Some label
            /\ In label ["low resolution"; "blurry"; "too dark"; "too bright";
                         "low contrast"; "text too small"]%string)
         (issueList q)
  /\ NoDup (issueList q).
Proof.
  intros Hne q.
  pose proof (brightness_issue imageData (finite_average imageData Hne)) as B.
  subst q. unfold issueList, analyzeQuality, pushIf.
  cbn [issues resolution blur brightness contrast textSize].
  remember (checkBrightness imageData) as br eqn:Ebr. clear Ebr.
  destruct (resAdequate _), (isBlurry _), (brightnessAdequate br),
    (contrastAdequate _), (textAdequate _);
    try (destruct (B eq_refl) as [Hi|Hi]; rewrite Hi); cbn;
    (split;
     [repeat (constructor; [eexists; split; [reflexivity|simpl; tauto]|]); constructor
     |repeat (constructor;
              [rewrite ?elem_of_cons, ?elem_of_nil; intuition discriminate|]);
      constructor]).
Qed.

Lemma X18_issue_labels_witness :
  nonEmptyBuffer onePixel
  /\ let q := analyzeQuality onePixel in
     Forall (fun i => exists label,
               i = Some label
               /\ In label ["low resolution"; "blurry"; "too dark"; "too bright";
                            "low contrast"; "text too small"]%string)
            (issueList q)
     /\ NoDup (issueList q).
Proof.
  assert (H : nonEmptyBuffer onePixel) by (unfold nonEmptyBuffer; simpl; lia).
  split; [exact H|]. exact (X18_issue_labels onePixel H).
Defined.

End QualityLaws.

(** ** The quality report of a blank image *)

Module BlankFacts.
Import JSNum ImageQualityModule QualitySpec QualityFacts BlankSpec.
Local Open Scope Z_scope.

Section Solid.
Variables r g b a : Z.

Lemma solidData_length n : List.length (solidData r g b a n) = (4 * n)%nat.
Proof. induction n as [|n IH]; simpl; [reflexivity|]. rewrite IH. lia. Qed.

Lemma solidData_nth n : forall p, (p < n)%nat ->
  nth_error (solidData r g b a n) (4 * p) = Some r
  /\ nth_error (solidData r g b a n) (4 * p + 1) = Some g
  /\ nth_error (solidData r g b a n) (4 * p + 2) = Some b.
Proof.
  induction n as [|n IH]; intros p Hp; [lia|].
  destruct p as [|p].
  - simpl. auto.
  - replace (4 * S p)%nat with (S (S (S (S (4 * p))))) by lia.
    cbn [solidData nth_error Nat.add]. apply IH. lia.
Qed.

Lemma solid_at n p :
  0 <= p < Z.of_nat n ->
  at_ (solidData r g b a n) (4 * p) = of_Z r
  /\ at_ (solidData r g b a n) (4 * p + 1) = of_Z g
  /\ at_ (solidData r g b a n) (4 * p + 2) = of_Z b.
Proof.
  intros Hp. unfold at_.
  destruct (solidData_nth n (Z.to_nat p) ltac:(lia)) as (Hr & Hg & Hb).
  replace (Z.to_nat (4 * p)) with (4 * Z.to_nat p)%nat by lia.
  replace (Z.to_nat (4 * p + 1)) with (4 * Z.to_nat p + 1)%nat by lia.
  replace (Z.to_nat (4 * p + 2)) with (4 * Z.to_nat p + 2)%nat by lia.
  rewrite Hr, Hg, Hb.
  destruct (4 * p <? 0) eqn:E1; [apply Z.ltb_lt in E1; lia|].
  destruct (4 * p + 1 <? 0) eqn:E2; [apply Z.ltb_lt in E2; lia|].
  destruct (4 * p + 2 <? 0) eqn:E3; [apply Z.ltb_lt in E3; lia|].
  auto.
Qed.

Lemma solid_gray n i :
  0 <= i < 4 * Z.of_nat n -> (exists k, i = 4 * k) ->
  gray (solidData r g b a n) i = Fin (level r g b).
Proof.
  intros Hi [p ->]. unfold gray.
  destruct (solid_at n p ltac:(lia)) as (-> & -> & ->). reflexivity.
Qed.

Hypothesis Hr : byte r.
Hypothesis Hg : byte g.
Hypothesis Hb : byte b.

Lemma level_range : (0 <= level r g b /\ level r g b <= 255)%Q.
Proof.
  unfold level, byte in *. unfold Qle, Qdiv, Qmult, Qinv, Qplus, inject_Z. simpl. lia.
Qed.

Variables w h : Z.
Hypothesis Hw : 1 <= w.
Hypothesis Hh : 1 <= h.

Lemma solid_nonEmpty : nonEmptyBuffer (solid w h r g b a).
Proof.
  unfold nonEmptyBuffer, solid. cbn [width height data].
  rewrite solidData_length. split; [assumption|]. split; [assumption|]. nia.
Qed.

Lemma solid_sample i :
  In i (sampleIndices (solid w h r g b a)) ->
  gray (data (solid w h r g b a)) i = Fin (level r g b).
Proof.
  intros Hi. apply sampleIndices_bounds in Hi. destruct Hi as [Hb' [k ->]].
  unfold solid in *. cbn [data] in *. rewrite solidData_length in Hb'.
  apply solid_gray; [lia|]. exists (4 * k). lia.
Qed.

(** The extremes after at least one sample, and before. *)
Lemma solid_extremes l : forall lo hi,
  (forall i, In i l -> In i (sampleIndices (solid w h r g b a))) ->
  (level r g b <= lo)%Q -> (hi <= level r g b)%Q ->
  exists lo' hi',
    fold_left (fun '(min, max) i =>
                 let gray := gray (data (solid w h r g b a)) i in
                 (JSNum.min min gray, JSNum.max max gray)) l (Fin lo, Fin hi)
    = (Fin lo', Fin hi')
    /\ (level r g b <= lo')%Q /\ (hi' <= level r g b)%Q
    /\ (l <> [] -> (lo' == level r g b)%Q /\ (hi' == level r g b)%Q).
Proof.
  induction l as [|i l IH]; intros lo hi Hl Hlo Hhi.
  - exists lo, hi. repeat split; try assumption; congruence.
  - cbn [fold_left]. rewrite (solid_sample i (Hl i (or_introl eq_refl))). cbv zeta.
    assert (Hmin : exists lo1, JSNum.min (Fin lo) (Fin (level r g b)) = Fin lo1
                               /\ (lo1 == level r g b)%Q).
    { unfold JSNum.min, lt. destruct (Qle_bool lo (level r g b)) eqn:E; cbn.
      - exists lo. split; [reflexivity|]. apply Qle_bool_iff in E. apply Qle_antisym; assumption.
      - exists (level r g b). split; reflexivity. }
    assert (Hmax : exists hi1, JSNum.max (Fin hi) (Fin (level r g b)) = Fin hi1
                               /\ (hi1 == level r g b)%Q).
    { unfold JSNum.max, lt. destruct (Qle_bool (level r g b) hi) eqn:E; cbn.
      - exists hi. split; [reflexivity|]. apply Qle_bool_iff in E. apply Qle_antisym; assumption.
      - exists (level r g b). split; reflexivity. }
    destruct Hmin as (lo1 & -> & E1). destruct Hmax as (hi1 & -> & E2).
    destruct (IH lo1 hi1) as (lo' & hi' & Hf & H1 & H2 & H3).
    + intros j Hj. apply Hl. right. assumption.
    + rewrite E1. apply Qle_refl.
    + rewrite E2. apply Qle_refl.
    + exists lo', hi'. split; [exact Hf|]. split; [assumption|]. split; [assumption|].
      intros _. destruct l as [|j l'].
      * cbn [fold_left] in Hf. inversion Hf; subst. split; assumption.
      * apply H3. discriminate.
Qed.

Lemma solid_contrast :
  isZero (contrastValue (checkContrast (solid w h r g b a)))
  /\ contrastAdequate (checkContrast (solid w h r g b a)) = false.
Proof.
  unfold checkContrast.
  destruct level_range as [L0 L1].
  destruct (solid_extremes (sampleIndices (solid w h r g b a)) (inject_Z 255) (inject_Z 0)
              (fun i H => H) L1 L0) as (lo & hi & Hf & _ & _ & Heq).
  unfold of_Z. cbv zeta in *. rewrite Hf. cbn [contrastValue contrastAdequate].
  assert (Hne : sampleIndices (solid w h r g b a) <> []).
  { pose proof (brightnessCount_positive _ solid_nonEmpty) as P.
    unfold brightnessCount in P. intros E. rewrite E in P. simpl in P. lia. }
  destruct (Heq Hne) as [E1 E2].
  assert (Z0 : (hi + - lo == 0)%Q) by (rewrite E1, E2; ring).
  split.
  - exists (hi + - lo)%Q. split; [reflexivity|exact Z0].
  - unfold sub, opp, add, ge, lt. rewrite negb_involutive.
    destruct (Qle_bool (inject_Z 50) (hi + - lo)) eqn:E; [|reflexivity].
    apply Qle_bool_iff in E. rewrite Z0 in E. exfalso. revert E. unfold Qle. simpl. lia.
Qed.

(** *** The blur check *)

Lemma solid_laplacian xy :
  In xy (blurSamples (solid w h r g b a)) ->
  exists q, laplacian (solid w h r g b a) xy = Fin q /\ (q == 0)%Q.
Proof.
  destruct xy as [x y]. intros Hin. apply blurSamples_bounds in Hin. cbn [width height solid] in Hin.
  destruct Hin as [Hx Hy].
  unfold laplacian, solid. cbn [width height data].
  set (n := Z.to_nat (w * h)).
  assert (Hn : Z.of_nat n = w * h) by (unfold n; nia).
  replace ((y * w + x) * 4) with (4 * (y * w + x)) by lia.
  replace (4 * (y * w + x) + 4) with (4 * (y * w + x + 1)) by lia.
  replace (4 * (y * w + x) + 5) with (4 * (y * w + x + 1) + 1) by lia.
  replace (4 * (y * w + x) + 6) with (4 * (y * w + x + 1) + 2) by lia.
  replace (((y + 1) * w + x) * 4) with (4 * ((y + 1) * w + x)) by lia.
  destruct (solid_at n (y * w + x) ltac:(nia)) as (-> & -> & ->).
  destruct (solid_at n (y * w + x + 1) ltac:(nia)) as (-> & -> & ->).
  destruct (solid_at n ((y + 1) * w + x) ltac:(nia)) as (-> & -> & ->).
  change (div (add (add (of_Z r) (of_Z g)) (of_Z b)) (of_Z 3)) with (Fin (level r g b)).
  eexists. split; [reflexivity|].
  assert (E : (level r g b * inject_Z 2 + - level r g b + - level r g b == 0)%Q) by ring.
  rewrite E. reflexivity.
Qed.

Lemma fold_add_zero (A : Type) (F : A -> num) (l : list A) :
  (forall x, In x l -> exists q, F x = Fin q /\ (q == 0)%Q) ->
  forall s, exists s',
    fold_left (fun acc x => add acc (F x)) l (Fin s) = Fin s' /\ (s' == s)%Q.
Proof.
  induction l as [|x l IH]; intros HF s; cbn [fold_left].
  - exists s. split; reflexivity.
  - destruct (HF x (or_introl eq_refl)) as (q & -> & Hq). cbn [add].
    destruct (IH (fun y Hy => HF y (or_intror Hy)) (s + q)%Q) as (s' & -> & Hs).
    exists s'. split; [reflexivity|]. rewrite Hs, Hq. ring.
Qed.

Lemma div_zero q n :
  (q == 0)%Q -> 0 < n -> exists q', div (Fin q) (of_Z n) = Fin q' /\ (q' == 0)%Q.
Proof.
  intros Hq Hn. unfold div, of_Z. rewrite is_zero_of_Z by lia.
  eexists. split; [reflexivity|]. rewrite Hq. unfold Qdiv. ring.
Qed.

Lemma solid_blur :
  3 <= w -> 3 <= h ->
  isZero (variance (detectBlur (solid w h r g b a)))
  /\ isBlurry (detectBlur (solid w h r g b a)) = true.
Proof.
  intros H3w H3h.
  assert (Hc : 0 < blurCount (solid w h r g b a)).
  { apply blurCount_positive. cbn [width height solid]. lia. }
  unfold detectBlur. cbv zeta. change (of_Z 0) with (Fin 0%Q).
  destruct (fold_add_zero _ (laplacian (solid w h r g b a)) (blurSamples (solid w h r g b a))
              solid_laplacian 0%Q)
    as (m & Hm & Em).
  rewrite Hm.
  destruct (div_zero m _ Em Hc) as (m' & Hm' & Em'). rewrite Hm'.
  assert (HV : forall xy, In xy (blurSamples (solid w h r g b a)) ->
                 exists q, mul (sub (laplacian (solid w h r g b a) xy) (Fin m'))
                               (sub (laplacian (solid w h r g b a) xy) (Fin m')) = Fin q
                           /\ (q == 0)%Q).
  { intros xy Hin. destruct (solid_laplacian xy Hin) as (q & -> & Eq).
    eexists. split; [reflexivity|]. rewrite Eq, Em'. ring. }
  destruct (fold_add_zero _ _ _ HV 0%Q) as (v & Hv & Ev).
  rewrite Hv.
  destruct (div_zero v _ Ev Hc) as (v' & Hv' & Ev'). rewrite Hv'.
  cbn [variance isBlurry]. split.
  - exists v'. split; [reflexivity|assumption].
  - unfold lt, of_Z. apply negb_true_iff.
    destruct (Qle_bool (inject_Z 100) v') eqn:E; [|reflexivity].
    apply Qle_bool_iff in E. rewrite Ev' in E. exfalso. revert E. unfold Qle. simpl. lia.
Qed.

End Solid.

Lemma issues_listed imageData :
  let q := analyzeQuality imageData in
  (contrastAdequate (contrast q) = false ->
   overall q = poor /\ In (Some "low contrast"%string) (issueList q))
  /\ (isBlurry (blur q) = true -> In (Some "blurry"%string) (issueList q)).
Proof.
  intros q. subst q. unfold issueList, analyzeQuality, pushIf.
  cbn [issues overall resolution blur brightness contrast textSize].
  remember (checkBrightness imageData) as br eqn:Ebr. clear Ebr.
  destruct (resAdequate _), (isBlurry _), (brightnessAdequate br),
    (contrastAdequate _), (textAdequate _); cbn;
    split; intros H; try discriminate H; repeat split; auto 10.
Qed.

(** X19.  An image of a single colour is never accepted: its contrast is
    zero, so the report is poor and lists low contrast; when the image is at
    least 3 by 3 pixels its blur variance is zero too, and the report lists
    it as blurry. *)
Theorem X19_blank_image (w h r g b a : Z) :
  1 <= w -> 1 <= h -> byte r -> byte g -> byte b ->
  let q := analyzeQuality (solid w h r g b a) in
  overall q = poor
  /\ isZero (contrastValue (contrast q))
  /\ In (Some "low contrast"%string) (issueList q)
  /\ (3 <= w -> 3 <= h ->
      isZero (variance (blur q)) /\ In (Some "blurry"%string) (issueList q)).
Proof.
  intros Hw Hh Hr Hg Hb q.
  assert (C : isZero (contrastValue (checkContrast (solid w h r g b a)))
              /\ contrastAdequate (checkContrast (solid w h r g b a)) = false)
    by (apply solid_contrast; assumption).
  destruct C as [C0 C1].
  destruct (issues_listed (solid w h r g b a)) as [I1 I2]. fold q in I1, I2.
  destruct (I1 C1) as [P L]. split; [exact P|]. split; [exact C0|]. split; [exact L|].
  intros H3w H3h.
  assert (B : isZero (variance (detectBlur (solid w h r g b a)))
              /\ isBlurry (detectBlur (solid w h r g b a)) = true)
    by (apply solid_blur; assumption).
  destruct B as [B0 B1]. split; [exact B0|]. apply I2. exact B1.
Qed.

Lemma X19_blank_image_witness :
  let q := analyzeQuality (solid 4 3 255 255 255 255) in
  overall q = poor
  /\ isZero (contrastValue (contrast q))
  /\ In (Some "low contrast"%string) (issueList q)
  /\ (3 <= 4 -> 3 <= 3 ->
      isZero (variance (blur q)) /\ In (Some "blurry"%string) (issueList q)).
Proof.
  apply (X19_blank_image 4 3 255 255 255 255); unfold byte; lia.
Defined.



End BlankFacts.

(** ** The first form filler *)

Module LegacyFacts.
Import JSString RegExp Patterns TextSpec StringFacts RegExpFacts RegExpSpec RegExpSound.
Import ShapeSpec ShapeFacts ExtractionFacts Legacy LegacySpec.

Lemma capturing_lang ic r : capturing r = true ->
  forall s c, lang ic r s c -> c <> None.
Proof.
  induction r as [|cs|r1 IH1 r2 IH2|r1 IH1 r2 IH2|min max greedy r IH|r IH|];
    simpl; intros Hr s c H; try discriminate Hr.
  - destruct H as (s1 & s2 & c1 & c2 & _ & H1 & H2 & ->).
    apply orb_true_iff in Hr. destruct c2 as [c2|]; [discriminate|]. simpl.
    destruct Hr as [Hr|Hr]; [exact (IH1 Hr _ _ H1)|].
    exfalso. exact (IH2 Hr _ _ H2 eq_refl).
  - apply andb_true_iff in Hr. destruct Hr as [Hr1 Hr2].
    destruct H as [H|H]; [exact (IH1 Hr1 _ _ H)|exact (IH2 Hr2 _ _ H)].
  - destruct H as (c' & _ & ->). discriminate.
Qed.

Lemma firstGroup_taken p cs (P : ascii -> bool) text :
  ignoreCase p = true -> capturing (body p) = true -> groups (body p) = [plus cs] ->
  (forall ch, class_test true cs ch = true -> P ch = true) ->
  taken p P text (firstGroup p text).
Proof.
  intros Hic Hcap Hg HP. unfold taken, firstGroup.
  destruct (exec p text) as [[m0 c]|] eqn:E; [right|left; auto].
  apply exec_sound in E. destruct E as (pre & post & -> & HL).
  destruct c as [c|]; [|exfalso; exact (capturing_lang _ _ Hcap _ _ HL eq_refl)].
  apply lang_group in HL. destruct HL as (Ho & g & c0 & Hin & HL).
  rewrite Hg in Hin. destruct Hin as [<-|[]]. rewrite Hic in HL.
  apply lang_run in HL. destruct HL as (_ & Ha & _ & Hmin).
  split; [discriminate|]. split; [|split].
  - intros ->. specialize (Hmin ltac:(discriminate)). simpl in Hmin. lia.
  - exact (all_chars_impl _ _ c HP Ha).
  - apply occurs_in_app_r. apply occurs_in_app_l. assumption.
Qed.

(** X20.  Each of the four values that [autoFillData] writes is empty when
    its pattern does not match, and otherwise a non-empty piece of the text
    made of the characters of the pattern's group: word characters for the
    bill number, digits, slashes and hyphens for the date, digits and points
    for the GST amount, digits, commas and points for the total.  The date
    is the token as it stands in the text. *)
Theorem X20_autoFillData_values (text : string) :
  let form := autoFillData text in
  taken invoiceNoPattern isWordChar text (billNo form)
  /\ taken datePattern isDateChar text (date form)
  /\ taken gstPattern isDigitDot text (gst form)
  /\ taken totalPattern isDigitCommaDot text (total form).
Proof.
  cbv zeta. unfold autoFillData. cbn [billNo date gst total].
  repeat split;
    (eapply firstGroup_taken; [reflexivity|reflexivity|reflexivity|];
     apply class_within; vm_compute; reflexivity).
Qed.

End LegacyFacts.

(** ** The store of bills *)

Module StorageFacts.
Import JSString StorageModule StorageSpec.

Lemma putRecord_In r l x : In x (putRecord r l) -> x = r \/ In x l.
Proof.
  induction l as [|y l IH]; simpl; [intros [<-|[]]; auto|].
  destruct (key r <? key y)%N; [intros [<-|H]; auto|].
  destruct (key r =? key y)%N; [intros [<-|H]; auto|].
  intros [<-|H]; [auto|]. destruct (IH H); auto.
Qed.

Lemma putRecord_has r l : In r (putRecord r l).
Proof.
  induction l as [|y l IH]; simpl; [auto|].
  destruct (key r <? key y)%N; [left; reflexivity|].
  destruct (key r =? key y)%N; [left; reflexivity|]. right. assumption.
Qed.

(** The records that [put] keeps: all but the one of the same key. *)
Lemma putRecord_keeps r l x :
  StronglySorted byKey l -> In x l -> key x <> key r -> In x (putRecord r l).
Proof.
  induction l as [|y l IH]; simpl; intros Hs Hx Hk; [destruct Hx|].
  inversion Hs as [|? ? Hs' Hy]; subst.
  destruct (key r <? key y)%N; [right; exact Hx|].
  destruct (key r =? key y)%N eqn:E.
  - apply N.eqb_eq in E. destruct Hx as [<-|Hx]; [congruence|right; assumption].
  - destruct Hx as [<-|Hx]; [left; reflexivity|right; auto].
Qed.

Lemma putRecord_drops r l x :
  StronglySorted byKey l -> In x (putRecord r l) -> x = r \/ (In x l /\ key x <> key r).
Proof.
  induction l as [|y l IH]; simpl; intros Hs Hx; [destruct Hx as [<-|[]]; auto|].
  inversion Hs as [|? ? Hs' Hy]; subst. rewrite List.Forall_forall in Hy.
  destruct (key r <? key y)%N eqn:L.
  - apply N.ltb_lt in L. destruct Hx as [<-|[<-|Hx]]; [auto| |].
    + right. split; [auto|]. lia.
    + right. split; [auto|]. specialize (Hy x Hx). unfold byKey in Hy. lia.
  - apply N.ltb_ge in L. destruct (key r =? key y)%N eqn:E.
    + apply N.eqb_eq in E. destruct Hx as [<-|Hx]; [auto|].
      right. split; [auto|]. specialize (Hy x Hx). unfold byKey in Hy. lia.
    + apply N.eqb_neq in E. destruct Hx as [<-|Hx]; [right; split; auto|].
      destruct (IH Hs' Hx) as [Q|[Q1 Q2]]; auto.
Qed.

Lemma putRecord_sorted r l : StronglySorted byKey l -> StronglySorted byKey (putRecord r l).
Proof.
  induction l as [|y l IH]; simpl; intros Hs; [repeat constructor|].
  inversion Hs as [|? ? Hs' Hy]; subst.
  destruct (key r <? key y)%N eqn:L.
  - apply N.ltb_lt in L. constructor; [assumption|]. constructor; [exact L|].
    rewrite List.Forall_forall in *. intros x Hx. specialize (Hy x Hx).
    unfold byKey in *. lia.
  - apply N.ltb_ge in L. destruct (key r =? key y)%N eqn:E.
    + apply N.eqb_eq in E. constructor; [assumption|].
      rewrite List.Forall_forall in *. intros x Hx. specialize (Hy x Hx).
      unfold byKey in *. lia.
    + apply N.eqb_neq in E. constructor; [auto|].
      rewrite List.Forall_forall in *. intros x Hx.
      apply putRecord_In in Hx. destruct Hx as [->|Hx]; [unfold byKey; lia|auto].
Qed.

Lemma putRecord_last r l :
  Forall (fun x => (key x < key r)%N) l -> putRecord r l = (l ++ [r])%list.
Proof.
  induction 1 as [|y l Hy _ IH]; simpl; [reflexivity|].
  destruct (key r <? key y)%N eqn:L; [apply N.ltb_lt in L; lia|].
  destruct (key r =? key y)%N eqn:E; [apply N.eqb_eq in E; lia|].
  rewrite IH. reflexivity.
Qed.

Lemma NoDup_by (A B : Type) (f : A -> B) (l : list A) :
  NoDup l -> (forall x y, In x l -> In y l -> f x = f y -> x = y) -> NoDup (map f l).
Proof.
  induction 1 as [|x l Hx Hl IH]; simpl; intros Hinj; constructor.
  - intros Hin. apply list_elem_of_In, in_map_iff in Hin. destruct Hin as (y & Hy & Hin).
    assert (y = x) by (apply Hinj; auto). subst y.
    apply Hx. apply list_elem_of_In. assumption.
  - apply IH. intros a b Ha Hb. apply Hinj; auto.
Qed.

Lemma sorted_NoDup l : StronglySorted byKey l -> NoDup l.
Proof.
  induction 1 as [|x l Hs IH Hx]; constructor; [|assumption].
  intros Hin. apply list_elem_of_In in Hin. rewrite List.Forall_forall in Hx.
  specialize (Hx x Hin). unfold byKey in Hx. lia.
Qed.

Lemma NoDup_map_inj (l : list Bill) x y :
  NoDup (map recBillNo l) -> In x l -> In y l -> recBillNo x = recBillNo y -> x = y.
Proof.
  induction l as [|z l IH]; simpl; intros Hnd Hx Hy E; [destruct Hx|].
  inversion Hnd as [|? ? Hz Hnd']; subst.
  assert (Q : forall w, In w l -> recBillNo w <> recBillNo z).
  { intros w Hw Ew. apply Hz. apply list_elem_of_In. rewrite <- Ew.
    apply in_map. assumption. }
  destruct Hx as [<-|Hx], Hy as [<-|Hy]; auto.
  - exfalso. apply (Q y Hy). congruence.
  - exfalso. apply (Q x Hx). congruence.
Qed.

Lemma find_billNo b l :
  match List.find (fun r => String.eqb (recBillNo r) b) l with
  | Some e => In e l /\ recBillNo e = b
  | None => forall x, In x l -> recBillNo x <> b
  end.
Proof.
  destruct (List.find _ l) as [e|] eqn:E.
  - apply find_some in E. destruct E as [H1 H2]. apply String.eqb_eq in H2. auto.
  - intros x Hx Q. pose proof (find_none _ _ E x Hx) as N. simpl in N.
    rewrite Q, String.eqb_refl in N. discriminate N.
Qed.

(** *** The store stays consistent *)

Lemma saveBill_record now image billData db k db' :
  saveBill now image billData db = inr (k, db') ->
  exists r,
    records db' = putRecord r (records db)
    /\ key r = k /\ recBillNo r = billNo billData
    /\ recDate r = date billData /\ recCustomer r = customer billData
    /\ recGst r = gst billData /\ recTotal r = total billData
    /\ k = match id billData with Some i => i | None => keyGenerator db end
    /\ keyGenerator db' = (if (keyGenerator db <=? k)%N then (k + 1)%N else keyGenerator db)
    /\ (forall e, In e (records db) -> recBillNo e = billNo billData ->
        NoDup (map recBillNo (records db)) -> key e = k).
Proof.
  unfold saveBill. cbv zeta.
  pose proof (find_billNo (billNo billData) (records db)) as F.
  unfold findByBillNo.
  destruct (List.find _ (records db)) as [e|] eqn:E.
  - destruct F as [He Hb].
    destruct (id billData) as [i|] eqn:I; [|discriminate].
    destruct (key e =? i)%N eqn:K; [|discriminate]. cbn [negb].
    intros H. inversion H; subst. eexists. repeat split.
    intros e' He' Hb' Hnd. apply N.eqb_eq in K. rewrite <- K. f_equal.
    apply (NoDup_map_inj (records db)); auto. congruence.
  - intros H. inversion H; subst. eexists. repeat split.
    intros e' He' Hb' _. exfalso. exact (F e' He' Hb').
Qed.

Lemma saveBill_consistent now image billData db k db' :
  consistent db -> saveBill now image billData db = inr (k, db') -> consistent db'.
Proof.
  intros (Hs & Hg & Hn) H. apply saveBill_record in H.
  destruct H as (r & Hr & Hk & Hb & _ & _ & _ & _ & _ & Hgen & Hsame).
  unfold consistent. rewrite Hr, Hgen. split; [apply putRecord_sorted; assumption|]. split.
  - apply List.Forall_forall. intros x Hx. apply putRecord_In in Hx.
    rewrite List.Forall_forall in Hg.
    destruct Hx as [->|Hx]; [rewrite Hk|specialize (Hg x Hx)];
      destruct (keyGenerator db <=? k)%N eqn:L;
      try apply N.leb_le in L; try apply N.leb_gt in L; lia.
  - apply NoDup_by; [apply sorted_NoDup, putRecord_sorted; assumption|].
    intros x y Hx Hy E.
    apply (putRecord_drops r _ _ Hs) in Hx. apply (putRecord_drops r _ _ Hs) in Hy.
    destruct Hx as [->|[Hx Kx]], Hy as [->|[Hy Ky]].
    + reflexivity.
    + exfalso. apply Ky. rewrite Hk. apply Hsame; [assumption|congruence|assumption].
    + exfalso. apply Kx. rewrite Hk. apply Hsame; [assumption|congruence|assumption].
    + apply (NoDup_map_inj (records db)); assumption.
Qed.

Lemma filter_sorted (p : Bill -> bool) l :
  StronglySorted byKey l -> StronglySorted byKey (List.filter p l).
Proof.
  induction 1 as [|x l Hs IH Hx]; simpl; [constructor|].
  destruct (p x); [|assumption]. constructor; [assumption|].
  rewrite List.Forall_forall in *. intros y Hy. apply filter_In in Hy. apply Hx. tauto.
Qed.

Lemma deleteBill_consistent i db : consistent db -> consistent (deleteBill i db).
Proof.
  intros (Hs & Hg & Hn). unfold consistent, deleteBill. cbn [records keyGenerator].
  split; [apply filter_sorted; assumption|]. split.
  - rewrite List.Forall_forall in *. intros x Hx. apply filter_In in Hx. apply Hg. tauto.
  - apply NoDup_by; [apply sorted_NoDup, filter_sorted; assumption|].
    intros x y Hx Hy. apply filter_In in Hx, Hy.
    apply (NoDup_map_inj (records db)); tauto.
Qed.

Lemma created_consistent : consistent created.
Proof. unfold consistent, created. simpl. repeat constructor. Qed.

Lemma perform_consistent db c : consistent db -> consistent (perform db c).
Proof.
  intros H. destruct c as [now image billData|i]; simpl.
  - destruct (saveBill now image billData db) as [e|[k db']] eqn:E; [assumption|].
    exact (saveBill_consistent _ _ _ _ _ _ H E).
  - apply deleteBill_consistent. assumption.
Qed.

Lemma after_consistent calls : consistent (after calls).
Proof.
  unfold after. generalize created_consistent. generalize created.
  induction calls as [|c calls IH]; intros db H; simpl; [assumption|].
  apply IH. apply perform_consistent. assumption.
Qed.

(** X21.  Whatever saves and deletions were made on a newly created store,
    no two of its bills have the same bill number; its records stand in
    ascending order of their keys, and every key is below the number that the
    key generator gives out next. *)
Theorem X21_bill_numbers_unique (calls : list call) :
  let db := after calls in
  NoDup (map recBillNo (getAllBills db))
  /\ StronglySorted byKey (getAllBills db)
  /\ Forall (fun r => (key r < keyGenerator db)%N) (getAllBills db).
Proof.
  cbv zeta. destruct (after_consistent calls) as (Hs & Hg & Hn). auto.
Qed.

Lemma find_unique b l r :
  NoDup (map recBillNo l) -> In r l -> recBillNo r = b ->
  List.find (fun x => String.eqb (recBillNo x) b) l = Some r.
Proof.
  intros Hn Hr Hb. pose proof (find_billNo b l) as F.
  destruct (List.find _ l) as [e|].
  - destruct F as [He Eb]. f_equal. apply (NoDup_map_inj l); auto. congruence.
  - exfalso. exact (F r Hr Hb).
Qed.

(** X22.  A save that succeeds on such a store stores the bill under the
    key it returns: the bill is the one found under its number, with the
    date, customer and amounts given; every bill with another key is still
    in the store; and a bill saved without an id gets the next key of the
    generator and stands last. *)
Theorem X22_saved_bill_is_found (calls : list call) (now : string)
    (image : option string) (billData : BillData) (k : N) (db' : ObjectStore) :
  saveBill now image billData (after calls) = inr (k, db') ->
  exists r,
    findByBillNo (billNo billData) db' = Some r
    /\ key r = k
    /\ recDate r = date billData /\ recCustomer r = customer billData
    /\ recGst r = gst billData /\ recTotal r = total billData
    /\ (forall x, In x (getAllBills (after calls)) -> key x <> k -> In x (getAllBills db'))
    /\ (id billData = None ->
        k = keyGenerator (after calls)
        /\ getAllBills db' = (getAllBills (after calls) ++ [r])%list).
Proof.
  intros H. pose proof (after_consistent calls) as C.
  pose proof (saveBill_consistent _ _ _ _ _ _ C H) as (_ & _ & Hn').
  destruct C as (Hs & Hg & Hn).
  apply saveBill_record in H.
  destruct H as (r & Hr & Hk & Hb & Hd & Hc & Hgst & Ht & Hkey & _ & _).
  exists r. unfold getAllBills, findByBillNo. rewrite Hr in *.
  split; [apply find_unique; [assumption|apply putRecord_has|assumption]|].
  repeat (split; [assumption|]). split.
  - intros x Hx Kx. apply putRecord_keeps; [assumption|assumption|congruence].
  - intros I. rewrite I in Hkey. split; [assumption|].
    apply putRecord_last. rewrite Hk, Hkey. exact Hg.
Qed.

Lemma X22_saved_bill_is_found_witness :
  let billData := mkBillData None "INV-7" "2024-02-01" "Acme" (S754_zero false)
                    (S754_zero false) None None in
  let stored := {| records := [mkBill 1 "INV-7" "2024-02-01" "Acme" (S754_zero false)
                                 (S754_zero false) "now" false None];
                   keyGenerator := 2 |} in
  saveBill "now" None billData (after []) = inr (1%N, stored)
  /\ exists r, findByBillNo "INV-7" stored = Some r /\ key r = 1%N.
Proof.
  cbv zeta. split; [reflexivity|].
  destruct (X22_saved_bill_is_found [] "now" None
              (mkBillData None "INV-7" "2024-02-01" "Acme" (S754_zero false)
                 (S754_zero false) None None)
              1%N
              {| records := [mkBill 1 "INV-7" "2024-02-01" "Acme" (S754_zero false)
                               (S754_zero false) "now" false None];
                 keyGenerator := 2 |} eq_refl) as (r & H1 & H2 & _).
  exists r. split; assumption.
Defined.

Lemma saveBill_rejected now image billData db :
  consistent db ->
  saveBill now image billData db = inl BillNumberExists
  <-> exists e, In e (records db) /\ recBillNo e = billNo billData
                /\ id billData <> Some (key e).
Proof.
  intros (_ & _ & Hn). unfold saveBill, findByBillNo. cbv zeta.
  pose proof (find_billNo (billNo billData) (records db)) as F.
  destruct (List.find _ (records db)) as [e|] eqn:E.
  - destruct F as [He Hb]. split.
    + intros H. exists e. split; [assumption|]. split; [assumption|].
      destruct (id billData) as [i|]; [|discriminate].
      destruct (key e =? i)%N eqn:K; [discriminate H|].
      apply N.eqb_neq in K. congruence.
    + intros (e' & He' & Hb' & Hi).
      assert (e' = e) by (apply (NoDup_map_inj (records db)); auto; congruence).
      subst e'. destruct (id billData) as [i|]; [|reflexivity].
      destruct (key e =? i)%N eqn:K; [|reflexivity].
      apply N.eqb_eq in K. congruence.
  - split; [discriminate|]. intros (e' & He' & Hb' & _). exfalso. exact (F e' He' Hb').
Qed.

(** X23.  On such a store a save is refused exactly when a bill with
    another key already has the bill number; for a bill saved without an id,
    that is exactly when [checkDuplicateBillNo] reports a duplicate, so a
    save that follows a negative check goes through. *)
Theorem X23_duplicate_check (calls : list call) (now : string)
    (image : option string) (billData : BillData) :
  let db := after calls in
  (saveBill now image billData db = inl BillNumberExists
   <-> exists e, In e (getAllBills db) /\ recBillNo e = billNo billData
                 /\ id billData <> Some (key e))
  /\ (id billData = None ->
      (ValidationModule.checkDuplicateBillNo (billNo billData) None db = true
       <-> saveBill now image billData db = inl BillNumberExists)
      /\ (ValidationModule.checkDuplicateBillNo (billNo billData) None db = false
          <-> exists k db', saveBill now image billData db = inr (k, db'))).
Proof.
  cbv zeta. split; [apply saveBill_rejected, after_consistent|].
  intros I. unfold ValidationModule.checkDuplicateBillNo, saveBill. cbv zeta. rewrite I.
  destruct (findByBillNo (billNo billData) (after calls)) as [e|]; cbn.
  - split; [tauto|]. split; [discriminate|]. intros (k & db' & H). discriminate H.
  - split; [split; discriminate|]. split; [eauto|reflexivity].
Qed.

Lemma find_filter b (p : Bill -> bool) l r :
  NoDup (map recBillNo l) ->
  List.find (fun x => String.eqb (recBillNo x) b) l = Some r ->
  List.find (fun x => String.eqb (recBillNo x) b) (List.filter p l)
  = if p r then Some r else None.
Proof.
  intros Hn H. pose proof (find_billNo b l) as F. rewrite H in F. destruct F as [Hr Hb].
  pose proof (find_billNo b (List.filter p l)) as G.
  destruct (List.find _ (List.filter p l)) as [e|].
  - destruct G as [He Eb]. apply filter_In in He. destruct He as [He Pe].
    assert (e = r) by (apply (NoDup_map_inj l); auto; congruence). subst e.
    rewrite Pe. reflexivity.
  - destruct (p r) eqn:P; [|reflexivity]. exfalso. apply (G r); [|assumption].
    apply filter_In. auto.
Qed.

(** X24.  Deleting the bill found under a number leaves no bill under that
    number, so the number can be saved again; every bill found under
    another number is still found under it. *)
Theorem X24_deleted_bill (calls : list call) (b : string) (r : Bill) :
  findByBillNo b (after calls) = Some r ->
  let db' := deleteBill (key r) (after calls) in
  findByBillNo b db' = None
  /\ (forall now image billData, billNo billData = b ->
      exists k db'', saveBill now image billData db' = inr (k, db''))
  /\ (forall b' r', b' <> b -> findByBillNo b' (after calls) = Some r' ->
      findByBillNo b' db' = Some r').
Proof.
  intros H db'. destruct (after_consistent calls) as (Hs & _ & Hn).
  assert (D : findByBillNo b db' = None).
  { unfold db', findByBillNo, deleteBill. cbn [records].
    rewrite (find_filter b _ _ r Hn H), N.eqb_refl. reflexivity. }
  split; [exact D|]. split.
  - intros now image billData <-. unfold saveBill. cbv zeta. rewrite D. eauto.
  - intros b' r' Nb H'. unfold db', findByBillNo, deleteBill. cbn [records].
    rewrite (find_filter b' _ _ r' Hn H').
    destruct (key r' =? key r)%N eqn:K; [|reflexivity].
    exfalso. apply N.eqb_eq in K.
    pose proof (find_billNo b (records (after calls))) as F.
    pose proof (find_billNo b' (records (after calls))) as F'.
    unfold findByBillNo in H, H'. rewrite H in F. rewrite H' in F'.
    destruct F as [F1 F2], F' as [F1' F2'].
    assert (r' = r).
    { pose proof (sorted_NoDup _ Hs) as Hnd.
      clear - Hs F1 F1' K. induction Hs as [|x l Hs IH Hx]; [destruct F1|].
      rewrite List.Forall_forall in Hx. unfold byKey in Hx.
      destruct F1 as [<-|F1], F1' as [<-|F1']; auto.
      - specialize (Hx r' F1'). lia.
      - specialize (Hx r F1). lia. }
    congruence.
Qed.

Lemma X24_deleted_bill_witness :
  let calls := [Save "now" None
                  (mkBillData None "INV-7" "2024-02-01" "Acme" (S754_zero false)
                     (S754_zero false) None None)] in
  let r := mkBill 1 "INV-7" "2024-02-01" "Acme" (S754_zero false) (S754_zero false)
             "now" false None in
  findByBillNo "INV-7" (deleteBill (key r) (after calls)) = None.
Proof.
  exact (proj1 (X24_deleted_bill
                  [Save "now" None
                     (mkBillData None "INV-7" "2024-02-01" "Acme" (S754_zero false)
                        (S754_zero false) None None)]
                  "INV-7"
                  (mkBill 1 "INV-7" "2024-02-01" "Acme" (S754_zero false) (S754_zero false)
                     "now" false None)
                  eq_refl)).
Defined.

End StorageFacts.

(** ** The confidence indicator *)

Module IndicatorFacts.
Import ConfidenceModule ConfidenceSpec ConfidenceFacts SummarySpec SummaryFacts OverallFacts.
Import UIModule IndicatorSpec.
Local Open Scope Q_scope.

Lemma round_ge (q : Q) (z : Z) : inject_Z z <= q -> (z <= round q)%Z.
Proof.
  intros H. unfold round.
  assert (L : (Qfloor (inject_Z z) <= Qfloor (q + (1 # 2)))%Z)
    by (apply Qfloor_resp_le; lra).
  rewrite Qfloor_Z in L. exact L.
Qed.

Lemma round_inject (z : Z) : round (inject_Z z) = z.
Proof.
  unfold round.
  pose proof (Qfloor_le (inject_Z z + (1 # 2))) as Hlo.
  pose proof (Qlt_floor (inject_Z z + (1 # 2))) as Hhi.
  set (f := Qfloor (inject_Z z + (1 # 2))) in *.
  rewrite inject_Z_plus in Hhi. change (inject_Z 1) with 1 in Hhi.
  assert (A : inject_Z f < inject_Z z + 1) by lra.
  assert (B : inject_Z z < inject_Z f + 1) by lra.
  unfold Qlt, Qplus, inject_Z in A, B. simpl in A, B. lia.
Qed.

Lemma settled_assign k c v (t : ConfidenceObject.fieldConfidences) :
  Forall settled t -> Forall settled (ConfidenceObject.setFieldConfidence k c v t).
Proof.
  unfold ConfidenceObject.setFieldConfidence.
  set (e := {| confidence := _ |}).
  assert (He : settled (k, e)).
  { unfold settled, e. cbn [snd needsReview confidence]. intros H.
    assert (Hc : 7 # 10 <= c).
    { apply Qnot_lt_le. intros L. apply lt_iff in L. congruence. }
    assert (Hz : (70 <= round (c * 100))%Z)
      by (apply round_ge; change (inject_Z 70) with 70; lra).
    set (z := round (c * 100)) in *. clearbody z.
    unfold Qdiv, Qmult, Qle, inject_Z. simpl. lia. }
  clearbody e. induction t as [|[k' e'] t IH]; intros Ht; simpl.
  - constructor; [exact He|constructor].
  - inversion Ht as [|? ? H1 H2]; subst.
    destruct (decide (k' = k)) as [->|N]; constructor; auto.
Qed.

Lemma settled_fold rs : forall t,
  Forall settled t -> Forall settled (fold_left record rs t).
Proof.
  induction rs as [|r rs IH]; intros t Ht; simpl; [assumption|].
  apply IH. apply settled_assign. assumption.
Qed.

Lemma settled_history rs : Forall settled (history rs).
Proof. apply settled_fold. constructor. Qed.

Lemma sum_at_least (qs : list Q) :
  Forall (fun q => 7 # 10 <= q) qs ->
  (7 # 10) * inject_Z (Z.of_nat (List.length qs)) <= fold_right Qplus 0 qs.
Proof.
  induction 1 as [|q qs Hq _ IH]; simpl List.length; simpl fold_right.
  - unfold Qle. simpl. lia.
  - rewrite Nat2Z.inj_succ, <- Z.add_1_l, inject_Z_plus. change (inject_Z 1) with 1. lra.
Qed.

(** X25.  When the summary of the table asks for no review, the indicator
    that [showOCRResults] shows is at 70 per cent or more, its badge is the
    high one, and neither the list of low-confidence fields nor the
    poor-data warning is shown.  For the empty table the indicator is at 0
    per cent with the low badge and the poor-data warning. *)
Theorem X25_indicator (rs : list recording) :
  let summary := ConfidenceObject.getOverallConfidence (history rs) in
  let shown := showOCRResults (history rs) in
  (rs <> [] -> ConfidenceObject.needsReview summary = false ->
   (70 <= confidencePercent shown)%Z /\ badge shown = badgeHigh
   /\ lowConfidenceWarning shown = false /\ poorDataWarning shown = false)
  /\ (rs = [] ->
      confidencePercent shown = 0%Z /\ badge shown = badgeLow
      /\ lowConfidenceWarning shown = false /\ poorDataWarning shown = true).
Proof.
  cbv zeta. split; [|intros ->; repeat split].
  intros Hne Hrev. unfold showOCRResults. cbv zeta.
  cbn [confidencePercent badge lowConfidenceWarning poorDataWarning].
  revert Hrev. unfold ConfidenceObject.getOverallConfidence. rewrite keys_history.
  destruct (loop_fold (history rs) 0 []) as [Htot Hlow]. cbn [app] in Hlow.
  destruct (fold_left ConfidenceObject.visit (history rs) (0, [])) as [tot low].
  cbn [fst snd] in Htot, Hlow.
  destruct (List.length (firsts [] (map fieldOf rs)) =? 0)%nat eqn:E.
  { apply Nat.eqb_eq, length_zero_iff_nil, firsts_nil, map_eq_nil in E. contradiction. }
  apply Nat.eqb_neq in E.
  cbn [ConfidenceObject.needsReview ConfidenceObject.average
       ConfidenceObject.lowConfidenceFields].
  intros Hrev. apply Nat.ltb_ge in Hrev.
  assert (Hnil : low = []) by (destruct low; [reflexivity|simpl in Hrev; lia]).
  assert (Hall : Forall (fun q => 7 # 10 <= q)
                        (map (fun e => confidence (snd e)) (history rs))).
  { apply List.Forall_map. pose proof (settled_history rs) as S.
    rewrite List.Forall_forall in *. intros p Hp. apply (S p Hp).
    destruct (needsReview (snd p)) eqn:R; [|reflexivity]. exfalso.
    assert (Hin : In (fst p) (map fst (List.filter (fun e => needsReview (snd e))
                                                    (history rs)))).
    { apply in_map. apply filter_In. auto. }
    rewrite <- Hlow, Hnil in Hin. destruct Hin. }
  pose proof (sum_at_least _ Hall) as S. rewrite List.length_map in S.
  rewrite <- (List.length_map fst), keys_history in S.
  rewrite Qplus_0_l in Htot. rewrite <- Htot in S.
  set (n := List.length (firsts [] (map fieldOf rs))) in *.
  assert (Hn : 0 < inject_Z (Z.of_nat n)) by (unfold Qlt, inject_Z; simpl; lia).
  assert (Havg : 7 # 10 <= tot / inject_Z (Z.of_nat n)).
  { apply Qle_shift_div_l; assumption. }
  set (avg := tot / inject_Z (Z.of_nat n)) in *.
  assert (Hz : (70 <= round (avg * 100))%Z)
    by (apply round_ge; change (inject_Z 70) with 70; lra).
  assert (Hp : round (inject_Z (round (avg * 100)) / 100 * 100) = round (avg * 100)).
  { rewrite <- (round_inject (round (avg * 100))) at 2. unfold round at 1 3.
    apply Qfloor_comp. field. }
  rewrite Hp, Hnil. clear Hp.
  destruct (70 <=? round (avg * 100))%Z eqn:L; [|apply Z.leb_gt in L; lia].
  destruct (round (avg * 100) <? 50)%Z eqn:L'; [apply Z.ltb_lt in L'; lia|].
  repeat split; assumption.
Qed.

End IndicatorFacts.

(** ** The matcher finds every text of the language *)

Module RegExpComplete.
Import JSString RegExp TextSpec RegExpSpec CompleteSpec.
Import StringFacts RegExpFacts RegExpSound ShapeFacts.

Lemma repeat_step fuel m lo max greedy x k :
  repeatMatcher (S fuel) m lo max greedy x k
  = match max with
    | Some O => k x
    | _ =>
        let d : continuation := fun y =>
          if (lo =? 0)%nat && (String.length (rest y) =? String.length (rest x))%nat
          then None
          else repeatMatcher fuel m (Nat.pred lo) (option_map Nat.pred max) greedy y k in
        if negb (lo =? 0)%nat then m x d
        else if greedy then
          match m x d with Some z => Some z | None => k x end
        else
          match k x with Some z => Some z | None => m x d end
    end.
Proof. reflexivity. Qed.

Section Complete.
Variable ic : bool.

(** A run of characters of the class within the bounds of the quantifier. *)
Lemma repeat_complete cs greedy k s : forall fuel lo max x post,
  rest x = s ++ post ->
  all_chars (class_test ic cs) s = true ->
  lo <= String.length s ->
  (forall M, max = Some M -> String.length s <= M) ->
  String.length s < fuel ->
  k (MState post (cap x)) <> None ->
  repeatMatcher fuel (rmatch ic (Class cs)) lo max greedy x k <> None.
Proof.
  induction s as [|ch s IH]; intros fuel lo max x post Hx Ha Hlo Hmax Hfuel Hk;
    (destruct fuel as [|fuel]; [simpl in Hfuel; lia|]); rewrite repeat_step.
  - rewrite append_nil_l in Hx.
    assert (Ex : MState post (cap x) = x) by (destruct x; simpl in *; congruence).
    rewrite Ex in Hk. simpl in Hlo. assert (lo = 0) as -> by lia. cbv zeta.
    cbn [Nat.eqb negb andb].
    destruct max as [[|M]|]; [exact Hk| |]; destruct greedy;
      try (destruct (rmatch ic (Class cs) x _); [discriminate|exact Hk]);
      (destruct (k x); [discriminate|contradiction]).
  - rewrite append_cons in Hx. cbn [all_chars] in Ha. apply andb_true_iff in Ha.
    destruct Ha as [Hch Ha]. cbn [String.length] in Hlo, Hmax, Hfuel.
    assert (D : forall max', option_map Nat.pred max = max' ->
              rmatch ic (Class cs) x
                (fun y =>
                   if (lo =? 0)%nat && (String.length (rest y) =? String.length (rest x))%nat
                   then None
                   else repeatMatcher fuel (rmatch ic (Class cs)) (Nat.pred lo) max'
                          greedy y k) <> None).
    { intros max' <-. cbn [rmatch]. rewrite Hx, Hch. cbn [rest cap String.length].
      assert (L : (String.length (s ++ post) =? S (String.length (s ++ post)))%nat = false)
        by (apply Nat.eqb_neq; lia).
      rewrite L, andb_false_r.
      apply (IH fuel (Nat.pred lo) (option_map Nat.pred max)
               (MState (s ++ post) (cap x)) post eq_refl Ha);
        [lia| |lia|exact Hk].
      intros M HM. destruct max as [M0|]; [|discriminate HM]. simpl in HM.
      inversion HM. specialize (Hmax M0 eq_refl). lia. }
    destruct max as [[|M]|]; [specialize (Hmax 0 eq_refl); lia| |]; cbv zeta;
      specialize (D _ eq_refl); cbn [option_map] in D |- *;
      destruct (negb (lo =? 0)%nat); try exact D;
      destruct greedy; destruct (rmatch ic (Class cs) x _); try discriminate;
      try contradiction; destruct (k x); discriminate.
Qed.

Lemma rmatch_complete r : simple r = true -> complete (lang ic r) (rmatch ic r).
Proof.
  induction r as [|cs|r1 IH1 r2 IH2|r1 IH1 r2 IH2|lo max greedy r IH|r IH|];
    intros S x pre post c k Hx HL Hk; simpl in S.
  - destruct HL as [-> ->]. rewrite append_nil_l in Hx. cbn [rmatch].
    assert (Ex : MState post (cap x) = x) by (destruct x; simpl in *; congruence).
    simpl in Hk. rewrite Ex in Hk. exact Hk.
  - destruct HL as (ch & -> & Hch & ->). rewrite append_cons, append_nil_l in Hx.
    cbn [rmatch]. rewrite Hx, Hch. exact Hk.
  - apply andb_true_iff in S. destruct S as [S1 S2].
    destruct HL as (s1 & s2 & c1 & c2 & -> & H1 & H2 & ->).
    rewrite append_assoc in Hx. cbn [rmatch].
    apply (IH1 S1 x s1 (s2 ++ post) c1 _ Hx H1).
    apply (IH2 S2 (MState (s2 ++ post) (later (cap x) c1)) s2 post c2 _ eq_refl H2).
    cbn [cap].
    rewrite later_assoc. exact Hk.
  - apply andb_true_iff in S. destruct S as [S1 S2]. cbn [rmatch].
    destruct HL as [HL|HL].
    + pose proof (IH1 S1 x pre post c k Hx HL Hk) as R.
      destruct (rmatch ic r1 x k); [discriminate|contradiction].
    + destruct (rmatch ic r1 x k); [discriminate|].
      exact (IH2 S2 x pre post c k Hx HL Hk).
  - destruct r as [|cs| | | | |]; try discriminate S.
    apply lang_run in HL. destruct HL as (-> & Ha & Hle & Hge).
    cbn [rmatch]. fold (rmatch ic (Class cs)).
    apply (repeat_complete cs greedy k pre _ lo max x post Hx Ha).
    + apply Hge. intros M ->. apply Nat.leb_le. exact S.
    + exact Hle.
    + rewrite Hx, length_append. lia.
    + exact Hk.
  - destruct HL as (c' & HL & ->). cbn [rmatch].
    apply (IH S x pre post c' _ Hx HL). cbn [rest].
    rewrite (consumed_prefix x (MState post (later (cap x) c')) pre Hx). exact Hk.
  - discriminate S.
Qed.

End Complete.

Lemma matchAt_complete p m post c :
  simple (body p) = true -> lang (ignoreCase p) (body p) m c ->
  matchAt p (m ++ post) <> None.
Proof.
  intros S HL. unfold matchAt.
  pose proof (rmatch_complete (ignoreCase p) (body p) S (MState (m ++ post) None)
                m post c Some eq_refl HL ltac:(discriminate)) as R.
  destruct (rmatch _ _ _ Some); [discriminate|contradiction].
Qed.

(** A pattern matches in every text that holds a text of its language. *)
Lemma exec_complete p text m c :
  simple (body p) = true -> lang (ignoreCase p) (body p) m c ->
  occurs_in m text -> exec p text <> None.
Proof.
  intros S HL (pre & post & ->). induction pre as [|ch pre IH].
  - rewrite append_nil_l. pose proof (matchAt_complete p m post c S HL) as R.
    destruct (m ++ post); simpl; destruct (matchAt p _); try discriminate; contradiction.
  - rewrite append_cons. simpl. destruct (matchAt p _); [discriminate|exact IH].
Qed.

(** A run of characters of a class is a text of the quantifier. *)
Lemma run_lang ic lo max greedy cs s :
  all_chars (class_test ic cs) s = true ->
  lo <= String.length s -> (forall M, max = Some M -> String.length s <= M) ->
  lang ic (Quant lo max greedy (Class cs)) s None.
Proof.
  intros Ha Hlo Hmax.
  assert (P : exists ps : list piece,
            Forall (fun p => lang ic (Class cs) (fst p) (snd p)) ps
            /\ s = joined ps /\ None = lastCapture ps
            /\ List.length ps = String.length s).
  { clear Hlo Hmax. induction s as [|ch s IH].
    - exists []. repeat split. constructor.
    - cbn [all_chars] in Ha. apply andb_true_iff in Ha. destruct Ha as [Hch Ha].
      destruct (IH Ha) as (ps & Hps & Hs & Hc & Hl).
      exists ((String ch "", None) :: ps). split; [|split; [|split]].
      + constructor; [|exact Hps]. exists ch. auto.
      + simpl. rewrite <- Hs. reflexivity.
      + simpl. rewrite <- Hc. reflexivity.
      + simpl. rewrite Hl. reflexivity. }
  destruct P as (ps & Hps & Hs & Hc & Hl). exists ps.
  rewrite Hl. repeat split; auto.
Qed.

End RegExpComplete.

(** ** A text with a digit has a total *)

Module TotalFacts.
Import JSString RegExp Patterns DataExtractionModule TextSpec.
Import RegExpSpec ShapeSpec FieldSpec DigitSpec.
Import StringFacts RegExpFacts ExtractionFacts RegExpSound ShapeFacts FieldFacts.
Import CompleteSpec RegExpComplete.
Import Number.

Local Open Scope Z_scope.

(** *** Rounding never yields [NaN] *)

Lemma shr_1_nonneg mrs : 0 <= shr_m mrs -> 0 <= shr_m (shr_1 mrs).
Proof.
  destruct mrs as [m r s]. simpl. destruct m as [|p|p]; [| |lia].
  - intros _. simpl. lia.
  - intros _. destruct p; simpl; lia.
Qed.

Lemma iter_shr_nonneg p :
  forall mrs, 0 <= shr_m mrs -> 0 <= shr_m (SpecFloat.iter_pos shr_1 p mrs).
Proof.
  induction p as [p IH|p IH|]; intros mrs H; simpl.
  - apply IH, IH, shr_1_nonneg, H.
  - apply IH, IH, H.
  - apply shr_1_nonneg, H.
Qed.

Lemma shr_fexp_nonneg m e l :
  0 <= m -> 0 <= shr_m (fst (shr_fexp prec emax m e l)).
Proof.
  intros H. unfold shr_fexp, shr.
  assert (R : 0 <= shr_m (shr_record_of_loc m l)).
  { destruct l as [|[]]; simpl; exact H. }
  destruct (_ - e) as [|p|p]; simpl; try exact R.
  apply iter_shr_nonneg, R.
Qed.

Lemma round_nearest_even_nonneg m l : 0 <= m -> 0 <= round_nearest_even m l.
Proof.
  intros H. unfold round_nearest_even. destruct l as [|[]]; try lia.
  destruct (Z.even m); lia.
Qed.

Lemma binary_round_aux_number sx m e l :
  0 <= m -> isNaN (binary_round_aux prec emax sx m e l) = false.
Proof.
  intros H. unfold binary_round_aux.
  pose proof (shr_fexp_nonneg m e l H) as H1.
  destruct (shr_fexp prec emax m e l) as [mrs' e'] eqn:E1. simpl in H1.
  pose proof (shr_fexp_nonneg _ e' loc_Exact
                (round_nearest_even_nonneg _ (loc_of_shr_record mrs') H1)) as H2.
  destruct (shr_fexp prec emax (round_nearest_even _ _) e' loc_Exact) as [mrs'' e''] eqn:E2.
  simpl in H2. destruct (shr_m mrs'') as [|p|p]; [reflexivity| |lia].
  destruct (e'' <=? _); reflexivity.
Qed.

Lemma of_decimal_number neg m e10 : 0 <= m -> isNaN (of_decimal neg m e10) = false.
Proof.
  intros H. unfold of_decimal. destruct m as [|p|p]; [reflexivity| |lia].
  destruct (0 <=? e10) eqn:Le.
  - unfold binary_round. destruct (shl_align _ _ _) as [mz ez].
    apply binary_round_aux_number. lia.
  - destruct (SFdiv_core_binary prec emax (Z.pos p) 0 (10 ^ (- e10)) 0) as [[q e] l] eqn:E.
    apply binary_round_aux_number.
    unfold SFdiv_core_binary in E. cbv zeta in E.
    set (m2 := 10 ^ (- e10)) in *.
    set (m' := match _ - _ - _ with 0 => Z.pos p | Z.pos _ => Z.shiftl (Z.pos p) _
                                 | Z.neg _ => 0 end) in E.
    assert (P2 : 0 < m2) by (apply Z.pow_pos_nonneg; lia).
    assert (P' : 0 <= m').
    { subst m'. destruct (_ - _ - _); try lia. apply Z.shiftl_nonneg. lia. }
    pose proof (Z.div_pos m' m2 P' P2) as D. unfold Z.div in D.
    destruct (Z.div_eucl m' m2) as [q' r']. inversion E; subst q. exact D.
Qed.

(** *** [parseFloat] of a numeral *)

Lemma span_digits_digits s : all_chars is_digit (fst (span_digits s)) = true.
Proof.
  induction s as [|c s IH]; simpl; [reflexivity|].
  destruct (is_digit c) eqn:E; [|reflexivity].
  destruct (span_digits s) as [d t]. simpl in *. rewrite E, IH. reflexivity.
Qed.

Lemma span_first_digit c r :
  is_digit c = true -> exists d t, span_digits (String c r) = (String c d, t).
Proof. intros E. simpl. rewrite E. destruct (span_digits r) as [d t]. eauto. Qed.

Lemma digits_value_nonneg s :
  forall acc, 0 <= acc -> all_chars is_digit s = true -> 0 <= digits_value acc s.
Proof.
  induction s as [|c s IH]; intros acc Ha H; simpl; [exact Ha|].
  simpl in H. apply andb_true_iff in H. destruct H as [Hc Hs].
  apply IH; [|exact Hs].
  assert (D : (0 <=? digit_value c) = true).
  { revert c Hc. apply (class_within false is_digit). vm_compute. reflexivity. }
  apply Z.leb_le in D. lia.
Qed.

Lemma numeral_head c r :
  is_digit c = true \/ c = "."%char ->
  is_space c = false /\ split_sign (String c r) = (false, String c r)
  /\ String.prefix "Infinity" (String c r) = false.
Proof.
  intros H.
  assert (E : (is_digit c || Ascii.eqb c ".")%bool = true).
  { destruct H as [H| ->]; [rewrite H|]; reflexivity. }
  clear H. destruct c as [[] [] [] [] [] [] [] []];
    try (vm_compute in E; discriminate E); repeat split; reflexivity.
Qed.

Lemma trimStart_spaces ws t :
  all_chars is_space ws = true -> trimStart (ws ++ t) = trimStart t.
Proof.
  induction ws as [|c ws IH]; [reflexivity|]. simpl.
  rewrite andb_true_iff. intros [Hc Hs]. rewrite Hc. exact (IH Hs).
Qed.

(** The digits after the decimal point, as [parseFloat] takes them. *)
Lemma fraction_part (ip r1 : string) :
  let '(fp, r2) :=
    match r1 with
    | String "." r =>
        let '(fp, r2) := span_digits r in
        if ((ip =? "") && (fp =? ""))%string then ("", r1) else (fp, r2)
    | _ => ("", r1)
    end in
  all_chars is_digit fp = true
  /\ (forall r, r1 = String "." r -> fst (span_digits r) <> "" ->
      fp = fst (span_digits r)).
Proof.
  destruct r1 as [|ch r]; [split; [reflexivity|discriminate]|].
  destruct ch as [[] [] [] [] [] [] [] []];
    try (split; [reflexivity|intros r' H; discriminate H]).
  pose proof (span_digits_digits r) as D.
  destruct (span_digits r) as [fp r2] eqn:S. simpl in D.
  destruct ((ip =? "") && (fp =? ""))%string eqn:C.
  - split; [reflexivity|]. intros r' H N. inversion H; subst r'.
    rewrite S in N. simpl in N. apply andb_true_iff in C. destruct C as [_ C].
    apply String.eqb_eq in C. congruence.
  - split; [exact D|]. intros r' H _. inversion H; subst r'. rewrite S. reflexivity.
Qed.

Lemma parseFloat_numeral ws c r t :
  all_chars is_space ws = true -> is_digit c = true ->
  t = String c r \/ t = String "." (String c r) ->
  isNaN (parseFloat (ws ++ t)) = false.
Proof.
  intros Hws Hc Ht.
  assert (H : exists c' r', t = String c' r' /\ (is_digit c' = true \/ c' = "."%char)).
  { destruct Ht as [->| ->]; eauto. }
  destruct H as (c' & r' & Et & Hc').
  destruct (numeral_head c' r' Hc') as (Hsp & Hsign & Hinf).
  unfold parseFloat. rewrite (trimStart_spaces ws t Hws).
  rewrite Et. cbn [trimStart]. rewrite Hsp, Hsign, Hinf. rewrite <- Et.
  pose proof (span_digits_digits t) as Dip.
  destruct (span_digits t) as [ip r1] eqn:S. simpl in Dip.
  pose proof (fraction_part ip r1) as F.
  destruct (match r1 with String "." r0 => _ | _ => _ end) as [fp r2].
  destruct F as [Dfp F].
  destruct ((ip =? "") && (fp =? ""))%string eqn:C.
  - exfalso. apply andb_true_iff in C. destruct C as [Cip Cfp].
    apply String.eqb_eq in Cip, Cfp.
    destruct (span_first_digit c r Hc) as (d & t' & Sd).
    destruct Ht as [->| ->].
    + rewrite Sd in S. congruence.
    + simpl in S. change (is_digit ".") with false in S. cbv iota in S.
      inversion S; subst ip r1. 
      specialize (F _ eq_refl). rewrite Sd in F. simpl in F.
      rewrite F in Cfp; [discriminate|discriminate].
  - apply of_decimal_number. apply digits_value_nonneg; [lia|].
    rewrite all_chars_app, Dip, Dfp. reflexivity.
Qed.

(** *** The number pattern at a digit *)

Lemma matchAt_digit c r :
  is_digit c = true -> matchAt numberPattern (String c r) <> None.
Proof.
  intros H.
  apply (matchAt_complete numberPattern (String c "") r (Some (String c "")) eq_refl).
  unfold numberPattern. cbn [body ignoreCase amount cat].
  assert (E : forall lo max cs, lo = 0%nat -> lang false (Quant lo max true (Class cs)) "" None).
  { intros lo max cs ->. apply run_lang; [reflexivity|simpl; lia|intros M _; simpl; lia]. }
  exists "", (String c ""), None, (Some (String c "")).
  split; [reflexivity|]. split; [apply E; reflexivity|]. split; [|reflexivity].
  exists "", (String c ""), None, (Some (String c "")).
  split; [reflexivity|]. split; [apply E; reflexivity|]. split; [|reflexivity].
  exists None. split; [|reflexivity].
  exists (String c ""), "", None, None.
  split; [reflexivity|]. split; [|split; [|reflexivity]].
  - apply run_lang; [|simpl; lia|discriminate]. cbn [all_chars].
    change (class_test false digitComma c) with (is_digit c || Ascii.eqb "," c)%bool.
    rewrite H. reflexivity.
  - exists "", "", None, None. split; [reflexivity|]. split; [apply E; reflexivity|].
    split; [apply E; reflexivity|reflexivity].
Qed.

(** *** The matches of the number pattern *)

Lemma some_char_app P a b : some_char P (a ++ b) = (some_char P a || some_char P b)%bool.
Proof.
  induction a as [|c a IH]; [reflexivity|].
  rewrite append_cons. simpl. rewrite IH. apply orb_assoc.
Qed.

Lemma number_text s m0 c :
  matchAt numberPattern s = Some (m0, c) ->
  exists post cur ws a b d,
    s = m0 ++ post /\ m0 = cur ++ ws ++ a ++ b ++ d
    /\ all_chars currency cur = true /\ all_chars is_space ws = true
    /\ a <> "" /\ all_chars digitOrComma a = true
    /\ (b = "" \/ b = ".") /\ digits d.
Proof.
  intros E. apply matchAt_sound in E. destruct E as (post & -> & HL).
  unfold numberPattern in HL. cbn [body ignoreCase amount cat] in HL.
  destruct HL as (cur & r1 & ? & ? & -> & Hcur
                  & (ws & g & ? & ? & -> & Hws & (c' & HL & _) & _) & _).
  apply lang_run in Hcur, Hws. destruct Hcur as (_ & Hcur & _). destruct Hws as (_ & Hws & _).
  apply amount_text in HL. destruct HL as (a & b & d & -> & Hne & Ha & Hb & Hd).
  exists post, cur, ws, a, b, d. repeat split; assumption.
Qed.

Lemma number_found s : forall skip pre post,
  s = pre ++ post -> String.length pre = skip -> some_char is_digit post = true ->
  exists m c, In m (matchAllFrom numberPattern skip s)
              /\ some_char is_digit m = true
              /\ (exists q, matchAt numberPattern q = Some (m, c)).
Proof.
  induction s as [|ch s IH]; intros skip pre post Hs Hl Hd.
  - destruct pre; [|discriminate Hs]. rewrite append_nil_l in Hs. subst post.
    discriminate Hd.
  - destruct pre as [|ch' pre]; simpl in Hl; subst skip.
    + rewrite append_nil_l in Hs. subst post. cbn [matchAllFrom].
      destruct (matchAt numberPattern (String ch s)) as [[m0 c]|] eqn:E.
      * destruct (some_char is_digit m0) eqn:Dm.
        { exists m0, c. split; [left; reflexivity|]. split; [assumption|]. eauto. }
        destruct (number_text _ _ _ E)
          as (post & cur & ws & a & b & d & Hs & Hm & _ & _ & Hne & _).
        destruct m0 as [|ch0 m0].
        { exfalso. destruct cur; [|discriminate Hm]. destruct ws; [|discriminate Hm].
          destruct a; [congruence|discriminate Hm]. }
        rewrite append_cons in Hs. inversion Hs; subst ch0 s.
        cbn [some_char] in Hd, Dm. apply orb_false_iff in Dm. destruct Dm as [D1 D2].
        rewrite D1, some_char_app, D2 in Hd. simpl in Hd.
        destruct (IH (Nat.pred (String.length (String ch m0))) m0 post eq_refl eq_refl Hd)
          as (m & c' & Hin & Hm' & Hq).
        exists m, c'. split; [right; exact Hin|]. auto.
      * simpl in Hd. destruct (is_digit ch) eqn:Dc.
        { exfalso. exact (matchAt_digit ch s Dc E). }
        simpl in Hd. exact (IH 0%nat "" s eq_refl eq_refl Hd).
    + rewrite append_cons in Hs. inversion Hs; subst ch' s. cbn [matchAllFrom].
      exact (IH (String.length pre) pre post eq_refl eq_refl Hd).
Qed.

(** *** The value of a match *)

Lemma remove_chars_every p s : all_chars p s = true -> remove_chars p s = "".
Proof.
  induction s as [|c s IH]; simpl; [reflexivity|].
  rewrite andb_true_iff. intros [Hc Hs]. rewrite Hc. exact (IH Hs).
Qed.

Lemma removed_commas a :
  all_chars digitOrComma a = true ->
  digits (removeCurrencyAndCommas a)
  /\ some_char is_digit (removeCurrencyAndCommas a) = some_char is_digit a.
Proof.
  unfold digits, removeCurrencyAndCommas. induction a as [|c a IH]; [auto|].
  cbn [all_chars remove_chars some_char]. rewrite andb_true_iff. intros [Hc Ha].
  destruct (IH Ha) as [IH1 IH2]. unfold digitOrComma in Hc.
  destruct (is_digit c) eqn:D.
  - assert (E : (Ascii.eqb c rupee || Ascii.eqb c "$" || Ascii.eqb c ",")%bool = false).
    { apply negb_true_iff. clear - D. revert c D. apply (class_within false is_digit).
      vm_compute. reflexivity. }
    rewrite E. cbn [all_chars some_char]. rewrite D, IH1. auto.
  - simpl in Hc. rewrite Hc, orb_true_r. auto.
Qed.

Lemma digits_no_currency d : digits d -> removeCurrencyAndCommas d = d.
Proof.
  intros H. apply remove_chars_none. revert H. apply all_chars_impl.
  apply (class_within false is_digit). vm_compute. reflexivity.
Qed.

Lemma spaces_no_currency ws :
  all_chars is_space ws = true ->
  removeCurrencyAndCommas ws = ws /\ some_char is_digit ws = false.
Proof.
  intros H. split.
  - apply remove_chars_none. revert H. apply all_chars_impl.
    apply (class_within false is_space). vm_compute. reflexivity.
  - induction ws as [|c ws IH]; [reflexivity|]. simpl in H. apply andb_true_iff in H.
    destruct H as [Hc Hs]. simpl. rewrite (IH Hs), orb_false_r.
    apply negb_true_iff. clear - Hc. revert c Hc. apply (class_within false is_space).
    vm_compute. reflexivity.
Qed.

Lemma currency_removed cur :
  all_chars currency cur = true ->
  removeCurrencyAndCommas cur = "" /\ some_char is_digit cur = false.
Proof.
  intros H. split.
  - apply remove_chars_every. revert H. apply all_chars_impl.
    apply (class_within false currency). vm_compute. reflexivity.
  - induction cur as [|c cur IH]; [reflexivity|]. cbn [all_chars] in H.
    apply andb_true_iff in H. destruct H as [Hc Hs]. cbn [some_char].
    rewrite (IH Hs), orb_false_r. apply negb_true_iff. clear - Hc. revert c Hc.
    apply (class_within false currency). vm_compute. reflexivity.
Qed.

Lemma first_digit d :
  digits d -> some_char is_digit d = true -> exists c r, d = String c r /\ is_digit c = true.
Proof.
  destruct d as [|c r]; [discriminate|]. unfold digits. simpl.
  rewrite andb_true_iff. intros [Hc _] _. eauto.
Qed.

Lemma removed_app a b :
  removeCurrencyAndCommas (a ++ b) = removeCurrencyAndCommas a ++ removeCurrencyAndCommas b.
Proof. apply remove_chars_app. Qed.

(** A match of the number pattern that holds a digit is read as a number. *)
Lemma number_value q m c :
  matchAt numberPattern q = Some (m, c) -> some_char is_digit m = true ->
  isNaN (parseFloat (removeCurrencyAndCommas m)) = false.
Proof.
  intros E Hd.
  destruct (number_text _ _ _ E)
    as (post & cur & ws & a & b & d & _ & -> & Hcur & Hws & _ & Ha & Hb & Hdd).
  destruct (currency_removed cur Hcur) as [Rcur Dcur].
  destruct (spaces_no_currency ws Hws) as [Rws Dws].
  destruct (removed_commas a Ha) as [Ra Da].
  assert (Rb : removeCurrencyAndCommas b = b /\ some_char is_digit b = false).
  { destruct Hb as [->| ->]; split; reflexivity. }
  destruct Rb as [Rb Db].
  rewrite !some_char_app, Dcur, Dws, Db, <- Da in Hd. simpl in Hd.
  rewrite !removed_app, Rcur, Rws, Rb, (digits_no_currency d Hdd), append_nil_l.
  set (a' := removeCurrencyAndCommas a) in *.
  destruct (some_char is_digit a') eqn:Ea.
  - destruct (first_digit a' Ra Ea) as (ch & r & -> & Hch).
    apply (parseFloat_numeral ws ch (r ++ b ++ d)); auto.
  - simpl in Hd. destruct (first_digit d Hdd Hd) as (ch & r & -> & Hch).
    assert (a' = "") as ->.
    { destruct a' as [|x a'']; [reflexivity|]. unfold digits in Ra. simpl in Ra, Ea.
      apply andb_true_iff in Ra. destruct Ra as [Rx _]. rewrite Rx in Ea. discriminate Ea. }
    rewrite append_nil_l. apply (parseFloat_numeral ws ch r); [assumption|assumption|].
    destruct Hb as [->| ->]; [left|right]; reflexivity.
Qed.

(** X26.  A text that holds a digit always yields a total: where no label
    introduces one, some number of the text is read as the total. *)
Theorem X26_digit_gives_total (text : string) :
  some_char is_digit text = true ->
  total (extractBillData text) <> "".
Proof.
  intros Hd. unfold extractBillData. cbn [total]. unfold extractTotal.
  destruct (labelledTotal text =? "")%string eqn:L; [|apply String.eqb_neq; exact L].
  destruct (number_found text 0%nat "" text eq_refl eq_refl Hd)
    as (m & c & Hin & Hm & q & Hq).
  pose proof (number_value q m c Hq Hm) as Hv.
  unfold largestNumber, matchAll.
  destruct (matchAllFrom numberPattern 0 text) as [|m1 ms] eqn:M; [destruct Hin|].
  assert (V : In (parseFloat (removeCurrencyAndCommas m)) (numericValues (m1 :: ms))).
  { unfold numericValues. apply filter_In. split.
    - apply (in_map (fun n => parseFloat (removeCurrencyAndCommas n))). exact Hin.
    - rewrite Hv. reflexivity. }
  destruct (numericValues (m1 :: ms)) as [|v vs]; [destruct V|].
  intros Q. pose proof (toString_nonspace (Number.max (v :: vs))) as N.
  rewrite Q in N. discriminate N.
Qed.

Lemma X26_digit_gives_total_witness :
  some_char is_digit "Paid 1,250.50 on account" = true
  /\ total (extractBillData "Paid 1,250.50 on account") <> "".
Proof.
  split; [reflexivity|]. apply (X26_digit_gives_total "Paid 1,250.50 on account").
  reflexivity.
Defined.

End TotalFacts.

(** ** When a date and a bill number are found *)

Module TokenFacts.
Import JSString RegExp Patterns DataExtractionModule TextSpec ExtractionSpec.
Import RegExpSpec ShapeSpec FieldSpec CompleteSpec TokenSpec.
Import StringFacts RegExpFacts ExtractionFacts RegExpSound ShapeFacts FieldFacts.
Import RegExpComplete.

(** *** Patterns that end in their group *)

Lemma seq_capture ic a b s c :
  lang ic (Seq a b) s c ->
  (forall s2 c2, lang ic b s2 c2 -> exists g, c2 = Some g /\ g <> "") ->
  exists g, c = Some g /\ g <> "".
Proof.
  intros (s1 & s2 & c1 & c2 & _ & _ & H2 & ->) Hb.
  destruct (Hb s2 c2 H2) as (g & -> & Hg). exists g. auto.
Qed.

Lemma group_capture ic r s c :
  lang ic (Capture r) s c ->
  (forall s' c', lang ic r s' c' -> s' <> "") ->
  exists g, c = Some g /\ g <> "".
Proof. intros (c' & HL & ->) Hr. exists s. split; [reflexivity|exact (Hr s c' HL)]. Qed.

Lemma run_nonempty ic lo max greedy cs s c :
  1 <= lo -> (forall M, max = Some M -> lo <= M) ->
  lang ic (Quant lo max greedy (Class cs)) s c -> s <> "".
Proof.
  intros Hlo Hmax HL. apply lang_run in HL. destruct HL as (_ & _ & _ & Hge).
  specialize (Hge Hmax). intros ->. simpl in Hge. lia.
Qed.

Lemma dayFirst_nonempty ic a1 b1 a2 b2 a3 b3 s c :
  lang ic (cat [times a1 b1 digit; Class sep; times a2 b2 digit; Class sep;
                times a3 b3 digit]) s c -> s <> "".
Proof.
  cbn [cat]. intros (d1 & r1 & ? & ? & -> & _ & (t1 & r2 & ? & ? & -> & (s1 & -> & _) & _) & _).
  destruct d1; discriminate.
Qed.

(** A match of a date or bill-number pattern always has its group. *)
Lemma group_taken p m0 c :
  In p datePatterns \/ In p billNoPatterns ->
  lang (ignoreCase p) (body p) m0 c -> exists g, c = Some g /\ g <> "".
Proof.
  unfold datePatterns, billNoPatterns. simpl.
  intros [[<-|[<-|[<-|[]]]]|[<-|[<-|[<-|[]]]]]; cbn [body ignoreCase cat]; intros HL;
    repeat (eapply seq_capture; [exact HL|clear HL; intros ? ? HL]);
    (eapply group_capture; [exact HL|clear HL; intros ? ? HL]);
    try (exact (dayFirst_nonempty _ _ _ _ _ _ _ _ _ HL));
    (eapply run_nonempty; [| |exact HL]; [lia|intros M HM; inversion HM; lia]).
Qed.

Lemma captured_complete p text m c :
  In p datePatterns \/ In p billNoPatterns ->
  simple (body p) = true -> lang (ignoreCase p) (body p) m c ->
  occurs_in m text -> captured p text <> None.
Proof.
  intros Hp S HL Ho. pose proof (exec_complete p text m c S HL Ho) as R.
  unfold captured. destruct (exec p text) as [[m0 c0]|] eqn:E; [|contradiction].
  apply exec_sound in E. destruct E as (_ & _ & _ & HL0).
  destruct (group_taken p m0 c0 Hp HL0) as (g & -> & Hg).
  apply String.eqb_neq in Hg. rewrite Hg. discriminate.
Qed.

Lemma firstCapture_complete ps p text :
  In p ps -> captured p text <> None -> firstCapture ps text <> None.
Proof.
  induction ps as [|q ps IH]; [intros []|]. intros [<-|Hp] Hc; simpl.
  - destruct (captured q text); [discriminate|contradiction].
  - destruct (captured q text); [discriminate|]. exact (IH Hp Hc).
Qed.

(** *** Date tokens *)

Lemma digits_run a b s :
  digits s -> a <= String.length s <= b -> lang false (times a b digit) s None.
Proof.
  intros Hd [Ha Hb]. apply run_lang; [exact Hd|exact Ha|].
  intros M HM. inversion HM; subst M. exact Hb.
Qed.

Lemma dateToken_lang a1 b1 a3 b3 t :
  dateToken a1 b1 a3 b3 t ->
  lang false (Capture (cat [times a1 b1 digit; Class sep; times 1 2 digit; Class sep;
                            times a3 b3 digit])) t (Some t).
Proof.
  intros (d1 & s1 & d2 & s2 & d3 & -> & H1 & H2 & H3 & Hs1 & Hs2 & L1 & L2 & L3).
  exists None. split; [|reflexivity]. cbn [cat]. unfold token.
  exists d1, (String s1 (d2 ++ String s2 d3)), None, None.
  split; [reflexivity|]. split; [apply digits_run; assumption|]. split; [|reflexivity].
  exists (String s1 ""), (d2 ++ String s2 d3), None, None.
  split; [reflexivity|]. split; [exists s1; auto|]. split; [|reflexivity].
  exists d2, (String s2 d3), None, None.
  split; [reflexivity|]. split; [apply digits_run; assumption|]. split; [|reflexivity].
  exists (String s2 ""), d3, None, None.
  split; [reflexivity|]. split; [exists s2; auto|]. split; [|reflexivity].
  apply digits_run; assumption.
Qed.

Lemma isoShaped_nonempty s : isoShaped s -> s <> "".
Proof.
  intros (y & m & d & -> & _) E. destruct y; discriminate E.
Qed.

(** X27.  A date is found exactly when the text holds a date token: one or
    two digits, one or two digits and two to four digits, or four digits,
    one or two digits and one or two digits, each time with [/] or [-]
    between them.  The label [Date] plays no part in it. *)
Theorem X27_date_found (text : string) :
  date (extractBillData text) <> ""
  <-> exists t, occurs_in t text /\ (dayFirstToken t \/ yearFirstToken t).
Proof.
  unfold extractBillData. cbn [date].
  destruct (extractDate_shape datePatterns text ltac:(auto)) as [[N E]|[N S]]; split.
  - intros H. contradiction.
  - intros (t & Ho & Ht). exfalso.
    assert (C : exists p, In p datePatterns /\ captured p text <> None).
    { destruct Ht as [Ht|Ht]; apply dateToken_lang in Ht.
      - exists (Pattern (Capture dayFirst) false). split; [simpl; auto|].
        apply (captured_complete _ text t (Some t)); [left; simpl; auto|reflexivity|exact Ht|exact Ho].
      - eexists (Pattern (Capture _) false). split; [simpl; right; right; left; reflexivity|].
        apply (captured_complete _ text t (Some t));
          [left; simpl; auto|reflexivity|exact Ht|exact Ho]. }
    destruct C as (p & Hp & Hc). exact (firstCapture_complete _ p text Hp Hc N).
  - intros _. destruct (firstCapture datePatterns text) as [c|] eqn:E; [|congruence].
    destruct (firstCapture_some _ _ _ E) as (p & Hp & Hc).
    destruct (date_token p text c Hp Hc)
      as (Ho & d1 & s1 & d2 & s2 & d3 & -> & H1 & H2 & H3 & Hs1 & Hs2 & L2 & [[L1 L3]|[L1 L3]]).
    + eexists. split; [exact Ho|]. left. exists d1, s1, d2, s2, d3. repeat split; auto; lia.
    + eexists. split; [exact Ho|]. right. exists d1, s1, d2, s2, d3. repeat split; auto; lia.
  - intros _. exact (isoShaped_nonempty _ S).
Qed.


(** *** The day-first reading comes first *)

Lemma dayFirst_token p text c :
  In p [Pattern (cat [alt (lit "Date") [cat [lit "Date"; opt (chr "d")]];
                      star spaceColon; Capture dayFirst]) true;
        Pattern (Capture dayFirst) false] ->
  captured p text = Some c ->
  occurs_in c text /\ dayFirstToken c.
Proof.
  intros Hp H. apply captured_group in H. destruct H as (_ & Ho & g & c0 & Hg & HL).
  split; [assumption|].
  simpl in Hp. destruct Hp as [<-|[<-|[]]]; simpl in Hg; destruct Hg as [<-|[]];
    apply three_runs in HL; try lia;
    destruct HL as (d1 & s1 & d2 & s2 & d3 & -> & H1 & H2 & H3 & Hs1 & Hs2 & L1 & L2 & L3);
    exists d1, s1, d2, s2, d3; repeat split; try assumption; try lia.
Qed.

Lemma iso_holds_dayFirst t :
  dateToken 4 4 2 2 t -> exists t', occurs_in t' t /\ dayFirstToken t'.
Proof.
  intros (y & s1 & m & s2 & d & -> & Hy & Hm & Hd & Hs1 & Hs2 & Ly & Lm & Ld).
  destruct y as [|a [|b y]]; simpl in Ly; try lia.
  exists (token y s1 m s2 d). split.
  - exists (String a (String b "")), "". unfold token.
    rewrite !append_cons, append_nil_l, !append_assoc, !append_cons, !append_assoc,
            !append_nil_r. reflexivity.
  - exists y, s1, m, s2, d. unfold digits in Hy. simpl in Hy.
    apply andb_true_iff in Hy. destruct Hy as [_ Hy]. apply andb_true_iff in Hy.
    destruct Hy as [_ Hy]. repeat split; auto; lia.
Qed.

Lemma dayFirst_read c :
  dayFirstToken c ->
  exists d1 s1 d2 s2 d3,
    c = token d1 s1 d2 s2 d3
    /\ digits d1 /\ digits d2 /\ digits d3
    /\ 1 <= String.length d1 <= 2 /\ 1 <= String.length d2 <= 2
    /\ 2 <= String.length d3 <= 4
    /\ split_on sep (trim c) = [d1; d2; d3]
    /\ formatDate d1 d2 d3 = isoDate (fullYear d3) (zeroPadded d2) (zeroPadded d1).
Proof.
  intros (d1 & s1 & d2 & s2 & d3 & -> & H1 & H2 & H3 & Hs1 & Hs2 & L1 & L2 & L3).
  exists d1, s1, d2, s2, d3. repeat split; try assumption; try lia.
  - apply token_split; assumption.
  - unfold formatDate. rewrite !padStart_zeroPadded.
    destruct (String.length d1 =? 4)%nat eqn:E; [apply Nat.eqb_eq in E; lia|reflexivity].
Qed.

(** X28.  The day-first patterns are tried first and find their token
    inside a year-first date with a two-digit day.  So whenever the text
    holds a day-first token, or a date of four digits, one or two digits
    and two digits, the date is built day first from a token of the text:
    the year-first reading is left to dates whose day has a single digit. *)
Theorem X28_day_first_precedence (text t : string) :
  occurs_in t text -> dayFirstToken t \/ dateToken 4 4 2 2 t ->
  exists d1 s1 d2 s2 d3,
    occurs_in (token d1 s1 d2 s2 d3) text
    /\ digits d1 /\ digits d2 /\ digits d3
    /\ 1 <= String.length d1 <= 2 /\ 1 <= String.length d2 <= 2
    /\ 2 <= String.length d3 <= 4
    /\ date (extractBillData text) = isoDate (fullYear d3) (zeroPadded d2) (zeroPadded d1).
Proof.
  intros Ho Ht.
  assert (D : exists t', occurs_in t' text /\ dayFirstToken t').
  { destruct Ht as [Ht|Ht]; [eauto|]. destruct (iso_holds_dayFirst t Ht) as (t' & Ho' & Ht').
    exists t'. split; [exact (occurs_in_trans _ _ _ Ho' Ho)|exact Ht']. }
  clear t Ho Ht. destruct D as (t & Ho & Ht).
  pose proof (dateToken_lang _ _ _ _ _ Ht) as HL.
  pose proof (captured_complete (Pattern (Capture dayFirst) false) text t (Some t)
                ltac:(left; simpl; auto) eq_refl HL Ho) as C2.
  unfold extractBillData. cbn [date]. unfold datePatterns.
  set (p1 := Pattern (cat [alt (lit "Date") [cat [lit "Date"; opt (chr "d")]];
                           star spaceColon; Capture dayFirst]) true) in *.
  set (p2 := Pattern (Capture dayFirst) false) in *.
  assert (F : exists c, occurs_in c text /\ dayFirstToken c
                        /\ forall ps, extractDate (p1 :: p2 :: ps) text
                                      = match split_on sep (trim c) with
                                        | [p0; q1; q2] => formatDate p0 q1 q2
                                        | _ => extractDate ps text
                                        end).
  { destruct (captured p1 text) as [c1|] eqn:E1.
    - destruct (dayFirst_token p1 text c1 ltac:(left; reflexivity) E1) as [Ho1 Ht1].
      exists c1. split; [assumption|]. split; [assumption|]. intros ps.
      cbn [extractDate]. rewrite E1.
      destruct (dayFirst_read c1 Ht1) as (? & ? & ? & ? & ? & _ & _ & _ & _ & _ & _ & _ & -> & _).
      reflexivity.
    - destruct (captured p2 text) as [c2|] eqn:E2; [|contradiction].
      destruct (dayFirst_token p2 text c2 ltac:(right; left; reflexivity) E2) as [Ho2 Ht2].
      exists c2. split; [assumption|]. split; [assumption|]. intros ps.
      cbn [extractDate]. rewrite E1, E2. reflexivity. }
  destruct F as (c & Hoc & Htc & ->).
  destruct (dayFirst_read c Htc)
    as (d1 & s1 & d2 & s2 & d3 & -> & H1 & H2 & H3 & L1 & L2 & L3 & -> & ->).
  exists d1, s1, d2, s2, d3. repeat split; try assumption; lia.
Qed.

Lemma X28_day_first_precedence_witness :
  occurs_in "2024-01-15" "Dt 2024-01-15"
  /\ (dayFirstToken "2024-01-15" \/ dateToken 4 4 2 2 "2024-01-15")
  /\ exists d1 s1 d2 s2 d3,
       occurs_in (token d1 s1 d2 s2 d3) "Dt 2024-01-15"
       /\ digits d1 /\ digits d2 /\ digits d3
       /\ 1 <= String.length d1 <= 2 /\ 1 <= String.length d2 <= 2
       /\ 2 <= String.length d3 <= 4
       /\ date (extractBillData "Dt 2024-01-15")
          = isoDate (fullYear d3) (zeroPadded d2) (zeroPadded d1).
Proof.
  assert (Ho : occurs_in "2024-01-15" "Dt 2024-01-15") by (exists "Dt ", ""; reflexivity).
  assert (Ht : dateToken 4 4 2 2 "2024-01-15").
  { exists "2024", "-"%char, "01", "-"%char, "15". repeat split; simpl; lia. }
  split; [exact Ho|]. split; [right; exact Ht|].
  exact (X28_day_first_precedence "Dt 2024-01-15" "2024-01-15" Ho (or_intror Ht)).
Defined.

(** *** Bill-number tokens *)

Lemma class_equal ic cs P :
  forallb (fun ch => Bool.eqb (class_test ic cs ch) (P ch)) alphabet = true ->
  forall ch, class_test ic cs ch = P ch.
Proof.
  intros H ch. apply Bool.eqb_prop.
  exact (for_all_ascii (fun ch => Bool.eqb (class_test ic cs ch) (P ch)) H ch).
Qed.

Lemma all_chars_equal (P Q : ascii -> bool) s :
  (forall ch, P ch = Q ch) -> all_chars P s = all_chars Q s.
Proof.
  intros H. induction s as [|c s IH]; [reflexivity|]. simpl. rewrite H, IH. reflexivity.
Qed.

Lemma labelGap_class ch : class_test true spaceHashColon ch = labelGap ch.
Proof. revert ch. apply class_equal. vm_compute. reflexivity. Qed.

Lemma numberGap_class ch : class_test true dotSpaceHashColon ch = numberGap ch.
Proof. revert ch. apply class_equal. vm_compute. reflexivity. Qed.

Lemma billNoChar_class ch : class_test true billChar ch = billNoChar ch.
Proof. revert ch. apply class_equal. vm_compute. reflexivity. Qed.

(** With the [i] flag a letter of a pattern stands for the characters of
    the same lower-case form. *)
Lemma letter_class k ch :
  class_test true (chr k) ch = Ascii.eqb (downcase ch) (downcase k).
Proof.
  revert ch. apply class_equal. revert k.
  apply (for_all_ascii
           (fun k => forallb (fun ch => Bool.eqb (class_test true (chr k) ch)
                                          (Ascii.eqb (downcase ch) (downcase k)))
                             alphabet)).
  vm_compute. reflexivity.
Qed.

Lemma lit_lang w : forall s c,
  lang true (lit w) s c <-> c = None /\ toLowerCase s = toLowerCase w.
Proof.
  induction w as [|k w IH]; intros s c; cbn [lit lang toLowerCase].
  - split.
    + intros [-> ->]. auto.
    + intros [-> H]. destruct s; [auto|discriminate H].
  - split.
    + intros (s1 & s2 & c1 & c2 & -> & (ch & -> & Hch & ->) & H2 & ->).
      apply IH in H2. destruct H2 as [-> H2]. split; [reflexivity|].
      rewrite letter_class in Hch. apply Ascii.eqb_eq in Hch.
      rewrite append_cons, append_nil_l. cbn [toLowerCase]. rewrite Hch, H2. reflexivity.
    + intros [-> H]. destruct s as [|ch s]; [discriminate H|].
      cbn [toLowerCase] in H. inversion H as [[Hch Hs]].
      exists (String ch ""), s, None, None. split; [reflexivity|].
      split; [|split; [apply IH; auto|reflexivity]].
      exists ch. split; [reflexivity|]. split; [|reflexivity].
      rewrite letter_class, Hch. apply Ascii.eqb_refl.
Qed.

Lemma numberToken_lang t :
  numberToken t ->
  exists g, lang true (cat [lit "No"; star dotSpaceHashColon; Capture (plus billChar)])
                 t (Some g).
Proof.
  intros (l & gap & c & -> & Hl & Hg & Hc). exists (String c ""). cbn [cat].
  exists l, (gap ++ String c ""), None, (Some (String c "")).
  split; [reflexivity|]. split; [apply lit_lang; auto|]. split; [|reflexivity].
  exists gap, (String c ""), None, (Some (String c "")).
  split; [reflexivity|]. split; [|split; [|reflexivity]].
  - apply run_lang; [|lia|discriminate].
    rewrite (all_chars_equal _ _ gap numberGap_class). exact Hg.
  - exists None. split; [|reflexivity]. apply run_lang; [|simpl; lia|discriminate].
    cbn [all_chars]. rewrite billNoChar_class, Hc. reflexivity.
Qed.

Lemma invoiceToken_lang t :
  invoiceToken t ->
  exists g, lang true (cat [alt (lit "Invoice") [lit "Bill"]; star spaceHashColon;
                            Capture (at_least 4 billChar)]) t (Some g).
Proof.
  intros (l & gap & run & -> & Hl & Hg & Hr & Len). exists run. cbn [cat alt].
  exists l, (gap ++ run), None, (Some run).
  split; [reflexivity|]. split; [|split; [|reflexivity]].
  - destruct Hl as [Hl|Hl]; [left|right]; apply lit_lang; auto.
  - exists gap, run, None, (Some run).
    split; [reflexivity|]. split; [|split; [|reflexivity]].
    + apply run_lang; [|lia|discriminate].
      rewrite (all_chars_equal _ _ gap labelGap_class). exact Hg.
    + exists None. split; [|reflexivity]. apply run_lang; [|exact Len|discriminate].
      rewrite (all_chars_equal _ _ run billNoChar_class). exact Hr.
Qed.

Lemma lang_numberToken s c :
  lang true (cat [lit "No"; star dotSpaceHashColon; Capture (plus billChar)]) s c ->
  exists t, occurs_in t s /\ numberToken t.
Proof.
  cbn [cat]. intros (l & r1 & ? & ? & -> & Hl & (gap & run & ? & ? & -> & Hg & (c' & Hr & _) & _) & _).
  apply lit_lang in Hl. destruct Hl as [_ Hl].
  apply lang_run in Hg, Hr. destruct Hg as (_ & Hg & _). destruct Hr as (_ & Hr & _ & Len).
  specialize (Len ltac:(discriminate)).
  destruct run as [|ch run]; [simpl in Len; lia|]. cbn [all_chars] in Hr.
  apply andb_true_iff in Hr. destruct Hr as [Hch _].
  exists (l ++ gap ++ String ch ""). split.
  - exists "", run. rewrite append_nil_l, !append_assoc, append_cons, append_nil_l.
    reflexivity.
  - exists l, gap, ch. split; [reflexivity|]. split; [exact Hl|].
    rewrite <- (all_chars_equal _ _ gap numberGap_class), <- billNoChar_class. auto.
Qed.

Lemma billNo_token p m0 c :
  In p billNoPatterns -> lang (ignoreCase p) (body p) m0 c ->
  exists t, occurs_in t m0 /\ (numberToken t \/ invoiceToken t).
Proof.
  unfold billNoPatterns. simpl. intros [<-|[<-|[<-|[]]]]; cbn [body ignoreCase]; intros HL.
  - cbn [cat] in HL.
    destruct HL as (w & r1 & ? & ? & -> & _ & (g1 & r2 & ? & ? & -> & _ & HL & _) & _).
    destruct (lang_numberToken _ _ HL) as (t & Ho & Ht).
    exists t. split; [|left; exact Ht]. apply occurs_in_app_r, occurs_in_app_r, Ho.
  - cbn [cat alt] in HL.
    destruct HL as (w & r1 & ? & ? & -> & Hw & (gap & run & ? & ? & -> & Hg & (c' & Hr & _) & _) & _).
    apply lang_run in Hg, Hr. destruct Hg as (_ & Hg & _). destruct Hr as (_ & Hr & _ & Len).
    specialize (Len ltac:(discriminate)).
    exists (w ++ gap ++ run). split; [apply occurs_in_refl|]. right.
    exists w, gap, run. split; [reflexivity|]. split; [|split; [|split]].
    + destruct Hw as [Hw|Hw];
        [apply (lit_lang "Invoice") in Hw|apply (lit_lang "Bill") in Hw];
        destruct Hw as [_ Hw]; [left|right]; exact Hw.
    + rewrite <- (all_chars_equal _ _ gap labelGap_class). exact Hg.
    + rewrite <- (all_chars_equal _ _ run billNoChar_class). exact Hr.
    + exact Len.
  - destruct (lang_numberToken _ _ HL) as (t & Ho & Ht). eauto.
Qed.

(** X29.  A bill number is found exactly when the text holds the letters
    [no], in either case, with a letter, a digit or a hyphen after any run
    of points, white space, [#] and [:], or the word [invoice] or [bill]
    with four such characters after any run of white space, [#] and [:].
    So a word like [Notes] yields a bill number. *)
Theorem X29_billNo_found (text : string) :
  billNo (extractBillData text) <> ""
  <-> exists t, occurs_in t text /\ (numberToken t \/ invoiceToken t).
Proof.
  unfold extractBillData. cbn [billNo]. unfold extractBillNo. split.
  - destruct (firstCapture billNoPatterns text) as [c|] eqn:E; [intros _|congruence].
    destruct (firstCapture_some _ _ _ E) as (p & Hp & Hc). unfold captured in Hc.
    destruct (exec p text) as [[m0 c0]|] eqn:X; [|discriminate Hc].
    apply exec_sound in X. destruct X as (pre & post & -> & HL).
    destruct (billNo_token p m0 c0 Hp HL) as (t & Ho & Ht).
    exists t. split; [|exact Ht]. apply occurs_in_app_r, occurs_in_app_l, Ho.
  - intros (t & Ho & Ht).
    assert (C : exists p, In p billNoPatterns /\ captured p text <> None).
    { destruct Ht as [Ht|Ht].
      - destruct (numberToken_lang t Ht) as (g & HL). eexists. split.
        + right. right. left. reflexivity.
        + apply (captured_complete _ text t (Some g));
            [right; simpl; auto|reflexivity|exact HL|exact Ho].
      - destruct (invoiceToken_lang t Ht) as (g & HL). eexists. split.
        + right. left. reflexivity.
        + apply (captured_complete _ text t (Some g));
            [right; simpl; auto|reflexivity|exact HL|exact Ho]. }
    destruct C as (p & Hp & Hc). pose proof (firstCapture_complete _ p text Hp Hc) as F.
    destruct (firstCapture billNoPatterns text) as [c|] eqn:E; [|contradiction].
    destruct (firstCapture_some _ _ _ E) as (q & Hq & Hcq).
    destruct (billNo_capture q text c Hq Hcq) as (Hne & Ha & _).
    rewrite (trim_nonspace c (all_chars_impl _ _ c billNoChar_nonspace Ha)). exact Hne.
Qed.

Example notes_as_bill_number : billNo (extractBillData "Notes: paid in cash") = "tes".
Proof. vm_compute. reflexivity. Qed.

End TokenFacts.
